(* ===== verification/_CoqProject ===== *)
-Q . S2P
Prelude.v
StarkLib.v
Primality.v
GroupTac.v
StarkModel.v
Types.v
Scalar.v
Curve.v
Hash.v
Poe.v
Poe2.v
Bit.v
Range.v
ElGamal.v
AuditProver.v
SdkCrypto.v
Operations.v
Transfer.v
Serialization.v
TxHash.v
Text.v
Amount.v
Fee.v
Domain.v
Primitives.v
Ssrf.v
Derivation.v
StarkSigning.v
NostrSigning.v
Nip44.v
Qsb.v
AccountClass.v
Inspect.v
Discovery.v
Strk20.v
Requests.v
MentalPoker.v
PokerProtocol.v
PokerDeck.v
Blackjack.v
Provider.v
GatewayErrors.v
GatewayClasses.v
Clock.v
SnapshotCache.v
OperationStore.v
Gateway.v
GatewayAccounts.v
GatewaySigning.v
Wait.v
StarknetBackend.v
Multisig.v
MultisigContract.v
Coordinator.v
Events.v
Runtime.v
NostrEnvelope.v
Keystore.v
LineReader.v
Oracle.v
