(* ===== verification/Prelude.v ===== *)
(** * A verification of krusty-kms

    krusty-kms is a Rust wallet stack for Starknet.  This library models its
    confidential-token core (the Tongo protocol: Stark-curve cryptography, zero
    knowledge proofs, and the operations built from them), its key management
    (derivation, transaction hashes, account classes, discovery, signing,
    encryption at rest), its messaging (encrypted Nostr envelopes, multisig
    coordination), the runtime that serves them (the gateway's account, signing
    and snapshot flows over its clock, cache and operation tracking, and the
    stdio oracle in front of it) and its experimental card games (mental poker
    and blackjack), and proves what makes each part correct.

    ** The program's parts and the files that model them

    - crates/crypto: curve.rs ([Curve]), scalar.rs ([Scalar]), hash.rs ([Hash]),
      poe.rs ([Poe]), poe2.rs ([Poe2]), bit.rs ([Bit]), range.rs ([Range]),
      elgamal.rs ([ElGamal]), audit.rs ([AuditProver]).
    - crates/common: types.rs and error.rs ([Types]), serialization.rs
      ([Serialization]), amount.rs and the conversions of utils.rs ([Amount]),
      fee.rs ([Fee]), chain.rs and network.rs ([StarknetBackend]).
    - crates/sdk: crypto.rs and account.rs ([SdkCrypto]); operations/fund.rs,
      rollover.rs, ragequit.rs, withdraw.rs and shared.rs ([Operations]);
      operations/transfer.rs and transfer_state.rs ([Transfer]).
    - crates/kms: tx_hash.rs and account.rs ([TxHash]); derivation.rs,
      mnemonic.rs and zeroizing_hmac.rs ([Derivation]); stark_signing.rs
      ([StarkSigning]); account_class.rs and its presets, registry and
      constructor shapes ([AccountClass]); argent_decode.rs and inspect.rs
      ([Inspect]); discovery/ ([Discovery]); nostr_signing.rs ([NostrSigning]),
      nostr_nip44.rs ([Nip44]), nostr_application_data.rs ([NostrEnvelope]);
      strk20.rs ([Strk20]); encryption.rs and keystore.rs ([Keystore]);
      multisig.rs ([Multisig]); qsb_hors.rs with its key and transaction
      modules ([Qsb]).
    - crates/client/src/multisig: codec.rs and types.rs ([Multisig]), contract.rs
      and actions.rs ([MultisigContract]), in_memory.rs, http.rs and nats.rs
      ([Coordinator]), http/ssrf.rs ([Ssrf]).
    - crates/client/src/events.rs and events/pagination.rs ([Events]).
    - crates/domain: the snapshot, policy, operation and error types
      ([Domain]), the parsing of identifiers and secret references
      ([Primitives]), account and sign requests ([Requests]), the oracle
      protocol's types ([Oracle]).
    - crates/gateway: clock.rs ([Clock]), snapshot_cache.rs ([SnapshotCache]),
      operations.rs and types.rs ([OperationStore]), gateway.rs and snapshot.rs
      ([Gateway]), errors.rs ([GatewayErrors]), account_class.rs
      ([GatewayClasses]), accounts.rs ([GatewayAccounts]), signing.rs
      ([GatewaySigning]); [Runtime] holds the states all of them reach together.
      Its default backend: backend/rpc.rs with wallet-api's provider_error.rs
      ([Provider]), backend/wait.rs ([Wait]), backend/deploy.rs and starknet.rs
      ([StarknetBackend]).
    - crates/oracle: line_reader.rs ([LineReader]), stdio.rs and handler.rs
      ([Oracle]).
    - crates/experimental/gaming-experimental/mental-poker: types.rs, utils.rs,
      error.rs and zkp.rs ([MentalPoker]), protocol.rs and shuffle.rs
      ([PokerProtocol]), deck.rs ([PokerDeck]), blackjack.rs ([Blackjack]).
    - Shared: this file (outcomes, machine integers, bytes, tactics), [Text]
      (UTF-8, white space and decimal text), [StarkLib] (the third-party
      boundary), [Primality] (the curve order and the field's modulus are prime, by
      certificates),
      [GroupTac] (a reflective tactic for equations between points),
      [StarkModel] (a concrete instance of the boundary, for the witnesses).

    The provers and verifiers call the curve, the scalars and the hashes; the
    SDK operations compose them into the proof a contract checks; serialization
    lays that proof out as calldata.  Discovery derives keys from a mnemonic and
    computes the address each known class would give them; inspection reads a
    deployment and says whether discovery can find it.  The gateway handlers track
    every request in the operation store, read the clock, ask the secret resolver
    for keys, and answer from the cache or the backend.  The oracle reads lines,
    decodes requests and calls the gateway through the interface
    [OracleHandler]; the server is proved against that interface's laws, which
    the gateway's theorems discharge ([gateway_handler_laws]).  Multisig signers
    exchange proposals through a coordinator they do not trust: its answers are
    checked on arrival, a signed message is authenticated on chain, and a proposal
    is checked again before a wallet confirms it.

    ** How code becomes definitions

    A Rust [Result] is an [outcome]: [Ok], [Err] or [Panic] (a failed [expect],
    an index out of range, an arithmetic overflow), so that "never panics" is a
    statement.  [?] is monadic bind, an early return is [reject_if].  Gateway
    handlers are state transformers over the [Gateway] record.  Integers are [Z]
    with the width written out where it matters (checked and saturating
    operations, shifts); lengths are [nat].  Strings are [string] where they are
    only compared and UTF-8 bytes where they are parsed.  Random draws are
    arguments ([BitCoins], [AuditDraws], [TransferCoins], ...).

    Code that is not part of the repository is an interface: [StarkTypes] and
    [StarkLaws] (starknet-types-core, crypto-bigint, subtle: a prime field, a
    commutative group of prime order, Montgomery arithmetic), [SdkPrims] (the
    AEAD cipher and key derivation), [HashFns], [Secp256k1] and [Bip39] (SHA-2,
    k256, bip39), [StarkCrypto] (starknet-crypto), [FeltExtras] and [FeltFromHex]
    (more of starknet-types-core), [Schnorr] (k256's BIP-340), [HexCodec] (hex),
    [OracleJson] (serde_json), [GatewayBackend] and [DeployBackend] (the JSON-RPC
    node), [Provider] and [ErrorText] (starknet-rs), [Timed] (tokio's time),
    [SecretResolver] (the host's key store), [Entropy], [AsyncWrite], [Ecdh],
    [ChaCha], [Base64] and [NostrJson] (the primitives and the JSON of Nostr
    messages), [StarkEcdsa], [MultisigAbi], [WalletExecutor], [EnvelopeJson],
    [HttpClient], [NatsClient] and [Broadcast] (what multisig coordination calls),
    [Scrypt], [Aead], [AesCtr], [Keccak] and [KeystoreJson] (keystores), [Ripemd]
    (RIPEMD-160), [EventProvider] and [EventAbi] (the node's events), [FeltText]
    (printing and parsing field elements).  Nothing is
    assumed of the hash functions but their output sizes; where a theorem needs
    the absence of collisions it says so of the finitely many inputs at hand
    ([coll_free]).  Each has a concrete instance, so that every hypothesis is met
    somewhere: [StarkModel] is the group of integers modulo the curve order under
    the curve's names, so the one fact that needs the curve's equation, that a
    public key is the coordinate of a point, is a hypothesis of [discovery_sound]
    about the keys of the scan, met by a phrase whose keys are such coordinates.

    ** What is proved

    - Sigma protocols: completeness (the honest prover is accepted, with the
      exact exception: the verifiers refuse a zero response as the point at
      infinity), and special soundness with an explicit extractor, for the
      proofs of exponentiation, bits, ranges, encryptions and audits.  A range
      proof's opening lies in [0, 2^n).
    - Operations: a returned proof satisfies the equations the contract checks, its
      range proofs verify unless a response is zero (at width zero the verifier
      panics), it moves exactly the amount, keeps balances non-negative, and carries audits
      that the auditor can check and decrypt; the guards and error branches.
    - Round trips: decryption, audit hints, calldata, decimal amounts, field
      elements as text.  Raw keys are refused as secret references.
    - Keys: every derived key is in range, paths do not alias, grinding and the
      signing loop end; HMAC and HKDF are the RFCs'.
    - Hashes: a transaction hash determines the transaction, an address its
      deployment.
    - Accounts: inspection says "from a seed" exactly for the deployments a seed
      reproduces, and discovery finds those and nothing else.
    - Runtime: the clock never goes back nor freezes; the cache refines a bounded
      first-in first-out list and its eviction loop ends; the operation store
      keeps its bound, its newest entry, and its eviction order.  From every
      state the handlers reach, each request ends without a panic and leaves a
      status that agrees with its reply, or, when there is no entropy for an
      operation id, is refused with nothing touched: a snapshot is what the backend
      answers now or a cache entry within the freshness bounds; derivation succeeds exactly on the derivable requests
      and its descriptor determines the address; only a derivable OpenZeppelin
      account reaches the chain, by one call; a signature is of the requested hash, under the
      key of the request's own domain, on the backend's chain.  Class hashes off
      the allowlist are refused, implementation classes whatever the opt-in.
    - Backend: a deployment is sent at most once, only for an undeployed account
      of the backend's chain whose key and descriptor agree, with its tip pinned
      and, under a ceiling, bounds within it; the acceptance wait ends and reports
      only what it saw; the ceiling bounds the worst fee and an admitted estimate is
      scaled by one and a half; provider failures are
      described without the endpoint.
    - Messaging: NIP-44 payloads and gift wraps open to what was sent (a wrap is
      always within the opener's size), and what opens is vouched for by its sender.
    - Keystores: a keystore and an encrypted key open under their password; an
      import never panics, asks for no more than bounded work, and opens a Web3
      document exactly when its MAC is right.
    - Multisig: a confirmation signs the id of the proposal's own calls; a message
      is bound to its hash and authenticated at one block; the coordinators accept
      only well-formed envelopes of the topic asked for, what they publish can be
      received, and the one in memory refines a log; the HTTP one contacts no
      reserved address, by an exact reference of what is blocked.
    - Events: a query ends within its page, event and byte budgets and returns the
      node's pages in order; a transfer event gives back what the SDK wrote.
    - Vault secrets: the transaction parser accepts exactly the serialisations of
      valid transactions; a revealed preimage opens the commitment at its index.
    - Oracle: line reading does not depend on how the input is buffered; serving
      ends, answers every line that is not blank once, in order, under its own
      id; the confirm gate fails closed.
    - Mental poker: a card masked and remasked by every player is revealed by
      their tokens as the card that was dealt; an accepted shuffle is a
      permutation of remasked cards; the Chaum-Pedersen proofs are complete and
      sound; a blackjack hand has the value the rules give it.
    - Behaviours worth knowing: the panic of the range verifier at width zero,
      the signed fraction that amounts accept, the exact age a cache caller can
      learn, the ragequit of an empty account, the length word that overflows in a
      list of signers, the NAT64 prefix lengths the address filter does not tell
      apart, the permutation that a shuffle proof reveals, the ace that overflows
      the value of an over-long blackjack hand.

    ** Bounds and fuel

    The discrete-logarithm search is bounded by its argument.  The eviction loop
    of the cache is given one step more than its queue is long, which
    [store_snapshot_refines] shows to be enough.  Printing a [u128] is given 39
    digits.  The signing loop takes fuel; [sign_stark_hash_correct] shows that one
    step more than the retries is enough, and the signing flow assumes that for a
    valid key one of the first [fuel] nonces is accepted ([signing_ends],
    [signs_within]).  The
    acceptance wait is given 3601 polls, one more than the longest admitted wait
    has shortest intervals.  An event query is given 1001 pages, one more than its
    budget.  The transaction parser's loops are given one step more than the bytes
    to read.  The serving loop is given more steps than the input
    has lines.  The operation store's theorems assume that fewer than [2^64 - 1]
    updates have happened, after which the source's revision counter saturates.

    ** Not modelled

    Handlers run one at a time: the interleaving of concurrent requests at their
    [await] points is not modelled, nor is time passing inside a handler other
    than by reading the clock.  Secret zeroisation and timing are not
    observable here.  Left out: typed-data hashing (a layer over the type graph and
    encodings of starknet-rust-core), the rest of the RPC client, the wallet API
    and controller (network I/O), the oracle's failing writes (its writer is the
    bytes written), the texts of some errors (a revert reason, a lifted error), the Bitcoin and Ethereum signers (thin layers
    over third-party libraries), the streams of coordinator subscriptions, the C
    and WebAssembly bindings, the other experimental games, and of mental poker
    the batches of Schnorr proofs and the parallel iterators.

    This file holds what the others share. *)

From stdpp Require Import base option list numbers strings.
From Stdlib Require Import ZArith Lia.

#[global] Open Scope Z_scope.

(** ** Outcomes

    A Rust function that returns [Result<T, E>] either returns [Ok], returns
    [Err], or panics (a failed [expect], an index out of range, an arithmetic
    overflow under [overflow-checks = true]).  The three are kept apart so that
    "never panics" is a statement one can prove. *)
Inductive outcome (E A : Type) : Type :=
| Ok (a : A)
| Err (e : E)
| Panic.
Arguments Ok {E A} a.
Arguments Err {E A} e.
Arguments Panic {E A}.

#[export] Instance outcome_ret E : MRet (outcome E) := fun A a => Ok a.
#[export] Instance outcome_bind E : MBind (outcome E) := fun A B f m =>
  match m with Ok a => f a | Err e => Err e | Panic => Panic end.
#[export] Instance outcome_fmap E : FMap (outcome E) := fun A B f m =>
  match m with Ok a => Ok (f a) | Err e => Err e | Panic => Panic end.

(** [opt.ok_or(e)] and [opt.expect(_)]. *)
Definition ok_or {E A} (o : option A) (e : E) : outcome E A :=
  match o with Some a => Ok a | None => Err e end.
Definition expect {E A} (o : option A) : outcome E A :=
  match o with Some a => Ok a | None => Panic end.
(** [r.map_err(f)]. *)
Definition map_err {E F A} (f : E -> F) (m : outcome E A) : outcome F A :=
  match m with Ok a => Ok a | Err e => Err (f e) | Panic => Panic end.
(** An early return: [if b { return Err(e) }]. *)
Definition reject_if {E} (b : bool) (e : E) : outcome E unit :=
  if b then Err e else Ok tt.

(** [r.ok()]. *)
Definition to_option {E A} (m : outcome E A) : option A :=
  match m with Ok a => Some a | _ => None end.

Definition is_ok {E A} (m : outcome E A) : bool :=
  match m with Ok _ => true | _ => false end.
Definition is_panic {E A} (m : outcome E A) : bool :=
  match m with Panic => true | _ => false end.

(** [collect::<Result<Vec<_>, _>>()]: the first failure wins. *)
Fixpoint collect {E A} (l : list (outcome E A)) : outcome E (list A) :=
  match l with
  | [] => Ok []
  | m :: l => a ← m; r ← collect l; Ok (a :: r)
  end.

(** A fallible [for] loop that threads an accumulator. *)
Fixpoint foldM {E A B} (f : B -> A -> outcome E B) (b : B) (l : list A) : outcome E B :=
  match l with
  | [] => Ok b
  | a :: l => b' ← f b a; foldM f b' l
  end.

(** A loop whose steps go on or stop with [e] stops with [e] when one of them does. *)
Lemma foldM_stops {E A B} (f : B -> A -> outcome E B) (e : E) l a :
  a ∈ l -> (forall b, f b a = Err e) ->
  (forall b a', a' ∈ l -> (exists b', f b a' = Ok b') \/ f b a' = Err e) ->
  forall b, foldM f b l = Err e.
Proof.
  induction l as [|x l IH]; intros Hin Ha Hl b; [by apply elem_of_nil in Hin|]. cbn [foldM].
  destruct (Hl b x ltac:(by left)) as [[b' Hb]|Hb]; rewrite Hb; [|done]. cbn [mbind outcome_bind].
  apply elem_of_cons in Hin as [->|Hin]; [by rewrite Ha in Hb|].
  apply IH; [done|done|]. intros b'' a' Ha'. apply Hl. by right.
Qed.

Lemma bind_Ok {E A B} (m : outcome E A) (f : A -> outcome E B) b :
  (m ≫= f) = Ok b <-> exists a, m = Ok a /\ f a = Ok b.
Proof.
  destruct m as [a|e|]; cbn; (split; [intros H | intros (x & Hx & H)]); try done.
  - by exists a.
  - by injection Hx as <-.
Qed.

Section outcome_lemmas.
Context {E A B : Type}.

Lemma ok_or_Ok (o : option A) (e : E) a : ok_or o e = Ok a <-> o = Some a.
Proof. destruct o; simpl; naive_solver. Qed.

Lemma expect_Ok (o : option A) a : @expect E A o = Ok a <-> o = Some a.
Proof. destruct o; simpl; naive_solver. Qed.

Lemma reject_if_Ok b (e : E) u : reject_if b e = Ok u <-> b = false.
Proof. destruct b, u; simpl; naive_solver. Qed.

Lemma collect_Ok (l : list (outcome E A)) r :
  collect l = Ok r <-> Forall2 (fun m a => m = Ok a) l r.
Proof.
  revert r; induction l as [|m l IH]; intros r; cbn [collect].
  - split; [intros [= <-]; constructor | inversion 1; done].
  - rewrite bind_Ok. split.
    + intros (a & -> & H). destruct (collect l) as [r'| |]; try done.
      cbn in H. injection H as <-. constructor; [done|]. by apply IH.
    + intros H. inversion H as [|? a ? r' Ha Hr]; subst. exists a. split; [done|].
      apply IH in Hr. rewrite Hr. done.
Qed.

Lemma foldM_app (f : B -> A -> outcome E B) b l1 l2 :
  foldM f b (l1 ++ l2) = (b' ← foldM f b l1; foldM f b' l2).
Proof. revert b; induction l1 as [|a l1 IH]; intros b; cbn; [done|]. destruct (f b a); cbn; auto. Qed.
End outcome_lemmas.

#[export] Instance Ok_inj E A : Inj eq eq (@Ok E A).
Proof. by intros a b [= ->]. Qed.

Lemma ok_default {E A} (d : A) (m : outcome E A) : is_ok m = true -> m = Ok (default d (to_option m)).
Proof. by destruct m. Qed.

Lemma is_ok_exists {E A} (m : outcome E A) : is_ok m = true -> exists a, m = Ok a.
Proof. destruct m; [eauto|done|done]. Qed.

Lemma collect_total {E A B} (f : A -> outcome E B) l :
  (forall a, a ∈ l -> exists b, f a = Ok b) -> exists r, collect (map f l) = Ok r.
Proof.
  induction l as [|a l IH]; intros Hf; cbn [map collect]; [eauto|].
  destruct (Hf a) as [b Hb]; [left|]. destruct IH as [r Hr]; [intros; apply Hf; by right|].
  rewrite Hb, Hr. cbn. eauto.
Qed.

Lemma collect_map_lookup {E A B} (f : A -> outcome E B) l r i a :
  collect (map f l) = Ok r -> l !! i = Some a -> exists b, r !! i = Some b /\ f a = Ok b.
Proof.
  intros Hc Ha. apply collect_Ok in Hc.
  assert (map f l !! i = Some (f a)) as Hm by by rewrite list_lookup_fmap, Ha.
  destruct (Forall2_lookup_l _ _ _ _ _ Hc Hm) as (b & Hb & Hfb). eauto.
Qed.

Lemma collect_length {E A} (l : list (outcome E A)) r : collect l = Ok r -> length r = length l.
Proof. intros Hc%collect_Ok. symmetry. by eapply Forall2_length. Qed.

(** [iter().enumerate()] of a list with one more element. *)
Lemma enumerate_snoc {A} (l : list A) x :
  zip (seq 0 (length (l ++ [x]))) (l ++ [x]) = zip (seq 0 (length l)) l ++ [(length l, x)].
Proof.
  rewrite length_app. cbn [length]. rewrite Nat.add_1_r, seq_S.
  rewrite zip_with_app by by rewrite length_seq. done.
Qed.

#[export] Instance outcome_eq_dec E A `{EqDecision E, EqDecision A} : EqDecision (outcome E A).
Proof. solve_decision. Defined.

(** ** Tactics

    [inv_ok] opens every monadic step of a hypothesis [_ = Ok _]. *)
Ltac inv_ok_step :=
  match goal with
  | H : Ok _ = Ok _ |- _ => injection H as H
  | H : Err _ = Ok _ |- _ => discriminate H
  | H : Panic = Ok _ |- _ => discriminate H
  | H : mret _ = Ok _ |- _ => cbv [mret outcome_ret] in H
  | H : (_ ≫= _) = Ok _ |- _ =>
      let a := fresh "a" in let H1 := fresh "H" in
      apply bind_Ok in H; destruct H as (a & H1 & H); cbn beta in H
  | H : ok_or _ _ = Ok _ |- _ => apply ok_or_Ok in H
  | H : expect _ = Ok _ |- _ => apply expect_Ok in H
  | H : reject_if _ _ = Ok _ |- _ => apply reject_if_Ok in H
  | H : (_, _) = (_, _) |- _ => injection H as H
  end.
Ltac inv_ok := repeat inv_ok_step; subst.

(** [run H] executes one monadic step of the goal whose value [H] gives. *)
Tactic Notation "run" constr(H) := rewrite H; cbn [mbind outcome_bind mret outcome_ret].

(** Case analysis on the innermost scrutinee of the goal. *)
Ltac case_goal :=
  match goal with
  | |- context [match ?x with _ => _ end] =>
      lazymatch x with context [match _ with _ => _ end] => fail | _ => destruct x eqn:? end
  end.

(** ** Bytes and big-endian integers *)
Definition byte_ok (b : Z) : Prop := 0 <= b < 256.

Definition be_value (bs : list Z) : Z := fold_left (fun acc b => 256 * acc + b) bs 0.

(** The [n] big-endian bytes of an integer ([to_be_bytes]), before [rest]. *)
Fixpoint be_bytes_onto (n : nat) (z : Z) (rest : list Z) : list Z :=
  match n with
  | O => rest
  | S n => be_bytes_onto n (Z.shiftr z 8) (Z.land z 255 :: rest)
  end.
Definition be_bytes (n : nat) (z : Z) : list Z := be_bytes_onto n z [].

Lemma be_bytes_onto_app n z rest : be_bytes_onto n z rest = be_bytes n z ++ rest.
Proof.
  unfold be_bytes. revert z rest; induction n as [|n IH]; intros z rest; cbn [be_bytes_onto]; [done|].
  rewrite IH, (IH _ [_]), <- (assoc_L (++)). done.
Qed.

Lemma be_bytes_S n z : be_bytes (S n) z = be_bytes n (z / 256) ++ [z mod 256].
Proof.
  unfold be_bytes at 1. cbn [be_bytes_onto]. rewrite be_bytes_onto_app.
  rewrite Z.shiftr_div_pow2 by lia. change 255 with (Z.ones 8). by rewrite Z.land_ones by lia.
Qed.

Section bytes_lemmas.
Lemma fold_be_acc bs acc :
  fold_left (fun a b => 256 * a + b) bs acc
  = acc * 256 ^ Z.of_nat (length bs) + be_value bs.
Proof.
  unfold be_value. revert acc; induction bs as [|b bs IH]; intros acc; cbn [fold_left length].
  - rewrite Z.pow_0_r. lia.
  - rewrite IH, (IH (256 * 0 + b)), Nat2Z.inj_succ, Z.pow_succ_r by lia. ring.
Qed.

Lemma be_value_app l1 l2 :
  be_value (l1 ++ l2) = be_value l1 * 256 ^ Z.of_nat (length l2) + be_value l2.
Proof. unfold be_value at 1. rewrite fold_left_app. apply fold_be_acc. Qed.

Lemma be_value_cons b bs :
  be_value (b :: bs) = b * 256 ^ Z.of_nat (length bs) + be_value bs.
Proof. change (b :: bs) with ([b] ++ bs). by rewrite be_value_app. Qed.

Lemma be_value_bound bs :
  Forall byte_ok bs -> 0 <= be_value bs < 256 ^ Z.of_nat (length bs).
Proof.
  induction 1 as [|b bs Hb _ IH]; [done|].
  rewrite be_value_cons. cbn [length]. rewrite Nat2Z.inj_succ, Z.pow_succ_r by lia.
  unfold byte_ok in Hb. nia.
Qed.

Lemma length_be_bytes n z : length (be_bytes n z) = n.
Proof. revert z; induction n; intros z; [done|]. rewrite be_bytes_S, length_app, IHn. cbn. lia. Qed.

Lemma be_bytes_ok n z : Forall byte_ok (be_bytes n z).
Proof.
  revert z; induction n; intros z; [constructor|]. rewrite be_bytes_S.
  apply Forall_app; split; [done|]. constructor; [|constructor].
  apply Z.mod_pos_bound; lia.
Qed.

Lemma be_value_be_bytes n z : be_value (be_bytes n z) = z mod 256 ^ Z.of_nat n.
Proof.
  revert z; induction n; intros z.
  - rewrite Z.pow_0_r, Z.mod_1_r. done.
  - rewrite be_bytes_S, be_value_app, IHn. cbn [length]. change (Z.of_nat 1) with 1.
    rewrite Z.pow_1_r, Nat2Z.inj_succ, Z.pow_succ_r by lia.
    rewrite Z.rem_mul_r by (apply Z.pow_nonzero || apply Z.pow_pos_nonneg || idtac; lia).
    unfold be_value. cbn. lia.
Qed.

Lemma be_bytes_be_value bs :
  Forall byte_ok bs -> be_bytes (length bs) (be_value bs) = bs.
Proof.
  induction bs as [|b bs IH] using rev_ind; [done|].
  intros [Hbs Hb]%Forall_app. rewrite length_app. cbn [length].
  replace (length bs + 1)%nat with (S (length bs)) by lia.
  rewrite be_bytes_S, be_value_app. cbn [length]. change (256 ^ Z.of_nat 1) with 256.
  assert (0 <= b < 256) as Hb' by (inversion Hb; done).
  change (be_value [b]) with b.
  rewrite Z.div_add_l, Z.div_small, Z.add_0_r, IH by (done || lia).
  f_equal. rewrite Z.add_comm, Z_mod_plus_full, Z.mod_small by lia. done.
Qed.
End bytes_lemmas.

(** [(b >> i) & 1] is bit [i], and one more bit of a number's low part. *)
Lemma land_shiftr_testbit b i :
  0 <= i -> (Z.land (Z.shiftr b i) 1 =? 1) = Z.testbit b i.
Proof.
  intros Hi. change 1 with (Z.ones 1) at 1. rewrite Z.land_ones, Z.shiftr_div_pow2 by lia.
  change (2 ^ 1) with 2. rewrite <- Z.testbit_spec' by lia. by destruct (Z.testbit b i).
Qed.

Lemma mod_pow2_succ b i :
  0 <= i -> b mod 2 ^ (Z.succ i) = b mod 2 ^ i + 2 ^ i * Z.b2z (Z.testbit b i).
Proof.
  intros Hi. rewrite Z.pow_succ_r, Z.mul_comm, Z.rem_mul_r, <- Z.testbit_spec' by lia. done.
Qed.

(** ** Machine widths *)
Definition u8_MAX : Z := 2 ^ 8 - 1.
Definition u64_MAX : Z := 2 ^ 64 - 1.
Definition u128_MAX : Z := 2 ^ 128 - 1.
Definition in_u64 (z : Z) : bool := (0 <=? z) && (z <=? u64_MAX).
Definition in_u128 (z : Z) : bool := (0 <=? z) && (z <=? u128_MAX).

(** [a.checked_add(b)] on [u128]. *)
Definition u128_checked_add (a b : Z) : option Z :=
  if in_u128 (a + b) then Some (a + b) else None.

(** [a.checked_sub(b)] and [a.checked_mul(b)] on [u128]. *)
Definition u128_checked_sub (a b : Z) : option Z :=
  if in_u128 (a - b) then Some (a - b) else None.
Definition u128_checked_mul (a b : Z) : option Z :=
  if in_u128 (a * b) then Some (a * b) else None.

(** [10u128.checked_pow(e)]. *)
Definition u128_ten_pow (e : nat) : option Z :=
  if in_u128 (10 ^ Z.of_nat e) then Some (10 ^ Z.of_nat e) else None.

Lemma in_u128_spec z : in_u128 z = true <-> 0 <= z <= u128_MAX.
Proof. unfold in_u128. rewrite andb_true_iff, !Z.leb_le. lia. Qed.

(** [a.saturating_add(b)] and [a.saturating_sub(b)] on [u64]. *)
Definition u64_saturating_add (a b : Z) : Z := Z.min (a + b) u64_MAX.
Definition u64_saturating_sub (a b : Z) : Z := Z.max (a - b) 0.

(** [1u128 << i]: a shift by 128 or more is an overflow and panics. *)
Definition u128_shl_one {E} (i : nat) : outcome E Z :=
  if (i <? 128)%nat then Ok (Z.shiftl 1 (Z.of_nat i)) else Panic.

Create HintDb krusty discriminated.
#[export] Hint Resolve be_bytes_ok : krusty.

