(* ===== verification/StarkLib.v ===== *)
(** * The third-party boundary of the cryptography crates

    The curve, field, hash and modular-arithmetic code that [krusty-kms-crypto]
    calls lives in [starknet-types-core], [crypto-bigint] and [subtle].  It is a
    parameter here: [StarkTypes] lists the operations the crates call and
    [StarkLaws] the documented behaviour they rely on (a prime field, a
    commutative group whose order is the curve order, projective points up to
    scaling, Montgomery residues).  Nothing is said about the hash functions
    beyond being functions.

    The second half develops the consequence the protocols need: multiplication
    of points by integers modulo the curve order. *)

From stdpp Require Import base option list numbers.
From Stdlib Require Import ZArith Lia Zdiv.
From S2P Require Import Prelude.

(** Prime of the base field, [2^251 + 17 * 2^192 + 1]. *)
Definition felt_prime : Z := 2 ^ 251 + 17 * 2 ^ 192 + 1.

(** [const_monty_params!(CurveOrder, U256, "...")]: order of the generator. *)
Definition CurveOrder : Z :=
  0x0800000000000010ffffffffffffffffb781126dcae7b2321e66a241adc64d2f.

(** ** Operations *)
Class StarkTypes : Type := {
  (* starknet_types_core::felt::Felt *)
  Felt : Type;
  felt_eq_dec :: EqDecision Felt;
  to_bytes_be : Felt -> list Z;
  from_bytes_be : list Z -> Felt;
  felt_of_Z : Z -> Felt;  (* From<u64>, From<u128> and from_hex_unchecked *)
  felt_add : Felt -> Felt -> Felt;
  felt_neg : Felt -> Felt;
  (* starknet_types_core::curve::AffinePoint *)
  Aff : Type;
  aff_eq_dec :: EqDecision Aff;
  aff_new : Felt -> Felt -> option Aff;
  aff_x : Aff -> Felt;
  aff_y : Aff -> Felt;
  (* starknet_types_core::curve::ProjectivePoint *)
  Proj : Type;
  proj_identity : Proj;
  proj_add : Proj -> Proj -> Proj;
  proj_sub : Proj -> Proj -> Proj;
  proj_eqb : Proj -> Proj -> bool;
  proj_to_affine : Proj -> option Aff;
  proj_from_affine : Felt -> Felt -> option Proj;
  proj_new : Felt -> Felt -> Felt -> option Proj;
  proj_x : Proj -> Felt;
  proj_y : Proj -> Felt;
  proj_z : Proj -> Felt;
  (* starknet_types_core::hash *)
  pedersen_hash : Felt -> Felt -> Felt;
  poseidon_hash_array : list Felt -> Felt;
  (* crypto_bigint::modular::ConstMontyForm, by modulus *)
  Monty : Z -> Type;
  monty_new : forall m, Z -> Monty m;
  monty_add : forall m, Monty m -> Monty m -> Monty m;
  monty_sub : forall m, Monty m -> Monty m -> Monty m;
  monty_mul : forall m, Monty m -> Monty m -> Monty m;
  monty_retrieve : forall m, Monty m -> Z;
  (* subtle::ConditionallySelectable for u8 *)
  u8_conditional_select : Z -> Z -> bool -> Z;
}.

(** The integer a field element stands for. *)
Definition felt_val `{StarkTypes} (f : Felt) : Z := be_value (to_bytes_be f).

(** [ProjectivePoint::eq]: the same point, whatever the coordinates' scale. *)
#[export] Instance proj_equiv `{StarkTypes} : Equiv Proj := fun p q => Is_true (proj_eqb p q).

(** Repeated addition, by the binary digits of the (reduced) multiplier: the
    mathematical multiple [k * P]. *)
Definition smul `{StarkTypes} (k : Z) (p : Proj) : Proj :=
  match k mod CurveOrder with
  | Zpos q => Pos.iter_op proj_add q p
  | _ => proj_identity
  end.

(** G and H coordinates of crates/crypto/src/curve.rs. *)
Definition G_X `{StarkTypes} : Felt :=
  felt_of_Z 0x1ef15c18599971b7beced415a40f0c7deacfd9b0d1819e03d723d8bc943cfca.
Definition G_Y `{StarkTypes} : Felt :=
  felt_of_Z 0x5668060aa49730b7be4801df46ec62de53ecd11abe43a32873000c36e8dc1f.
Definition H_X `{StarkTypes} : Felt :=
  felt_of_Z 0x162eb5cc8f50e522225785a604ba6d7e9ab06b647157f77c59a06032610b2d2.
Definition H_Y `{StarkTypes} : Felt :=
  felt_of_Z 0x220a56864c490175202e3e34db0e24d12979fbfacea16a360e8feb1f6749192.

(** ** Documented behaviour *)
Class StarkLaws `{StarkTypes} : Prop := {
  (* a felt is 32 big-endian bytes holding a canonical representative *)
  to_bytes_be_length f : length (to_bytes_be f) = 32%nat;
  to_bytes_be_ok f : Forall byte_ok (to_bytes_be f);
  felt_val_lt f : felt_val f < felt_prime;
  felt_val_inj f g : felt_val f = felt_val g -> f = g;
  from_bytes_be_val bs :
    length bs = 32%nat -> Forall byte_ok bs ->
    felt_val (from_bytes_be bs) = be_value bs mod felt_prime;
  felt_of_Z_val z : 0 <= z -> felt_val (felt_of_Z z) = z mod felt_prime;
  felt_add_val f g : felt_val (felt_add f g) = (felt_val f + felt_val g) mod felt_prime;
  felt_neg_val f : felt_val (felt_neg f) = (- felt_val f) mod felt_prime;
  (* affine points are their coordinates *)
  aff_new_coords x y a : aff_new x y = Some a -> aff_x a = x /\ aff_y a = y;
  aff_ext a b : aff_x a = aff_x b -> aff_y a = aff_y b -> a = b;
  aff_on_curve a : aff_new (aff_x a) (aff_y a) = Some a;
  (* projective points: an equality up to scaling, and the group *)
  proj_equiv_equivalence :: Equivalence (≡@{Proj});
  proj_add_proper :: Proper ((≡) ==> (≡) ==> (≡)) proj_add;
  proj_add_comm p q : proj_add p q ≡ proj_add q p;
  proj_add_assoc p q r : proj_add p (proj_add q r) ≡ proj_add (proj_add p q) r;
  proj_add_id_l p : proj_add proj_identity p ≡ p;
  proj_order p : Pos.iter_op proj_add (Z.to_pos CurveOrder) p ≡ proj_identity;
  proj_sub_spec p q : proj_add (proj_sub p q) q ≡ p;
  (* conversions *)
  to_affine_infinity p : proj_to_affine p = None <-> p ≡ proj_identity;
  to_affine_eq p q : p ≡ q <-> proj_to_affine p = proj_to_affine q;
  from_affine_valid x y a :
    aff_new x y = Some a ->
    exists p, proj_from_affine x y = Some p /\ proj_to_affine p = Some a;
  aff_neg_on_curve a : exists b, aff_new (aff_x a) (felt_neg (aff_y a)) = Some b;
  aff_neg_add a p q :
    proj_from_affine (aff_x a) (aff_y a) = Some p ->
    proj_from_affine (aff_x a) (felt_neg (aff_y a)) = Some q ->
    proj_add p q ≡ proj_identity;
  proj_new_coords p :
    exists q, proj_new (proj_x p) (proj_y p) (proj_z p) = Some q /\ q ≡ p;
  (* the two generators are on the curve, of full order *)
  generator_valid : exists a, aff_new G_X G_Y = Some a;
  generator_h_valid : exists a, aff_new H_X H_Y = Some a;
  generator_order p k :
    proj_from_affine G_X G_Y = Some p -> smul k p ≡ proj_identity -> k mod CurveOrder = 0;
  generator_h_order p k :
    proj_from_affine H_X H_Y = Some p -> smul k p ≡ proj_identity -> k mod CurveOrder = 0;
  (* Montgomery residues compute modulo their modulus *)
  monty_new_val m z : 1 < m -> 0 <= z < 2 ^ 256 -> monty_retrieve m (monty_new m z) = z mod m;
  monty_add_val m a b : 1 < m ->
    monty_retrieve m (monty_add m a b) = (monty_retrieve m a + monty_retrieve m b) mod m;
  monty_sub_val m a b : 1 < m ->
    monty_retrieve m (monty_sub m a b) = (monty_retrieve m a - monty_retrieve m b) mod m;
  monty_mul_val m a b : 1 < m ->
    monty_retrieve m (monty_mul m a b) = (monty_retrieve m a * monty_retrieve m b) mod m;
  u8_conditional_select_spec a b c : u8_conditional_select a b c = if c then b else a;
}.

(** ** Integer multiples of points

    [smul] makes the points a module over the integers modulo the order. *)
Declare Scope stark_scope.
Notation "k • p" := (smul k p) (at level 40) : stark_scope.
Notation "p ⊕ q" := (proj_add p q) (at level 50, left associativity) : stark_scope.
#[global] Open Scope stark_scope.

Lemma CurveOrder_pos : 0 < CurveOrder.
Proof. reflexivity. Qed.
Lemma CurveOrder_lt_prime : CurveOrder < felt_prime.
Proof. reflexivity. Qed.

Section module.
Context `{StarkLaws}.
Implicit Types (p q r : Proj) (k l : Z).

(** Multiples by naturals, the auxiliary notion behind [smul]. *)
Definition smulN (k : N) (p : Proj) : Proj :=
  match k with N0 => proj_identity | Npos q => Pos.iter_op proj_add q p end.

Lemma proj_add_id_r p : p ⊕ proj_identity ≡ p.
Proof. rewrite proj_add_comm. apply proj_add_id_l. Qed.

#[export] Instance iter_op_proper (n : positive) : Proper ((≡) ==> (≡)) (Pos.iter_op proj_add n).
Proof. induction n; intros p p' Hp; cbn; [f_equiv; [done|]; apply IHn; by f_equiv | apply IHn; by f_equiv | done]. Qed.

Lemma iter_op_succ (n : positive) p :
  Pos.iter_op proj_add (Pos.succ n) p ≡ p ⊕ Pos.iter_op proj_add n p.
Proof.
  revert p; induction n as [n IH|n IH|]; intros p; [|done|done].
  change (Pos.iter_op proj_add (Pos.succ n) (p ⊕ p)
          ≡ p ⊕ (p ⊕ Pos.iter_op proj_add n (p ⊕ p))).
  by rewrite IH, proj_add_assoc.
Qed.

Lemma smulN_succ (k : N) p : smulN (N.succ k) p ≡ p ⊕ smulN k p.
Proof. destruct k; cbn; [by rewrite proj_add_id_r | apply iter_op_succ]. Qed.

Lemma smulN_add (k l : N) p : smulN (k + l) p ≡ smulN k p ⊕ smulN l p.
Proof.
  induction k as [|k IH] using N.peano_ind; [by rewrite N.add_0_l, proj_add_id_l|].
  by rewrite N.add_succ_l, !smulN_succ, IH, proj_add_assoc.
Qed.

Lemma smulN_mul_order (k : N) p : smulN (k * Z.to_N CurveOrder) p ≡ proj_identity.
Proof.
  induction k as [|k IH] using N.peano_ind; [done|].
  rewrite N.mul_succ_l, smulN_add, IH, proj_add_id_l. apply proj_order.
Qed.

Lemma smul_smulN k p : k • p = smulN (Z.to_N (k mod CurveOrder)) p.
Proof.
  unfold smul. pose proof (Z.mod_pos_bound k CurveOrder CurveOrder_pos).
  by destruct (k mod CurveOrder).
Qed.

Lemma smulN_mod (k : N) p : smulN k p ≡ Z.of_N k • p.
Proof.
  rewrite smul_smulN.
  assert (k = k / Z.to_N CurveOrder * Z.to_N CurveOrder + k mod Z.to_N CurveOrder)%N as Hk
    by (rewrite N.mul_comm; by apply N.div_mod).
  rewrite Hk at 1. rewrite smulN_add, smulN_mul_order, proj_add_id_l.
  replace (Z.to_N (Z.of_N k mod CurveOrder)) with (k mod Z.to_N CurveOrder)%N; [done|].
  rewrite <- (Z2N.id CurveOrder) at 2 by (pose proof CurveOrder_pos; lia).
  by rewrite <- N2Z.inj_mod, N2Z.id.
Qed.

Lemma smul_eqm k l p : k mod CurveOrder = l mod CurveOrder -> k • p = l • p.
Proof. unfold smul. by intros ->. Qed.

#[export] Instance smul_proper : Proper ((=) ==> (≡) ==> (≡)) smul.
Proof. intros k ? <- p q Hp. unfold smul. destruct (_ mod _); [done| |done]. by f_equiv. Qed.

Lemma smul_add_l k l p : (k + l) • p ≡ k • p ⊕ l • p.
Proof.
  rewrite (smul_eqm (k + l) (k mod CurveOrder + l mod CurveOrder)) by apply Zplus_mod.
  rewrite (smul_smulN k), (smul_smulN l), <- smulN_add, smulN_mod.
  pose proof (Z.mod_pos_bound k CurveOrder CurveOrder_pos).
  pose proof (Z.mod_pos_bound l CurveOrder CurveOrder_pos).
  by rewrite N2Z.inj_add, !Z2N.id by lia.
Qed.

Lemma smul_0_l p : 0 • p ≡ proj_identity.
Proof. done. Qed.
Lemma smul_1_l p : 1 • p ≡ p.
Proof. done. Qed.

Lemma smulN_add_r (k : N) p q : smulN k (p ⊕ q) ≡ smulN k p ⊕ smulN k q.
Proof.
  induction k as [|k IH] using N.peano_ind; [cbn; by rewrite proj_add_id_l|].
  rewrite !smulN_succ, IH, <- !proj_add_assoc. f_equiv.
  by rewrite !proj_add_assoc, (proj_add_comm q).
Qed.

Lemma smul_add_r k p q : k • (p ⊕ q) ≡ k • p ⊕ k • q.
Proof. rewrite !smul_smulN. apply smulN_add_r. Qed.

Lemma smul_id_r k : k • proj_identity ≡ proj_identity.
Proof.
  rewrite smul_smulN. generalize (Z.to_N (k mod CurveOrder)).
  intros j. induction j as [|j IH] using N.peano_ind; [done|].
  by rewrite smulN_succ, IH, proj_add_id_l.
Qed.

Lemma smulN_mul (k : N) l p : smulN k (l • p) ≡ (Z.of_N k * l) • p.
Proof.
  induction k as [|k IH] using N.peano_ind; [done|].
  rewrite smulN_succ, IH, N2Z.inj_succ, Z.mul_succ_l, smul_add_l. apply proj_add_comm.
Qed.

Lemma smul_mul k l p : k • (l • p) ≡ (k * l) • p.
Proof.
  rewrite smul_smulN, smulN_mul.
  pose proof (Z.mod_pos_bound k CurveOrder CurveOrder_pos).
  rewrite Z2N.id by lia.
  by rewrite (smul_eqm (k mod CurveOrder * l) (k * l)) by apply Zmult_mod_idemp_l.
Qed.

Lemma smul_opp_l p : (-1) • p ⊕ p ≡ proj_identity.
Proof. rewrite <- (smul_1_l p) at 2. rewrite <- smul_add_l. done. Qed.

Lemma proj_cancel_r p q r : p ⊕ r ≡ q ⊕ r <-> p ≡ q.
Proof.
  split; [|by intros ->]. intros Heq.
  assert (forall s, s ≡ s ⊕ r ⊕ (-1) • r) as Hs.
  { intros s. by rewrite <- proj_add_assoc, (proj_add_comm r), smul_opp_l, proj_add_id_r. }
  by rewrite (Hs p), (Hs q), Heq.
Qed.

Lemma proj_opp_unique p q : p ⊕ q ≡ proj_identity -> q ≡ (-1) • p.
Proof. intros Hpq. apply (proj_cancel_r _ _ p). by rewrite smul_opp_l, proj_add_comm. Qed.

Lemma proj_sub_smul p q : proj_sub p q ≡ p ⊕ (-1) • q.
Proof.
  apply (proj_cancel_r _ _ q).
  by rewrite proj_sub_spec, <- proj_add_assoc, smul_opp_l, proj_add_id_r.
Qed.

#[export] Instance proj_sub_proper : Proper ((≡) ==> (≡) ==> (≡)) proj_sub.
Proof. intros p p' Hp q q' Hq. by rewrite !proj_sub_smul, Hp, Hq. Qed.
End module.
