(* ===== verification/Primality.v ===== *)
(** * The curve order and the field's prime

    Extraction from two transcripts divides by a difference of challenges, so it
    needs the order to be prime; that zero is no coordinate of the curve needs the
    field's prime to be one.  This file proves Pocklington's criterion and applies
    it along a chain of factors of the predecessors. *)


From Stdlib Require Import ZArith Lia Znumtheory Zdivisibility Zpow_facts.
From Stdlib Require Import Zmod Zwf.
From S2P Require Import StarkLib.

#[local] Open Scope Z_scope.
#[local] Set Warnings "-deprecated-reference-since-Stdlib-9.1".

(** ** Modular powers *)
Fixpoint powmod_pos (a : Z) (e : positive) (m : Z) : Z :=
  match e with
  | xH => a mod m
  | xO e => let h := powmod_pos a e m in (h * h) mod m
  | xI e => let h := powmod_pos a e m in (a * (h * h)) mod m
  end.
Definition powmod (a e m : Z) : Z :=
  match e with Zpos e => powmod_pos a e m | _ => 1 mod m end.

Lemma powmod_pos_spec a e m : powmod_pos a e m = a ^ Zpos e mod m.
Proof.
  induction e as [e IH|e IH|]; cbn [powmod_pos].
  - rewrite IH. replace (Zpos e~1) with (1 + (Zpos e + Zpos e)) by lia.
    rewrite !Z.pow_add_r, Z.pow_1_r by lia.
    rewrite <- Zmult_mod_idemp_r. rewrite <- (Zmult_mod (a ^ _)). now rewrite Zmult_mod_idemp_r.
  - rewrite IH. replace (Zpos e~0) with (Zpos e + Zpos e) by lia.
    rewrite Z.pow_add_r by lia. now rewrite <- Zmult_mod.
  - now rewrite Z.pow_1_r.
Qed.

Lemma powmod_spec a e m : 0 <= e -> powmod a e m = a ^ e mod m.
Proof. intros He. destruct e as [|e|e]; [reflexivity|apply powmod_pos_spec|lia]. Qed.

(** Fermat's little theorem, on the integers. *)
Lemma fermat_Z p b : Z.prime p -> b mod p <> 0 -> b ^ (p - 1) mod p = 1.
Proof.
  intros Hp Hb. pose proof (Z.prime_ge_2 p Hp).
  pose proof (Zmod.fermat_nz (Zmod.of_Z p b)) as Hf. specialize (Hf ltac:(
    intros E%(f_equal Zmod.to_Z); rewrite Zmod.unsigned_of_Z, Zmod.unsigned_0 in E; congruence) Hp).
  apply (f_equal Zmod.to_Z) in Hf.
  rewrite Zmod.unsigned_pow_nonneg_r, Zmod.unsigned_of_Z in Hf by lia.
  rewrite Zmod.unsigned_1_pos in Hf by lia.
  rewrite <- Zpower_mod in Hf by lia. now replace (p - 1) with (Z.pred p) by lia.
Qed.

(** ** Pocklington's criterion *)

(** If [b] has order dividing both a prime [q] and [p - 1], it is 1 or [q] divides [p - 1]. *)
Lemma order_divides p q b :
  Z.prime p -> Z.prime q -> b mod p <> 0 -> b ^ q mod p = 1 -> b mod p <> 1 -> (q | p - 1).
Proof.
  intros Hp Hq Hb0 Hbq Hb1. pose proof (Z.prime_ge_2 p Hp). pose proof (Z.prime_ge_2 q Hq).
  destruct (Zdivide_dec q (p - 1)) as [|Hnd]; [assumption|exfalso].
  assert (rel_prime q (p - 1)) as Hrp by (apply prime_rel_prime; [now apply prime_alt|assumption]).
  destruct (rel_prime_bezout _ _ Hrp) as [u0 v0 Huv].
  set (u := u0 mod (p - 1) + (p - 1)).
  assert (0 <= u0 mod (p - 1) < p - 1) as Hu by (apply Z.mod_pos_bound; lia).
  assert (exists v, 0 <= v /\ u * q = 1 + v * (p - 1)) as (v & Hv & Huq).
  { exists (- v0 - (u0 / (p - 1)) * q + q).
    assert (u0 = (p - 1) * (u0 / (p - 1)) + u0 mod (p - 1)) as Hd by (apply Z.div_mod; lia).
    assert (u * q = 1 + (- v0 - u0 / (p - 1) * q + q) * (p - 1)) as Heq by (unfold u; nia).
    split; [|exact Heq]. unfold u in *. nia. }
  assert (b ^ (u * q) mod p = 1) as H1.
  { rewrite Z.mul_comm, Z.pow_mul_r, Zpower_mod, Hbq, Z.pow_1_l, Z.mod_small by (unfold u; lia).
    reflexivity. }
  rewrite Huq, Z.pow_add_r, Z.pow_1_r, Z.mul_comm, (Z.mul_comm v), Z.pow_mul_r in H1 by nia.
  rewrite <- Zmult_mod_idemp_l, Zpower_mod, fermat_Z, Z.pow_1_l in H1 by (assumption || lia).
  rewrite (Z.mod_small 1 p), Z.mul_1_l in H1 by lia. contradiction.
Qed.

Lemma mod_divide_mod a p n : 0 < p -> (p | n) -> n <> 0 -> (a mod n) mod p = a mod p.
Proof.
  intros Hp [k ->] Hn. rewrite (Z.div_mod a (k * p)) at 2 by assumption.
  rewrite Z.add_comm, <- (Z.mul_assoc k), (Z.mul_comm p), Z.mul_assoc.
  replace (k * (a / (k * p)) * p) with ((k * (a / (k * p))) * p) by ring.
  now rewrite Z_mod_plus_full.
Qed.

(** A prime factor [p] of [n] satisfies [q | p - 1]. *)
Lemma pocklington_factor n q a p :
  1 < n -> Z.prime q -> (q | n - 1) ->
  powmod a (n - 1) n = 1 -> Z.gcd (powmod a ((n - 1) / q) n - 1) n = 1 ->
  Z.prime p -> (p | n) -> (q | p - 1).
Proof.
  intros Hn Hq [k Hk] Hpow Hgcd Hp Hpn. pose proof (Z.prime_ge_2 p Hp). pose proof (Z.prime_ge_2 q Hq).
  assert (0 < k) as Hk0 by nia.
  assert ((n - 1) / q = k) as Hdiv by (rewrite Hk; apply Z.div_mul; lia).
  rewrite Hdiv, powmod_spec in Hgcd by lia. rewrite powmod_spec in Hpow by lia.
  assert (a ^ (n - 1) mod p = 1) as Hpp.
  { rewrite <- (mod_divide_mod _ p n), Hpow by (assumption || lia). apply Z.mod_small. lia. }
  assert ((a ^ k) ^ q mod p = 1) as Hbq by (rewrite <- Z.pow_mul_r, <- Hk by lia; exact Hpp).
  apply (order_divides p q (a ^ k)); try assumption.
  - intros Hz. rewrite Zpower_mod, Hz, Z.pow_0_l, Z.mod_0_l in Hbq by lia. discriminate.
  - intros Ho. rewrite <- (mod_divide_mod _ p n) in Ho by (assumption || lia).
    assert ((p | Z.gcd (a ^ k mod n - 1) n)) as Hd.
    { apply Z.gcd_greatest; [|assumption]. apply Z.mod_divide; [lia|].
      rewrite <- Zminus_mod_idemp_l, Ho. now rewrite Z.sub_diag, Z.mod_0_l by lia. }
    rewrite Hgcd in Hd. apply Z.divide_1_r_nonneg in Hd; lia.
Qed.

(** Every number above 1 has a prime factor, at most its square root unless it is prime. *)
Lemma prime_factor n : 1 < n -> Z.prime n \/ exists p, Z.prime p /\ (p | n) /\ p * p <= n.
Proof.
  revert n. apply (well_founded_ind (Zwf_well_founded 0) (fun n =>
    1 < n -> Z.prime n \/ exists p, Z.prime p /\ (p | n) /\ p * p <= n)).
  intros n IH Hn. destruct (prime_dec n) as [Hp|Hp]; [left; now apply prime_alt|right].
  destruct (not_prime_divide n Hn Hp) as (d & Hd & e & He).
  assert (forall x y, n = x * y -> 1 < x < n -> x <= y -> exists p, Z.prime p /\ (p | n) /\ p * p <= n) as Hsm.
  { intros x y Hxy Hx Hle. destruct (IH x) as [Hpx | (p & Hpp & Hpd & Hps)]; [unfold Zwf; lia|lia| |].
    - exists x. split; [assumption|]. split; [exists y; lia|nia].
    - exists p. split; [assumption|]. split; [transitivity x; [assumption|exists y; lia]|nia]. }
  destruct (Z.le_gt_cases d e); [apply (Hsm d e)|apply (Hsm e d)]; nia.
Qed.

Lemma pocklington1 n q a :
  1 < n -> Z.prime q -> (q | n - 1) -> n < q * q ->
  powmod a (n - 1) n = 1 -> Z.gcd (powmod a ((n - 1) / q) n - 1) n = 1 ->
  Z.prime n.
Proof.
  intros Hn Hq Hd Hs Hpow Hgcd. destruct (prime_factor n Hn) as [|(p & Hp & Hpn & Hpp)]; [assumption|].
  pose proof (pocklington_factor n q a p Hn Hq Hd Hpow Hgcd Hp Hpn) as Hqp.
  pose proof (Z.prime_ge_2 p Hp). pose proof (Z.prime_ge_2 q Hq).
  apply Z.divide_pos_le in Hqp; nia.
Qed.

Lemma pocklington2 n q1 q2 a :
  1 < n -> Z.prime q1 -> Z.prime q2 -> q1 <> q2 -> (q1 | n - 1) -> (q2 | n - 1) ->
  n < (q1 * q2) * (q1 * q2) -> powmod a (n - 1) n = 1 ->
  Z.gcd (powmod a ((n - 1) / q1) n - 1) n = 1 -> Z.gcd (powmod a ((n - 1) / q2) n - 1) n = 1 ->
  Z.prime n.
Proof.
  intros Hn Hq1 Hq2 Hne Hd1 Hd2 Hs Hpow Hg1 Hg2.
  destruct (prime_factor n Hn) as [|(p & Hp & Hpn & Hpp)]; [assumption|].
  pose proof (pocklington_factor n q1 a p Hn Hq1 Hd1 Hpow Hg1 Hp Hpn) as H1.
  pose proof (pocklington_factor n q2 a p Hn Hq2 Hd2 Hpow Hg2 Hp Hpn) as H2.
  pose proof (Z.prime_ge_2 p Hp). pose proof (Z.prime_ge_2 q1 Hq1). pose proof (Z.prime_ge_2 q2 Hq2).
  assert (q1 * q2 | p - 1) as H12.
  { destruct H1 as [k Hk]. rewrite Hk. rewrite Z.mul_comm. apply Z.mul_divide_mono_r.
    apply (Gauss q2 q1 k).
    - rewrite Z.mul_comm, <- Hk. exact H2.
    - apply prime_rel_prime; [now apply prime_alt|]. intros Hdiv.
      apply prime_div_prime in Hdiv; [congruence|now apply prime_alt..]. }
  apply Z.divide_pos_le in H12; nia.
Qed.

(** ** Trial division, for the small factors *)
Fixpoint no_divisor (fuel : nat) (d n : Z) : bool :=
  match fuel with
  | O => false
  | S fuel => if n <? d * d then true else if n mod d =? 0 then false else no_divisor fuel (d + 1) n
  end.

Lemma no_divisor_spec fuel d n :
  0 < d -> no_divisor fuel d n = true -> forall p, d <= p -> p * p <= n -> ~ (p | n).
Proof.
  revert d; induction fuel as [|fuel IH]; intros d Hd Hb p Hdp Hpp Hpn; cbn in Hb; [discriminate|].
  destruct (Z.ltb_spec n (d * d)); [nia|]. destruct (Z.eqb_spec (n mod d) 0) as [|Hm]; [discriminate|].
  destruct (Z.eq_dec p d) as [-> |]; [|apply (IH (d + 1)) with p; [lia|assumption|lia|assumption|assumption]].
  apply Hm. now apply Z.mod_divide; [lia|].
Qed.

Lemma trial_prime n fuel : 1 < n -> no_divisor fuel 2 n = true -> Z.prime n.
Proof.
  intros Hn Hb. destruct (prime_factor n Hn) as [|(p & Hp & Hpn & Hpp)]; [assumption|].
  pose proof (Z.prime_ge_2 p Hp). now destruct (no_divisor_spec fuel 2 n ltac:(lia) Hb p ltac:(lia) Hpp).
Qed.

(** ** The chain of certificates *)
Ltac small_prime := apply (trial_prime _ 60); vm_compute; reflexivity.

Ltac certify :=
  match goal with
  | |- (_ | _) => apply Z.mod_divide; [discriminate|vm_compute; reflexivity]
  | |- _ <> _ => discriminate
  | |- _ => vm_compute; reflexivity
  end.

Lemma prime_565787 : Z.prime 565787.
Proof. apply (pocklington2 _ 47 463 2); [certify|small_prime|small_prime|certify..]. Qed.
Lemma prime_11753132899 : Z.prime 11753132899.
Proof. apply (pocklington2 _ 67 2887 2); [certify|small_prime|small_prime|certify..]. Qed.
Lemma prime_28547348873 : Z.prime 28547348873.
Proof. apply (pocklington1 _ 565787 2); [certify|exact prime_565787|certify..]. Qed.
Lemma prime_12904939923103 : Z.prime 12904939923103.
Proof. apply (pocklington1 _ 11753132899 2); [certify|exact prime_11753132899|certify..]. Qed.
Lemma prime_1803099112058626586861 : Z.prime 1803099112058626586861.
Proof. apply (pocklington1 _ 12904939923103 2); [certify|exact prime_12904939923103|certify..]. Qed.

Definition order_cofactor : Z := 5470365079085120887157193270902448565659295524958143968059153.

Lemma prime_order_cofactor : Z.prime order_cofactor.
Proof.
  apply (pocklington2 _ 1803099112058626586861 28547348873 2);
    [certify|exact prime_1803099112058626586861|exact prime_28547348873|certify..].
Qed.

Lemma CurveOrder_prime : Z.prime CurveOrder.
Proof. apply (pocklington1 _ order_cofactor 2); [certify|exact prime_order_cofactor|certify..]. Qed.

(** Inverses modulo the order, by Fermat's little theorem. *)
Definition order_inverse (d : Z) : Z := powmod d (CurveOrder - 2) CurveOrder.

Lemma order_inverse_spec d : d mod CurveOrder <> 0 -> (order_inverse d * d) mod CurveOrder = 1.
Proof.
  intros Hd. unfold order_inverse. change (CurveOrder - 2) with (Z.pos (Z.to_pos (CurveOrder - 2))).
  cbn [powmod]. rewrite powmod_pos_spec, Z.mul_mod_idemp_l by discriminate.
  change (Z.pos (Z.to_pos (CurveOrder - 2))) with (CurveOrder - 2).
  rewrite Z.mul_comm, <- Z.pow_succ_r by (vm_compute; discriminate).
  exact (fermat_Z CurveOrder d CurveOrder_prime Hd).
Qed.

#[global] Opaque order_inverse.

(** ** The base field

    The predecessor of the field's prime is a multiple of [2 ^ 192], so the criterion is
    applied to that power of two. *)
Lemma odd_prime_sign p : Z.prime p -> p <> 2 -> (-1) mod p <> 1.
Proof.
  intros Hp Hp2 Hm. pose proof (Z.prime_ge_2 p Hp). change (-1) with (- (1)) in Hm.
  rewrite Z.mod_opp_l_nz, (Z.mod_small 1 p) in Hm by (rewrite ?Z.mod_small; lia). lia.
Qed.

Lemma pow2_divides n k a p (j : nat) :
  Z.Odd n -> n - 1 = 2 ^ k * ((n - 1) / 2 ^ k) -> 0 < k -> 1 < n -> a ^ ((n - 1) / 2) mod n = n - 1 ->
  Z.prime p -> (p | n) -> Z.of_nat j <= k -> (2 ^ Z.of_nat j | p - 1).
Proof.
  intros Hodd Hn Hk Hn1 Ha Hp Hpn. pose proof (Z.prime_ge_2 p Hp) as Hp2.
  set (m := (n - 1) / 2 ^ k) in *. assert (0 < m) as Hm by (pose proof (Z.pow_pos_nonneg 2 k); nia).
  assert (p <> 2) as Hne. { intros ->. destruct Hodd as [x Hx], Hpn as [y Hy]. lia. }
  assert (a ^ ((n - 1) / 2) mod p = (-1) mod p) as HA.
  { rewrite <- (mod_divide_mod _ p n), Ha by (assumption || lia). destruct Hpn as [y Hy].
    rewrite Hy. replace (y * p - 1) with (-1 + y * p) by ring. apply Z_mod_plus_full. }
  induction j as [|j IH]; intros Hj; [apply Z.divide_1_l|].
  destruct IH as [q Hq]; [lia|]. destruct (Z.Even_or_Odd q) as [[x Hx]|Hoq].
  { exists x. rewrite Hq, Hx, Nat2Z.inj_succ, Z.pow_succ_r by lia. ring. }
  exfalso. assert (0 < q) as Hq0 by (pose proof (Z.pow_pos_nonneg 2 (Z.of_nat j)); nia).
  assert ((n - 1) / 2 * q = (p - 1) * (m * 2 ^ (k - 1 - Z.of_nat j))) as He.
  { assert ((n - 1) / 2 = 2 ^ (k - 1) * m) as ->.
    { rewrite Hn. replace (2 ^ k) with (2 * 2 ^ (k - 1)) by (rewrite <- Z.pow_succ_r by lia; f_equal; lia).
      rewrite <- Z.mul_assoc, Z.mul_comm. apply Z.div_mul. lia. }
    rewrite Hq. replace (2 ^ (k - 1)) with (2 ^ Z.of_nat j * 2 ^ (k - 1 - Z.of_nat j))
      by (rewrite <- Z.pow_add_r by lia; f_equal; lia). ring. }
  assert (0 <= (n - 1) / 2) by (apply Z.div_pos; lia).
  pose proof (Z.pow_pos_nonneg 2 (k - 1 - Z.of_nat j) ltac:(lia) ltac:(lia)).
  assert (a mod p <> 0) as Ha0.
  { intros Hz. rewrite Zpower_mod, Hz in HA by lia. destruct (Z.eq_dec ((n - 1) / 2) 0) as [E|E].
    - rewrite E, Z.pow_0_r, (Z.mod_small 1 p) in HA by lia. symmetry in HA. now apply odd_prime_sign in HA.
    - rewrite Z.pow_0_l, Z.mod_0_l in HA by lia. change (-1) with (- (1)) in HA.
      rewrite Z.mod_opp_l_nz, (Z.mod_small 1 p) in HA by (rewrite ?Z.mod_small; lia). lia. }
  apply (odd_prime_sign p Hp Hne). transitivity ((a ^ ((n - 1) / 2)) ^ q mod p).
  - rewrite (Zpower_mod _ q p), HA, <- Zpower_mod by lia. f_equal.
    change (-1) with (- (1)). rewrite Z.pow_opp_odd, Z.pow_1_l by (assumption || lia). reflexivity.
  - rewrite <- Z.pow_mul_r, He, Z.pow_mul_r by nia. rewrite Zpower_mod, fermat_Z, Z.pow_1_l by (assumption || lia).
    apply Z.mod_small. lia.
Qed.

Lemma pocklington_pow2 n (k : nat) a :
  1 < n -> Z.odd n = true -> (0 < k)%nat -> (n - 1) mod 2 ^ Z.of_nat k = 0 -> n < 2 ^ Z.of_nat k * 2 ^ Z.of_nat k ->
  powmod a ((n - 1) / 2) n = n - 1 -> Z.prime n.
Proof.
  intros Hn Hodd Hk Hd Hs Ha. apply Z.odd_spec in Hodd.
  destruct (prime_factor n Hn) as [|(p & Hp & Hpn & Hpp)]; [assumption|]. exfalso.
  rewrite powmod_spec in Ha by (apply Z.div_pos; lia).
  assert (2 ^ Z.of_nat k | p - 1) as Hdiv.
  { apply (pow2_divides n (Z.of_nat k) a p k); try assumption || lia.
    pose proof (Z.pow_pos_nonneg 2 (Z.of_nat k)). pose proof (Z.div_mod (n - 1) (2 ^ Z.of_nat k)). lia. }
  pose proof (Z.prime_ge_2 p Hp). pose proof (Z.pow_pos_nonneg 2 (Z.of_nat k)).
  apply Z.divide_pos_le in Hdiv; nia.
Qed.

Lemma felt_prime_prime : Z.prime felt_prime.
Proof. apply (pocklington_pow2 _ 192 3); [certify|certify|apply Nat.ltb_lt; reflexivity|certify..]. Qed.

(** A number whose Euler power is not 1 is not a square. *)
Lemma euler_not_square p b y :
  Z.prime p -> Z.odd p = true -> b mod p <> 0 -> powmod b ((p - 1) / 2) p <> 1 -> (y * y) mod p <> b mod p.
Proof.
  intros Hp Hodd Hb He Hy. pose proof (Z.prime_ge_2 p Hp). apply Z.odd_spec in Hodd as [h Hh].
  assert ((p - 1) / 2 = h) as Hdiv by (rewrite Hh; replace (2 * h + 1 - 1) with (h * 2) by ring; apply Z.div_mul; lia).
  apply He. rewrite powmod_spec by lia. rewrite Zpower_mod, <- Hy, <- Zpower_mod by lia.
  rewrite <- Z.pow_2_r, <- Z.pow_mul_r by lia. replace (2 * ((p - 1) / 2)) with (p - 1) by lia.
  apply fermat_Z; [assumption|]. intros Hz. apply Hb. rewrite <- Hy, <- Zmult_mod_idemp_l, Hz. reflexivity.
Qed.
