(* ===== verification/GroupTac.v ===== *)
(** * A decision procedure for linear equations between points

    [proj_module] proves [p ≡ q] when both sides are built with point addition,
    subtraction and integer multiples from the same atoms: it reifies them,
    compares the coefficients of each atom, and leaves the congruences modulo
    the curve order to [zmod]. *)

From stdpp Require Import base option list numbers.
From Stdlib Require Import ZArith Lia Zdiv.
From S2P Require Import Prelude StarkLib Primality.

Inductive pexp : Type :=
| PId
| PAtom (i : nat)
| PAdd (e1 e2 : pexp)
| PSub (e1 e2 : pexp)
| PMul (k : Z) (e : pexp).

Fixpoint coef (e : pexp) (i : nat) : Z :=
  match e with
  | PId => 0
  | PAtom j => if Nat.eqb j i then 1 else 0
  | PAdd e1 e2 => coef e1 i + coef e2 i
  | PSub e1 e2 => coef e1 i + -1 * coef e2 i
  | PMul k e => k * coef e i
  end.

(** The congruences to check, one per atom. *)
Fixpoint coefs_agree (e1 e2 : pexp) (i : nat) (n : nat) : Prop :=
  match n with
  | O => True
  | S n => coef e1 i mod CurveOrder = coef e2 i mod CurveOrder /\ coefs_agree e1 e2 (S i) n
  end.

Section reflection.
Context `{StarkLaws}.

Fixpoint pdenote (env : list Proj) (e : pexp) : Proj :=
  match e with
  | PId => proj_identity
  | PAtom i => nth i env proj_identity
  | PAdd e1 e2 => pdenote env e1 ⊕ pdenote env e2
  | PSub e1 e2 => proj_sub (pdenote env e1) (pdenote env e2)
  | PMul k e => k • pdenote env e
  end.

Fixpoint lincomb (env : list Proj) (c : nat -> Z) : Proj :=
  match env with
  | [] => proj_identity
  | p :: env => c 0%nat • p ⊕ lincomb env (fun i => c (S i))
  end.

Lemma add_swap (a b c d : Proj) : a ⊕ b ⊕ (c ⊕ d) ≡ (a ⊕ c) ⊕ (b ⊕ d).
Proof.
  rewrite <- !proj_add_assoc. f_equiv. rewrite !proj_add_assoc. f_equiv. apply proj_add_comm.
Qed.

Lemma lincomb_0 env : lincomb env (fun _ => 0) ≡ proj_identity.
Proof. induction env as [|p env IH]; cbn [lincomb]; [done|]. by rewrite IH, smul_0_l, proj_add_id_l. Qed.

Lemma lincomb_add env c d :
  lincomb env (fun i => c i + d i) ≡ lincomb env c ⊕ lincomb env d.
Proof.
  revert c d; induction env as [|p env IH]; intros c d; cbn [lincomb]; [by rewrite proj_add_id_l|].
  by rewrite (IH (fun i => c (S i))), smul_add_l, add_swap.
Qed.

Lemma lincomb_mul env k c : lincomb env (fun i => k * c i) ≡ k • lincomb env c.
Proof.
  revert c; induction env as [|p env IH]; intros c; cbn [lincomb]; [by rewrite smul_id_r|].
  by rewrite (IH (fun i => c (S i))), smul_add_r, smul_mul.
Qed.

Lemma lincomb_atom env i :
  lincomb env (fun j => if Nat.eqb i j then 1 else 0) ≡ nth i env proj_identity.
Proof.
  revert i; induction env as [|p env IH]; intros i; cbn [lincomb nth]; [by destruct i|].
  destruct i as [|i]; cbn [Nat.eqb nth].
  - by rewrite lincomb_0, smul_1_l, proj_add_id_r.
  - by rewrite (IH i), smul_0_l, proj_add_id_l.
Qed.

Lemma lincomb_eqm env c d :
  (forall i, (i < length env)%nat -> c i mod CurveOrder = d i mod CurveOrder) ->
  lincomb env c ≡ lincomb env d.
Proof.
  revert c d; induction env as [|p env IH]; intros c d Hcd; cbn [lincomb]; [done|].
  rewrite (smul_eqm (c 0%nat) (d 0%nat)) by (apply Hcd; cbn; lia).
  f_equiv. apply IH. intros i Hi. apply Hcd. cbn. lia.
Qed.

Lemma pdenote_lincomb env e : pdenote env e ≡ lincomb env (coef e).
Proof.
  induction e as [|i|e1 IH1 e2 IH2|e1 IH1 e2 IH2|k e IH]; cbn [pdenote coef].
  - by rewrite lincomb_0.
  - by rewrite lincomb_atom.
  - by rewrite IH1, IH2, <- lincomb_add.
  - rewrite proj_sub_smul, IH1, IH2, <- lincomb_mul. by rewrite <- lincomb_add.
  - by rewrite IH, <- lincomb_mul.
Qed.

Lemma coefs_agree_spec e1 e2 i n :
  coefs_agree e1 e2 i n ->
  forall j, (j < n)%nat -> coef e1 (i + j) mod CurveOrder = coef e2 (i + j) mod CurveOrder.
Proof.
  revert i; induction n as [|n IH]; intros i Hc j Hj; [lia|].
  destruct Hc as [Hi Hc]. destruct j as [|j]; [by rewrite Nat.add_0_r|].
  replace (i + S j)%nat with (S i + j)%nat by lia. apply IH; [done|lia].
Qed.

(** Soundness of the comparison of coefficients. *)
Lemma pdenote_eq env e1 e2 :
  coefs_agree e1 e2 0 (length env) -> pdenote env e1 ≡ pdenote env e2.
Proof.
  intros Hc. rewrite !pdenote_lincomb. apply lincomb_eqm. intros i Hi.
  by apply (coefs_agree_spec e1 e2 0 (length env)).
Qed.
End reflection.

(** Congruence modulo the curve order, as a relation of its own so that setoid
    rewriting can strip the inner reductions of a scalar expression. *)
Inductive zcong (a b : Z) : Prop := Zcong (_ : a mod CurveOrder = b mod CurveOrder).

#[export] Instance zcong_equivalence : Equivalence zcong.
Proof.
  split; [by constructor | by intros a b [E]; constructor|].
  intros a b c [E1] [E2]. constructor. congruence.
Qed.
#[export] Instance zcong_add : Proper (zcong ==> zcong ==> zcong) Z.add.
Proof. intros a b [E1] c d [E2]. constructor. rewrite (Zplus_mod a), (Zplus_mod b). congruence. Qed.
#[export] Instance zcong_sub : Proper (zcong ==> zcong ==> zcong) Z.sub.
Proof. intros a b [E1] c d [E2]. constructor. rewrite (Zminus_mod a), (Zminus_mod b). congruence. Qed.
#[export] Instance zcong_mul : Proper (zcong ==> zcong ==> zcong) Z.mul.
Proof. intros a b [E1] c d [E2]. constructor. rewrite (Zmult_mod a), (Zmult_mod b). congruence. Qed.
#[export] Instance zcong_opp : Proper (zcong ==> zcong) Z.opp.
Proof. intros a b [E1]. constructor. change (- a) with (0 - a). change (- b) with (0 - b).
  rewrite (Zminus_mod 0 a), (Zminus_mod 0 b). congruence. Qed.
Lemma zcong_mod a : zcong (a mod CurveOrder) a.
Proof. constructor. apply Zmod_mod. Qed.
Lemma zcong_elim a b : zcong a b -> a mod CurveOrder = b mod CurveOrder.
Proof. by intros [E]. Qed.
Lemma zcong_eq a b : a = b -> zcong a b.
Proof. by intros ->. Qed.

(** [zmod]: congruences modulo the curve order, up to ring equality. *)
Ltac zmod :=
  first [apply zcong_elim | idtac]; repeat rewrite zcong_mod; apply zcong_eq; first [ring | reflexivity].

Ltac atom_index x env :=
  lazymatch env with
  | x :: _ => constr:(O)
  | _ :: ?env => let i := atom_index x env in constr:(S i)
  end.

Ltac add_atom x env :=
  lazymatch env with
  | [] => constr:([x])
  | x :: ?t => env
  | ?y :: ?t => let t' := add_atom x t in constr:(y :: t')
  end.

Ltac proj_atoms p env :=
  lazymatch p with
  | proj_identity => env
  | proj_add ?a ?b => let env := proj_atoms a env in proj_atoms b env
  | proj_sub ?a ?b => let env := proj_atoms a env in proj_atoms b env
  | smul _ ?a => proj_atoms a env
  | _ => add_atom p env
  end.

Ltac proj_reify p env :=
  lazymatch p with
  | proj_identity => constr:(PId)
  | proj_add ?a ?b =>
      let ea := proj_reify a env in let eb := proj_reify b env in constr:(PAdd ea eb)
  | proj_sub ?a ?b =>
      let ea := proj_reify a env in let eb := proj_reify b env in constr:(PSub ea eb)
  | smul ?k ?a => let ea := proj_reify a env in constr:(PMul k ea)
  | _ => let i := atom_index p env in constr:(PAtom i)
  end.

(** [proj_linear] reduces an equation to its congruences. *)
Ltac proj_linear :=
  match goal with
  | |- @equiv ?P _ ?p ?q =>
      let env := proj_atoms p (@nil P) in
      let env := proj_atoms q env in
      let e1 := proj_reify p env in
      let e2 := proj_reify q env in
      change (pdenote env e1 ≡ pdenote env e2);
      apply pdenote_eq; cbn [coefs_agree coef length Nat.eqb];
      repeat (apply conj; [|]); try exact I
  end.

Ltac proj_module := proj_linear; zmod.

(** ** Extraction

    Two accepting runs of a linear sigma protocol with one commitment [a] and
    different challenges determine the statement [y]. *)
Section extraction.
Context `{StarkLaws}.

Lemma sigma_extract (c1 c2 : Z) (y a l1 l2 : Proj) :
  l1 ≡ a ⊕ c1 • y -> l2 ≡ a ⊕ c2 • y ->
  (c1 - c2) mod CurveOrder <> 0 ->
  y ≡ order_inverse (c1 - c2) • proj_sub l1 l2.
Proof.
  intros H1 H2 Hne%order_inverse_spec. set (inv := order_inverse (c1 - c2)) in *.
  transitivity (inv • proj_sub (a ⊕ c1 • y) (a ⊕ c2 • y)).
  - rewrite <- (smul_1_l y) at 1. rewrite <- Hne. proj_module.
  - f_equiv. by rewrite !proj_sub_smul, H1, H2.
Qed.

Lemma proj_sub_self (p : Proj) : proj_sub p p ≡ proj_identity.
Proof. proj_module. Qed.
End extraction.
