(* ===== verification/StarkModel.v ===== *)
(** * A concrete model of the third-party boundary

    The laws of [StarkLib] hold together: this file instantiates them with the
    integers modulo the curve order as the group.  The point standing for [k] has
    x-coordinate [min k (n - k)] and a y-coordinate whose sign tells [k] from
    [n - k]; the two generators keep the coordinates of the source.  The hashes
    are simple folds.  Every witness of the development is evaluated here. *)

From stdpp Require Import base option list numbers.
From Stdlib Require Import ZArith Lia Zdiv Eqdep_dec.
From S2P Require Import Prelude StarkLib.

(** Field elements: canonical residues. *)
Record mfelt : Type := MFelt { mval : Z; mval_ok : (0 <=? mval) && (mval <? felt_prime) = true }.

Lemma mfelt_ext a b : mval a = mval b -> a = b.
Proof.
  destruct a as [a Ha], b as [b Hb]; cbn. intros ->. f_equal. apply UIP_dec. apply Bool.bool_dec.
Qed.

#[export] Instance mfelt_eq_dec : EqDecision mfelt.
Proof.
  intros a b. destruct (Z.eq_dec (mval a) (mval b)) as [e|ne].
  - left. by apply mfelt_ext.
  - right. by intros ->.
Defined.

Lemma mfelt_mod_ok z : (0 <=? z mod felt_prime) && (z mod felt_prime <? felt_prime) = true.
Proof.
  assert (0 < felt_prime) as Hp by reflexivity.
  pose proof (Z.mod_pos_bound z felt_prime Hp). lia.
Qed.

(** Reduction, with a shortcut for what is already reduced. *)
Definition reduce (m z : Z) : Z := if (0 <=? z) && (z <? m) then z else z mod m.

Lemma reduce_mod m z : reduce m z = z mod m.
Proof. unfold reduce. case_match; [|done]. symmetry. apply Z.mod_small. lia. Qed.

Lemma mfelt_reduce_ok z : (0 <=? reduce felt_prime z) && (reduce felt_prime z <? felt_prime) = true.
Proof. rewrite reduce_mod. apply mfelt_mod_ok. Qed.

Definition mk (z : Z) : mfelt := MFelt (reduce felt_prime z) (mfelt_reduce_ok z).

Lemma mval_mk z : mval (mk z) = z mod felt_prime.
Proof. apply reduce_mod. Qed.

Definition half : Z := (CurveOrder - 1) / 2.

Definition GXv : Z := 0x1ef15c18599971b7beced415a40f0c7deacfd9b0d1819e03d723d8bc943cfca.
Definition GYv : Z := 0x5668060aa49730b7be4801df46ec62de53ecd11abe43a32873000c36e8dc1f.
Definition HXv : Z := 0x162eb5cc8f50e522225785a604ba6d7e9ab06b647157f77c59a06032610b2d2.
Definition HYv : Z := 0x220a56864c490175202e3e34db0e24d12979fbfacea16a360e8feb1f6749192.

(** The y-coordinate of the points [k] with [k <= half]. *)
Definition ypos (k : Z) : Z := if k =? GXv then GYv else if k =? HXv then HYv else 1.

(** Affine points: the non-zero residues. *)
Record maff : Type := MAff { akey : Z; akey_ok : (1 <=? akey) && (akey <? CurveOrder) = true }.

Lemma maff_ext a b : akey a = akey b -> a = b.
Proof.
  destruct a as [a Ha], b as [b Hb]; cbn. intros ->. f_equal. apply UIP_dec. apply Bool.bool_dec.
Qed.

#[export] Instance maff_eq_dec : EqDecision maff.
Proof.
  intros a b. destruct (Z.eq_dec (akey a) (akey b)) as [e|ne].
  - left. by apply maff_ext.
  - right. by intros ->.
Defined.

Definition maff_of (k : Z) : option maff :=
  match bool_dec ((1 <=? k) && (k <? CurveOrder)) true with
  | left H => Some (MAff k H)
  | right _ => None
  end.

Definition maff_x (a : maff) : mfelt := mk (Z.min (akey a) (CurveOrder - akey a)).
Definition maff_y (a : maff) : mfelt :=
  if akey a <=? half then mk (ypos (akey a)) else mk (- ypos (CurveOrder - akey a)).
Definition maff_new (x y : mfelt) : option maff :=
  if (1 <=? mval x) && (mval x <=? half) then
    if bool_decide (y = mk (ypos (mval x))) then maff_of (mval x)
    else if bool_decide (y = mk (- ypos (mval x))) then maff_of (CurveOrder - mval x)
    else None
  else None.

Definition mhash (acc f : mfelt) : mfelt := mk (mval acc * 31 + mval f * 17 + 7).

#[export] Instance model_types : StarkTypes := {
  Felt := mfelt;
  to_bytes_be f := be_bytes 32 (mval f);
  from_bytes_be bs := mk (be_value bs);
  felt_of_Z := mk;
  felt_add a b := mk (mval a + mval b);
  felt_neg a := mk (- mval a);
  Aff := maff;
  aff_new := maff_new;
  aff_x := maff_x;
  aff_y := maff_y;
  Proj := Z;
  proj_identity := 0;
  proj_add p q := reduce CurveOrder (p + q);
  proj_sub p q := (p - q) mod CurveOrder;
  proj_eqb p q := reduce CurveOrder p =? reduce CurveOrder q;
  proj_to_affine p := maff_of (reduce CurveOrder p);
  proj_from_affine x y := option_map akey (maff_new x y);
  proj_new x y z := Some (mval x);
  proj_x p := mk (reduce CurveOrder p);
  proj_y p := mk 1;
  proj_z p := mk 1;
  pedersen_hash := mhash;
  poseidon_hash_array fs := fold_left mhash fs (mk 0);
  Monty m := Z;
  monty_new m z := z mod m;
  monty_add m a b := (a + b) mod m;
  monty_sub m a b := (a - b) mod m;
  monty_mul m a b := (a * b) mod m;
  monty_retrieve m a := a;
  u8_conditional_select a b c := if c then b else a;
}.

(** Inverse modulo the order ([a^(n-2)] by repeated squaring), for witnesses. *)
Fixpoint pow_mod_pos (a : Z) (e : positive) : Z :=
  match e with
  | xH => a mod CurveOrder
  | xO e => let h := pow_mod_pos a e in (h * h) mod CurveOrder
  | xI e => let h := pow_mod_pos a e in (a * (h * h)) mod CurveOrder
  end.
Definition inv_mod (a : Z) : Z := pow_mod_pos (a mod CurveOrder) (Z.to_pos (CurveOrder - 2)).

(** ** The laws *)
Lemma mval_range (a : mfelt) : 0 <= mval a < felt_prime.
Proof. destruct a as [a Ha]; cbn. lia. Qed.
Lemma akey_range (a : maff) : 1 <= akey a < CurveOrder.
Proof. destruct a as [a Ha]; cbn. lia. Qed.
Lemma half_double : CurveOrder = 2 * half + 1.
Proof. reflexivity. Qed.
Lemma felt_prime_bound : felt_prime < 256 ^ 32.
Proof. reflexivity. Qed.

Lemma model_felt_val (f : Felt) : felt_val f = mval f.
Proof.
  unfold felt_val. cbn [to_bytes_be model_types]. rewrite be_value_be_bytes.
  pose proof (mval_range f). pose proof felt_prime_bound. apply Z.mod_small. lia.
Qed.

Lemma maff_of_Some k a : maff_of k = Some a <-> akey a = k.
Proof.
  unfold maff_of. destruct (bool_dec _ true) as [Hk|Hk]; split.
  - by intros [= <-].
  - intros <-. f_equal. by apply maff_ext.
  - done.
  - intros <-. pose proof (akey_range a). lia.
Qed.

Lemma maff_of_None k : maff_of k = None <-> ~ (1 <= k < CurveOrder).
Proof.
  unfold maff_of. destruct (bool_dec _ true) as [Hk|Hk]; split; intros H; try done; lia.
Qed.

Lemma ypos_sign k : mk (ypos k) <> mk (- ypos k).
Proof.
  unfold ypos. destruct (k =? GXv); [|destruct (k =? HXv)]; intros H; apply (f_equal mval) in H;
    vm_compute in H; discriminate H.
Qed.

Lemma mval_mk_small z : 0 <= z < felt_prime -> mval (mk z) = z.
Proof. intros Hz. rewrite mval_mk. by apply Z.mod_small. Qed.

Lemma mk_opp z : mk (- mval (mk z)) = mk (- z).
Proof.
  apply mfelt_ext. rewrite !mval_mk. change (- (z mod felt_prime)) with (0 - z mod felt_prime).
  by rewrite Zminus_mod_idemp_r.
Qed.

Lemma mval_maff_x a : mval (maff_x a) = Z.min (akey a) (CurveOrder - akey a).
Proof.
  unfold maff_x. pose proof (akey_range a). pose proof CurveOrder_lt_prime.
  apply mval_mk_small. lia.
Qed.

Lemma maff_new_spec x y a :
  maff_new x y = Some a <-> maff_x a = x /\ maff_y a = y.
Proof.
  pose proof half_double as Hh. pose proof (akey_range a) as Ha.
  unfold maff_new. split.
  - case_match eqn:Hx; [|done]. apply andb_prop in Hx as [Hx1 Hx2].
    case_bool_decide as Hy; [|case_bool_decide as Hy'; [|done]];
      intros Hk%maff_of_Some; (split; [apply mfelt_ext; rewrite mval_maff_x; lia|]);
      unfold maff_y; rewrite Hk.
    + by rewrite Hx2.
    + destruct (Z.leb_spec (CurveOrder - mval x) half); [lia|].
      rewrite Hy'. do 3 f_equal. lia.
  - intros [<- <-]. rewrite mval_maff_x. unfold maff_y.
    destruct (Z.leb_spec (akey a) half) as [Hl|Hl].
    + rewrite Z.min_l by lia.
      destruct (Z.leb_spec 1 (akey a)); [|lia]. destruct (Z.leb_spec (akey a) half); [|lia]. cbn [andb].
      rewrite bool_decide_true by done. by apply maff_of_Some.
    + rewrite Z.min_r by lia.
      destruct (Z.leb_spec 1 (CurveOrder - akey a)); [|lia].
      destruct (Z.leb_spec (CurveOrder - akey a) half); [|lia]. cbn [andb].
      rewrite bool_decide_false by (intros E; symmetry in E; by apply ypos_sign in E).
      rewrite bool_decide_true by done. apply maff_of_Some. lia.
Qed.

Lemma maff_coords_inj a b : maff_x a = maff_x b -> maff_y a = maff_y b -> a = b.
Proof.
  intros Hx Hy. assert (maff_new (maff_x a) (maff_y a) = Some a) as Ha by by apply maff_new_spec.
  assert (maff_new (maff_x a) (maff_y a) = Some b) as Hb by (apply maff_new_spec; split; congruence).
  congruence.
Qed.

(** The negated point. *)
Definition maff_neg (a : maff) : option maff := maff_of (CurveOrder - akey a).

Lemma maff_neg_spec a :
  exists b, akey b = CurveOrder - akey a /\ maff_new (maff_x a) (felt_neg (maff_y a)) = Some b.
Proof.
  pose proof half_double as Hh. pose proof (akey_range a) as Ha.
  destruct (maff_neg a) as [b|] eqn:Hb.
  2:{ apply maff_of_None in Hb. lia. }
  apply maff_of_Some in Hb. exists b. split; [done|]. apply maff_new_spec. split.
  - apply mfelt_ext. rewrite !mval_maff_x, Hb. lia.
  - unfold maff_y. cbn [felt_neg model_types]. rewrite Hb.
    destruct (Z.leb_spec (akey a) half), (Z.leb_spec (CurveOrder - akey a) half); try lia.
    + rewrite mk_opp. do 3 f_equal. lia.
    + rewrite mk_opp. f_equal. lia.
Qed.

Lemma model_equiv (p q : Proj) : p ≡ q <-> p mod CurveOrder = q mod CurveOrder.
Proof. unfold equiv, proj_equiv. cbn [proj_eqb model_types]. rewrite Is_true_true, !reduce_mod. lia. Qed.

Lemma model_add (p q : Z) : proj_add (StarkTypes := model_types) p q = (p + q) mod CurveOrder.
Proof. apply reduce_mod. Qed.

Lemma model_iter_op (n : positive) (p : Z) :
  Pos.iter_op (proj_add (StarkTypes := model_types)) n p mod CurveOrder = (Zpos n * p) mod CurveOrder.
Proof.
  revert p; induction n as [n IH|n IH|]; intros p.
  - change (proj_add (StarkTypes := model_types) p
      (Pos.iter_op (proj_add (StarkTypes := model_types)) n (proj_add (StarkTypes := model_types) p p))
      mod CurveOrder = (Zpos n~1 * p) mod CurveOrder).
    rewrite !model_add, Zmod_mod, <- Zplus_mod_idemp_r, IH, Zmult_mod_idemp_r, Zplus_mod_idemp_r.
    f_equal. lia.
  - change (Pos.iter_op (proj_add (StarkTypes := model_types)) n (proj_add (StarkTypes := model_types) p p)
      mod CurveOrder = (Zpos n~0 * p) mod CurveOrder).
    rewrite IH, model_add, Zmult_mod_idemp_r. f_equal. lia.
  - change (p mod CurveOrder = (1 * p) mod CurveOrder). f_equal. lia.
Qed.

Lemma model_smul (k p : Z) : (k • (p : Proj) : Z) mod CurveOrder = (k * p) mod CurveOrder.
Proof.
  unfold smul. rewrite <- (Zmult_mod_idemp_l k).
  pose proof (Z.mod_pos_bound k CurveOrder CurveOrder_pos).
  destruct (k mod CurveOrder) as [|n|n]; [done|apply model_iter_op|lia].
Qed.

(** A residue coprime to the order generates the group. *)
Lemma model_full_order (p k : Z) :
  Z.gcd CurveOrder p = 1 -> k • (p : Proj) ≡ proj_identity -> k mod CurveOrder = 0.
Proof.
  intros Hg Hk%model_equiv. rewrite model_smul in Hk.
  apply Z.mod_divide; [done|]. apply (Z.gauss _ p); [|done].
  apply Z.mod_divide; [done|]. by rewrite Z.mul_comm.
Qed.

Lemma model_generator (p : Z) :
  proj_from_affine (StarkTypes := model_types) G_X G_Y = Some p -> p = GXv.
Proof. intros H. vm_compute in H. injection H as <-. reflexivity. Qed.
Lemma model_generator_h (p : Z) :
  proj_from_affine (StarkTypes := model_types) H_X H_Y = Some p -> p = HXv.
Proof. intros H. vm_compute in H. injection H as <-. reflexivity. Qed.

Lemma model_from_affine x y (a : maff) :
  maff_new x y = Some a ->
  exists p : Proj, proj_from_affine x y = Some p /\ proj_to_affine p = Some a.
Proof.
  intros Ha. exists (akey a). cbn [proj_from_affine proj_to_affine model_types].
  rewrite Ha. split; [done|]. rewrite reduce_mod. apply maff_of_Some. symmetry. apply Z.mod_small.
  pose proof (akey_range a). lia.
Qed.

Lemma model_to_affine_eq (p q : Proj) : p ≡ q <-> proj_to_affine p = proj_to_affine q.
Proof.
  rewrite model_equiv. cbn [proj_to_affine model_types]. rewrite !reduce_mod. split; [by intros ->|].
  pose proof (Z.mod_pos_bound p CurveOrder CurveOrder_pos).
  pose proof (Z.mod_pos_bound q CurveOrder CurveOrder_pos).
  destruct (maff_of (p mod CurveOrder)) as [a|] eqn:Ha; intros Hq; symmetry in Hq.
  - apply maff_of_Some in Ha, Hq. congruence.
  - apply maff_of_None in Ha, Hq. lia.
Qed.

Lemma model_to_affine_infinity (p : Proj) : proj_to_affine p = None <-> p ≡ proj_identity.
Proof.
  rewrite model_equiv. cbn [proj_to_affine proj_identity model_types]. rewrite reduce_mod, maff_of_None.
  pose proof (Z.mod_pos_bound p CurveOrder CurveOrder_pos).
  change (0 mod CurveOrder) with 0. lia.
Qed.

Lemma model_neg_add (a : maff) (p q : Proj) :
  proj_from_affine (maff_x a) (maff_y a) = Some p ->
  proj_from_affine (maff_x a) (felt_neg (maff_y a)) = Some q ->
  p ⊕ q ≡ proj_identity.
Proof.
  destruct (maff_neg_spec a) as (b & Hb & Hn).
  assert (maff_new (maff_x a) (maff_y a) = Some a) as Ha by by apply maff_new_spec.
  cbn [proj_from_affine model_types]. rewrite Ha, Hn. intros [= <-] [= <-].
  apply model_equiv. rewrite model_add. cbn [proj_identity model_types].
  rewrite Zmod_mod, Hb. replace (akey a + (CurveOrder - akey a)) with CurveOrder by lia.
  reflexivity.
Qed.

#[export] Instance model_laws : StarkLaws.
Proof.
  split.
  - intros f. apply length_be_bytes.
  - intros f. apply be_bytes_ok.
  - intros f. rewrite model_felt_val. apply mval_range.
  - intros f g. rewrite !model_felt_val. apply mfelt_ext.
  - intros bs _ _. rewrite model_felt_val. apply mval_mk.
  - intros z _. rewrite model_felt_val. apply mval_mk.
  - intros f g. rewrite !model_felt_val. apply mval_mk.
  - intros f. rewrite !model_felt_val. apply mval_mk.
  - intros x y a. apply maff_new_spec.
  - apply maff_coords_inj.
  - intros a. by apply maff_new_spec.
  - split; [by intros p; apply model_equiv | |].
    + intros p q. rewrite !model_equiv. done.
    + intros p q r. rewrite !model_equiv. congruence.
  - intros p p' Hp q q' Hq. rewrite model_equiv in *. rewrite !model_add.
    rewrite !Zmod_mod, (Zplus_mod p q), (Zplus_mod p' q'). congruence.
  - intros p q. rewrite model_equiv, !model_add. do 2 f_equal. lia.
  - intros p q r. rewrite model_equiv, !model_add.
    rewrite !Zmod_mod, Zplus_mod_idemp_r, Zplus_mod_idemp_l. f_equal. lia.
  - intros p. rewrite model_equiv, model_add. cbn [proj_identity model_types]. by rewrite Zmod_mod.
  - intros p. rewrite model_equiv, model_iter_op.
    change (Zpos (Z.to_pos CurveOrder)) with CurveOrder. rewrite Z.mul_comm, Z_mod_mult. done.
  - intros p q. rewrite model_equiv, model_add. cbn [proj_sub model_types].
    rewrite Zmod_mod, Zplus_mod_idemp_l. f_equal. lia.
  - apply model_to_affine_infinity.
  - apply model_to_affine_eq.
  - apply model_from_affine.
  - intros a. destruct (maff_neg_spec a) as (b & _ & Hb). by exists b.
  - apply model_neg_add.
  - intros p. exists (mval (mk (p mod CurveOrder))). split.
    { cbn [proj_new proj_x model_types]. by rewrite reduce_mod. }
    rewrite model_equiv.
    rewrite mval_mk_small; [apply Zmod_mod|].
    pose proof (Z.mod_pos_bound p CurveOrder CurveOrder_pos). pose proof CurveOrder_lt_prime. lia.
  - destruct (maff_new (G_X (H := model_types)) (G_Y (H := model_types))) as [a|] eqn:E; [by exists a|]. vm_compute in E. discriminate E.
  - destruct (maff_new (H_X (H := model_types)) (H_Y (H := model_types))) as [a|] eqn:E; [by exists a|].
    vm_compute in E. discriminate E.
  - intros p k ->%model_generator. by apply model_full_order.
  - intros p k ->%model_generator_h. by apply model_full_order.
  - done.
  - done.
  - done.
  - done.
  - done.
Qed.

(** Deciding that two concrete points differ. *)
Lemma model_differ (p q : @Proj model_types) : proj_eqb p q = false -> ~ p ≡ q.
Proof. intros Hd Hpq. change (Is_true (proj_eqb p q)) in Hpq. by rewrite Hd in Hpq. Qed.

Ltac points_differ := apply model_differ; vm_compute; reflexivity.
