(* ===== verification/Types.v ===== *)
(** * Shared types of crates/common

    [KmsError] (crates/common/src/error.rs) and the proof and ciphertext records
    of crates/common/src/types.rs.  An error's text is the source's literal; a
    [format!] keeps its template and drops the interpolated values. *)

From stdpp Require Import base option list numbers strings.
From Stdlib Require Import ZArith.
From S2P Require Import Prelude StarkLib.

#[global] Open Scope string_scope.
#[global] Open Scope list_scope.
#[global] Open Scope Z_scope.

Inductive KmsError : Type :=
| InvalidPublicKey (msg : string)
| InvalidPrivateKey (msg : string)
| InvalidMnemonic (msg : string)
| CryptoError (msg : string)
| SerializationError (msg : string)
| DeserializationError (msg : string)
| InvalidAmount (msg : string)
| InsufficientBalance
| InvalidDerivationPath (msg : string)
| HexError (msg : string)
| JsonError (msg : string)
| StarknetCryptoError (msg : string)
| PointAtInfinity
| InvalidProof (msg : string)
| RpcError (msg : string)
| AccountNotDeployed (msg : string)
| AlreadyDeployed (msg : string)
| InsufficientFeeBalance (msg : string)
| InvalidClassHash (msg : string)
| ContractNotFound (msg : string)
| TransactionError (msg : string)
| TransactionReverted (msg : string)
| FeeEstimationFailed (msg : string)
| Timeout (msg : string)
| StakingError (msg : string)
| MultisigError (msg : string)
| ControllerError (msg : string).

#[export] Instance KmsError_eq_dec : EqDecision KmsError.
Proof. solve_decision. Defined.

(** [pub type Result<T> = std::result::Result<T, KmsError>], plus panics. *)
Abbreviation Result := (outcome KmsError).

Section types.
Context `{StarkTypes}.

Record SerializablePoint : Type := { sp_x : Felt; sp_y : Felt }.

Record PoeProof : Type := { poe_a : SerializablePoint; poe_s : Felt; poe_c : Felt }.

Record Poe2Proof : Type := {
  poe2_a : SerializablePoint; poe2_s1 : Felt; poe2_s2 : Felt; poe2_c : Felt }.

Record ElGamalProof : Type := {
  eg_al : SerializablePoint; eg_ar : SerializablePoint;
  eg_sb : Felt; eg_sr : Felt; eg_c : Felt }.

Record AuditProof : Type := {
  au_ax : SerializablePoint; au_al0 : SerializablePoint;
  au_al1 : SerializablePoint; au_ar1 : SerializablePoint;
  au_sx : Felt; au_sb : Felt; au_sr : Felt; au_c : Felt }.

Record ElGamalCiphertext : Type := { ct_l : Proj; ct_r : Proj }.

Record ProofOfBit : Type := {
  pb_a0 : SerializablePoint; pb_a1 : SerializablePoint;
  pb_c0 : Felt; pb_s0 : Felt; pb_s1 : Felt }.

Record Range : Type := { commitments : list SerializablePoint; proofs : list ProofOfBit }.

Record ProofOfTransfer : Type := {
  pt_a_x : SerializablePoint; pt_a_r : SerializablePoint; pt_a_r2 : SerializablePoint;
  pt_a_b : SerializablePoint; pt_a_b2 : SerializablePoint; pt_a_v : SerializablePoint;
  pt_a_v2 : SerializablePoint; pt_a_bar : SerializablePoint;
  pt_s_x : Felt; pt_s_r : Felt; pt_s_b : Felt; pt_s_b2 : Felt; pt_s_r2 : Felt;
  pt_range : Range; pt_range2 : Range }.

(** [SerializablePoint::from_affine]. *)
Definition sp_from_affine (a : Aff) : SerializablePoint :=
  {| sp_x := aff_x a; sp_y := aff_y a |}.

(** [SerializablePoint::try_from_projective]. *)
Definition try_from_projective (p : Proj) : Result SerializablePoint :=
  a ← ok_or (proj_to_affine p) PointAtInfinity;
  Ok (sp_from_affine a).

(** [SerializablePoint::to_affine]. *)
Definition sp_to_affine (s : SerializablePoint) : Result Aff :=
  ok_or (aff_new (sp_x s) (sp_y s)) (InvalidPublicKey "Invalid point").
End types.

(** [AccountState]: the decrypted balances are [u128], the nonce a [u64]. *)
Record AccountState : Type := { st_balance : Z; st_pending_balance : Z; st_nonce : Z }.

Inductive TransactionType : Type := Fund | Send | Rollover | Withdraw.

Section types_lemmas.
Context `{StarkLaws}.

(** Serialising an affine point and parsing it back gives the point. *)
Lemma sp_to_affine_from_affine (a : Aff) : sp_to_affine (sp_from_affine a) = Ok a.
Proof. unfold sp_to_affine. cbn. by rewrite aff_on_curve. Qed.

Lemma try_from_projective_Ok p s :
  try_from_projective p = Ok s ->
  exists a, proj_to_affine p = Some a /\ s = sp_from_affine a.
Proof. unfold try_from_projective. intros Hs. inv_ok. eauto. Qed.

Lemma sp_to_affine_try p s :
  try_from_projective p = Ok s ->
  exists a, sp_to_affine s = Ok a /\ proj_to_affine p = Some a.
Proof.
  intros (a & Ha & ->)%try_from_projective_Ok. exists a. split; [|done].
  apply sp_to_affine_from_affine.
Qed.
End types_lemmas.
