(* ===== verification/Scalar.v ===== *)
(** * Scalar arithmetic modulo the curve order (crates/crypto/src/scalar.rs) *)

From stdpp Require Import base option list numbers.
From Stdlib Require Import ZArith Lia Zdiv.
From S2P Require Import Prelude StarkLib Types.

Section scalar.
Context `{StarkTypes}.

Definition OrderResidue : Type := Monty CurveOrder.

Definition residue_from_felt (value : Felt) : OrderResidue :=
  monty_new CurveOrder (be_value (to_bytes_be value)).

Definition felt_from_residue (residue : OrderResidue) : Felt :=
  from_bytes_be (be_bytes 32 (monty_retrieve CurveOrder residue)).

Definition scalar_add (a b : Felt) : Result Felt :=
  Ok (felt_from_residue (monty_add CurveOrder (residue_from_felt a) (residue_from_felt b))).

Definition scalar_sub (a b : Felt) : Result Felt :=
  Ok (felt_from_residue (monty_sub CurveOrder (residue_from_felt a) (residue_from_felt b))).

Definition scalar_mul (a b : Felt) : Result Felt :=
  Ok (felt_from_residue (monty_mul CurveOrder (residue_from_felt a) (residue_from_felt b))).

Definition reduce_scalar (a : Felt) : Result Felt :=
  Ok (felt_from_residue (residue_from_felt a)).
End scalar.

Section scalar_lemmas.
Context `{StarkLaws}.

Lemma felt_val_range (f : Felt) : 0 <= felt_val f < felt_prime.
Proof.
  split; [|apply felt_val_lt].
  unfold felt_val. pose proof (be_value_bound _ (to_bytes_be_ok f)). lia.
Qed.

Lemma residue_from_felt_val (f : Felt) :
  monty_retrieve CurveOrder (residue_from_felt f) = felt_val f mod CurveOrder.
Proof.
  unfold residue_from_felt. fold (felt_val f). apply monty_new_val; [done|].
  pose proof (felt_val_range f). assert (felt_prime < 2 ^ 256) by reflexivity. lia.
Qed.

(** A residue goes back to the felt with the same canonical integer. *)
Lemma felt_from_residue_val (r : OrderResidue) :
  0 <= monty_retrieve CurveOrder r < CurveOrder ->
  felt_val (felt_from_residue r) = monty_retrieve CurveOrder r.
Proof.
  intros Hr. unfold felt_from_residue.
  rewrite from_bytes_be_val by (apply length_be_bytes || apply be_bytes_ok).
  rewrite be_value_be_bytes. pose proof CurveOrder_lt_prime.
  assert (felt_prime < 256 ^ Z.of_nat 32) by reflexivity.
  rewrite (Z.mod_small _ (256 ^ _)) by lia. apply Z.mod_small. lia.
Qed.

Lemma mod_order_range z : 0 <= z mod CurveOrder < CurveOrder.
Proof. apply Z.mod_pos_bound, CurveOrder_pos. Qed.

Lemma scalar_add_Ok a b s :
  scalar_add a b = Ok s -> felt_val s = (felt_val a + felt_val b) mod CurveOrder.
Proof.
  intros [= <-]. rewrite felt_from_residue_val; rewrite monty_add_val, !residue_from_felt_val by done;
    rewrite <- Zplus_mod; [done|apply mod_order_range].
Qed.

Lemma scalar_sub_Ok a b s :
  scalar_sub a b = Ok s -> felt_val s = (felt_val a - felt_val b) mod CurveOrder.
Proof.
  intros [= <-]. rewrite felt_from_residue_val; rewrite monty_sub_val, !residue_from_felt_val by done;
    rewrite <- Zminus_mod; [done|apply mod_order_range].
Qed.

Lemma scalar_mul_Ok a b s :
  scalar_mul a b = Ok s -> felt_val s = (felt_val a * felt_val b) mod CurveOrder.
Proof.
  intros [= <-]. rewrite felt_from_residue_val; rewrite monty_mul_val, !residue_from_felt_val by done;
    rewrite <- Zmult_mod; [done|apply mod_order_range].
Qed.

Lemma reduce_scalar_Ok a s :
  reduce_scalar a = Ok s -> felt_val s = felt_val a mod CurveOrder.
Proof.
  intros [= <-]. rewrite felt_from_residue_val; rewrite residue_from_felt_val;
    [done|apply mod_order_range].
Qed.

Lemma felt_u128_val z : 0 <= z <= u128_MAX -> felt_val (felt_of_Z z) = z.
Proof.
  intros Hz. rewrite felt_of_Z_val by lia. apply Z.mod_small.
  assert (u128_MAX < felt_prime) by reflexivity. lia.
Qed.
End scalar_lemmas.
