(* ===== verification/Curve.v ===== *)
(** * Elliptic-curve operations (crates/crypto/src/curve.rs)

    Every [expect] of the source is a possible [Panic] here; the lemmas show that
    none is reached.  [curve_scalar_mul] is the regularised double-and-add loop,
    byte by byte and bit by bit, with its constant-time selection. *)

From stdpp Require Import base option list numbers.
From Stdlib Require Import ZArith Lia Zdiv.
From S2P Require Import Prelude StarkLib GroupTac Types Scalar.

Section curve.
Context `{StarkTypes}.

(** [GENERATOR_INNER] and [GENERATOR_H_INNER], forced. *)
Definition generator : Result Proj := expect (proj_from_affine G_X G_Y).
Definition generator_h : Result Proj := expect (proj_from_affine H_X H_Y).

(** Constant-time select between two field elements ([choice ? a : b]). *)
Definition ct_select_felt (choice : bool) (a b : Felt) : Felt :=
  from_bytes_be
    (zip_with (fun ai bi => u8_conditional_select bi ai choice) (to_bytes_be a) (to_bytes_be b)).

Definition ct_select_point (choice : bool) (a b : Proj) : Result Proj :=
  expect (proj_new
    (ct_select_felt choice (proj_x a) (proj_x b))
    (ct_select_felt choice (proj_y a) (proj_y b))
    (ct_select_felt choice (proj_z a) (proj_z b))).

(** One bit of the inner loop: [(result, temp)]. *)
Definition scalar_mul_bit (byte : Z) (acc : Proj * Proj) (i : nat) : Result (Proj * Proj) :=
  let '(result, temp) := acc in
  let bit := Z.land (Z.shiftr byte (Z.of_nat i)) 1 =? 1 in
  let added := proj_add result temp in
  result ← ct_select_point bit added result;
  Ok (result, proj_add temp temp).

Definition scalar_mul_byte (acc : Proj * Proj) (byte : Z) : Result (Proj * Proj) :=
  foldM (scalar_mul_bit byte) acc (seq 0 8).

Definition curve_scalar_mul (point : Proj) (scalar : Felt) : Result Proj :=
  '(result, _) ← foldM scalar_mul_byte (proj_identity, point) (rev (to_bytes_be scalar));
  Ok result.

Definition curve_mul (scalar : Felt) (point : option Proj) : Result Proj :=
  base ← match point with Some p => Ok p | None => generator end;
  curve_scalar_mul base scalar.

Definition curve_mul_generator (scalar : Felt) : Result Proj :=
  g ← generator; curve_scalar_mul g scalar.

Definition curve_add (p1 p2 : Proj) : Proj := proj_add p1 p2.

Definition affine_to_projective (point : Aff) : Result Proj :=
  expect (proj_from_affine (aff_x point) (aff_y point)).

Definition projective_to_affine (point : Proj) : Result Aff :=
  ok_or (proj_to_affine point) PointAtInfinity.

Definition is_infinity (point : Proj) : bool :=
  match proj_to_affine point with Some _ => false | None => true end.

Definition is_on_curve (x y : Felt) : bool :=
  match aff_new x y with Some _ => true | None => false end.
End curve.

Section curve_lemmas.
Context `{StarkLaws}.
Implicit Types (p q : Proj) (s : Felt).

Lemma from_bytes_to_bytes (f : Felt) : from_bytes_be (to_bytes_be f) = f.
Proof.
  apply felt_val_inj. rewrite from_bytes_be_val by (apply to_bytes_be_length || apply to_bytes_be_ok).
  apply Z.mod_small, felt_val_range.
Qed.

Lemma zip_with_fst (a b : list Z) :
  length a = length b -> zip_with (fun x _ => x) a b = a.
Proof. revert b; induction a; intros [|]; cbn; intros; f_equal; auto; lia. Qed.
Lemma zip_with_snd (a b : list Z) :
  length a = length b -> zip_with (fun _ y => y) a b = b.
Proof. revert b; induction a; intros [|]; cbn; intros; f_equal; auto; lia. Qed.

(** The byte-masked selection returns exactly one of its arguments. *)
Lemma ct_select_felt_spec c a b : ct_select_felt c a b = if c then a else b.
Proof.
  unfold ct_select_felt.
  assert (length (to_bytes_be a) = length (to_bytes_be b)) as Hl by by rewrite !to_bytes_be_length.
  destruct c; rewrite <- from_bytes_to_bytes; f_equal.
  - rewrite <- (zip_with_fst _ (to_bytes_be b) Hl) at 2.
    apply zip_with_ext; [|done..]. intros ? ?. apply u8_conditional_select_spec.
  - rewrite <- (zip_with_snd (to_bytes_be a) _ Hl) at 2.
    apply zip_with_ext; [|done..]. intros ? ?. apply u8_conditional_select_spec.
Qed.

Lemma ct_select_point_spec c p q :
  exists r, ct_select_point c p q = Ok r /\ r ≡ if c then p else q.
Proof.
  unfold ct_select_point. rewrite !ct_select_felt_spec.
  destruct c; [destruct (proj_new_coords p) as (r & -> & Hr)
              |destruct (proj_new_coords q) as (r & -> & Hr)]; by exists r.
Qed.

(** After [n] bits of [byte] the accumulator holds that many low bits. *)
Lemma scalar_mul_bits byte p0 t0 n :
  0 <= byte ->
  exists r t, foldM (scalar_mul_bit byte) (p0, t0) (seq 0 n) = Ok (r, t)
    /\ r ≡ p0 ⊕ (byte mod 2 ^ Z.of_nat n) • t0 /\ t ≡ 2 ^ Z.of_nat n • t0.
Proof.
  intros Hb. induction n as [|n (r & t & IH & Hr & Ht)].
  - exists p0, t0. rewrite Z.mod_1_r. split_and!; [done|proj_module|proj_module].
  - rewrite seq_S, foldM_app, IH. cbn [mbind outcome_bind foldM scalar_mul_bit plus].
    rewrite land_shiftr_testbit by lia.
    destruct (ct_select_point_spec (Z.testbit byte (Z.of_nat n)) (r ⊕ t) r) as (r' & Hs & Hr').
    rewrite Hs. cbn [mbind outcome_bind].
    exists r', (t ⊕ t). split; [done|].
    rewrite Nat2Z.inj_succ. split.
    + rewrite mod_pow2_succ, Hr' by lia.
      destruct (Z.testbit byte (Z.of_nat n)); cbn [Z.b2z]; rewrite Hr, ?Ht; proj_module.
    + rewrite Z.pow_succ_r, Ht by lia. proj_module.
Qed.

Lemma scalar_mul_byte_spec p0 t0 byte :
  byte_ok byte ->
  exists r t, scalar_mul_byte (p0, t0) byte = Ok (r, t)
    /\ r ≡ p0 ⊕ byte • t0 /\ t ≡ 256 • t0.
Proof.
  intros Hb. unfold byte_ok in Hb.
  destruct (scalar_mul_bits byte p0 t0 8) as (r & t & ? & Hr & ?); [lia|].
  exists r, t. rewrite Z.mod_small in Hr by (cbn; lia). done.
Qed.

(** The loop over the bytes, least significant first. *)
Lemma scalar_mul_bytes p0 t0 bs :
  Forall byte_ok bs ->
  exists r t, foldM scalar_mul_byte (p0, t0) (rev bs) = Ok (r, t)
    /\ r ≡ p0 ⊕ be_value bs • t0 /\ t ≡ 256 ^ Z.of_nat (length bs) • t0.
Proof.
  intros Hbs. induction Hbs as [|b bs Hb _ (r & t & IH & Hr & Ht)].
  - exists p0, t0. split_and!; [done|proj_module|proj_module].
  - cbn [rev]. rewrite foldM_app, IH. cbn [mbind outcome_bind foldM].
    destruct (scalar_mul_byte_spec r t b Hb) as (r' & t' & -> & Hr' & Ht').
    exists r', t'. split; [done|]. split.
    + rewrite Hr', Hr, Ht, be_value_cons. proj_module.
    + cbn [length]. rewrite Nat2Z.inj_succ, Z.pow_succ_r, Ht', Ht by lia. proj_module.
Qed.

Lemma curve_scalar_mul_spec p s :
  exists q, curve_scalar_mul p s = Ok q /\ q ≡ felt_val s • p.
Proof.
  destruct (scalar_mul_bytes proj_identity p (to_bytes_be s) (to_bytes_be_ok s))
    as (r & t & Hf & Hr & _).
  exists r. unfold curve_scalar_mul. rewrite Hf. split; [done|].
  rewrite Hr. unfold felt_val. proj_module.
Qed.

Lemma curve_mul_spec s p : exists q, curve_mul s (Some p) = Ok q /\ q ≡ felt_val s • p.
Proof. apply curve_scalar_mul_spec. Qed.

Lemma curve_mul_Ok s p q : curve_mul s (Some p) = Ok q -> q ≡ felt_val s • p.
Proof. destruct (curve_mul_spec s p) as (q' & -> & Hq). by intros [= <-]. Qed.

Lemma generator_spec : exists g, generator = Ok g.
Proof.
  destruct generator_valid as [a Ha]. destruct (from_affine_valid _ _ _ Ha) as (p & Hp & _).
  exists p. unfold generator. by rewrite Hp.
Qed.

Lemma generator_h_spec : exists h, generator_h = Ok h.
Proof.
  destruct generator_h_valid as [a Ha]. destruct (from_affine_valid _ _ _ Ha) as (p & Hp & _).
  exists p. unfold generator_h. by rewrite Hp.
Qed.

(** Multiples of the generator vanish only for multiples of the order. *)
Lemma generator_smul_infinity g k :
  generator = Ok g -> k • g ≡ proj_identity <-> k mod CurveOrder = 0.
Proof.
  unfold generator. intros Hg%expect_Ok. split; [by apply generator_order|].
  intros Hk. by rewrite (smul_eqm k 0).
Qed.

Lemma generator_finite g : generator = Ok g -> ~ g ≡ proj_identity.
Proof.
  intros Hg Hi. assert (1 • g ≡ proj_identity) as H1g by by rewrite smul_1_l.
  by apply (generator_smul_infinity g 1 Hg) in H1g.
Qed.

Lemma generator_h_smul_infinity h k :
  generator_h = Ok h -> k • h ≡ proj_identity <-> k mod CurveOrder = 0.
Proof.
  unfold generator_h. intros Hg%expect_Ok. split; [by apply generator_h_order|].
  intros Hk. by rewrite (smul_eqm k 0).
Qed.

Lemma affine_to_projective_spec (a : Aff) :
  exists p, affine_to_projective a = Ok p /\ proj_to_affine p = Some a.
Proof.
  destruct (from_affine_valid _ _ _ (aff_on_curve a)) as (p & Hp & Ha).
  exists p. unfold affine_to_projective. by rewrite Hp.
Qed.

(** Affine coordinates determine the point: a projective point survives the
    conversion to affine and back. *)
Lemma affine_roundtrip p a :
  proj_to_affine p = Some a -> exists q, affine_to_projective a = Ok q /\ q ≡ p.
Proof.
  intros Ha. destruct (affine_to_projective_spec a) as (q & Hq & Ha'). exists q.
  split; [done|]. apply to_affine_eq. congruence.
Qed.

Lemma affine_to_projective_Ok (a : Aff) p :
  affine_to_projective a = Ok p -> proj_to_affine p = Some a.
Proof. destruct (affine_to_projective_spec a) as (q & -> & Ha). by intros [= <-]. Qed.

Lemma to_affine_not_infinity p : ~ p ≡ proj_identity <-> exists a, proj_to_affine p = Some a.
Proof.
  rewrite <- to_affine_infinity. destruct (proj_to_affine p); split; [eauto|done|done|].
  intros [a [=]].
Qed.

Lemma is_infinity_spec p : is_infinity p = true <-> p ≡ proj_identity.
Proof. unfold is_infinity. rewrite <- to_affine_infinity. by destruct (proj_to_affine p). Qed.

#[export] Instance is_infinity_proper : Proper ((≡) ==> (=)) is_infinity.
Proof. intros p q Hpq%to_affine_eq. unfold is_infinity. by rewrite Hpq. Qed.

#[export] Instance to_affine_proper : Proper ((≡) ==> (=)) proj_to_affine.
Proof. intros p q Hpq. by apply to_affine_eq. Qed.

#[export] Instance projective_to_affine_proper : Proper ((≡) ==> (=)) projective_to_affine.
Proof. intros p q Hpq. unfold projective_to_affine. by rewrite Hpq. Qed.

(** Negating the y-coordinate negates the point: the pattern
    [affine_to_projective(AffinePoint::new(p.x(), -p.y()))]. *)
Lemma aff_neg_spec p a :
  proj_to_affine p = Some a ->
  exists b q, aff_new (aff_x a) (felt_neg (aff_y a)) = Some b
    /\ affine_to_projective b = Ok q /\ q ≡ (-1) • p.
Proof.
  intros Ha. destruct (aff_neg_on_curve a) as [b Hb].
  destruct (affine_to_projective_spec b) as (q & Hq & Hqb).
  exists b, q. split_and!; [done|done|].
  destruct (affine_roundtrip p a Ha) as (p' & Hp' & Hpp'). rewrite <- Hpp'.
  apply proj_opp_unique.
  destruct (aff_new_coords _ _ _ Hb) as [Hx Hy].
  unfold affine_to_projective in Hq, Hp'. rewrite Hx, Hy in Hq.
  apply expect_Ok in Hq, Hp'. by apply (aff_neg_add a).
Qed.

Lemma aff_neg_Ok p a b q :
  proj_to_affine p = Some a -> aff_new (aff_x a) (felt_neg (aff_y a)) = Some b ->
  affine_to_projective b = Ok q -> q ≡ (-1) • p.
Proof.
  intros Ha Hb Hq. destruct (aff_neg_spec p a Ha) as (b' & q' & Hb' & Hq' & Heq).
  rewrite Hb in Hb'. injection Hb' as <-. rewrite Hq in Hq'. by injection Hq' as <-.
Qed.
End curve_lemmas.

(** ** Comparing points through their affine coordinates

    The three lines the verifiers share:
    [projective_to_affine(lhs)?; projective_to_affine(rhs)?; lhs == rhs]. *)
Definition affine_eq `{StarkTypes} (lhs rhs : Proj) : Result bool :=
  lhs_affine ← projective_to_affine lhs;
  rhs_affine ← projective_to_affine rhs;
  Ok (bool_decide (lhs_affine = rhs_affine)).

(** [affine_to_projective(AffinePoint::new(p.x(), -p.y())?)] for a given error. *)
Definition negate_affine `{StarkTypes} (e : KmsError) (a : Aff) : Result Proj :=
  b ← ok_or (aff_new (aff_x a) (felt_neg (aff_y a))) e;
  affine_to_projective b.

Section affine_eq.
Context `{StarkLaws}.
Implicit Types p q : Proj.

#[export] Instance affine_eq_proper : Proper ((≡) ==> (≡) ==> (=)) affine_eq.
Proof.
  intros p p' Hp%projective_to_affine_proper q q' Hq%projective_to_affine_proper.
  unfold affine_eq. by rewrite Hp, Hq.
Qed.

(** Equal points compare equal, unless they are the point at infinity, which
    has no affine coordinates. *)
Lemma affine_eq_equiv p q :
  p ≡ q -> affine_eq p q = if is_infinity p then Err PointAtInfinity else Ok true.
Proof.
  intros ->. unfold affine_eq, projective_to_affine, is_infinity.
  destruct (proj_to_affine q); cbn; [|done]. by rewrite bool_decide_true.
Qed.

Lemma affine_eq_true p q : affine_eq p q = Ok true <-> p ≡ q /\ ~ p ≡ proj_identity.
Proof.
  split.
  - unfold affine_eq, projective_to_affine. intros Ht. inv_ok.
    apply bool_decide_eq_true in Ht. subst. split; [apply to_affine_eq; congruence|].
    apply to_affine_not_infinity. eauto.
  - intros [Hpq Hi]. rewrite affine_eq_equiv by done. rewrite <- is_infinity_spec in Hi.
    by destruct (is_infinity p).
Qed.

Lemma negate_affine_spec e p a :
  proj_to_affine p = Some a -> exists q, negate_affine e a = Ok q /\ q ≡ (-1) • p.
Proof.
  intros Ha. destruct (aff_neg_spec p a Ha) as (b & q & Hb & Hq & Heq). exists q.
  unfold negate_affine. rewrite Hb. done.
Qed.

Lemma negate_affine_Ok e p a q :
  proj_to_affine p = Some a -> negate_affine e a = Ok q -> q ≡ (-1) • p.
Proof.
  intros Ha Hq. destruct (negate_affine_spec e p a Ha) as (q' & Hq' & Heq).
  rewrite Hq in Hq'. by injection Hq' as <-.
Qed.

Lemma try_from_projective_finite p s : try_from_projective p = Ok s -> ~ p ≡ proj_identity.
Proof. intros (a & Ha & _)%try_from_projective_Ok. apply to_affine_not_infinity. eauto. Qed.

Lemma try_from_projective_total p :
  ~ p ≡ proj_identity -> exists s, try_from_projective p = Ok s.
Proof.
  intros [a Ha]%to_affine_not_infinity. unfold try_from_projective. rewrite Ha. cbn. eauto.
Qed.
End affine_eq.

(** Executing one curve multiplication of a monadic goal, by its arguments. *)
Tactic Notation "mul_step" constr(s) constr(p) "as" ident(q) ident(Hq) :=
  let E := fresh "E" in
  destruct (curve_mul_spec s p) as (q & E & Hq); rewrite E; clear E; cbn [mbind outcome_bind].

(** The same for the scalar operations, which never fail. *)
Tactic Notation "scalar_step" constr(t) "as" ident(s) ident(Hs) :=
  let E := fresh "E" in
  destruct t as [s| |] eqn:E; [|discriminate E..];
  cbn [mbind outcome_bind];
  lazymatch t with
  | scalar_add _ _ => apply scalar_add_Ok in E
  | scalar_sub _ _ => apply scalar_sub_Ok in E
  | scalar_mul _ _ => apply scalar_mul_Ok in E
  end;
  rename E into Hs.

(** Turning every curve and scalar step of the context into its equation. *)
Ltac curve_facts :=
  repeat match goal with
  | Hm : curve_mul ?s (Some ?p) = Ok ?q |- _ => apply curve_mul_Ok in Hm
  | Hm : scalar_add _ _ = Ok _ |- _ => apply scalar_add_Ok in Hm
  | Hm : scalar_sub _ _ = Ok _ |- _ => apply scalar_sub_Ok in Hm
  | Hm : scalar_mul _ _ = Ok _ |- _ => apply scalar_mul_Ok in Hm
  | Ha : proj_to_affine ?p = Some ?a, Hm : negate_affine _ ?a = Ok _ |- _ =>
      apply (negate_affine_Ok _ _ _ _ Ha) in Hm
  | Hm : affine_eq _ _ = Ok true |- _ => apply affine_eq_true in Hm
  end.

(** Replacing intermediate points and scalars by what they stand for. *)
Ltac point_subst :=
  repeat match goal with
  | Hm : ?q ≡ _ |- context [?q] => is_var q; rewrite Hm
  | Hm : felt_val ?s = _ |- context [felt_val ?s] => is_var s; rewrite Hm
  end.
Ltac point_module := point_subst; proj_module.

(** The converse: multiples folded back into the intermediate points. *)
Ltac fold_points :=
  repeat match goal with
  | Hm : ?q ≡ _ • _ |- context [_ • _] => is_var q; rewrite <- Hm; clear Hm
  end.
