(* ===== verification/Hash.v ===== *)
(** * Fiat-Shamir challenges (crates/crypto/src/hash.rs)

    Pedersen and Poseidon are parameters; what is modelled is how the crate feeds
    them.  The challenges depend on the points only up to projective equality. *)

From stdpp Require Import base option list numbers.
From Stdlib Require Import ZArith Lia Zdiv.
From S2P Require Import Prelude StarkLib Types Scalar Curve.

Section hash.
Context `{StarkTypes}.

(** [point.to_affine().map_err(|_| KmsError::PointAtInfinity)?]. *)
Definition to_affine_or_infinity (point : Proj) : Result Aff :=
  ok_or (proj_to_affine point) PointAtInfinity.

Definition compute_challenge (prefix : Felt) (points : list Proj) : Result Felt :=
  foldM (fun current point =>
    affine ← to_affine_or_infinity point;
    let current := pedersen_hash current (aff_x affine) in
    Ok (pedersen_hash current (aff_y affine))) prefix points.

Definition compute_challenge_single (prefix : Felt) (point : Proj) : Result Felt :=
  compute_challenge prefix [point].

Definition compute_challenge_pair (prefix : Felt) (point1 point2 : Proj) : Result Felt :=
  compute_challenge prefix [point1; point2].

Definition compute_challenge_triple (prefix : Felt) (point1 point2 point3 : Proj) : Result Felt :=
  compute_challenge prefix [point1; point2; point3].

Definition hash_felts (felts : list Felt) : Felt :=
  fold_left (fun acc felt => pedersen_hash acc felt) felts (felt_of_Z 0).

Definition poseidon_hash_many (felts : list Felt) : Felt := poseidon_hash_array felts.

(** The loop that pushes the coordinates of each point after the prefix. *)
Definition push_coordinates (felts : list Felt) (points : list Proj) : Result (list Felt) :=
  foldM (fun felts point =>
    affine ← to_affine_or_infinity point;
    Ok (felts ++ [aff_x affine; aff_y affine])) felts points.

Definition extend_poseidon_prefix (prefix : Felt) (points : list Proj) : Result Felt :=
  felts ← push_coordinates [prefix] points;
  Ok (poseidon_hash_many felts).

Definition extend_pedersen_prefix (prefix : Felt) (points : list Proj) : Result Felt :=
  compute_challenge prefix points.

Definition compute_poseidon_challenge (prefix : Felt) (points : list Proj) : Result Felt :=
  felts ← push_coordinates [prefix] points;
  let hash := poseidon_hash_array felts in
  reduce_scalar hash.
End hash.

Section hash_lemmas.
Context `{StarkLaws}.

#[export] Instance to_affine_or_infinity_proper : Proper ((≡) ==> (=)) to_affine_or_infinity.
Proof. intros p q Hpq. unfold to_affine_or_infinity. by rewrite Hpq. Qed.

Lemma to_affine_or_infinity_total p :
  ~ p ≡ proj_identity -> exists a, to_affine_or_infinity p = Ok a.
Proof.
  intros [a Ha]%to_affine_not_infinity. exists a. unfold to_affine_or_infinity. by rewrite Ha.
Qed.

Lemma foldM_points_proper {B} (f : B -> Aff -> Result B) b (ps qs : list Proj) :
  ps ≡ qs ->
  foldM (fun b p => a ← to_affine_or_infinity p; f b a) b ps
  = foldM (fun b p => a ← to_affine_or_infinity p; f b a) b qs.
Proof.
  intros Hpq. revert b. induction Hpq as [|p q ps qs Hp _ IH]; intros b; cbn [foldM]; [done|].
  rewrite Hp. destruct (to_affine_or_infinity q) as [a| |]; cbn; [|done..].
  destruct (f b a); cbn; auto.
Qed.

#[export] Instance compute_challenge_proper : Proper ((=) ==> (≡) ==> (=)) compute_challenge.
Proof. intros x ? <- ps qs Hps. unfold compute_challenge. by apply foldM_points_proper. Qed.

#[export] Instance push_coordinates_proper : Proper ((=) ==> (≡) ==> (=)) push_coordinates.
Proof. intros x ? <- ps qs Hps. unfold push_coordinates. by apply foldM_points_proper. Qed.

#[export] Instance compute_poseidon_challenge_proper :
  Proper ((=) ==> (≡) ==> (=)) compute_poseidon_challenge.
Proof. intros x ? <- ps qs Hps. unfold compute_poseidon_challenge. by rewrite Hps. Qed.

Lemma push_coordinates_total felts ps :
  Forall (fun p => ~ p ≡ proj_identity) ps -> exists fs, push_coordinates felts ps = Ok fs.
Proof.
  unfold push_coordinates. intros Hps. revert felts.
  induction Hps as [|p ps Hp _ IH]; intros felts; cbn [foldM]; [eauto|].
  apply to_affine_or_infinity_total in Hp as [a Ha]. rewrite Ha. apply IH.
Qed.

(** A Poseidon challenge exists exactly when no point is at infinity, and is a
    scalar below the curve order. *)
Lemma compute_poseidon_challenge_total prefix ps :
  Forall (fun p => ~ p ≡ proj_identity) ps ->
  exists c, compute_poseidon_challenge prefix ps = Ok c /\ 0 <= felt_val c < CurveOrder.
Proof.
  intros Hps. destruct (push_coordinates_total [prefix] ps Hps) as [fs Hfs].
  unfold compute_poseidon_challenge. rewrite Hfs. cbn.
  eexists. split; [done|]. erewrite reduce_scalar_Ok by done. apply mod_order_range.
Qed.

Lemma compute_challenge_total prefix ps :
  Forall (fun p => ~ p ≡ proj_identity) ps -> exists c, compute_challenge prefix ps = Ok c.
Proof.
  unfold compute_challenge. intros Hps. revert prefix.
  induction Hps as [|p ps Hp _ IH]; intros prefix; cbn [foldM]; [eauto|].
  apply to_affine_or_infinity_total in Hp as [a Ha]. rewrite Ha. apply IH.
Qed.

Lemma foldM_points_Ok {B} (f : B -> Aff -> Result B) b (ps : list Proj) r :
  foldM (fun b p => a ← to_affine_or_infinity p; f b a) b ps = Ok r ->
  Forall (fun p => ~ p ≡ proj_identity) ps.
Proof.
  revert b; induction ps as [|p ps IH]; intros b Hf; [constructor|]. cbn [foldM] in Hf.
  inv_ok. constructor; [|by eapply IH]. apply to_affine_not_infinity.
  unfold to_affine_or_infinity in *. inv_ok. eauto.
Qed.

Lemma compute_poseidon_challenge_Ok prefix ps c :
  compute_poseidon_challenge prefix ps = Ok c ->
  Forall (fun p => ~ p ≡ proj_identity) ps /\ 0 <= felt_val c < CurveOrder.
Proof.
  unfold compute_poseidon_challenge. intros Hc. apply bind_Ok in Hc as (fs & Hfs & Hc).
  split; [exact (foldM_points_Ok (fun felts a => Ok (felts ++ [aff_x a; aff_y a])) _ _ _ Hfs)|].
  apply reduce_scalar_Ok in Hc. rewrite Hc. apply mod_order_range.
Qed.

Lemma compute_challenge_Ok prefix ps c :
  compute_challenge prefix ps = Ok c -> Forall (fun p => ~ p ≡ proj_identity) ps.
Proof.
  exact (foldM_points_Ok (fun x a => Ok (pedersen_hash (pedersen_hash x (aff_x a)) (aff_y a))) _ _ _).
Qed.
End hash_lemmas.
