(* ===== verification/Poe.v ===== *)
(** * Proof of exponentiation (crates/crypto/src/poe.rs)

    Schnorr's protocol for [y = g^x] under Fiat-Shamir.  The random nonce is an
    argument of the prover. *)

From stdpp Require Import base option list numbers.
From Stdlib Require Import ZArith Lia Zdiv.
From S2P Require Import Prelude StarkLib Primality GroupTac StarkModel Types Scalar Curve Hash.

Section poe.
Context `{StarkTypes}.

(** [ProofOfExponentiation::prove]; [r] is the draw of [random_felt]. *)
Definition poe_prove (r : Felt) (x prefix : Felt) : Result (Proj * PoeProof) :=
  g ← generator;
  y ← curve_mul x (Some g);
  a ← curve_mul r (Some g);
  c ← compute_poseidon_challenge prefix [a];
  c_x ← scalar_mul c x;
  s ← scalar_add r c_x;
  a_ser ← try_from_projective a;
  Ok (y, {| poe_a := a_ser; poe_s := s; poe_c := c |}).

(** [ProofOfExponentiation::verify]. *)
Definition poe_verify (y : Proj) (proof : PoeProof) (prefix : Felt) : Result bool :=
  g ← generator;
  a ← sp_to_affine (poe_a proof);
  a_proj ← affine_to_projective a;
  let s := poe_s proof in
  let c := poe_c proof in
  c_computed ← compute_poseidon_challenge prefix [a_proj];
  if bool_decide (c <> c_computed) then Ok false
  else
    lhs ← curve_mul s (Some g);
    y_c ← curve_mul c (Some y);
    let rhs := curve_add a_proj y_c in
    affine_eq lhs rhs.

(** [ProofOfExponentiation::verify_internal]. *)
Definition poe_verify_internal (y gen a : Proj) (c s : Felt) : Result bool :=
  lhs ← curve_mul s (Some gen);
  y_c ← curve_mul c (Some y);
  let rhs := curve_add a y_c in
  affine_eq lhs rhs.
End poe.

Section poe_lemmas.
Context `{StarkLaws}.

(** The equation [verify_internal] checks. *)
Lemma poe_verify_internal_true y gen a c s :
  poe_verify_internal y gen a c s = Ok true <->
  felt_val s • gen ≡ a ⊕ felt_val c • y /\ ~ felt_val s • gen ≡ proj_identity.
Proof.
  unfold poe_verify_internal, curve_add. mul_step s gen as lhs Hl. mul_step c y as yc Hy.
  by rewrite affine_eq_true, Hl, Hy.
Qed.

Lemma poe_verify_internal_equiv y gen a c s :
  felt_val s • gen ≡ a ⊕ felt_val c • y ->
  poe_verify_internal y gen a c s
  = if is_infinity (felt_val s • gen) then Err PointAtInfinity else Ok true.
Proof.
  intros Heq. unfold poe_verify_internal, curve_add. mul_step s gen as lhs Hl. mul_step c y as yc Hy.
  rewrite <- Hl. apply affine_eq_equiv. by rewrite Hl, Hy.
Qed.

#[export] Instance poe_verify_internal_proper :
  Proper ((≡) ==> (≡) ==> (≡) ==> (=) ==> (=) ==> (=)) poe_verify_internal.
Proof.
  intros y y' Hy g g' Hg a a' Ha c ? <- s ? <-. unfold poe_verify_internal, curve_add.
  mul_step s g as l1 H1. mul_step c y as l2 H2. mul_step s g' as l3 H3. mul_step c y' as l4 H4.
  by rewrite H1, H2, H3, H4, Hy, Hg, Ha.
Qed.

(** [verify] parses the commitment and runs the same equation. *)
Lemma poe_verify_unfold y pf prefix g a ap c :
  generator = Ok g -> sp_to_affine (poe_a pf) = Ok a -> affine_to_projective a = Ok ap ->
  compute_poseidon_challenge prefix [ap] = Ok c ->
  poe_verify y pf prefix
  = if bool_decide (poe_c pf <> c) then Ok false
    else poe_verify_internal y g ap (poe_c pf) (poe_s pf).
Proof.
  intros Hg Ha Hap Hc. unfold poe_verify. run Hg. run Ha. run Hap. by rewrite Hc.
Qed.

Lemma poe_verify_true_inv y pf prefix :
  poe_verify y pf prefix = Ok true ->
  exists g ap, generator = Ok g
    /\ (a ← sp_to_affine (poe_a pf); affine_to_projective a) = Ok ap
    /\ compute_poseidon_challenge prefix [ap] = Ok (poe_c pf)
    /\ felt_val (poe_s pf) • g ≡ ap ⊕ felt_val (poe_c pf) • y.
Proof.
  intros Hv. unfold poe_verify in Hv. inv_ok. case_bool_decide as Hc; [done|].
  subst. inv_ok. curve_facts. destruct Hv as [Hv _].
  exists a, a1. split_and!; [done|by rewrite H2|done|].
  unfold curve_add in Hv. by rewrite <- H5, <- H6.
Qed.
End poe_lemmas.

(** ** Correctness *)
Section poe_theorems.
Context `{StarkLaws}.

Lemma poe_prove_run (r x prefix : Felt) :
  felt_val r mod CurveOrder <> 0 ->
  exists g y pf, generator = Ok g /\ poe_prove r x prefix = Ok (y, pf)
    /\ y ≡ felt_val x • g
    /\ poe_verify y pf prefix
       = if felt_val (poe_s pf) =? 0 then Err PointAtInfinity else Ok true.
Proof.
  intros Hr. destruct generator_spec as [g Hg].
  unfold poe_prove. rewrite Hg. cbn [mbind outcome_bind].
  mul_step x g as y Hy. mul_step r g as q0 Hq0.
  assert (~ q0 ≡ proj_identity) as Hfin by by rewrite Hq0, (generator_smul_infinity g).
  destruct (compute_poseidon_challenge_total prefix [q0]) as (c & Hc & _); [by repeat constructor|].
  run Hc.
  scalar_step (scalar_mul c x) as cx Hcx. scalar_step (scalar_add r cx) as s Hs.
  pose proof Hfin as [a Ha]%to_affine_not_infinity.
  unfold try_from_projective. rewrite Ha. cbn [ok_or mbind outcome_bind].
  exists g, y. eexists. split_and!; [done..|]. cbn [poe_s].
  destruct (affine_roundtrip q0 a Ha) as (ap & Hap & Hapq).
  erewrite poe_verify_unfold; [|done|apply sp_to_affine_from_affine|done|by rewrite Hapq].
  cbn [poe_c poe_s]. rewrite bool_decide_false by tauto.
  rewrite poe_verify_internal_equiv.
  - pose proof (mod_order_range (felt_val r + felt_val cx)) as Hrange. rewrite <- Hs in Hrange.
    destruct (is_infinity _) eqn:Hi.
    + apply is_infinity_spec, (generator_smul_infinity g) in Hi; [|done].
      rewrite Z.mod_small in Hi by done. by rewrite Hi.
    + destruct (Z.eqb_spec (felt_val s) 0) as [E|]; [|done].
      rewrite E in Hi. rewrite <- not_true_iff_false, is_infinity_spec in Hi. by destruct Hi.
  - rewrite Hapq, Hy, Hq0, Hs, Hcx. proj_module.
Qed.

#[export] Instance poe_verify_proper : Proper ((≡) ==> (=) ==> (=) ==> (=)) poe_verify.
Proof.
  intros y y' Hy pf ? <- prefix ? <-. unfold poe_verify, curve_add.
  destruct generator as [g| |]; [|done..]. cbn [mbind outcome_bind].
  destruct (sp_to_affine (poe_a pf)) as [a| |]; [|done..]. cbn [mbind outcome_bind].
  destruct (affine_to_projective a) as [ap| |]; [|done..]. cbn [mbind outcome_bind].
  destruct (compute_poseidon_challenge prefix [ap]) as [c| |]; [|done..]. cbn [mbind outcome_bind].
  case_bool_decide; [done|].
  mul_step (poe_s pf) g as l Hl. mul_step (poe_c pf) y as q1 Hq1. mul_step (poe_c pf) y' as q2 Hq2.
  by rewrite Hq1, Hq2, Hy.
Qed.

(** A returned proof is accepted, unless its response is zero. *)
Lemma poe_prove_Ok r x prefix y pf g y' :
  generator = Ok g -> poe_prove r x prefix = Ok (y, pf) -> y' ≡ felt_val x • g ->
  poe_verify y' pf prefix = if felt_val (poe_s pf) =? 0 then Err PointAtInfinity else Ok true.
Proof.
  intros Hg Hp Hy'.
  assert (felt_val r mod CurveOrder <> 0) as Hr.
  { unfold poe_prove in Hp. rewrite Hg in Hp. cbn [mbind outcome_bind] in Hp. inv_ok. curve_facts.
    match goal with Ht : try_from_projective _ = Ok _ |- _ => apply try_from_projective_finite in Ht as Hf end.
    intros Hz. apply Hf. point_subst. by apply (generator_smul_infinity g). }
  destruct (poe_prove_run r x prefix Hr) as (g' & y0 & pf0 & Hg' & Hp' & Hy & Hv).
  rewrite Hg in Hg'. injection Hg' as <-. rewrite Hp in Hp'. injection Hp' as <- <-.
  by rewrite Hy', <- Hy.
Qed.

(** An honest proof of exponentiation is accepted, unless its response happens to be zero. *)
Theorem poe_complete (r x prefix : Felt) :
  felt_val r mod CurveOrder <> 0 ->
  exists g y pf, generator = Ok g /\ poe_prove r x prefix = Ok (y, pf)
    /\ y ≡ felt_val x • g
    /\ poe_verify y pf prefix
       = if felt_val (poe_s pf) =? 0 then Err PointAtInfinity else Ok true.
Proof. apply poe_prove_run. Qed.

(** The secret that two transcripts with one commitment give away. *)
Definition poe_extract (pf1 pf2 : PoeProof) : Z :=
  order_inverse (felt_val (poe_c pf1) - felt_val (poe_c pf2))
  * (felt_val (poe_s pf1) - felt_val (poe_s pf2)).

(** Two accepting proofs of exponentiation with the same commitment and different
    challenges yield the discrete logarithm. *)
Theorem poe_special_soundness (y : Proj) (pf1 pf2 : PoeProof) (prefix1 prefix2 : Felt) (g : Proj) :
  generator = Ok g ->
  poe_verify y pf1 prefix1 = Ok true -> poe_verify y pf2 prefix2 = Ok true ->
  poe_a pf1 = poe_a pf2 ->
  (felt_val (poe_c pf1) - felt_val (poe_c pf2)) mod CurveOrder <> 0 ->
  y ≡ poe_extract pf1 pf2 • g.
Proof.
  intros Hg (g1 & a1 & Hg1 & Ha1 & _ & H1)%poe_verify_true_inv
    (g2 & a2 & Hg2 & Ha2 & _ & H2)%poe_verify_true_inv Ha Hne.
  rewrite Ha, Ha2 in Ha1. rewrite Hg in Hg1, Hg2.
  injection Ha1 as <-. injection Hg1 as <-. injection Hg2 as <-.
  rewrite (sigma_extract _ _ y _ _ _ H1 H2 Hne). unfold poe_extract. proj_module.
Qed.
End poe_theorems.

(** ** Witnesses *)
Lemma poe_complete_witness :
  felt_val (mk 5) mod CurveOrder <> 0 /\
  exists g y pf, generator = Ok g /\ poe_prove (mk 5) (mk 7) (mk 42) = Ok (y, pf)
    /\ y ≡ felt_val (mk 7) • g
    /\ poe_verify y pf (mk 42)
       = if felt_val (poe_s pf) =? 0 then Err PointAtInfinity else Ok true.
Proof.
  split; [vm_compute; discriminate|].
  apply (@poe_complete model_types model_laws (mk 5) (mk 7) (mk 42)). vm_compute; discriminate.
Defined.

(** Two transcripts of the prover with the same nonce under two prefixes. *)
Definition poe_run (prefix : Z) : Z * @PoeProof model_types :=
  default (0, {| poe_a := {| sp_x := mk 0; sp_y := mk 0 |}; poe_s := mk 0; poe_c := mk 0 |})
    (to_option (@poe_prove model_types (mk 5) (mk 7) (mk prefix))).
Definition poe_run1 := Eval vm_compute in poe_run 42.
Definition poe_run2 := Eval vm_compute in poe_run 43.

Lemma poe_special_soundness_witness :
  (poe_run1.1 : @Proj model_types) ≡ poe_extract poe_run1.2 poe_run2.2 • (GXv : @Proj model_types).
Proof.
  apply (@poe_special_soundness model_types model_laws poe_run1.1 poe_run1.2 poe_run2.2
           (mk 42) (mk 43) GXv);
    [vm_compute; reflexivity .. | reflexivity | vm_compute; discriminate].
Defined.
