(* ===== verification/Poe2.v ===== *)
(** * Two-variable proof of exponentiation (crates/crypto/src/poe2.rs)

    Okamoto's protocol for [y = g1^x1 * g2^x2], challenged with Pedersen. *)

From stdpp Require Import base option list numbers.
From Stdlib Require Import ZArith Lia Zdiv.
From S2P Require Import Prelude StarkLib Primality GroupTac StarkModel Types Scalar Curve Hash.

Section poe2.
Context `{StarkTypes}.

(** [ProofOfExponentiation2::prove]; [k1], [k2] are the draws of [random_felt]. *)
Definition poe2_prove (k1 k2 : Felt) (x1 x2 : Felt) (g1 g2 : Proj) (prefix : Felt)
    : Result (Proj * Poe2Proof) :=
  g1_x1 ← curve_mul x1 (Some g1);
  g2_x2 ← curve_mul x2 (Some g2);
  let y := curve_add g1_x1 g2_x2 in
  g1_k1 ← curve_mul k1 (Some g1);
  g2_k2 ← curve_mul k2 (Some g2);
  let a := curve_add g1_k1 g2_k2 in
  c ← compute_challenge_single prefix a;
  c_x1 ← scalar_mul c x1;
  s1 ← scalar_add k1 c_x1;
  c_x2 ← scalar_mul c x2;
  s2 ← scalar_add k2 c_x2;
  a_ser ← try_from_projective a;
  Ok (y, {| poe2_a := a_ser; poe2_s1 := s1; poe2_s2 := s2; poe2_c := c |}).

(** [ProofOfExponentiation2::verify_internal]. *)
Definition poe2_verify_internal (y g1 g2 a : Proj) (c s1 s2 : Felt) : Result bool :=
  g1_s1 ← curve_mul s1 (Some g1);
  g2_s2 ← curve_mul s2 (Some g2);
  let lhs := curve_add g1_s1 g2_s2 in
  y_c ← curve_mul c (Some y);
  let rhs := curve_add a y_c in
  affine_eq lhs rhs.

(** [ProofOfExponentiation2::verify]. *)
Definition poe2_verify (y g1 g2 : Proj) (proof : Poe2Proof) (prefix : Felt) : Result bool :=
  a ← sp_to_affine (poe2_a proof);
  a_proj ← affine_to_projective a;
  let s1 := poe2_s1 proof in
  let s2 := poe2_s2 proof in
  let c := poe2_c proof in
  c_computed ← compute_challenge_single prefix a_proj;
  if bool_decide (c <> c_computed) then Ok false
  else
    g1_s1 ← curve_mul s1 (Some g1);
    g2_s2 ← curve_mul s2 (Some g2);
    let lhs := curve_add g1_s1 g2_s2 in
    y_c ← curve_mul c (Some y);
    let rhs := curve_add a_proj y_c in
    affine_eq lhs rhs.
End poe2.

Section poe2_lemmas.
Context `{StarkLaws}.

Lemma poe2_verify_internal_equiv y g1 g2 a c s1 s2 :
  felt_val s1 • g1 ⊕ felt_val s2 • g2 ≡ a ⊕ felt_val c • y ->
  poe2_verify_internal y g1 g2 a c s1 s2
  = if is_infinity (felt_val s1 • g1 ⊕ felt_val s2 • g2) then Err PointAtInfinity else Ok true.
Proof.
  intros Heq. unfold poe2_verify_internal, curve_add.
  mul_step s1 g1 as p1 H1. mul_step s2 g2 as p2 H2. mul_step c y as yc Hy.
  rewrite <- H1, <- H2. apply affine_eq_equiv. by rewrite H1, H2, Hy.
Qed.

Lemma poe2_verify_true_inv y g1 g2 pf prefix :
  poe2_verify y g1 g2 pf prefix = Ok true ->
  exists ap, (a ← sp_to_affine (poe2_a pf); affine_to_projective a) = Ok ap
    /\ felt_val (poe2_s1 pf) • g1 ⊕ felt_val (poe2_s2 pf) • g2
       ≡ ap ⊕ felt_val (poe2_c pf) • y.
Proof.
  intros Hv. unfold poe2_verify in Hv. inv_ok. case_bool_decide as Hc; [done|].
  subst. inv_ok. curve_facts. destruct Hv as [Hv _]. unfold curve_add in Hv.
  exists a0. split; [by run H1|]. by rewrite <- H4, <- H5, <- H6.
Qed.

(** An honest two-base proof is accepted, unless its response point happens to be the identity. *)
Theorem poe2_complete (k1 k2 x1 x2 : Felt) (g1 g2 : Proj) (prefix : Felt) :
  ~ felt_val k1 • g1 ⊕ felt_val k2 • g2 ≡ proj_identity ->
  exists y pf, poe2_prove k1 k2 x1 x2 g1 g2 prefix = Ok (y, pf)
    /\ y ≡ felt_val x1 • g1 ⊕ felt_val x2 • g2
    /\ poe2_verify y g1 g2 pf prefix
       = if is_infinity (felt_val (poe2_s1 pf) • g1 ⊕ felt_val (poe2_s2 pf) • g2)
         then Err PointAtInfinity else Ok true.
Proof.
  intros Hfin. unfold poe2_prove, curve_add.
  mul_step x1 g1 as p1 H1. mul_step x2 g2 as p2 H2.
  mul_step k1 g1 as q1 H3. mul_step k2 g2 as q2 H4.
  rewrite <- H3, <- H4 in Hfin.
  destruct (compute_challenge_total prefix [q1 ⊕ q2]) as (c & Hc); [by repeat constructor|].
  unfold compute_challenge_single. run Hc.
  scalar_step (scalar_mul c x1) as cx1 Hcx1. scalar_step (scalar_add k1 cx1) as s1 Hs1.
  scalar_step (scalar_mul c x2) as cx2 Hcx2. scalar_step (scalar_add k2 cx2) as s2 Hs2.
  pose proof Hfin as [a Ha]%to_affine_not_infinity.
  unfold try_from_projective. rewrite Ha. cbn [ok_or mbind outcome_bind].
  exists (p1 ⊕ p2). eexists. split_and!; [done|by rewrite H1, H2|].
  destruct (affine_roundtrip _ a Ha) as (ap & Hap & Hapq).
  unfold poe2_verify. cbn [poe2_a poe2_s1 poe2_s2 poe2_c].
  run (sp_to_affine_from_affine a). run Hap. unfold compute_challenge_single.
  assert (compute_challenge prefix [ap] = Ok c) as Hc' by by rewrite Hapq.
  run Hc'. rewrite bool_decide_false by tauto.
  apply poe2_verify_internal_equiv.
  rewrite Hapq, H1, H2, H3, H4, Hs1, Hs2, Hcx1, Hcx2. proj_module.
Qed.

(** The two exponents that two transcripts with one commitment give away. *)
Definition poe2_extract (pf1 pf2 : Poe2Proof) : Z * Z :=
  let inv := order_inverse (felt_val (poe2_c pf1) - felt_val (poe2_c pf2)) in
  (inv * (felt_val (poe2_s1 pf1) - felt_val (poe2_s1 pf2)),
   inv * (felt_val (poe2_s2 pf1) - felt_val (poe2_s2 pf2))).

(** Two accepting two-base proofs with the same commitment and different challenges yield
    a representation of the public point. *)
Theorem poe2_special_soundness (y g1 g2 : Proj) (pf1 pf2 : Poe2Proof) (prefix1 prefix2 : Felt) :
  poe2_verify y g1 g2 pf1 prefix1 = Ok true -> poe2_verify y g1 g2 pf2 prefix2 = Ok true ->
  poe2_a pf1 = poe2_a pf2 ->
  (felt_val (poe2_c pf1) - felt_val (poe2_c pf2)) mod CurveOrder <> 0 ->
  y ≡ (poe2_extract pf1 pf2).1 • g1 ⊕ (poe2_extract pf1 pf2).2 • g2.
Proof.
  intros (a1 & Ha1 & H1)%poe2_verify_true_inv (a2 & Ha2 & H2)%poe2_verify_true_inv Ha Hne.
  rewrite Ha, Ha2 in Ha1. injection Ha1 as <-.
  rewrite (sigma_extract _ _ y _ _ _ H1 H2 Hne). cbn [poe2_extract fst snd]. proj_module.
Qed.
End poe2_lemmas.

(** ** Witnesses *)
Definition poe2_run (prefix : Z) : Z * @Poe2Proof model_types :=
  default (0, {| poe2_a := {| sp_x := mk 0; sp_y := mk 0 |}; poe2_s1 := mk 0; poe2_s2 := mk 0; poe2_c := mk 0 |})
    (to_option (@poe2_prove model_types (mk 5) (mk 6) (mk 7) (mk 8) GXv HXv (mk prefix))).
Definition poe2_run1 := Eval vm_compute in poe2_run 42.
Definition poe2_run2 := Eval vm_compute in poe2_run 43.
Lemma poe2_complete_witness :
  exists y pf, @poe2_prove model_types (mk 5) (mk 6) (mk 7) (mk 8) GXv HXv (mk 42) = Ok (y, pf)
    /\ y ≡ felt_val (mk 7) • (GXv : @Proj model_types) ⊕ felt_val (mk 8) • (HXv : @Proj model_types)
    /\ poe2_verify y GXv HXv pf (mk 42)
       = if is_infinity (felt_val (poe2_s1 pf) • (GXv : @Proj model_types)
                         ⊕ felt_val (poe2_s2 pf) • (HXv : @Proj model_types))
         then Err PointAtInfinity else Ok true.
Proof.
  apply (@poe2_complete model_types model_laws (mk 5) (mk 6) (mk 7) (mk 8) GXv HXv (mk 42)).
  points_differ.
Defined.

Lemma poe2_special_soundness_witness :
  (poe2_run1.1 : @Proj model_types)
  ≡ (poe2_extract poe2_run1.2 poe2_run2.2).1 • (GXv : @Proj model_types)
    ⊕ (poe2_extract poe2_run1.2 poe2_run2.2).2 • (HXv : @Proj model_types).
Proof.
  apply (@poe2_special_soundness model_types model_laws poe2_run1.1 GXv HXv poe2_run1.2 poe2_run2.2
           (mk 42) (mk 43));
    [vm_compute; reflexivity .. | reflexivity | vm_compute; discriminate].
Defined.
