(* ===== verification/Bit.v ===== *)
(** * Bit proofs (crates/crypto/src/bit.rs)

    The OR composition of two proofs of exponentiation showing that
    [V = g1^b * g2^r] commits to a bit.  The three random draws of a proof (the
    simulated response and challenge, the real nonce) are the [BitCoins]. *)

From stdpp Require Import base option list numbers strings.
From Stdlib Require Import ZArith Lia Zdiv.
From S2P Require Import Prelude StarkLib Primality GroupTac StarkModel Types Scalar Curve Hash Poe.

Section bit.
Context `{StarkTypes}.

Record BitCoins : Type := { sim_s : Felt; sim_c : Felt; nonce_k : Felt }.

Definition negation_failed : KmsError := CryptoError "Point negation failed".

(** [simulate_poe]: a transcript (A, c, s) that verifies without a witness. *)
Definition simulate_poe (s c : Felt) (y gen : Proj) : Result (Proj * Felt * Felt) :=
  gen_s ← curve_mul s (Some gen);
  y_c ← curve_mul c (Some y);
  y_c_affine ← projective_to_affine y_c;
  neg_y_c ← negate_affine negation_failed y_c_affine;
  let a := curve_add gen_s neg_y_c in
  Ok (a, c, s).

Definition prove_bit_0 (coins : BitCoins) (random : Felt) (g1 g2 : Proj) (prefix : Felt)
    : Result (Proj * ProofOfBit) :=
  v ← curve_mul random (Some g2);
  g1_affine ← projective_to_affine g1;
  neg_g1 ← negate_affine negation_failed g1_affine;
  let v1 := curve_add v neg_g1 in
  '(a1, c1, s1) ← simulate_poe (sim_s coins) (sim_c coins) v1 g2;
  let k := nonce_k coins in
  a0 ← curve_mul k (Some g2);
  c ← compute_poseidon_challenge prefix [v; a0; a1];
  c0 ← scalar_sub c c1;
  c0_random ← scalar_mul c0 random;
  s0 ← scalar_add k c0_random;
  a0_ser ← try_from_projective a0;
  a1_ser ← try_from_projective a1;
  Ok (v, {| pb_a0 := a0_ser; pb_a1 := a1_ser; pb_c0 := c0; pb_s0 := s0; pb_s1 := s1 |}).

Definition prove_bit_1 (coins : BitCoins) (random : Felt) (g1 g2 : Proj) (prefix : Felt)
    : Result (Proj * ProofOfBit) :=
  g2_r ← curve_mul random (Some g2);
  let v := curve_add g1 g2_r in
  '(a0, c0, s0) ← simulate_poe (sim_s coins) (sim_c coins) v g2;
  let k := nonce_k coins in
  a1 ← curve_mul k (Some g2);
  c ← compute_poseidon_challenge prefix [v; a0; a1];
  c1 ← scalar_sub c c0;
  c1_random ← scalar_mul c1 random;
  s1 ← scalar_add k c1_random;
  a0_ser ← try_from_projective a0;
  a1_ser ← try_from_projective a1;
  Ok (v, {| pb_a0 := a0_ser; pb_a1 := a1_ser; pb_c0 := c0; pb_s0 := s0; pb_s1 := s1 |}).

(** [bit::prove]; [bit] is a [u8]. *)
Definition bit_prove (coins : BitCoins) (bit : Z) (random : Felt) (g1 g2 : Proj) (prefix : Felt)
    : Result (Proj * ProofOfBit) :=
  match bit with
  | 0 => prove_bit_0 coins random g1 g2 prefix
  | 1 => prove_bit_1 coins random g1 g2 prefix
  | _ => Err (CryptoError "Bit must be 0 or 1")
  end.

(** [bit::verify]. *)
Definition bit_verify (v g1 g2 : Proj) (proof : ProofOfBit) (prefix : Felt) : Result bool :=
  a0 ← sp_to_affine (pb_a0 proof);
  a1 ← sp_to_affine (pb_a1 proof);
  a0_proj ← affine_to_projective a0;
  a1_proj ← affine_to_projective a1;
  let c0 := pb_c0 proof in
  let s0 := pb_s0 proof in
  let s1 := pb_s1 proof in
  c ← compute_poseidon_challenge prefix [v; a0_proj; a1_proj];
  c1 ← scalar_sub c c0;
  ok0 ← poe_verify_internal v g2 a0_proj c0 s0;
  if negb ok0 then Ok false
  else
    g1_affine ← projective_to_affine g1;
    neg_g1 ← negate_affine negation_failed g1_affine;
    let v1 := curve_add v neg_g1 in
    ok1 ← poe_verify_internal v1 g2 a1_proj c1 s1;
    if negb ok1 then Ok false else Ok true.
End bit.

Section bit_lemmas.
Context `{StarkLaws}.

(** The simulated commitment satisfies the verification equation. *)
Lemma simulate_poe_spec s c y gen :
  ~ felt_val c • y ≡ proj_identity ->
  exists a, simulate_poe s c y gen = Ok (a, c, s)
    /\ a ≡ felt_val s • gen ⊕ (- felt_val c) • y.
Proof.
  intros Hfin. unfold simulate_poe, curve_add. mul_step s gen as gs Hgs. mul_step c y as yc Hyc.
  rewrite <- Hyc in Hfin. pose proof Hfin as [ya Hya]%to_affine_not_infinity.
  unfold projective_to_affine. rewrite Hya. cbn [ok_or mbind outcome_bind].
  destruct (negate_affine_spec negation_failed _ _ Hya) as (n & Hn & Hneg). run Hn.
  eexists. split; [done|]. rewrite Hgs, Hneg, Hyc. proj_module.
Qed.

Lemma simulate_poe_Ok s c y gen a c' s' :
  simulate_poe s c y gen = Ok (a, c', s') ->
  c' = c /\ s' = s /\ a ≡ felt_val s • gen ⊕ (- felt_val c) • y.
Proof.
  unfold simulate_poe, projective_to_affine, curve_add. intros Hs. inv_ok.
  split_and!; [done..|]. curve_facts. point_module.
Qed.

Lemma simulate_poe_finite s c y gen r : simulate_poe s c y gen = Ok r -> ~ felt_val c • y ≡ proj_identity.
Proof.
  unfold simulate_poe, projective_to_affine. intros Hs. inv_ok. curve_facts.
  fold_points. apply to_affine_not_infinity. eauto.
Qed.

Lemma negate_point_spec e p :
  ~ p ≡ proj_identity ->
  exists a q, proj_to_affine p = Some a /\ negate_affine e a = Ok q /\ q ≡ (-1) • p.
Proof.
  intros [a Ha]%to_affine_not_infinity. destruct (negate_affine_spec e p a Ha) as (q & Hq & Heq).
  eauto.
Qed.

(** The result of [bit_verify] on a proof whose commitments are the points
    [a0], [a1] and whose two equations hold. *)
Lemma bit_verify_equations v g1 g2 pf prefix a0 a1 c :
  try_from_projective a0 = Ok (pb_a0 pf) -> try_from_projective a1 = Ok (pb_a1 pf) ->
  compute_poseidon_challenge prefix [v; a0; a1] = Ok c ->
  ~ g1 ≡ proj_identity ->
  felt_val (pb_s0 pf) • g2 ≡ a0 ⊕ felt_val (pb_c0 pf) • v ->
  felt_val (pb_s1 pf) • g2
    ≡ a1 ⊕ (felt_val c - felt_val (pb_c0 pf)) • (v ⊕ (-1) • g1) ->
  bit_verify v g1 g2 pf prefix
  = if is_infinity (felt_val (pb_s0 pf) • g2) || is_infinity (felt_val (pb_s1 pf) • g2)
    then Err PointAtInfinity else Ok true.
Proof.
  intros (x0 & Hx0 & Ha0)%sp_to_affine_try (x1 & Hx1 & Ha1)%sp_to_affine_try Hc Hg1 Heq0 Heq1.
  destruct (affine_roundtrip _ _ Ha0) as (p0 & Hp0 & Hpa0).
  destruct (affine_roundtrip _ _ Ha1) as (p1 & Hp1 & Hpa1).
  unfold bit_verify. run Hx0. run Hx1. run Hp0. run Hp1.
  assert (compute_poseidon_challenge prefix [v; p0; p1] = Ok c) as Hc' by by rewrite Hpa0, Hpa1.
  run Hc'. scalar_step (scalar_sub c (pb_c0 pf)) as c1 Hc1.
  rewrite (poe_verify_internal_equiv v g2 p0) by by rewrite Hpa0.
  destruct (is_infinity (felt_val (pb_s0 pf) • g2)); cbn [mbind outcome_bind negb orb]; [done|].
  destruct (negate_point_spec negation_failed g1 Hg1) as (ga & ng & Hga & Hng & Hneg).
  unfold projective_to_affine at 1. rewrite Hga. cbn [ok_or mbind outcome_bind]. run Hng.
  rewrite poe_verify_internal_equiv.
  - by destruct (is_infinity _).
  - rewrite Heq1, Hpa1, Hc1. unfold curve_add. rewrite Hneg. proj_module.
Qed.

Lemma bit_verify_true_inv v g1 g2 pf prefix :
  bit_verify v g1 g2 pf prefix = Ok true ->
  exists a0 a1 c,
    (a ← sp_to_affine (pb_a0 pf); affine_to_projective a) = Ok a0
    /\ (a ← sp_to_affine (pb_a1 pf); affine_to_projective a) = Ok a1
    /\ compute_poseidon_challenge prefix [v; a0; a1] = Ok c
    /\ felt_val (pb_s0 pf) • g2 ≡ a0 ⊕ felt_val (pb_c0 pf) • v
    /\ felt_val (pb_s1 pf) • g2
         ≡ a1 ⊕ (felt_val c - felt_val (pb_c0 pf)) • (v ⊕ (-1) • g1).
Proof.
  unfold bit_verify. intros Hv. inv_ok.
  destruct a5; cbn [negb] in Hv; [|done]. unfold projective_to_affine in Hv. inv_ok.
  destruct a7; cbn [negb] in Hv; [|done].
  repeat match goal with
  | Hp : poe_verify_internal _ _ _ _ _ = Ok true |- _ =>
      apply poe_verify_internal_true in Hp as [Hp _]
  end.
  curve_facts. exists a1, a2, a3. split_and!; [by run H1|by run H2|done|done|].
  rewrite H10. unfold curve_add. point_module.
Qed.

#[export] Instance bit_verify_proper :
  Proper ((≡) ==> (=) ==> (=) ==> (=) ==> (=) ==> (=)) bit_verify.
Proof.
  intros v v' Hv g1 ? <- g2 ? <- pf ? <- prefix ? <-. unfold bit_verify, curve_add.
  destruct (sp_to_affine (pb_a0 pf)) as [a0| |]; [|done..].
  destruct (sp_to_affine (pb_a1 pf)) as [a1| |]; [|done..]. cbn [mbind outcome_bind].
  destruct (affine_to_projective a0) as [p0| |]; [|done..].
  destruct (affine_to_projective a1) as [p1| |]; [|done..]. cbn [mbind outcome_bind].
  assert (compute_poseidon_challenge prefix [v; p0; p1]
          = compute_poseidon_challenge prefix [v'; p0; p1]) as -> by by rewrite Hv.
  destruct (compute_poseidon_challenge _ _) as [c| |]; [|done..]. cbn [mbind outcome_bind].
  destruct (scalar_sub c _) as [c1| |]; [|done..]. cbn [mbind outcome_bind].
  rewrite Hv. destruct (poe_verify_internal v' _ _ _ _) as [[] | |]; [|done..].
  cbn [mbind outcome_bind negb].
  destruct (projective_to_affine g1) as [ga| |]; [|done..]. cbn [mbind outcome_bind].
  destruct (negate_affine _ _) as [ng| |]; [|done..]. cbn [mbind outcome_bind].
  by rewrite Hv.
Qed.
End bit_lemmas.

(** ** Correctness *)
Section bit_theorems.
Context `{StarkLaws}.

(** What an honest prover of [bit] must avoid: every point it serialises or
    negates is finite.  Each clause fails for a negligible part of the coins. *)
Definition bit_finite (coins : BitCoins) (bit : Z) (random : Felt) (g1 g2 : Proj) : Prop :=
  let v := bit • g1 ⊕ felt_val random • g2 in
  let simulated := v ⊕ (- (1 - bit)) • g1 in
  ~ g1 ≡ proj_identity /\ ~ v ≡ proj_identity
  /\ ~ felt_val (sim_c coins) • simulated ≡ proj_identity
  /\ ~ felt_val (sim_s coins) • g2 ⊕ (- felt_val (sim_c coins)) • simulated ≡ proj_identity
  /\ ~ felt_val (nonce_k coins) • g2 ≡ proj_identity.

(** What [bit_complete] concludes of one run. *)
Definition bit_run_ok (bit : Z) (random : Felt) (g1 g2 : Proj) (prefix : Felt)
    (r : Result (Proj * ProofOfBit)) : Prop :=
  exists v pf, r = Ok (v, pf)
    /\ v ≡ bit • g1 ⊕ felt_val random • g2
    /\ bit_verify v g1 g2 pf prefix
       = if is_infinity (felt_val (pb_s0 pf) • g2) || is_infinity (felt_val (pb_s1 pf) • g2)
         then Err PointAtInfinity else Ok true.

Lemma prove_bit_0_run coins random g1 g2 prefix :
  bit_finite coins 0 random g1 g2 ->
  bit_run_ok 0 random g1 g2 prefix (prove_bit_0 coins random g1 g2 prefix).
Proof.
  intros (Hg1 & Hv & Hc & Ha & Hk). unfold prove_bit_0, bit_run_ok.
  mul_step random g2 as v Hvq.
  destruct (negate_point_spec negation_failed g1 Hg1) as (ga & ng & Hga & Hng & Hneg).
  unfold projective_to_affine at 1. rewrite Hga. cbn [ok_or mbind outcome_bind]. run Hng.
  unfold curve_add.
  assert (v ≡ 0 • g1 ⊕ felt_val random • g2) as Hv0 by point_module.
  assert (v ⊕ ng ≡ 0 • g1 ⊕ felt_val random • g2 ⊕ (- (1 - 0)) • g1) as Hv1 by point_module.
  rewrite <- Hv0 in Hv. rewrite <- Hv1 in Hc, Ha.
  destruct (simulate_poe_spec (sim_s coins) (sim_c coins) (v ⊕ ng) g2 Hc) as (a1 & Hsim & Ha1).
  run Hsim. mul_step (nonce_k coins) g2 as a0 Ha0. rewrite <- Ha1 in Ha. rewrite <- Ha0 in Hk.
  destruct (compute_poseidon_challenge_total prefix [v; a0; a1]) as (c & Hch & _);
    [by repeat constructor|].
  run Hch. scalar_step (scalar_sub c (sim_c coins)) as c0 Hc0.
  scalar_step (scalar_mul c0 random) as c0r Hc0r.
  scalar_step (scalar_add (nonce_k coins) c0r) as s0 Hs0.
  destruct (try_from_projective_total a0 Hk) as (t0 & Ht0). run Ht0.
  destruct (try_from_projective_total a1 Ha) as (t1 & Ht1). run Ht1.
  eexists v, _. split_and!; [done|done|].
  erewrite bit_verify_equations with (a0 := a0) (a1 := a1) (c := c);
    cbn [pb_a0 pb_a1 pb_c0 pb_s0 pb_s1]; try done.
  - point_module.
  - rewrite Ha1, Hc0, Hneg. proj_module.
Qed.

Lemma prove_bit_1_run coins random g1 g2 prefix :
  bit_finite coins 1 random g1 g2 ->
  bit_run_ok 1 random g1 g2 prefix (prove_bit_1 coins random g1 g2 prefix).
Proof.
  intros (Hg1 & Hv & Hc & Ha & Hk). unfold prove_bit_1, bit_run_ok, curve_add.
  mul_step random g2 as gr Hgr.
  assert (g1 ⊕ gr ≡ 1 • g1 ⊕ felt_val random • g2) as Hv0 by point_module.
  assert (1 • g1 ⊕ felt_val random • g2 ⊕ (- (1 - 1)) • g1 ≡ g1 ⊕ gr) as Hv1 by point_module.
  rewrite Hv1 in Hc, Ha. rewrite <- Hv0 in Hv.
  destruct (simulate_poe_spec (sim_s coins) (sim_c coins) (g1 ⊕ gr) g2 Hc) as (a0 & Hsim & Ha0).
  run Hsim. mul_step (nonce_k coins) g2 as a1 Ha1. rewrite <- Ha0 in Ha. rewrite <- Ha1 in Hk.
  destruct (compute_poseidon_challenge_total prefix [g1 ⊕ gr; a0; a1]) as (c & Hch & _);
    [by repeat constructor|].
  run Hch. scalar_step (scalar_sub c (sim_c coins)) as c1 Hc1.
  scalar_step (scalar_mul c1 random) as c1r Hc1r.
  scalar_step (scalar_add (nonce_k coins) c1r) as s1 Hs1.
  destruct (try_from_projective_total a0 Ha) as (t0 & Ht0). run Ht0.
  destruct (try_from_projective_total a1 Hk) as (t1 & Ht1). run Ht1.
  eexists (g1 ⊕ gr), _. split_and!; [done|done|].
  erewrite bit_verify_equations with (a0 := a0) (a1 := a1) (c := c);
    cbn [pb_a0 pb_a1 pb_c0 pb_s0 pb_s1]; try done.
  - point_module.
  - point_module.
Qed.

Lemma bit_prove_run coins bit random g1 g2 prefix :
  bit = 0 \/ bit = 1 -> bit_finite coins bit random g1 g2 ->
  bit_run_ok bit random g1 g2 prefix (bit_prove coins bit random g1 g2 prefix).
Proof. intros [-> | ->]; [apply prove_bit_0_run | apply prove_bit_1_run]. Qed.

(** A prover that returns a proof met no point at infinity. *)
Lemma bit_prove_Ok_finite coins bit random g1 g2 prefix r :
  ~ g1 ≡ proj_identity -> bit_prove coins bit random g1 g2 prefix = Ok r ->
  (bit = 0 \/ bit = 1) /\ bit_finite coins bit random g1 g2.
Proof.
  intros Hg1 Hp.
  assert (bit = 0 \/ bit = 1) as Hbit by (destruct bit as [|[]|]; cbn in Hp; (done || tauto)).
  split; [done|]. unfold bit_finite. destruct Hbit as [-> | ->]; cbn [bit_prove] in Hp.
  - unfold prove_bit_0, projective_to_affine in Hp.
    apply bind_Ok in Hp as (v & Hv & Hp). apply bind_Ok in Hp as (ga & Hga & Hp). apply bind_Ok in Hp as (ng & Hng & Hp).
    apply bind_Ok in Hp as ([[a1 c1] s1] & Hsim & Hp). inv_ok. curve_facts.
    pose proof (simulate_poe_finite _ _ _ _ _ Hsim) as Hc.
    apply simulate_poe_Ok in Hsim as (-> & -> & Ha1). unfold curve_add in *.
    repeat match goal with Ht : try_from_projective _ = Ok _ |- _ => apply try_from_projective_finite in Ht end.
    match goal with Hch : compute_poseidon_challenge _ _ = Ok _ |- _ =>
      apply compute_poseidon_challenge_Ok in Hch as [Hf _]; apply Forall_cons in Hf as [Hvf _] end.
    assert (v ⊕ ng ≡ 0 • g1 ⊕ felt_val random • g2 ⊕ (- (1 - 0)) • g1) as Hsimv by point_module.
    rewrite <- Hsimv. split_and!; [done| |done|by rewrite <- Ha1|by fold_points].
    intros Hbad. apply Hvf. rewrite <- Hbad. point_module.
  - unfold prove_bit_1 in Hp.
    apply bind_Ok in Hp as (gr & Hgr & Hp). apply bind_Ok in Hp as ([[a0 c0] s0] & Hsim & Hp). inv_ok. curve_facts.
    pose proof (simulate_poe_finite _ _ _ _ _ Hsim) as Hc.
    apply simulate_poe_Ok in Hsim as (-> & -> & Ha0). unfold curve_add in *.
    repeat match goal with Ht : try_from_projective _ = Ok _ |- _ => apply try_from_projective_finite in Ht end.
    match goal with Hch : compute_poseidon_challenge _ _ = Ok _ |- _ =>
      apply compute_poseidon_challenge_Ok in Hch as [Hf _]; apply Forall_cons in Hf as [Hvf _] end.
    assert (g1 ⊕ gr ≡ 1 • g1 ⊕ felt_val random • g2 ⊕ (- (1 - 1)) • g1) as Hsimv by point_module.
    rewrite <- Hsimv. split_and!; [done| |done|by rewrite <- Ha0|by fold_points].
    intros Hbad. apply Hvf. rewrite <- Hbad. point_module.
Qed.

(** For a bit and non-degenerate coins the bit prover returns a commitment to the bit and
    a proof that the verifier accepts unless a response is degenerate. *)
Theorem bit_complete (coins : BitCoins) (bit : Z) (random : Felt) (g1 g2 : Proj) (prefix : Felt) :
  bit = 0 \/ bit = 1 -> bit_finite coins bit random g1 g2 ->
  bit_run_ok bit random g1 g2 prefix (bit_prove coins bit random g1 g2 prefix).
Proof. apply bit_prove_run. Qed.

(** The opening [(bit, randomness)] that two transcripts with one pair of
    commitments give away; [c], [c'] are their overall challenges.  The branch
    whose challenges differ is the one the prover could answer. *)
Definition bit_extract (c c' : Felt) (pf pf' : ProofOfBit) : Z * Z :=
  let d0 := felt_val (pb_c0 pf) - felt_val (pb_c0 pf') in
  let d1 := (felt_val c - felt_val (pb_c0 pf)) - (felt_val c' - felt_val (pb_c0 pf')) in
  if d0 mod CurveOrder =? 0
  then (1, order_inverse d1 * (felt_val (pb_s1 pf) - felt_val (pb_s1 pf')))
  else (0, order_inverse d0 * (felt_val (pb_s0 pf) - felt_val (pb_s0 pf'))).

Lemma bit_extract_spec v g1 g2 pf pf' a0 a1 c c' :
  felt_val (pb_s0 pf) • g2 ≡ a0 ⊕ felt_val (pb_c0 pf) • v ->
  felt_val (pb_s0 pf') • g2 ≡ a0 ⊕ felt_val (pb_c0 pf') • v ->
  felt_val (pb_s1 pf) • g2 ≡ a1 ⊕ (felt_val c - felt_val (pb_c0 pf)) • (v ⊕ (-1) • g1) ->
  felt_val (pb_s1 pf') • g2 ≡ a1 ⊕ (felt_val c' - felt_val (pb_c0 pf')) • (v ⊕ (-1) • g1) ->
  (felt_val c - felt_val c') mod CurveOrder <> 0 ->
  let '(bit, r) := bit_extract c c' pf pf' in
  (bit = 0 \/ bit = 1) /\ v ≡ bit • g1 ⊕ r • g2.
Proof.
  intros Q0 Q0' Q1 Q1' Hne. unfold bit_extract.
  destruct (Z.eqb_spec ((felt_val (pb_c0 pf) - felt_val (pb_c0 pf')) mod CurveOrder) 0) as [E|E].
  - split; [by right|].
    assert ((felt_val c - felt_val (pb_c0 pf) - (felt_val c' - felt_val (pb_c0 pf'))) mod CurveOrder <> 0) as Hne1.
    { intros H2. apply Hne.
      replace (felt_val c - felt_val c') with
        ((felt_val c - felt_val (pb_c0 pf) - (felt_val c' - felt_val (pb_c0 pf')))
         + (felt_val (pb_c0 pf) - felt_val (pb_c0 pf'))) by lia.
      by rewrite Zplus_mod, H2, E. }
    transitivity (g1 ⊕ (v ⊕ (-1) • g1)); [proj_module|].
    rewrite (sigma_extract _ _ _ _ _ _ Q1 Q1' Hne1). proj_module.
  - split; [by left|]. rewrite (sigma_extract _ _ v _ _ _ Q0 Q0' E). proj_module.
Qed.

(** The overall challenge a verifier recomputes for a proof. *)
Definition bit_challenge (v : Proj) (pf : ProofOfBit) (prefix : Felt) : Result Felt :=
  a0 ← (a ← sp_to_affine (pb_a0 pf); affine_to_projective a);
  a1 ← (a ← sp_to_affine (pb_a1 pf); affine_to_projective a);
  compute_poseidon_challenge prefix [v; a0; a1].

(** Two accepted proofs with the same first messages and different challenges. *)
Lemma bit_fork v g1 g2 pf pf' prefix prefix' c c' :
  bit_verify v g1 g2 pf prefix = Ok true -> bit_verify v g1 g2 pf' prefix' = Ok true ->
  pb_a0 pf = pb_a0 pf' -> pb_a1 pf = pb_a1 pf' ->
  bit_challenge v pf prefix = Ok c -> bit_challenge v pf' prefix' = Ok c' ->
  (felt_val c - felt_val c') mod CurveOrder <> 0 ->
  let '(bit, r) := bit_extract c c' pf pf' in
  (bit = 0 \/ bit = 1) /\ v ≡ bit • g1 ⊕ r • g2.
Proof.
  intros (a0 & a1 & d & Ha0 & Ha1 & Hd & He0 & He1)%bit_verify_true_inv
    (b0 & b1 & d' & Hb0 & Hb1 & Hd' & Hf0 & Hf1)%bit_verify_true_inv E0 E1 Hc Hc'.
  unfold bit_challenge in Hc, Hc'. rewrite Ha0, Ha1 in Hc. rewrite Hb0, Hb1 in Hc'.
  cbn [mbind outcome_bind] in Hc, Hc'. rewrite Hd in Hc. rewrite Hd' in Hc'.
  rewrite E0, Hb0 in Ha0. rewrite E1, Hb1 in Ha1.
  injection Ha0 as <-. injection Ha1 as <-. injection Hc as <-. injection Hc' as <-.
  by apply bit_extract_spec with b0 b1.
Qed.

(** Two accepting bit proofs with the same commitments and different challenges yield a
    bit, 0 or 1, and an opening of the commitment to it. *)
Theorem bit_special_soundness (v g1 g2 : Proj) (pf pf' : ProofOfBit) (prefix prefix' c c' : Felt) :
  bit_verify v g1 g2 pf prefix = Ok true -> bit_verify v g1 g2 pf' prefix' = Ok true ->
  pb_a0 pf = pb_a0 pf' -> pb_a1 pf = pb_a1 pf' ->
  bit_challenge v pf prefix = Ok c -> bit_challenge v pf' prefix' = Ok c' ->
  (felt_val c - felt_val c') mod CurveOrder <> 0 ->
  let '(bit, r) := bit_extract c c' pf pf' in
  (bit = 0 \/ bit = 1) /\ v ≡ bit • g1 ⊕ r • g2.
Proof. apply bit_fork. Qed.
End bit_theorems.

(** ** Witnesses *)
Definition bit_coins1 : @BitCoins model_types :=
  {| sim_s := mk 11; sim_c := mk 12; nonce_k := mk 13 |}.

Lemma bit_complete_witness :
  bit_run_ok 1 (mk 9) GXv HXv (mk 42) (@bit_prove model_types bit_coins1 1 (mk 9) GXv HXv (mk 42)).
Proof.
  apply (@bit_complete model_types model_laws bit_coins1 1 (mk 9) GXv HXv (mk 42)); [by right|].
  repeat apply conj; points_differ.
Defined.

(** Two transcripts of the prover of the bit 0 with the same coins under two prefixes. *)
Definition bit_run (prefix : Z) : Z * @ProofOfBit model_types :=
  default (0, {| pb_a0 := {| sp_x := mk 0; sp_y := mk 0 |}; pb_a1 := {| sp_x := mk 0; sp_y := mk 0 |};
                 pb_c0 := mk 0; pb_s0 := mk 0; pb_s1 := mk 0 |})
    (to_option (@bit_prove model_types bit_coins1 0 (mk 9) GXv HXv (mk prefix))).
Definition bit_run1 := Eval vm_compute in bit_run 42.
Definition bit_run2 := Eval vm_compute in bit_run 43.
Definition bit_run_c1 := Eval vm_compute in
  default (mk 0) (to_option (@bit_challenge model_types bit_run1.1 bit_run1.2 (mk 42))).
Definition bit_run_c2 := Eval vm_compute in
  default (mk 0) (to_option (@bit_challenge model_types bit_run1.1 bit_run2.2 (mk 43))).

Lemma bit_special_soundness_witness :
  let '(bit, r) := @bit_extract model_types bit_run_c1 bit_run_c2 bit_run1.2 bit_run2.2 in
  (bit = 0 \/ bit = 1) /\ (bit_run1.1 : @Proj model_types)
                          ≡ bit • (GXv : @Proj model_types) ⊕ r • (HXv : @Proj model_types).
Proof.
  apply (@bit_special_soundness model_types model_laws bit_run1.1 GXv HXv bit_run1.2 bit_run2.2
           (mk 42) (mk 43) bit_run_c1 bit_run_c2);
    [vm_compute; reflexivity .. | reflexivity | reflexivity | | | vm_compute; discriminate];
    vm_compute; reflexivity.
Defined.
