(* ===== verification/Range.v ===== *)
(** * Range proofs (crates/crypto/src/range.rs)

    A value is committed bit by bit; the weighted sum of the bit commitments
    commits to the value.  [coins i] are the random draws of the proof of bit [i]
    (the bits may be proved in parallel, so the draws are indexed, not ordered). *)

From stdpp Require Import base option list numbers strings.
From Stdlib Require Import ZArith Lia Zdiv.
From S2P Require Import Prelude StarkLib GroupTac StarkModel Types Scalar Curve Hash Poe Bit.

Section range.
Context `{StarkTypes}.

(** One turn of [r = r + (1 << i) * r_inn]. *)
Definition add_weighted (r : Felt) (i : nat) (r_inn : Felt) : Result Felt :=
  shifted ← u128_shl_one i;
  let pow := felt_of_Z shifted in
  r_inn_pow ← scalar_mul pow r_inn;
  scalar_add r r_inn_pow.

Definition compute_total_randomness (random_values : list Felt) : Result Felt :=
  if (128 <? length random_values)%nat
  then Err (CryptoError "random_values length {} exceeds maximum 128")
  else foldM (fun r '(i, r_inn) => add_weighted r i r_inn) (felt_of_Z 0)
         (zip (seq 0 (length random_values)) random_values).

(** The proof of bit [i] ([bit_results], sequential or parallel). *)
Definition range_bit (coins : nat -> BitCoins) (b_bin : list Z) (g1 g2 : Proj)
    (initial_prefix : Felt) (random_values : list Felt) (i : nat)
    : Result (Proj * ProofOfBit * Felt) :=
  bit ← expect (b_bin !! i);
  r_inn ← expect (random_values !! i);
  let prefix := felt_add initial_prefix (felt_of_Z (Z.of_nat i)) in
  '(v, proof) ← bit_prove (coins i) bit r_inn g1 g2 prefix;
  Ok (v, proof, r_inn).

(** The sequential accumulation: proofs, commitments and total randomness. *)
Definition range_accumulate (acc : list ProofOfBit * list SerializablePoint * Felt)
    (entry : nat * (Proj * ProofOfBit * Felt)) : Result (list ProofOfBit * list SerializablePoint * Felt) :=
  let '(proofs, commitments, r) := acc in
  let '(i, (v, proof, r_inn)) := entry in
  shifted ← u128_shl_one i;
  let pow := felt_of_Z shifted in
  commitment ← try_from_projective v;
  r_inn_pow ← scalar_mul pow r_inn;
  r ← scalar_add r r_inn_pow;
  Ok (proofs ++ [proof], commitments ++ [commitment], r).

(** [range::prove_with_randomness]; [b] is a [u128]. *)
Definition range_prove_with_randomness (coins : nat -> BitCoins) (b : Z) (bit_size : nat)
    (g1 g2 : Proj) (initial_prefix : Felt) (random_values : list Felt) : Result (Range * Felt) :=
  reject_if (128 <? bit_size)%nat (CryptoError "bit_size {} exceeds maximum 128") ;;
  reject_if (negb (length random_values =? bit_size)%nat)
    (CryptoError "random_values length {} != bit_size {}") ;;
  let max_value :=
    if (bit_size =? 128)%nat then u128_MAX else Z.shiftl 1 (Z.of_nat bit_size) - 1 in
  reject_if (max_value <? b) (CryptoError "Value {} is not in range [0, {}]") ;;
  let b_bin := map (fun i => Z.land (Z.shiftr b (Z.of_nat i)) 1) (seq 0 bit_size) in
  bit_results ← collect
    (map (range_bit coins b_bin g1 g2 initial_prefix random_values) (seq 0 bit_size));
  '(proofs, commitments, r) ←
    foldM range_accumulate ([], [], felt_of_Z 0) (zip (seq 0 (length bit_results)) bit_results);
  Ok ({| commitments := commitments; proofs := proofs |}, r).

(** [range::prove]: fresh [random_values] (a parameter), then as above. *)
Definition range_prove (coins : nat -> BitCoins) (random_values : list Felt) (b : Z)
    (bit_size : nat) (g1 g2 : Proj) (initial_prefix : Felt) : Result (Range * Felt) :=
  range_prove_with_randomness coins b bit_size g1 g2 initial_prefix random_values.

(** The commitment of index [i], parsed; an index out of range panics. *)
Definition range_commitment (range : Range) (i : nat) : Result Proj :=
  commitment ← expect (commitments range !! i);
  a ← sp_to_affine commitment;
  affine_to_projective a.

(** The check of bit [i] against its commitment [v]. *)
Definition range_check_bit (range : Range) (g1 g2 v : Proj) (prefix : Felt) (i : nat) : Result unit :=
  proof ← expect (proofs range !! i);
  ok ← bit_verify v g1 g2 proof prefix;
  reject_if (negb ok) (CryptoError "Bit proof failed at index {}").

(** The loop body for [i in 1..bit_size]. *)
Definition range_verify_step (range : Range) (g1 g2 : Proj) (initial_prefix : Felt)
    (v_total : Proj) (i : nat) : Result Proj :=
  shifted ← u128_shl_one i;
  let pow := felt_of_Z shifted in
  v ← range_commitment range i;
  let prefix := felt_add initial_prefix (felt_of_Z (Z.of_nat i)) in
  range_check_bit range g1 g2 v prefix i ;;
  v_pow ← curve_mul pow (Some v);
  Ok (curve_add v_total v_pow).

(** [range::verify]. *)
Definition range_verify (range : Range) (bit_size : nat) (g1 g2 : Proj) (initial_prefix : Felt)
    : Result Proj :=
  reject_if (negb (length (commitments range) =? bit_size)%nat
             || negb (length (proofs range) =? bit_size)%nat)
    (CryptoError "Length mismatch: commitments={}, proofs={}, bit_size={}") ;;
  v0 ← range_commitment range 0;
  range_check_bit range g1 g2 v0 initial_prefix 0 ;;
  foldM (range_verify_step range g1 g2 initial_prefix) v0 (seq 1 (bit_size - 1)).
End range.

(** ** Weighted sums *)
Fixpoint zsum (f : nat -> Z) (n : nat) : Z :=
  match n with O => 0 | S n => zsum f n + f n end.

Definition weight (i : nat) : Z := 2 ^ Z.of_nat i.

Section sums.
Context `{StarkLaws}.

Fixpoint psum (f : nat -> Proj) (n : nat) : Proj :=
  match n with O => proj_identity | S n => psum f n ⊕ f n end.

Lemma psum_proper (f g : nat -> Proj) n :
  (forall i, (i < n)%nat -> f i ≡ g i) -> psum f n ≡ psum g n.
Proof.
  induction n as [|n IH]; intros Hfg; cbn [psum]; [done|].
  rewrite IH by (intros i Hi; apply Hfg; lia). by rewrite Hfg by lia.
Qed.

(** A weighted sum of commitments is the commitment to the weighted sums. *)
Lemma psum_commit (b r : nat -> Z) g1 g2 n :
  psum (fun i => weight i • (b i • g1 ⊕ r i • g2)) n
  ≡ zsum (fun i => weight i * b i) n • g1 ⊕ zsum (fun i => weight i * r i) n • g2.
Proof.
  induction n as [|n IH]; cbn [psum zsum]; [proj_module|]. rewrite IH. proj_module.
Qed.

Lemma zsum_bits_bound (b : nat -> Z) n :
  (forall i, (i < n)%nat -> 0 <= b i <= 1) ->
  0 <= zsum (fun i => weight i * b i) n < 2 ^ Z.of_nat n.
Proof.
  induction n as [|n IH]; intros Hb; cbn [zsum]; [done|].
  specialize (IH (fun i Hi => Hb i ltac:(lia))). specialize (Hb n ltac:(lia)).
  rewrite Nat2Z.inj_succ, Z.pow_succ_r by lia. change (2 ^ Z.of_nat n) with (weight n) in *.
  assert (b n = 0 \/ b n = 1) as [-> | ->] by lia; lia.
Qed.

Lemma zsum_bits b n :
  zsum (fun i => weight i * Z.b2z (Z.testbit b (Z.of_nat i))) n = b mod 2 ^ Z.of_nat n.
Proof.
  induction n as [|n IH]; cbn [zsum]; [by rewrite Z.mod_1_r|].
  rewrite IH, Nat2Z.inj_succ, mod_pow2_succ by lia. done.
Qed.

Lemma zsum_ext f g n : (forall i, (i < n)%nat -> f i = g i) -> zsum f n = zsum g n.
Proof.
  induction n as [|n IH]; intros Hfg; cbn [zsum]; [done|].
  rewrite Hfg by lia. rewrite IH; [done|]. intros i Hi. apply Hfg. lia.
Qed.
End sums.

Section range_lemmas.
Context `{StarkLaws}.

(** Integer value of the [i]-th random value. *)
Definition rval (l : list Felt) (i : nat) : Z := from_option felt_val 0 (l !! i).
(** The Fiat-Shamir prefix of bit [i]. *)
Definition bit_prefix (prefix : Felt) (i : nat) : Felt := felt_add prefix (felt_of_Z (Z.of_nat i)).
(** Bit [i] of the value. *)
Definition bit_of (b : Z) (i : nat) : Z := Z.b2z (Z.testbit b (Z.of_nat i)).

Lemma bit_of_01 b i : bit_of b i = 0 \/ bit_of b i = 1.
Proof. unfold bit_of. destruct (Z.testbit _ _); auto. Qed.

Lemma land_shiftr_bit_of b i : Z.land (Z.shiftr b (Z.of_nat i)) 1 = bit_of b i.
Proof.
  unfold bit_of. change 1 with (Z.ones 1). rewrite Z.land_ones, Z.shiftr_div_pow2 by lia.
  change (2 ^ 1) with 2. by rewrite <- Z.testbit_spec' by lia.
Qed.

Lemma felt_add_0 (f : Felt) : felt_add f (felt_of_Z 0) = f.
Proof.
  apply felt_val_inj. rewrite felt_add_val, felt_of_Z_val by lia.
  change (0 mod felt_prime) with 0. rewrite Z.add_0_r. apply Z.mod_small, felt_val_range.
Qed.

Lemma weight_felt i : (i < 128)%nat -> felt_val (felt_of_Z (Z.shiftl 1 (Z.of_nat i))) = weight i.
Proof.
  intros Hi. rewrite Z.shiftl_1_l. apply felt_u128_val.
  split; [apply Z.pow_nonneg; lia|]. apply Z.lt_le_pred, Z.pow_lt_mono_r; lia.
Qed.

Lemma shl_one_spec {E} i : (i < 128)%nat -> @u128_shl_one E i = Ok (Z.shiftl 1 (Z.of_nat i)).
Proof. intros Hi. unfold u128_shl_one. by destruct (Nat.ltb_spec i 128); [|lia]. Qed.

Lemma rval_app l x i :
  (i <= length l)%nat -> rval (l ++ [x]) i = if (i =? length l)%nat then felt_val x else rval l i.
Proof.
  intros Hi. unfold rval. destruct (Nat.eqb_spec i (length l)) as [-> | Hne].
  - by rewrite list_lookup_middle.
  - by rewrite lookup_app_l by lia.
Qed.

Lemma zsum_rval_app l x :
  zsum (fun i => weight i * rval (l ++ [x]) i) (length (l ++ [x]))
  = zsum (fun i => weight i * rval l i) (length l) + weight (length l) * felt_val x.
Proof.
  rewrite length_app. cbn [length]. rewrite Nat.add_1_r. cbn [zsum].
  rewrite rval_app, Nat.eqb_refl by lia. f_equal. apply zsum_ext. intros i Hi.
  rewrite rval_app by lia. by destruct (Nat.eqb_spec i (length l)); [lia|].
Qed.

(** The weighted total is [sum r_i 2^i] modulo the order. *)
Lemma total_randomness_spec l :
  (length l <= 128)%nat ->
  exists r, compute_total_randomness l = Ok r
    /\ felt_val r mod CurveOrder = zsum (fun i => weight i * rval l i) (length l) mod CurveOrder.
Proof.
  intros Hl. unfold compute_total_randomness.
  destruct (Nat.ltb_spec 128 (length l)); [lia|]. clear H1.
  induction l as [|x l IH] using rev_ind.
  - eexists. split; [done|]. by rewrite felt_of_Z_val.
  - rewrite length_app in Hl. cbn [length] in Hl. destruct IH as (r & Hr & Hval); [lia|].
    rewrite enumerate_snoc, foldM_app. run Hr. cbn [foldM]. unfold add_weighted.
    rewrite shl_one_spec by lia. cbn [mbind outcome_bind].
    scalar_step (scalar_mul (felt_of_Z (Z.shiftl 1 (Z.of_nat (length l)))) x) as rp Hrp.
    scalar_step (scalar_add r rp) as r' Hr'.
    eexists. split; [done|].
    rewrite zsum_rval_app, Hr', Hrp, weight_felt by lia.
    apply zcong_elim. rewrite !zcong_mod. f_equiv. by constructor.
Qed.
End range_lemmas.

(** ** The prover's loops *)
Section range_prover.
Context `{StarkLaws}.

Lemma compute_total_snoc l x r :
  (length l < 128)%nat -> compute_total_randomness l = Ok r ->
  compute_total_randomness (l ++ [x]) = add_weighted r (length l) x.
Proof.
  intros Hl. unfold compute_total_randomness. rewrite enumerate_snoc, length_app, foldM_app.
  cbn [length]. destruct (Nat.ltb_spec 128 (length l + 1)), (Nat.ltb_spec 128 (length l)); try lia.
  intros Hr. run Hr. cbn [foldM]. by destruct (add_weighted r (length l) x).
Qed.

(** Accumulating a list of finite bit results: the proofs, the serialised
    commitments, and the total randomness of [compute_total_randomness]. *)
Lemma range_accumulate_run (res : list (Proj * ProofOfBit * Felt)) :
  (length res <= 128)%nat ->
  Forall (fun e => ~ e.1.1 ≡ proj_identity) res ->
  exists cs r,
    foldM range_accumulate ([], [], felt_of_Z 0) (zip (seq 0 (length res)) res)
      = Ok (map (fun e => e.1.2) res, cs, r)
    /\ compute_total_randomness (map snd res) = Ok r
    /\ Forall2 (fun e c => try_from_projective e.1.1 = Ok c) res cs.
Proof.
  induction res as [|[[v pf] x] res IH] using rev_ind; intros Hl Hfin.
  - eexists [], _. split_and!; [done|done|constructor].
  - rewrite length_app in Hl. cbn [length] in Hl. apply Forall_app in Hfin as [Hfin Hv].
    inversion Hv as [|? ? Hvf _]; subst. cbn [fst] in Hvf.
    destruct IH as (cs & r & Hf & Hr & Hcs); [lia|done|].
    destruct (try_from_projective_total v Hvf) as [c Hc].
    destruct (add_weighted r (length res) x) as [r'| |] eqn:Hw.
    2,3: unfold add_weighted in Hw; rewrite shl_one_spec in Hw by lia; done.
    exists (cs ++ [c]), r'. rewrite enumerate_snoc, foldM_app. run Hf.
    pose proof Hw as Hw'. unfold add_weighted in Hw'. rewrite shl_one_spec in Hw' by lia.
    cbn [foldM range_accumulate]. rewrite shl_one_spec by lia.
    cbn [mbind outcome_bind] in *. run Hc.
    destruct (scalar_mul _ x) as [rp| |]; [|done..]. cbn [mbind outcome_bind] in *. run Hw'.
    rewrite !map_app. cbn [map fst snd]. split_and!; [done| |].
    + by rewrite (compute_total_snoc _ _ r), length_map by (by rewrite ?length_map; lia || done).
    + apply Forall2_app; [done|]. by constructor.
Qed.
End range_prover.

(** ** The verifier's loop *)
Section range_verifier.
Context `{StarkLaws}.

(** The verifier accepts bit [i] of [range], whose commitment is [v]. *)
Definition bit_accepted (range : Range) (g1 g2 : Proj) (prefix : Felt) (i : nat) (v : Proj) : Prop :=
  range_commitment range i = Ok v /\
  exists pf, proofs range !! i = Some pf /\ bit_verify v g1 g2 pf (bit_prefix prefix i) = Ok true.

Lemma range_check_bit_Ok range g1 g2 v prefix i u :
  range_check_bit range g1 g2 v prefix i = Ok u <->
  exists pf, proofs range !! i = Some pf /\ bit_verify v g1 g2 pf prefix = Ok true.
Proof.
  unfold range_check_bit. split.
  - intros Hc. inv_ok. destruct a0; [|done]. eauto.
  - intros (pf & Hpf & Hv). rewrite Hpf. cbn [expect mbind outcome_bind]. run Hv. by destruct u.
Qed.

Lemma range_step_Ok range g1 g2 prefix t i t' :
  range_verify_step range g1 g2 prefix t i = Ok t' ->
  exists v, bit_accepted range g1 g2 prefix i v /\ t' ≡ t ⊕ weight i • v.
Proof.
  unfold range_verify_step, u128_shl_one. destruct (Nat.ltb_spec i 128) as [Hi|Hi]; [|done].
  intros Ht. inv_ok. exists a0. split.
  - split; [done|]. by apply (range_check_bit_Ok _ _ _ _ _ _ a1).
  - curve_facts. unfold curve_add. point_subst. by rewrite weight_felt.
Qed.

Lemma range_step_run range g1 g2 prefix t i v :
  (i < 128)%nat -> bit_accepted range g1 g2 prefix i v ->
  exists t', range_verify_step range g1 g2 prefix t i = Ok t' /\ t' ≡ t ⊕ weight i • v.
Proof.
  intros Hi (Hc & Hacc). unfold range_verify_step. rewrite shl_one_spec by done.
  cbn [mbind outcome_bind]. run Hc.
  apply (range_check_bit_Ok _ _ _ _ _ _ tt) in Hacc. unfold bit_prefix in Hacc. run Hacc.
  mul_step (felt_of_Z (Z.shiftl 1 (Z.of_nat i))) v as vp Hvp.
  eexists. split; [done|]. unfold curve_add. by rewrite Hvp, weight_felt.
Qed.

(** Acceptance of the whole proof, as acceptance of every bit. *)
Lemma range_verify_Ok range bit_size g1 g2 prefix V :
  range_verify range bit_size g1 g2 prefix = Ok V ->
  exists v : nat -> Proj,
    (forall i, (i < bit_size)%nat -> bit_accepted range g1 g2 prefix i (v i))
    /\ V ≡ psum (fun i => weight i • v i) bit_size.
Proof.
  unfold range_verify. intros HV. apply bind_Ok in HV as ([] & Hlen & HV).
  apply bind_Ok in HV as (v0 & Hv0 & HV). apply bind_Ok in HV as ([] & Hck & HV).
  assert (bit_accepted range g1 g2 prefix 0 v0) as Hacc0.
  { split; [done|]. unfold bit_prefix. rewrite felt_add_0. by apply (range_check_bit_Ok _ _ _ _ _ _ tt). }
  assert (1 <= bit_size)%nat as Hbs.
  { apply reject_if_Ok in Hlen. unfold range_commitment in Hv0. inv_ok.
    apply lookup_lt_Some in H1. destruct (Nat.eqb_spec (length (commitments range)) bit_size); [lia|done]. }
  assert (forall m V, foldM (range_verify_step range g1 g2 prefix) v0 (seq 1 m) = Ok V ->
    exists v : nat -> Proj,
      (forall i, (i < S m)%nat -> bit_accepted range g1 g2 prefix i (v i))
      /\ V ≡ psum (fun i => weight i • v i) (S m)) as Hind.
  { clear V HV. intros m. induction m as [|m IH]; intros V HV.
    - cbn in HV. injection HV as <-. exists (fun _ => v0). split.
      + intros i Hi. by replace i with 0%nat by lia.
      + cbn [psum weight]. change (weight 0) with 1. proj_module.
    - rewrite seq_S, foldM_app in HV. apply bind_Ok in HV as (t & Ht & HV).
      cbn [foldM plus] in HV. apply bind_Ok in HV as (t' & Hst & HV). injection HV as <-.
      destruct (IH t Ht) as (v & Hacc & Hsum).
      destruct (range_step_Ok _ _ _ _ _ _ _ Hst) as (vm & Hvm & Ht').
      exists (fun i => if (i =? S m)%nat then vm else v i). split.
      + intros i Hi. destruct (Nat.eqb_spec i (S m)) as [-> |]; [done|]. apply Hacc. lia.
      + rewrite Ht', Hsum. cbn [psum]. rewrite Nat.eqb_refl.
        destruct (Nat.eqb_spec m (S m)); [lia|]. f_equiv. f_equiv.
        apply psum_proper. intros i Hi. by destruct (Nat.eqb_spec i (S m)); [lia|]. }
  destruct (Hind _ _ HV) as (v & Hacc & Hsum). replace (S (bit_size - 1)) with bit_size in * by lia.
  eauto.
Qed.

Lemma range_verify_run range bit_size g1 g2 prefix (v : nat -> Proj) :
  (1 <= bit_size <= 128)%nat ->
  length (commitments range) = bit_size -> length (proofs range) = bit_size ->
  (forall i, (i < bit_size)%nat -> bit_accepted range g1 g2 prefix i (v i)) ->
  exists V, range_verify range bit_size g1 g2 prefix = Ok V
    /\ V ≡ psum (fun i => weight i • v i) bit_size.
Proof.
  intros Hbs Hlc Hlp Hacc. unfold range_verify. rewrite Hlc, Hlp, Nat.eqb_refl.
  cbn [negb orb reject_if mbind outcome_bind].
  destruct (Hacc 0%nat ltac:(lia)) as (Hc0 & Hck0). run Hc0.
  unfold bit_prefix in Hck0. rewrite felt_add_0 in Hck0.
  apply (range_check_bit_Ok _ _ _ _ _ _ tt) in Hck0. run Hck0.
  assert (forall m, (m < bit_size)%nat ->
    exists V, foldM (range_verify_step range g1 g2 prefix) (v 0%nat) (seq 1 m) = Ok V
      /\ V ≡ psum (fun i => weight i • v i) (S m)) as Hind.
  { intros m. induction m as [|m IH]; intros Hm.
    - eexists. split; [done|]. cbn [psum]. change (weight 0) with 1. proj_module.
    - destruct IH as (t & Ht & Hsum); [lia|].
      destruct (range_step_run range g1 g2 prefix t (S m) (v (S m))) as (t' & Hst & Ht');
        [lia|by apply Hacc|].
      exists t'. rewrite seq_S, foldM_app. run Ht. cbn [foldM plus]. run Hst.
      split; [done|]. rewrite Ht', Hsum. done. }
  destruct (Hind (bit_size - 1)%nat ltac:(lia)) as (V & HV & Hsum).
  exists V. split; [done|]. by replace (S (bit_size - 1)) with bit_size in Hsum by lia.
Qed.
End range_verifier.

(** ** Correctness *)
Section range_theorems.
Context `{StarkLaws}.

(** A response of the bit proof, and of the range proof, vanishes. *)
Definition bad_response (g2 : Proj) (pf : ProofOfBit) : bool :=
  is_infinity (felt_val (pb_s0 pf) • g2) || is_infinity (felt_val (pb_s1 pf) • g2).
Definition zero_response (range : Range) (g2 : Proj) : bool := existsb (bad_response g2) (proofs range).

(** What the verifier says of a range proof of the commitment [P]: it panics at width
    zero, refuses a zero response, and returns the commitment otherwise. *)
Definition range_verdict (range : Range) (bit_size : nat) (g1 g2 : Proj) (prefix : Felt) (P : Proj) : Prop :=
  if (bit_size =? 0)%nat then range_verify range bit_size g1 g2 prefix = Panic
  else if zero_response range g2 then range_verify range bit_size g1 g2 prefix = Err PointAtInfinity
  else exists V, range_verify range bit_size g1 g2 prefix = Ok V /\ V ≡ P.

Lemma range_bit_run coins b bit_size g1 g2 prefix rv i :
  (i < bit_size)%nat -> length rv = bit_size ->
  (forall r, rv !! i = Some r -> bit_finite (coins i) (bit_of b i) r g1 g2) ->
  exists v pf r,
    range_bit coins (map (fun i => Z.land (Z.shiftr b (Z.of_nat i)) 1) (seq 0 bit_size)) g1 g2 prefix rv i
      = Ok (v, pf, r)
    /\ rv !! i = Some r /\ v ≡ bit_of b i • g1 ⊕ felt_val r • g2 /\ ~ v ≡ proj_identity
    /\ bit_verify v g1 g2 pf (bit_prefix prefix i)
       = if bad_response g2 pf then Err PointAtInfinity else Ok true.
Proof.
  intros Hi Hl Hfin. destruct (lookup_lt_is_Some_2 rv i ltac:(lia)) as [r Hr].
  specialize (Hfin r Hr).
  destruct (bit_prove_run (coins i) (bit_of b i) r g1 g2 (bit_prefix prefix i) (bit_of_01 b i) Hfin)
    as (v & pf & Hp & Hv & Hver).
  exists v, pf, r. split_and!; [|done|done| |done].
  - unfold range_bit. rewrite list_lookup_fmap, lookup_seq_lt by lia. cbn [fmap option_fmap option_map expect mbind outcome_bind].
    rewrite Hr. cbn [expect mbind outcome_bind]. rewrite land_shiftr_bit_of. cbn [plus].
    unfold bit_prefix in Hp. by run Hp.
  - rewrite Hv. by destruct Hfin as (_ & ? & _).
Qed.

Lemma range_checks_pass b bit_size (rv : list Felt) :
  (bit_size <= 128)%nat -> length rv = bit_size -> 0 <= b < 2 ^ Z.of_nat bit_size ->
  (128 <? bit_size)%nat = false /\ (negb (length rv =? bit_size)%nat) = false /\
  ((if (bit_size =? 128)%nat then u128_MAX else Z.shiftl 1 (Z.of_nat bit_size) - 1) <? b) = false.
Proof.
  intros Hbs Hl Hb. rewrite Hl, Nat.eqb_refl, Z.shiftl_1_l.
  split_and!; [by apply Nat.ltb_ge|done|]. apply Z.ltb_ge.
  destruct (Nat.eqb_spec bit_size 128) as [-> |]; [unfold u128_MAX; change (Z.of_nat 128) with 128 in Hb; lia|lia].
Qed.

(** The bits of [b], as the prover lists them. *)
Definition bits_of (b : Z) (bit_size : nat) : list Z :=
  map (fun i => Z.land (Z.shiftr b (Z.of_nat i)) 1) (seq 0 bit_size).

(** What the entry of bit [i] in [bit_results] satisfies. *)
Definition honest_entry (b : Z) (g1 g2 : Proj) (prefix : Felt) (rv : list Felt) (i : nat)
    (e : Proj * ProofOfBit * Felt) : Prop :=
  let '(v, pf, r) := e in
  rv !! i = Some r /\ v ≡ bit_of b i • g1 ⊕ felt_val r • g2 /\ ~ v ≡ proj_identity
  /\ bit_verify v g1 g2 pf (bit_prefix prefix i)
     = if bad_response g2 pf then Err PointAtInfinity else Ok true.

Lemma range_results coins b bit_size g1 g2 prefix rv :
  length rv = bit_size ->
  (forall i r, rv !! i = Some r -> bit_finite (coins i) (bit_of b i) r g1 g2) ->
  exists res,
    collect (map (range_bit coins (bits_of b bit_size) g1 g2 prefix rv) (seq 0 bit_size)) = Ok res
    /\ length res = bit_size
    /\ (forall i e, res !! i = Some e -> honest_entry b g1 g2 prefix rv i e).
Proof.
  intros Hl Hfin. set (f := range_bit coins (bits_of b bit_size) g1 g2 prefix rv).
  assert (forall i, (i < bit_size)%nat -> exists e, f i = Ok e /\ honest_entry b g1 g2 prefix rv i e) as Hrun.
  { intros i Hi. destruct (range_bit_run coins b bit_size g1 g2 prefix rv i Hi Hl (Hfin i))
      as (v & pf & r & Hr & Hrest). exists (v, pf, r). done. }
  destruct (collect_total f (seq 0 bit_size)) as [res Hres].
  { intros i Hi%elem_of_seq. destruct (Hrun i ltac:(lia)) as (e & He & _). eauto. }
  pose proof (collect_length _ _ Hres) as Hlen. rewrite length_map, length_seq in Hlen.
  exists res. split_and!; [done|done|]. intros i e He. pose proof (lookup_lt_Some _ _ _ He).
  destruct (collect_map_lookup f _ res i i Hres) as (e' & He' & Hfe); [apply lookup_seq_lt; lia|].
  destruct (Hrun i ltac:(lia)) as (e'' & Hfe' & Hon). congruence.
Qed.

(** What the verifier finds at bit [i] of an honest proof of [b]. *)
Definition honest_bit (range : Range) (b : Z) (g1 g2 : Proj) (prefix : Felt) (rv : list Felt) (i : nat) : Prop :=
  exists w pf, range_commitment range i = Ok w /\ proofs range !! i = Some pf
    /\ bit_verify w g1 g2 pf (bit_prefix prefix i) = (if bad_response g2 pf then Err PointAtInfinity else Ok true)
    /\ w ≡ bit_of b i • g1 ⊕ rval rv i • g2.

(** A list of honest entries, serialised, is an honest proof. *)
Lemma range_answers b g1 g2 prefix rv res cs :
  (forall i e, res !! i = Some e -> honest_entry b g1 g2 prefix rv i e) ->
  Forall2 (fun e c => try_from_projective e.1.1 = Ok c) res cs ->
  let range := {| commitments := cs; proofs := map (fun e => e.1.2) res |} in
  forall i, (i < length res)%nat -> honest_bit range b g1 g2 prefix rv i.
Proof.
  intros Hent Hcs range i Hi. destruct (lookup_lt_is_Some_2 res i Hi) as [[[v pf] r] He].
  destruct (Hent i _ He) as (Hr & Hv & _ & Hver).
  destruct (Forall2_lookup_l _ _ _ _ _ Hcs He) as (c & Hc & Htry). cbn [fst] in Htry.
  destruct (sp_to_affine_try _ _ Htry) as (a & Hca & Hva).
  destruct (affine_roundtrip _ _ Hva) as (w & Hw & Hwv).
  exists w, pf. split_and!.
  - unfold range_commitment. cbn [commitments range]. rewrite Hc.
    cbn [expect mbind outcome_bind]. by run Hca.
  - cbn [proofs range]. by rewrite list_lookup_fmap, He.
  - by rewrite Hwv, Hver.
  - unfold rval. rewrite Hr. cbn [from_option]. by rewrite Hwv, Hv.
Qed.

Lemma honest_bit_accepted range b g1 g2 prefix rv i :
  zero_response range g2 = false -> honest_bit range b g1 g2 prefix rv i ->
  exists w, bit_accepted range g1 g2 prefix i w /\ w ≡ bit_of b i • g1 ⊕ rval rv i • g2.
Proof.
  intros Hz (w & pf & Hc & Hpf & Hver & Hw). exists w. split; [|done]. split; [done|]. exists pf. split; [done|].
  rewrite Hver. destruct (bad_response g2 pf) eqn:Hbad; [|done]. unfold zero_response in Hz.
  rewrite (proj2 (existsb_exists _ _)) in Hz; [done|]. exists pf. split; [|done].
  apply list_elem_of_In. by eapply list_elem_of_lookup_2.
Qed.

(** The checks of bit [i], on their own and in the loop. *)
Lemma honest_check range b g1 g2 prefix rv i w pf :
  range_commitment range i = Ok w -> proofs range !! i = Some pf -> honest_bit range b g1 g2 prefix rv i ->
  range_check_bit range g1 g2 w (bit_prefix prefix i) i = if bad_response g2 pf then Err PointAtInfinity else Ok tt.
Proof.
  intros Hw Hpf (w' & pf' & Hw' & Hpf' & Hver & _). rewrite Hw in Hw'. injection Hw' as <-.
  rewrite Hpf in Hpf'. injection Hpf' as <-. unfold range_check_bit. rewrite Hpf. cbn [expect mbind outcome_bind].
  rewrite Hver. by destruct (bad_response g2 pf).
Qed.

Lemma honest_step range b g1 g2 prefix rv i pf :
  (i < 128)%nat -> proofs range !! i = Some pf -> honest_bit range b g1 g2 prefix rv i ->
  forall t, if bad_response g2 pf then range_verify_step range g1 g2 prefix t i = Err PointAtInfinity
            else exists t', range_verify_step range g1 g2 prefix t i = Ok t'.
Proof.
  intros Hi Hpf Hb t. pose proof Hb as (w & _ & Hw & _). unfold range_verify_step. rewrite shl_one_spec by done.
  cbn [mbind outcome_bind]. run Hw. fold (bit_prefix prefix i). rewrite (honest_check _ _ _ _ _ _ _ _ _ Hw Hpf Hb).
  destruct (bad_response g2 pf); [done|]. cbn [mbind outcome_bind].
  mul_step (felt_of_Z (Z.shiftl 1 (Z.of_nat i))) w as wp Hwp. by eexists.
Qed.

(** A zero response stops the verifier. *)
Lemma range_verify_stalls range b bit_size g1 g2 prefix rv :
  (1 <= bit_size <= 128)%nat -> length (commitments range) = bit_size -> length (proofs range) = bit_size ->
  (forall i, (i < bit_size)%nat -> honest_bit range b g1 g2 prefix rv i) -> zero_response range g2 = true ->
  range_verify range bit_size g1 g2 prefix = Err PointAtInfinity.
Proof.
  intros Hbs Hlc Hlp Hb Hz. unfold range_verify. rewrite Hlc, Hlp, Nat.eqb_refl.
  cbn [negb orb reject_if mbind outcome_bind].
  destruct (Hb 0%nat ltac:(lia)) as (v0 & pf0 & Hv0 & Hpf0 & _). run Hv0.
  pose proof (honest_check _ _ _ _ _ _ _ _ _ Hv0 Hpf0 (Hb 0%nat ltac:(lia))) as Hck.
  unfold bit_prefix in Hck. rewrite felt_add_0 in Hck. rewrite Hck.
  destruct (bad_response g2 pf0) eqn:Hbad0; [done|]. cbn [mbind outcome_bind].
  apply existsb_exists in Hz as (pf & Hin & Hbad).
  apply list_elem_of_In, list_elem_of_lookup in Hin as [i Hi].
  pose proof (lookup_lt_Some _ _ _ Hi) as Hlt. rewrite Hlp in Hlt.
  apply (foldM_stops _ _ _ i).
  - apply elem_of_seq. split; [|lia]. destruct i as [|i]; [|lia]. rewrite Hpf0 in Hi. injection Hi as ->. congruence.
  - intros t. pose proof (honest_step range b g1 g2 prefix rv i pf ltac:(lia) Hi (Hb i Hlt) t) as Hs. by rewrite Hbad in Hs.
  - intros t j [Hj1 Hj2]%elem_of_seq. destruct (lookup_lt_is_Some_2 (proofs range) j ltac:(lia)) as [pj Hpj].
    pose proof (honest_step range b g1 g2 prefix rv j pj ltac:(lia) Hpj (Hb j ltac:(lia)) t) as Hs.
    destruct (bad_response g2 pj); [by right|by left].
Qed.

Lemma honest_entries_randomness b bit_size g1 g2 prefix rv res :
  length rv = bit_size -> length res = bit_size ->
  (forall i e, res !! i = Some e -> honest_entry b g1 g2 prefix rv i e) ->
  map snd res = rv /\ Forall (fun e => ~ e.1.1 ≡ proj_identity) res.
Proof.
  intros Hl Hlr Hent. split.
  - apply list_eq. intros i. rewrite list_lookup_fmap.
    destruct (res !! i) as [[[v pf] r]|] eqn:He.
    + by destruct (Hent i _ He) as (-> & _).
    + apply lookup_ge_None in He. by rewrite lookup_ge_None_2 by lia.
  - apply Forall_lookup. intros i [[v pf] r] He. by destruct (Hent i _ He) as (_ & _ & ? & _).
Qed.

(** Bits accepted for [b] with randomness [rv]: the verified point commits to [b]. *)
Lemma range_verify_value range b bit_size g1 g2 prefix rv r :
  (1 <= bit_size <= 128)%nat -> length rv = bit_size -> 0 <= b < 2 ^ Z.of_nat bit_size ->
  length (commitments range) = bit_size -> length (proofs range) = bit_size ->
  compute_total_randomness rv = Ok r ->
  (forall i, (i < bit_size)%nat ->
    exists w, bit_accepted range g1 g2 prefix i w /\ w ≡ bit_of b i • g1 ⊕ rval rv i • g2) ->
  exists V, range_verify range bit_size g1 g2 prefix = Ok V /\ V ≡ b • g1 ⊕ felt_val r • g2.
Proof.
  intros Hbs Hl Hb Hlc Hlp Htot Hw.
  set (v i := default proj_identity (to_option (range_commitment range i))).
  assert (forall i, (i < bit_size)%nat ->
    bit_accepted range g1 g2 prefix i (v i) /\ v i ≡ bit_of b i • g1 ⊕ rval rv i • g2) as Hv.
  { intros i Hi. destruct (Hw i Hi) as (w & Hacc & Hval).
    assert (v i = w) as -> by (unfold v; by rewrite (proj1 Hacc)). done. }
  destruct (range_verify_run range bit_size g1 g2 prefix v) as (V & HV & Hsum);
    [done|done|done|intros i Hi; by apply Hv|].
  exists V. split; [done|]. rewrite Hsum.
  rewrite (psum_proper _ (fun i => weight i • (bit_of b i • g1 ⊕ rval rv i • g2)))
    by (intros i Hi; by rewrite (proj2 (Hv i Hi))).
  rewrite psum_commit. unfold bit_of. rewrite zsum_bits, Z.mod_small by done.
  destruct (total_randomness_spec rv) as (r' & Hr' & Hval); [lia|].
  rewrite Htot in Hr'. injection Hr' as <-. rewrite Hl in Hval.
  by rewrite (smul_eqm (felt_val r) _ _ Hval).
Qed.

Lemma range_prove_run (coins : nat -> BitCoins) (b : Z) (bit_size : nat) (g1 g2 : Proj)
    (prefix : Felt) (rv : list Felt) :
  (bit_size <= 128)%nat -> length rv = bit_size -> 0 <= b < 2 ^ Z.of_nat bit_size ->
  (forall i r, rv !! i = Some r -> bit_finite (coins i) (bit_of b i) r g1 g2) ->
  exists range r,
    range_prove_with_randomness coins b bit_size g1 g2 prefix rv = Ok (range, r)
    /\ compute_total_randomness rv = Ok r
    /\ length (commitments range) = bit_size /\ length (proofs range) = bit_size
    /\ range_verdict range bit_size g1 g2 prefix (b • g1 ⊕ felt_val r • g2).
Proof.
  intros Hbs Hl Hb Hfin. unfold range_prove_with_randomness.
  destruct (range_checks_pass b bit_size rv ltac:(lia) Hl Hb) as (-> & -> & ->).
  cbn [reject_if mbind outcome_bind].
  destruct (range_results coins b bit_size g1 g2 prefix rv Hl Hfin) as (res & Hres & Hlr & Hent).
  unfold bits_of in Hres. run Hres.
  destruct (honest_entries_randomness _ _ _ _ _ _ _ Hl Hlr Hent) as [Hsnd Hf].
  destruct (range_accumulate_run res) as (cs & r & Hacc & Htot & Hcs); [lia|done|].
  run Hacc. rewrite Hsnd in Htot. eexists _, r. split; [done|]. split; [done|].
  set (range := {| commitments := cs; proofs := map (fun e => e.1.2) res |}).
  assert (length (commitments range) = bit_size) as Hlc by (cbn [commitments range]; by rewrite <- (Forall2_length _ _ _ Hcs)).
  assert (length (proofs range) = bit_size) as Hlp by (cbn [proofs range]; by rewrite length_map).
  split; [done|]. split; [done|].
  assert (forall i, (i < bit_size)%nat -> honest_bit range b g1 g2 prefix rv i) as Hhon
    by (rewrite <- Hlr; by apply range_answers).
  unfold range_verdict. destruct (Nat.eqb_spec bit_size 0) as [->|Hne].
  - unfold range_verify. rewrite Hlc, Hlp. cbn [Nat.eqb negb orb reject_if mbind outcome_bind].
    unfold range_commitment. apply nil_length_inv in Hlc as ->. done.
  - destruct (zero_response range g2) eqn:Hz.
    + apply (range_verify_stalls range b bit_size g1 g2 prefix rv); done || lia.
    + apply (range_verify_value _ b bit_size g1 g2 prefix rv r); try done; [lia|].
      intros i Hi. by apply honest_bit_accepted, Hhon.
Qed.

(** A prover that returns a range met no point at infinity. *)
Lemma range_prove_Ok_finite coins b bit_size g1 g2 prefix rv res :
  ~ g1 ≡ proj_identity -> 0 <= b <= u128_MAX ->
  range_prove_with_randomness coins b bit_size g1 g2 prefix rv = Ok res ->
  (bit_size <= 128)%nat /\ length rv = bit_size /\ b < 2 ^ Z.of_nat bit_size
  /\ forall i r, rv !! i = Some r -> bit_finite (coins i) (bit_of b i) r g1 g2.
Proof.
  intros Hg1 Hb Hp. unfold range_prove_with_randomness in Hp.
  apply bind_Ok in Hp as (u1 & H1%reject_if_Ok & Hp). apply bind_Ok in Hp as (u2 & H2%reject_if_Ok & Hp).
  apply bind_Ok in Hp as (u3 & H3%reject_if_Ok & Hp). apply bind_Ok in Hp as (bits & Hbits & _).
  apply Nat.ltb_ge in H1. apply negb_false_iff, Nat.eqb_eq in H2. apply Z.ltb_ge in H3.
  split_and!; [done|done| |].
  { destruct (Nat.eqb_spec bit_size 128) as [-> |]; [unfold u128_MAX in Hb; change (Z.of_nat 128) with 128; lia|].
    rewrite Z.shiftl_1_l in H3. lia. }
  intros i r Hr. pose proof (lookup_lt_Some _ _ _ Hr) as Hi.
  destruct (collect_map_lookup _ _ _ i i Hbits) as (e & _ & He); [apply lookup_seq_lt; lia|].
  unfold range_bit in He. rewrite list_lookup_fmap, lookup_seq_lt in He by lia.
  cbn [fmap option_fmap option_map expect mbind outcome_bind] in He.
  rewrite Hr in He. cbn [expect mbind outcome_bind] in He. rewrite land_shiftr_bit_of in He.
  apply bind_Ok in He as (vp & Hbp & _). by apply bit_prove_Ok_finite in Hbp as [_ Hbp].
Qed.

(** What a returned range proof is worth: its verifier recovers the commitment. *)
Lemma range_prove_Ok coins b bit_size g1 g2 prefix rv range r :
  ~ g1 ≡ proj_identity -> 0 <= b <= u128_MAX ->
  range_prove_with_randomness coins b bit_size g1 g2 prefix rv = Ok (range, r) ->
  b < 2 ^ Z.of_nat bit_size /\ compute_total_randomness rv = Ok r
  /\ length (commitments range) = bit_size /\ length (proofs range) = bit_size
  /\ range_verdict range bit_size g1 g2 prefix (b • g1 ⊕ felt_val r • g2).
Proof.
  intros Hg1 Hb Hp.
  destruct (range_prove_Ok_finite _ _ _ _ _ _ _ _ Hg1 Hb Hp) as (Hmax & Hl & Hlt & Hfin).
  destruct (range_prove_run coins b bit_size g1 g2 prefix rv) as (range' & r' & Hp' & Htot & Hver);
    [lia|done|lia|done|].
  rewrite Hp in Hp'. injection Hp' as <- <-. done.
Qed.

#[export] Instance range_verdict_proper range bit_size g1 g2 prefix :
  Proper ((≡) ==> iff) (range_verdict range bit_size g1 g2 prefix).
Proof.
  intros P Q HPQ. unfold range_verdict. destruct (_ =? _)%nat; [done|]. destruct (zero_response _ _); [done|].
  split; intros (V & HV & HVe); exists V; (split; [done|]); by rewrite HVe.
Qed.

(** For every width up to 128 and value below 2^width the range prover returns a
    proof, unless a point it meets is at infinity; its blinding factor is the weighted sum of
    the bit blindings. *)
Theorem range_complete (coins : nat -> BitCoins) (b : Z) (bit_size : nat) (g1 g2 : Proj)
    (prefix : Felt) (rv : list Felt) :
  (bit_size <= 128)%nat -> length rv = bit_size -> 0 <= b < 2 ^ Z.of_nat bit_size ->
  (forall i r, rv !! i = Some r -> bit_finite (coins i) (bit_of b i) r g1 g2) ->
  exists range r,
    range_prove_with_randomness coins b bit_size g1 g2 prefix rv = Ok (range, r)
    /\ compute_total_randomness rv = Ok r
    /\ range_verdict range bit_size g1 g2 prefix (b • g1 ⊕ felt_val r • g2).
Proof.
  intros Hbs Hl Hb Hfin.
  destruct (range_prove_run coins b bit_size g1 g2 prefix rv Hbs Hl Hb Hfin) as (range & r & Hp & Ht & _ & _ & Hv).
  by exists range, r.
Qed.

(** What the verifier accepts is the weighted sum of its commitments: openings of
    the commitments to bits are an opening of the whole to a value in range. *)
Lemma range_open range bit_size g1 g2 prefix V (b r : nat -> Z) :
  range_verify range bit_size g1 g2 prefix = Ok V ->
  (forall i v, (i < bit_size)%nat -> bit_accepted range g1 g2 prefix i v ->
     (b i = 0 \/ b i = 1) /\ v ≡ b i • g1 ⊕ r i • g2) ->
  let value := zsum (fun i => weight i * b i) bit_size in
  V ≡ value • g1 ⊕ zsum (fun i => weight i * r i) bit_size • g2
  /\ 0 <= value < 2 ^ Z.of_nat bit_size.
Proof.
  intros (v & Hacc & Hsum)%range_verify_Ok Hopen value. split.
  - rewrite Hsum. unfold value. rewrite <- psum_commit. apply psum_proper. intros i Hi.
    by rewrite (proj2 (Hopen i _ Hi (Hacc i Hi))).
  - apply zsum_bits_bound. intros i Hi. destruct (Hopen i _ Hi (Hacc i Hi)) as [[-> | ->] _]; lia.
Qed.

(** The challenge of bit [i], and the opening two range proofs give away for it. *)
Definition range_challenge (range : Range) (prefix : Felt) (i : nat) : Result Felt :=
  v ← range_commitment range i;
  pf ← expect (proofs range !! i);
  bit_challenge v pf (bit_prefix prefix i).
Definition range_extract (range range' : Range) (prefix prefix' : Felt) (i : nat) : Z * Z :=
  default (0, 0) (to_option (
    c ← range_challenge range prefix i; c' ← range_challenge range' prefix' i;
    pf ← expect (proofs range !! i); pf' ← expect (proofs range' !! i);
    Ok (bit_extract c c' pf pf'))).

(** Two range proofs for one statement: the same bit commitments and first
    messages, different challenges for every bit. *)
Definition range_forked (range range' : Range) (prefix prefix' : Felt) (bit_size : nat) : Prop :=
  commitments range = commitments range'
  /\ forall i, (i < bit_size)%nat ->
      (forall pf pf', proofs range !! i = Some pf -> proofs range' !! i = Some pf' ->
         pb_a0 pf = pb_a0 pf' /\ pb_a1 pf = pb_a1 pf')
      /\ (forall c c', range_challenge range prefix i = Ok c -> range_challenge range' prefix' i = Ok c' ->
           (felt_val c - felt_val c') mod CurveOrder <> 0).

Lemma bit_challenge_accepted range g1 g2 prefix i v pf :
  range_commitment range i = Ok v -> proofs range !! i = Some pf ->
  bit_verify v g1 g2 pf (bit_prefix prefix i) = Ok true ->
  exists c, bit_challenge v pf (bit_prefix prefix i) = Ok c /\ range_challenge range prefix i = Ok c.
Proof.
  intros Hv Hpf (a0 & a1 & c & Ha0 & Ha1 & Hc & _)%bit_verify_true_inv.
  assert (bit_challenge v pf (bit_prefix prefix i) = Ok c) as Hb.
  { unfold bit_challenge. run Ha0. by run Ha1. }
  exists c. split; [done|]. unfold range_challenge. run Hv. rewrite Hpf. cbn [expect mbind outcome_bind]. done.
Qed.

Lemma range_extract_spec range range' bit_size g1 g2 prefix prefix' i v :
  range_forked range range' prefix prefix' bit_size -> (i < bit_size)%nat ->
  bit_accepted range g1 g2 prefix i v ->
  (exists v', bit_accepted range' g1 g2 prefix' i v') ->
  let '(b, r) := range_extract range range' prefix prefix' i in
  (b = 0 \/ b = 1) /\ v ≡ b • g1 ⊕ r • g2.
Proof.
  intros (Hcs & Hfork) Hi (Hv & pf & Hpf & Hok) (v' & Hv' & pf' & Hpf' & Hok').
  assert (v' = v) as ->.
  { unfold range_commitment in Hv, Hv'. rewrite <- Hcs, Hv in Hv'. by injection Hv'. }
  destruct (Hfork i Hi) as [Ha Hne]. destruct (Ha pf pf' Hpf Hpf') as [Ha0 Ha1].
  destruct (bit_challenge_accepted _ _ _ _ _ _ _ Hv Hpf Hok) as (c & Hbc & Hc).
  destruct (bit_challenge_accepted _ _ _ _ _ _ _ Hv' Hpf' Hok') as (c' & Hbc' & Hc').
  unfold range_extract. rewrite Hc, Hc', Hpf, Hpf'. cbn [expect mbind outcome_bind to_option default].
  apply (bit_fork v g1 g2 pf pf' _ _ c c' Hok Hok' Ha0 Ha1 Hbc Hbc'). by apply Hne.
Qed.

(** C4: From two accepting range-proof transcripts that share commitments and have different
    challenges, an explicit extractor computes an opening of the verified commitment whose
    value lies in [0, 2^bit_size). *)
Theorem range_special_soundness (range range' : Range) (bit_size : nat) (g1 g2 : Proj)
    (prefix prefix' : Felt) (V V' : Proj) :
  range_verify range bit_size g1 g2 prefix = Ok V ->
  range_verify range' bit_size g1 g2 prefix' = Ok V' ->
  range_forked range range' prefix prefix' bit_size ->
  let opening := range_extract range range' prefix prefix' in
  let value := zsum (fun i => weight i * (opening i).1) bit_size in
  V ≡ value • g1 ⊕ zsum (fun i => weight i * (opening i).2) bit_size • g2
  /\ 0 <= value < 2 ^ Z.of_nat bit_size.
Proof.
  intros HV (v' & Hacc' & _)%range_verify_Ok Hfork opening.
  apply (range_open _ _ _ _ _ _ (fun i => (opening i).1) (fun i => (opening i).2) HV).
  intros i v Hi Hacc.
  pose proof (range_extract_spec _ _ _ _ _ _ _ i v Hfork Hi Hacc
                (ex_intro _ (v' i) (Hacc' i Hi))) as Hx.
  unfold opening. by destruct (range_extract range range' prefix prefix' i).
Qed.

(** The guards of the prover, in their order. *)
(** The prover refuses widths above 128, a wrong number of blinding factors, and values out of range. *)
Theorem range_prove_guards (coins : nat -> BitCoins) (b : Z) (bit_size : nat) (g1 g2 : Proj)
    (prefix : Felt) (rv : list Felt) :
  0 <= b <= u128_MAX ->
  ((128 < bit_size)%nat \/ length rv <> bit_size \/ 2 ^ Z.of_nat bit_size <= b ->
   exists msg, range_prove_with_randomness coins b bit_size g1 g2 prefix rv = Err (CryptoError msg))
  /\ ((bit_size <= 128)%nat -> length rv = bit_size -> 2 ^ Z.of_nat bit_size <= b ->
      range_prove_with_randomness coins b bit_size g1 g2 prefix rv
      = Err (CryptoError "Value {} is not in range [0, {}]")).
Proof.
  intros Hb.
  assert ((bit_size <= 128)%nat -> length rv = bit_size -> 2 ^ Z.of_nat bit_size <= b ->
      range_prove_with_randomness coins b bit_size g1 g2 prefix rv
      = Err (CryptoError "Value {} is not in range [0, {}]")) as Hlarge.
  { intros Hbs Hl Hlt. unfold range_prove_with_randomness.
    rewrite Hl, Nat.eqb_refl, Z.shiftl_1_l. destruct (Nat.ltb_spec 128 bit_size); [lia|].
    cbn [negb reject_if mbind outcome_bind].
    destruct (Nat.eqb_spec bit_size 128) as [-> |Hne].
    - unfold u128_MAX in Hb. change (Z.of_nat 128) with 128 in Hlt. lia.
    - destruct (Z.ltb_spec (2 ^ Z.of_nat bit_size - 1) b); [done|lia]. }
  split; [|exact Hlarge]. intros Hbad.
  destruct (Nat.ltb_spec 128 bit_size) as [Hbs|Hbs];
    [unfold range_prove_with_randomness; rewrite (proj2 (Nat.ltb_lt _ _)) by lia; by eexists|].
  destruct (Nat.eqb_spec (length rv) bit_size) as [Hl|Hl];
    [|unfold range_prove_with_randomness; rewrite (proj2 (Nat.ltb_ge 128 bit_size)), (proj2 (Nat.eqb_neq (length rv) bit_size)) by lia; by eexists].
  destruct Hbad as [?|[?|?]]; [lia|done|]. eexists. by apply Hlarge.
Qed.

End range_theorems.

(** ** Witnesses *)
Definition range_coins1 (i : nat) : @BitCoins model_types :=
  {| sim_s := mk (11 + Z.of_nat i); sim_c := mk (21 + Z.of_nat i); nonce_k := mk (31 + Z.of_nat i) |}.
Definition range_rv1 : list (@Felt model_types) := [mk 5; mk 6].

Lemma range_complete_witness :
  exists range r,
    @range_prove_with_randomness model_types range_coins1 2 2 GXv HXv (mk 42) range_rv1 = Ok (range, r)
    /\ compute_total_randomness range_rv1 = Ok r
    /\ range_verdict range 2 GXv HXv (mk 42) (2 • (GXv : @Proj model_types) ⊕ felt_val r • (HXv : @Proj model_types)).
Proof.
  apply (@range_complete model_types model_laws range_coins1 2 2 GXv HXv (mk 42) range_rv1);
    [lia|reflexivity|lia|].
  intros [|[|i]] r Hr; [| |discriminate Hr]; injection Hr as <-;
    repeat apply conj; points_differ.
Defined.

Lemma model_generator_finite : ~ (GXv : @Proj model_types) ≡ proj_identity.
Proof. points_differ. Qed.

(** Two proofs of the same value with the same coins under two prefixes. *)
Definition range_run (prefix : Z) : @Range model_types :=
  default {| commitments := []; proofs := [] |}
    (to_option (fst <$> @range_prove_with_randomness model_types range_coins1 1 1 GXv HXv (mk prefix) [mk 5])).
Definition range_run1 := Eval vm_compute in range_run 42.
Definition range_run2 := Eval vm_compute in range_run 142.
Definition range_run_V : @Proj model_types := Eval vm_compute in
  default 0 (to_option (@range_verify model_types range_run1 1 GXv HXv (mk 42))).


Definition range_run_c (range : @Range model_types) (prefix : Z) (i : nat) : mfelt :=
  default (mk 0) (to_option (@range_challenge model_types range (mk prefix) i)).

Lemma challenges_differ `{StarkLaws} (m m' : Result Felt) (c c' d d' : Felt) :
  m = Ok c -> m' = Ok c' -> (felt_val c - felt_val c') mod CurveOrder <> 0 ->
  m = Ok d -> m' = Ok d' -> (felt_val d - felt_val d') mod CurveOrder <> 0.
Proof. intros -> -> Hne Hd Hd'. injection Hd as <-. injection Hd' as <-. exact Hne. Qed.

Lemma range_special_soundness_witness :
  let opening := @range_extract model_types range_run1 range_run2 (mk 42) (mk 142) in
  let value := zsum (fun i => weight i * (opening i).1) 1 in
  range_run_V ≡ value • (GXv : @Proj model_types)
                ⊕ zsum (fun i => weight i * (opening i).2) 1 • (HXv : @Proj model_types)
  /\ 0 <= value < 2 ^ Z.of_nat 1.
Proof.
  apply (@range_special_soundness model_types model_laws range_run1 range_run2 1 GXv HXv
           (mk 42) (mk 142) range_run_V range_run_V); [vm_compute; reflexivity..|].
  split; [reflexivity|]. intros i Hi. split.
  - destruct i as [|i]; [|lia]; intros pf pf' Hpf Hpf';
      injection Hpf as <-; injection Hpf' as <-; split; reflexivity.
  - intros c c'.
    apply (@challenges_differ model_types model_laws _ _ (range_run_c range_run1 42 i) (range_run_c range_run2 142 i));
      (destruct i as [|i]; [|lia]); vm_compute; (reflexivity || discriminate).
Defined.

Lemma range_prove_guards_witness :
  @range_prove_with_randomness model_types range_coins1 4 2 GXv HXv (mk 42) range_rv1
  = Err (CryptoError "Value {} is not in range [0, {}]").
Proof.
  apply (@range_prove_guards model_types range_coins1 4 2 GXv HXv (mk 42) range_rv1);
    [unfold u128_MAX; lia|lia|reflexivity|lia].
Defined.
