(* ===== verification/ElGamal.v ===== *)
(** * ElGamal encryption with proofs (crates/crypto/src/elgamal.rs)

    Ciphertexts [(L, R) = (g^m + pk^r, g^r)], the two Fiat-Shamir transcripts of
    the encryption proof, decryption and the bounded discrete-log search.  The
    prover's two random draws are arguments. *)

From stdpp Require Import base option list numbers strings.
From Stdlib Require Import ZArith Lia Zdiv.
From S2P Require Import Prelude StarkLib Primality GroupTac StarkModel Types Scalar Curve Hash.

Inductive Transcript : Type := Legacy | Strong.
#[export] Instance Transcript_eq_dec : EqDecision Transcript.
Proof. solve_decision. Defined.

Definition invalid_affine_point : KmsError := InvalidPublicKey "Invalid affine point: {:?}".

Section elgamal.
Context `{StarkTypes}.

Record ElGamalEncryption : Type := { ee_l : Proj; ee_r : Proj; ee_proof : ElGamalProof }.

(** [Transcript::challenge]. *)
Definition transcript_challenge (t : Transcript) (prefix : Felt) (public_key l r a_l a_r : Proj)
    : Result Felt :=
  match t with
  | Legacy => compute_challenge_triple prefix l r a_l
  | Strong => compute_challenge prefix [public_key; l; r; a_l; a_r]
  end.

(** [prove_encryption]; [r_b], [r_r] are the draws of [random_felt]. *)
Definition prove_encryption (r_b r_r : Felt) (message random : Felt) (public_key l r : Proj)
    (prefix : Felt) (transcript : Transcript) : Result ElGamalProof :=
  g ← generator;
  g_rb ← curve_mul r_b (Some g);
  pk_rr ← curve_mul r_r (Some public_key);
  let a_l := curve_add g_rb pk_rr in
  a_r ← curve_mul r_r (Some g);
  c ← transcript_challenge transcript prefix public_key l r a_l a_r;
  c_message ← scalar_mul c message;
  s_b ← scalar_add r_b c_message;
  c_random ← scalar_mul c random;
  s_r ← scalar_add r_r c_random;
  al ← try_from_projective a_l;
  ar ← try_from_projective a_r;
  Ok {| eg_al := al; eg_ar := ar; eg_sb := s_b; eg_sr := s_r; eg_c := c |}.

Definition encrypt_with_transcript (r_b r_r : Felt) (message : Felt) (public_key : Proj)
    (random prefix : Felt) (transcript : Transcript) : Result ElGamalEncryption :=
  g ← generator;
  g_m ← curve_mul message (Some g);
  pk_r ← curve_mul random (Some public_key);
  let l := curve_add g_m pk_r in
  r ← curve_mul random (Some g);
  proof ← prove_encryption r_b r_r message random public_key l r prefix transcript;
  Ok {| ee_l := l; ee_r := r; ee_proof := proof |}.

Definition elgamal_encrypt (r_b r_r message : Felt) (public_key : Proj) (random prefix : Felt) :=
  encrypt_with_transcript r_b r_r message public_key random prefix Legacy.
Definition elgamal_encrypt_strong (r_b r_r message : Felt) (public_key : Proj) (random prefix : Felt) :=
  encrypt_with_transcript r_b r_r message public_key random prefix Strong.

Definition elgamal_verify_inner (l r public_key : Proj) (proof : ElGamalProof) (prefix : Felt)
    (transcript : Transcript) : Result bool :=
  g ← generator;
  a_l ← sp_to_affine (eg_al proof);
  a_r ← sp_to_affine (eg_ar proof);
  a_l_proj ← affine_to_projective a_l;
  a_r_proj ← affine_to_projective a_r;
  let s_b := eg_sb proof in
  let s_r := eg_sr proof in
  let c := eg_c proof in
  c_computed ← transcript_challenge transcript prefix public_key l r a_l_proj a_r_proj;
  if bool_decide (c <> c_computed) then Ok false
  else
    lhs1 ← curve_mul s_r (Some g);
    r_c ← curve_mul c (Some r);
    let rhs1 := curve_add a_r_proj r_c in
    eq1 ← affine_eq lhs1 rhs1;
    if negb eq1 then Ok false
    else
      g_sb ← curve_mul s_b (Some g);
      pk_sr ← curve_mul s_r (Some public_key);
      let lhs2 := curve_add g_sb pk_sr in
      l_c ← curve_mul c (Some l);
      let rhs2 := curve_add a_l_proj l_c in
      affine_eq lhs2 rhs2.

Definition elgamal_verify (l r public_key : Proj) (proof : ElGamalProof) (prefix : Felt) :=
  elgamal_verify_inner l r public_key proof prefix Legacy.
Definition elgamal_verify_strong (l r public_key : Proj) (proof : ElGamalProof) (prefix : Felt) :=
  elgamal_verify_inner l r public_key proof prefix Strong.

Definition elgamal_decrypt (ciphertext : ElGamalCiphertext) (private_key : Felt) : Result Proj :=
  r_sk ← curve_mul private_key (Some (ct_r ciphertext));
  match proj_to_affine r_sk with
  | None => Ok (ct_l ciphertext)
  | Some _ =>
      r_sk_affine ← projective_to_affine r_sk;
      neg_r_sk ← negate_affine invalid_affine_point r_sk_affine;
      Ok (curve_add (ct_l ciphertext) neg_r_sk)
  end.

(** The loop of [recover_small_discrete_log], [remaining] values before its end. *)
Fixpoint dlog_search (generator : Proj) (target_affine : Aff) (remaining : nat) (value : Z)
    (current : Proj) : Result Z :=
  match remaining with
  | O => Err (CryptoError "Failed to recover balance within search limit of {max_search}")
  | S remaining =>
      current_affine ← projective_to_affine current;
      if bool_decide (current_affine = target_affine) then Ok value
      else dlog_search generator target_affine remaining (value + 1) (curve_add current generator)
  end.

(** [recover_small_discrete_log]; [max_search] is a [u128]. *)
Definition recover_small_discrete_log (point : Proj) (max_search : Z) : Result Z :=
  g ← generator;
  match proj_to_affine point with
  | None => Ok 0
  | Some _ =>
      target_affine ← projective_to_affine point;
      dlog_search g target_affine (Z.to_nat max_search) 1 g
  end.

Definition decrypt_balance_with_limit (ciphertext : ElGamalCiphertext) (private_key : Felt)
    (max_search : Z) : Result Z :=
  message_point ← elgamal_decrypt ciphertext private_key;
  recover_small_discrete_log message_point max_search.
End elgamal.

Section elgamal_lemmas.
Context `{StarkLaws}.

#[export] Instance transcript_challenge_proper :
  Proper ((=) ==> (=) ==> (≡) ==> (≡) ==> (≡) ==> (≡) ==> (≡) ==> (=)) transcript_challenge.
Proof.
  intros t ? <- prefix ? <- pk pk' Hpk l l' Hl r r' Hr al al' Hal ar ar' Har.
  unfold transcript_challenge, compute_challenge_triple.
  destruct t; apply compute_challenge_proper; try done; by repeat constructor.
Qed.

Lemma transcript_challenge_total t prefix pk l r al ar :
  Forall (fun p => ~ p ≡ proj_identity) [pk; l; r; al; ar] ->
  exists c, transcript_challenge t prefix pk l r al ar = Ok c.
Proof.
  intros Hf. destruct t; apply compute_challenge_total; [|done].
  apply Forall_cons in Hf as [_ Hf]. by repeat (apply Forall_cons in Hf as [? Hf]; constructor; [done|]).
Qed.

(** [verify_inner] once the commitments are parsed: two equations. *)
Lemma elgamal_verify_equations t l r pk pf prefix g al ar :
  generator = Ok g ->
  try_from_projective al = Ok (eg_al pf) -> try_from_projective ar = Ok (eg_ar pf) ->
  transcript_challenge t prefix pk l r al ar = Ok (eg_c pf) ->
  felt_val (eg_sr pf) • g ≡ ar ⊕ felt_val (eg_c pf) • r ->
  felt_val (eg_sb pf) • g ⊕ felt_val (eg_sr pf) • pk ≡ al ⊕ felt_val (eg_c pf) • l ->
  elgamal_verify_inner l r pk pf prefix t
  = if is_infinity (felt_val (eg_sr pf) • g)
       || is_infinity (felt_val (eg_sb pf) • g ⊕ felt_val (eg_sr pf) • pk)
    then Err PointAtInfinity else Ok true.
Proof.
  intros Hg (x & Hx & Hal)%sp_to_affine_try (y & Hy & Har)%sp_to_affine_try Hc He1 He2.
  destruct (affine_roundtrip _ _ Hal) as (xp & Hxp & Hxal).
  destruct (affine_roundtrip _ _ Har) as (yp & Hyp & Hyar).
  unfold elgamal_verify_inner, curve_add. run Hg. run Hx. run Hy. run Hxp. run Hyp.
  assert (transcript_challenge t prefix pk l r xp yp = Ok (eg_c pf)) as Hc' by by rewrite Hxal, Hyar.
  run Hc'. rewrite bool_decide_false by tauto.
  mul_step (eg_sr pf) g as l1 Hl1. mul_step (eg_c pf) r as rc Hrc.
  rewrite affine_eq_equiv by by point_subst.
  rewrite (is_infinity_proper _ _ Hl1).
  destruct (is_infinity (felt_val (eg_sr pf) • g)); [done|]. cbn [mbind outcome_bind negb orb].
  mul_step (eg_sb pf) g as gs Hgs. mul_step (eg_sr pf) pk as ps Hps. mul_step (eg_c pf) l as lc Hlc.
  rewrite affine_eq_equiv by by point_subst. by rewrite Hgs, Hps.
Qed.

Lemma elgamal_verify_true_inv t l r pk pf prefix :
  elgamal_verify_inner l r pk pf prefix t = Ok true ->
  exists g al ar, generator = Ok g
    /\ (a ← sp_to_affine (eg_al pf); affine_to_projective a) = Ok al
    /\ (a ← sp_to_affine (eg_ar pf); affine_to_projective a) = Ok ar
    /\ transcript_challenge t prefix pk l r al ar = Ok (eg_c pf)
    /\ felt_val (eg_sr pf) • g ≡ ar ⊕ felt_val (eg_c pf) • r
    /\ felt_val (eg_sb pf) • g ⊕ felt_val (eg_sr pf) • pk ≡ al ⊕ felt_val (eg_c pf) • l.
Proof.
  unfold elgamal_verify_inner. intros Hv. inv_ok. case_bool_decide as Hc; [done|]. inv_ok.
  destruct a7; [|done]. cbn [negb] in Hv. inv_ok. curve_facts.
  exists a, a2, a3. split_and!; [done|by run H2|by run H3|done| |].
  - destruct H9 as [He _]. unfold curve_add in He. rewrite <- H7, <- H8. done.
  - destruct Hv as [He _]. unfold curve_add in He. rewrite <- H10, <- H11, <- H12. done.
Qed.
End elgamal_lemmas.

(** ** Correctness of the encryption proof *)
Section elgamal_theorems.
Context `{StarkLaws}.

(** An honest encryption has the textbook ciphertext and its proof is accepted, in both
    transcripts, unless a response point is the identity. *)
Theorem elgamal_complete (t : Transcript) (r_b r_r message random prefix : Felt) (pk g : Proj) :
  generator = Ok g ->
  let l := felt_val message • g ⊕ felt_val random • pk in
  let r := felt_val random • g in
  Forall (fun p => ~ p ≡ proj_identity)
    [pk; l; r; felt_val r_b • g ⊕ felt_val r_r • pk; felt_val r_r • g] ->
  exists enc, encrypt_with_transcript r_b r_r message pk random prefix t = Ok enc
    /\ ee_l enc ≡ l /\ ee_r enc ≡ r
    /\ elgamal_verify_inner (ee_l enc) (ee_r enc) pk (ee_proof enc) prefix t
       = if is_infinity (felt_val (eg_sr (ee_proof enc)) • g)
            || is_infinity (felt_val (eg_sb (ee_proof enc)) • g ⊕ felt_val (eg_sr (ee_proof enc)) • pk)
         then Err PointAtInfinity else Ok true.
Proof.
  intros Hg l r Hfin. unfold encrypt_with_transcript, prove_encryption, curve_add.
  rewrite Hg. cbn [mbind outcome_bind].
  mul_step message g as gm Hgm. mul_step random pk as pkr Hpkr. mul_step random g as rr Hrr.
  mul_step r_b g as grb Hgrb. mul_step r_r pk as pkrr Hpkrr. mul_step r_r g as ar Har.
  assert (Forall (fun p => ~ p ≡ proj_identity) [pk; gm ⊕ pkr; rr; grb ⊕ pkrr; ar]) as Hfin'.
  { unfold l, r in Hfin. rewrite !Forall_cons in *. by rewrite Hgm, Hpkr, Hrr, Hgrb, Hpkrr, Har. }
  destruct (transcript_challenge_total t prefix _ _ _ _ _ Hfin') as (c & Hc). run Hc.
  scalar_step (scalar_mul c message) as cm Hcm. scalar_step (scalar_add r_b cm) as sb Hsb.
  scalar_step (scalar_mul c random) as cr Hcr. scalar_step (scalar_add r_r cr) as sr Hsr.
  rewrite !Forall_cons in Hfin'. destruct Hfin' as (_ & _ & _ & Hal & Harf & _).
  destruct (try_from_projective_total _ Hal) as (tl & Htl). run Htl.
  destruct (try_from_projective_total _ Harf) as (tr & Htr). run Htr.
  eexists. split_and!; [done|cbn [ee_l ee_r ee_proof eg_sr eg_sb]; unfold l, r; by point_subst..|].
  cbn [ee_l ee_r ee_proof eg_sr eg_sb].
  erewrite elgamal_verify_equations with (al := grb ⊕ pkrr) (ar := ar);
    cbn [eg_al eg_ar eg_sb eg_sr eg_c]; try done; point_module.
Qed.

(** The plaintext and the randomness two transcripts with one pair of
    commitments give away. *)
Definition elgamal_extract (pf1 pf2 : ElGamalProof) : Z * Z :=
  let inv := order_inverse (felt_val (eg_c pf1) - felt_val (eg_c pf2)) in
  (inv * (felt_val (eg_sb pf1) - felt_val (eg_sb pf2)),
   inv * (felt_val (eg_sr pf1) - felt_val (eg_sr pf2))).

(** Two accepting encryption proofs with the same commitments and different challenges
    yield the message and the randomness of the ciphertext. *)
Theorem elgamal_special_soundness (t : Transcript) (l r pk g : Proj) (pf1 pf2 : ElGamalProof)
    (prefix1 prefix2 : Felt) :
  generator = Ok g ->
  elgamal_verify_inner l r pk pf1 prefix1 t = Ok true ->
  elgamal_verify_inner l r pk pf2 prefix2 t = Ok true ->
  eg_al pf1 = eg_al pf2 -> eg_ar pf1 = eg_ar pf2 ->
  (felt_val (eg_c pf1) - felt_val (eg_c pf2)) mod CurveOrder <> 0 ->
  let '(m, random) := elgamal_extract pf1 pf2 in
  l ≡ m • g ⊕ random • pk /\ r ≡ random • g.
Proof.
  intros Hg (g1 & al & ar & Hg1 & Hal & Har & _ & Hr & Hl)%elgamal_verify_true_inv
    (g2 & al' & ar' & Hg2 & Hal' & Har' & _ & Hr' & Hl')%elgamal_verify_true_inv El Er Hne.
  rewrite El, Hal' in Hal. rewrite Er, Har' in Har. rewrite Hg in Hg1, Hg2.
  injection Hal as <-. injection Har as <-. injection Hg1 as <-. injection Hg2 as <-.
  cbn [elgamal_extract]. split.
  - rewrite (sigma_extract _ _ l _ _ _ Hl Hl' Hne). proj_module.
  - rewrite (sigma_extract _ _ r _ _ _ Hr Hr' Hne). proj_module.
Qed.

(** The legacy transcript leaves [A_R] out of the challenge, so a proof can be built for any [R]. *)
Theorem elgamal_legacy_does_not_bind_R (r_b r_r message random prefix c : Felt) (pk R g : Proj) :
  generator = Ok g ->
  let l := felt_val message • g ⊕ felt_val random • pk in
  let a_l := felt_val r_b • g ⊕ felt_val r_r • pk in
  compute_challenge_triple prefix l R a_l = Ok c ->
  let s_b := felt_val r_b + felt_val c * felt_val message in
  let s_r := felt_val r_r + felt_val c * felt_val random in
  ~ s_r • g ⊕ (- felt_val c) • R ≡ proj_identity ->
  ~ s_r • g ≡ proj_identity -> ~ s_b • g ⊕ s_r • pk ≡ proj_identity ->
  exists pf, elgamal_verify l R pk pf prefix = Ok true.
Proof.
  intros Hg l a_l Hc s_b s_r Har Hsr Hsb.
  assert (~ a_l ≡ proj_identity) as Hal.
  { apply compute_challenge_Ok in Hc. rewrite !Forall_cons in Hc. tauto. }
  destruct (try_from_projective_total _ Hal) as (tl & Htl).
  destruct (try_from_projective_total _ Har) as (tr & Htr).
  destruct (scalar_mul c message) as [cm| |] eqn:Hcm; try discriminate Hcm.
  destruct (scalar_add r_b cm) as [sb| |] eqn:Hsb'; try discriminate Hsb'.
  destruct (scalar_mul c random) as [cr| |] eqn:Hcr; try discriminate Hcr.
  destruct (scalar_add r_r cr) as [sr| |] eqn:Hsr'; try discriminate Hsr'.
  curve_facts.
  assert (felt_val sr • g ≡ s_r • g) as Esr by (unfold s_r; point_module).
  assert (felt_val sb • g ⊕ felt_val sr • pk ≡ s_b • g ⊕ s_r • pk) as Esb
    by (unfold s_b, s_r; point_module).
  exists {| eg_al := tl; eg_ar := tr; eg_sb := sb; eg_sr := sr; eg_c := c |}.
  unfold elgamal_verify.
  erewrite elgamal_verify_equations with (al := a_l) (ar := s_r • g ⊕ (- felt_val c) • R);
    cbn [eg_al eg_ar eg_sb eg_sr eg_c]; try done.
  - rewrite <- is_infinity_spec in Hsr, Hsb. rewrite Esr, Esb. by destruct (is_infinity _), (is_infinity _).
  - rewrite Esr. proj_module.
  - rewrite Esb. unfold s_b, s_r, a_l, l. proj_module.
Qed.
End elgamal_theorems.

(** ** Decryption *)
Section elgamal_decryption.
Context `{StarkLaws}.

Lemma elgamal_decrypt_spec ct sk :
  exists p, elgamal_decrypt ct sk = Ok p /\ p ≡ ct_l ct ⊕ (- felt_val sk) • ct_r ct.
Proof.
  unfold elgamal_decrypt, projective_to_affine, curve_add. mul_step sk (ct_r ct) as q Hq.
  destruct (proj_to_affine q) as [a|] eqn:Ha; cbn [ok_or mbind outcome_bind].
  - destruct (negate_affine_spec invalid_affine_point q a Ha) as (n & Hn & Heq). run Hn.
    eexists. split; [done|]. rewrite Heq, Hq. proj_module.
  - eexists. split; [done|]. apply to_affine_infinity in Ha. rewrite Hq in Ha.
    transitivity (ct_l ct ⊕ (-1) • (felt_val sk • ct_r ct)); [|proj_module].
    rewrite Ha. proj_module.
Qed.

(** Two small multiples of the generator coincide only when they are equal. *)
Lemma generator_smul_inj g a b :
  generator = Ok g -> 0 <= a <= u128_MAX + 1 -> 0 <= b <= u128_MAX + 1 -> a • g ≡ b • g -> a = b.
Proof.
  intros Hg Ha Hb Hab.
  assert ((a - b) • g ≡ proj_identity) as Hz.
  { transitivity (a • g ⊕ (-1) • (b • g)); [proj_module|]. rewrite Hab. proj_module. }
  apply (generator_smul_infinity g) in Hz; [|done].
  apply Z.mod_divide in Hz as [k Hk]; [|done].
  unfold u128_MAX in *. unfold CurveOrder in Hk. assert (k = 0) by lia. lia.
Qed.

Lemma dlog_search_spec g target n value current m :
  generator = Ok g -> 1 <= value -> value + Z.of_nat n <= u128_MAX + 1 ->
  current ≡ value • g ->
  dlog_search g target n value current = Ok m <->
  value <= m < value + Z.of_nat n /\ exists p, proj_to_affine p = Some target /\ p ≡ m • g.
Proof.
  intros Hg. revert value current. induction n as [|n IH]; intros value current Hv Hmax Hcur.
  { cbn. split; [done|lia]. }
  cbn [dlog_search]. assert (exists a, proj_to_affine current = Some a) as [a Ha].
  { apply to_affine_not_infinity. rewrite Hcur, (generator_smul_infinity g) by done.
    unfold u128_MAX in Hmax. rewrite Z.mod_small by (unfold CurveOrder; lia). lia. }
  unfold projective_to_affine. rewrite Ha. cbn [ok_or mbind outcome_bind].
  case_bool_decide as Hat.
  - subst a. split.
    + intros [= <-]. split; [lia|]. exists current. done.
    + intros (Hr & p & Hp & Hpm). f_equal.
      apply (generator_smul_inj g); [done|lia|lia|]. rewrite <- Hcur, <- Hpm.
      apply to_affine_eq. congruence.
  - rewrite IH; [|lia|lia|unfold curve_add; rewrite Hcur; proj_module].
    split; [intros (Hr & Hp); split; [lia|done]|].
    intros (Hr & p & Hp & Hpm). split; [|by exists p].
    destruct (decide (m = value)) as [-> |]; [|lia]. destruct Hat.
    rewrite <- Hcur in Hpm. apply to_affine_eq in Hpm. congruence.
Qed.

Lemma dlog_search_fails g target n value current :
  generator = Ok g -> 1 <= value -> value + Z.of_nat n <= u128_MAX + 1 -> current ≡ value • g ->
  (exists m, dlog_search g target n value current = Ok m)
  \/ dlog_search g target n value current
     = Err (CryptoError "Failed to recover balance within search limit of {max_search}").
Proof.
  intros Hg. revert value current. induction n as [|n IH]; intros value current Hv Hmax Hcur; [by right|].
  cbn [dlog_search]. assert (exists a, proj_to_affine current = Some a) as [a Ha].
  { apply to_affine_not_infinity. rewrite Hcur, (generator_smul_infinity g) by done.
    unfold u128_MAX in Hmax. rewrite Z.mod_small by (unfold CurveOrder; lia). lia. }
  unfold projective_to_affine. rewrite Ha. cbn [ok_or mbind outcome_bind].
  case_bool_decide; [eauto|]. apply IH; [lia|lia|unfold curve_add; rewrite Hcur; proj_module].
Qed.

Lemma recover_iff point max_search m g :
  generator = Ok g -> 0 <= max_search <= u128_MAX ->
  recover_small_discrete_log point max_search = Ok m <-> 0 <= m <= max_search /\ point ≡ m • g.
Proof.
  intros Hg Hmax. unfold recover_small_discrete_log. run Hg.
  destruct (proj_to_affine point) as [a|] eqn:Ha.
  - unfold projective_to_affine. rewrite Ha. cbn [ok_or mbind outcome_bind].
    rewrite dlog_search_spec by (done || lia || proj_module).
    assert (~ point ≡ proj_identity) as Hni by (apply to_affine_not_infinity; eauto).
    split.
    + intros (Hr & p & Hp & Hpm). split; [lia|]. rewrite <- Hpm. apply to_affine_eq. congruence.
    + intros (Hr & Hp). split; [|by exists point].
      destruct (decide (m = 0)) as [-> |]; [|lia]. destruct Hni. rewrite Hp. proj_module.
  - apply to_affine_infinity in Ha. split.
    + intros [= <-]. split; [lia|]. rewrite Ha. proj_module.
    + intros (Hr & Hp). f_equal. apply (generator_smul_inj g); [done|lia|lia|].
      rewrite <- Hp, Ha. proj_module.
Qed.

(** The bounded discrete-logarithm search ends with m exactly when the point is m times
    the generator for some m up to the bound, and with an error when there is none. *)
Theorem recover_small_discrete_log_correct (point g : Proj) (max_search : Z) :
  generator = Ok g -> 0 <= max_search <= u128_MAX ->
  (forall m, recover_small_discrete_log point max_search = Ok m
     <-> 0 <= m <= max_search /\ point ≡ m • g)
  /\ ((forall m, 0 <= m <= max_search -> ~ point ≡ m • g) ->
      recover_small_discrete_log point max_search
      = Err (CryptoError "Failed to recover balance within search limit of {max_search}")).
Proof.
  intros Hg Hmax. split; [intros m; by apply recover_iff|]. intros Hno.
  destruct (recover_small_discrete_log point max_search) as [m| |] eqn:Hm;
    [apply (recover_iff _ _ _ g) in Hm as [Hr Hp]; [by destruct (Hno m)|done|done]|..];
    rewrite <- Hm; unfold recover_small_discrete_log in *; rewrite Hg in *; cbn [mbind outcome_bind] in *;
    unfold projective_to_affine in *;
    (destruct (proj_to_affine point) as [a|]; [|discriminate Hm]); cbn [ok_or mbind outcome_bind] in *;
    (destruct (dlog_search_fails g a (Z.to_nat max_search) 1 g) as [[m' Hm']|Hf];
     [done|lia|lia|proj_module|congruence|exact Hf]).
Qed.

(** Decrypting an encryption under the matching key gives the message's point, and the
    bounded search recovers the message when the bound allows it. *)
Theorem elgamal_decrypt_encrypt (t : Transcript) (r_b r_r message random prefix sk : Felt)
    (pk g : Proj) (enc : ElGamalEncryption) (max_search : Z) :
  generator = Ok g -> curve_mul_generator sk = Ok pk ->
  encrypt_with_transcript r_b r_r message pk random prefix t = Ok enc ->
  let ct := {| ct_l := ee_l enc; ct_r := ee_r enc |} in
  (exists p, elgamal_decrypt ct sk = Ok p /\ p ≡ felt_val message • g)
  /\ (felt_val message <= max_search <= u128_MAX ->
      decrypt_balance_with_limit ct sk max_search = Ok (felt_val message)).
Proof.
  intros Hg Hpk Henc ct. unfold curve_mul_generator in Hpk. rewrite Hg in Hpk.
  destruct (curve_scalar_mul_spec g sk) as (q & Hq & Hqe). cbn [mbind outcome_bind] in Hpk.
  rewrite Hq in Hpk. injection Hpk as <-.
  unfold encrypt_with_transcript in Henc. rewrite Hg in Henc. cbn [mbind outcome_bind] in Henc.
  inv_ok. curve_facts.
  destruct (elgamal_decrypt_spec ct sk) as (p & Hp & Hpe).
  assert (p ≡ felt_val message • g) as Hpm.
  { rewrite Hpe. unfold ct, curve_add. cbn [ct_l ct_r ee_l ee_r]. point_module. }
  split; [eauto|]. intros Hmax. unfold decrypt_balance_with_limit. run Hp.
  pose proof (felt_val_range message). apply (recover_iff _ _ _ g); [done|lia|]. split; [lia|done].
Qed.
End elgamal_decryption.

(** ** Witnesses *)
Definition eg_pk : Z := Eval vm_compute in
  default 0 (to_option (@curve_mul_generator model_types (mk 7))).

Lemma elgamal_complete_witness :
  exists enc, @encrypt_with_transcript model_types (mk 3) (mk 4) (mk 2) eg_pk (mk 5) (mk 42) Strong = Ok enc
    /\ ee_l enc ≡ felt_val (mk 2) • (GXv : @Proj model_types) ⊕ felt_val (mk 5) • (eg_pk : @Proj model_types)
    /\ ee_r enc ≡ felt_val (mk 5) • (GXv : @Proj model_types)
    /\ elgamal_verify_inner (ee_l enc) (ee_r enc) eg_pk (ee_proof enc) (mk 42) Strong
       = if is_infinity (felt_val (eg_sr (ee_proof enc)) • (GXv : @Proj model_types))
            || is_infinity (felt_val (eg_sb (ee_proof enc)) • (GXv : @Proj model_types)
                            ⊕ felt_val (eg_sr (ee_proof enc)) • (eg_pk : @Proj model_types))
         then Err PointAtInfinity else Ok true.
Proof.
  apply (@elgamal_complete model_types model_laws Strong (mk 3) (mk 4) (mk 2) (mk 5) (mk 42) eg_pk GXv).
  - vm_compute. reflexivity.
  - repeat apply Forall_cons_2; [points_differ..|constructor].
Defined.

Definition eg_enc (prefix : Z) : Result (@ElGamalEncryption model_types) :=
  @encrypt_with_transcript model_types (mk 3) (mk 4) (mk 2) eg_pk (mk 5) (mk prefix) Strong.
Definition eg_none : @ElGamalEncryption model_types :=
  {| ee_l := 0; ee_r := 0; ee_proof :=
      {| eg_al := {| sp_x := mk 0; sp_y := mk 0 |}; eg_ar := {| sp_x := mk 0; sp_y := mk 0 |};
         eg_sb := mk 0; eg_sr := mk 0; eg_c := mk 0 |} |}.
Definition eg_run (prefix : Z) : @ElGamalEncryption model_types := default eg_none (to_option (eg_enc prefix)).
Definition eg_run1 := Eval vm_compute in eg_run 42.
Definition eg_run2 := Eval vm_compute in eg_run 43.

Lemma elgamal_special_soundness_witness :
  let '(m, random) := elgamal_extract (ee_proof eg_run1) (ee_proof eg_run2) in
  ee_l eg_run1 ≡ m • (GXv : @Proj model_types) ⊕ random • (eg_pk : @Proj model_types)
  /\ ee_r eg_run1 ≡ random • (GXv : @Proj model_types).
Proof.
  apply (@elgamal_special_soundness model_types model_laws Strong (ee_l eg_run1) (ee_r eg_run1) eg_pk GXv
           (ee_proof eg_run1) (ee_proof eg_run2) (mk 42) (mk 43));
    [vm_compute; reflexivity..|reflexivity|reflexivity|vm_compute; discriminate].
Defined.

(** A proof for [R = H], whose logarithm nobody knows. *)
Definition eg_forged_c : mfelt := Eval vm_compute in
  default (mk 0) (to_option (@compute_challenge_triple model_types (mk 42)
    (felt_val (mk 2) • (GXv : @Proj model_types) ⊕ felt_val (mk 5) • (eg_pk : @Proj model_types)) HXv
    (felt_val (mk 3) • (GXv : @Proj model_types) ⊕ felt_val (mk 4) • (eg_pk : @Proj model_types)))).

Lemma elgamal_legacy_does_not_bind_R_witness :
  exists pf, @elgamal_verify model_types
    (felt_val (mk 2) • (GXv : @Proj model_types) ⊕ felt_val (mk 5) • (eg_pk : @Proj model_types))
    HXv eg_pk pf (mk 42) = Ok true.
Proof.
  apply (@elgamal_legacy_does_not_bind_R model_types model_laws (mk 3) (mk 4) (mk 2) (mk 5) (mk 42)
           eg_forged_c eg_pk HXv GXv); [vm_compute; reflexivity..| | |]; points_differ.
Defined.

Lemma recover_small_discrete_log_correct_witness :
  @recover_small_discrete_log model_types (3 * GXv) 5 = Ok 3.
Proof.
  apply (@recover_small_discrete_log_correct model_types model_laws (3 * GXv) GXv 5);
    [vm_compute; reflexivity|unfold u128_MAX; lia|split; [lia|vm_compute; reflexivity]].
Defined.

Lemma elgamal_decrypt_encrypt_witness :
  decrypt_balance_with_limit {| ct_l := ee_l (eg_run 42); ct_r := ee_r (eg_run 42) |} (mk 7) 10
  = Ok (felt_val (mk 2)).
Proof.
  apply (@elgamal_decrypt_encrypt model_types model_laws Strong (mk 3) (mk 4) (mk 2) (mk 5) (mk 42) (mk 7)
           eg_pk GXv (eg_run 42) 10); [vm_compute; reflexivity|vm_compute; reflexivity| |].
  - unfold eg_run, eg_enc. apply (ok_default eg_none). vm_compute. reflexivity.
  - vm_compute. split; discriminate.
Defined.
