(* ===== verification/AuditProver.v ===== *)
(** * Audit proofs (crates/crypto/src/audit.rs)

    The sigma protocol that shows two ciphertexts, one under the user's key and
    one under the auditor's, hold the same balance.  The prover's random draws
    are the record [AuditCoins]. *)

From stdpp Require Import base option list numbers strings.
From Stdlib Require Import ZArith Lia Zdiv.
From S2P Require Import Prelude StarkLib Primality GroupTac StarkModel Types Scalar Curve Hash ElGamal.

(** Cairo string 'audit'. *)
Definition AUDIT_CAIRO_STRING : Z := 418581342580.

Section audit.
Context `{StarkTypes}.

Record AuditPrefixData : Type := {
  apd_chain_id : Felt; apd_tongo_address : Felt; apd_sender_address : Felt; apd_user_pub_key : Proj }.

(** The draws of [AuditProver::random_felt], in order. *)
Record AuditCoins : Type := { ac_r1 : Felt; ac_kx : Felt; ac_kb : Felt; ac_kr : Felt }.

(** [AuditProver::random_felt] on the 32 bytes the system source delivers. *)
Definition audit_random_felt (bytes : list Z) : Felt :=
  from_bytes_be (match bytes with [] => [] | b0 :: rest => Z.land b0 0x0F :: rest end).

Definition conversion_failed (what : string) : KmsError := CryptoError what.

(** [computed_prefix], the same block in [prove_with_validation] and [verify]. *)
Definition audit_prefix (prefix_data : option AuditPrefixData) (auditor_pub_key : Proj)
    (cipher0 cipher1 : ElGamalCiphertext) : Result Felt :=
  match prefix_data with
  | Some pd =>
      user_affine ← ok_or (proj_to_affine (apd_user_pub_key pd)) PointAtInfinity;
      auditor_affine ← ok_or (proj_to_affine auditor_pub_key) PointAtInfinity;
      c0_l_affine ← ok_or (proj_to_affine (ct_l cipher0))
        (conversion_failed "cipher0.l affine conversion failed");
      c0_r_affine ← ok_or (proj_to_affine (ct_r cipher0))
        (conversion_failed "cipher0.r affine conversion failed");
      c1_l_affine ← ok_or (proj_to_affine (ct_l cipher1))
        (conversion_failed "cipher1.l affine conversion failed");
      c1_r_affine ← ok_or (proj_to_affine (ct_r cipher1))
        (conversion_failed "cipher1.r affine conversion failed");
      Ok (poseidon_hash_many [
        apd_chain_id pd; apd_tongo_address pd; apd_sender_address pd; felt_of_Z AUDIT_CAIRO_STRING;
        aff_x user_affine; aff_y user_affine; aff_x auditor_affine; aff_y auditor_affine;
        aff_x c0_l_affine; aff_y c0_l_affine; aff_x c0_r_affine; aff_y c0_r_affine;
        aff_x c1_l_affine; aff_y c1_l_affine; aff_x c1_r_affine; aff_y c1_r_affine])
  | None => Ok (felt_of_Z AUDIT_CAIRO_STRING)
  end.

Definition reject_infinity (point : Proj) (msg : string) : Result unit :=
  reject_if (is_infinity point) (CryptoError msg).

(** [prove_with_validation]; [balance] is a [u128]. *)
Definition audit_prove_with_validation (coins : AuditCoins) (private_key : Felt) (balance : Z)
    (cipher0 : ElGamalCiphertext) (auditor_pub_key : Proj) (validate : bool)
    (prefix_data : option AuditPrefixData) : Result (AuditProof * ElGamalCiphertext) :=
  g ← generator;
  reject_infinity (ct_l cipher0) "cipher0.l is point at infinity" ;;
  reject_infinity (ct_r cipher0) "cipher0.r is point at infinity" ;;
  reject_infinity auditor_pub_key "auditor_pub_key is point at infinity" ;;
  (if validate then
     r0_x ← curve_mul private_key (Some (ct_r cipher0));
     let g_b_computed := proj_sub (ct_l cipher0) r0_x in
     g_b_expected ← curve_mul (felt_of_Z balance) (Some g);
     reject_if (negb (proj_eqb g_b_computed g_b_expected))
       (CryptoError "cipher0 is not a valid encryption of the balance")
   else Ok tt) ;;
  let r1 := ac_r1 coins in
  auditor_r1 ← curve_mul r1 (Some auditor_pub_key);
  l1 ← (if balance =? 0 then Ok auditor_r1
        else g_b ← curve_mul (felt_of_Z balance) (Some g); Ok (curve_add g_b auditor_r1));
  r1_point ← curve_mul r1 (Some g);
  reject_infinity l1 "cipher1.l is point at infinity" ;;
  reject_infinity r1_point "cipher1.r is point at infinity" ;;
  let cipher1 := {| ct_l := l1; ct_r := r1_point |} in
  let kx := ac_kx coins in
  let kb := ac_kb coins in
  let kr := ac_kr coins in
  ax ← curve_mul kx (Some g);
  reject_infinity ax "Ax is point at infinity" ;;
  g_kb ← curve_mul kb (Some g);
  r0_kx ← curve_mul kx (Some (ct_r cipher0));
  let al0 := curve_add g_kb r0_kx in
  reject_infinity al0 "AL0 is point at infinity" ;;
  ar1 ← curve_mul kr (Some g);
  reject_infinity ar1 "AR1 is point at infinity" ;;
  auditor_kr ← curve_mul kr (Some auditor_pub_key);
  let al1 := curve_add g_kb auditor_kr in
  reject_infinity al1 "AL1 is point at infinity" ;;
  computed_prefix ← audit_prefix prefix_data auditor_pub_key cipher0 cipher1;
  c ← compute_poseidon_challenge computed_prefix [ax; al0; al1; ar1];
  c_x ← scalar_mul c private_key;
  sx ← scalar_add kx c_x;
  c_b ← scalar_mul c (felt_of_Z balance);
  sb ← scalar_add kb c_b;
  c_r1 ← scalar_mul c r1;
  sr ← scalar_add kr c_r1;
  ax_ser ← try_from_projective ax;
  al0_ser ← try_from_projective al0;
  al1_ser ← try_from_projective al1;
  ar1_ser ← try_from_projective ar1;
  Ok ({| au_ax := ax_ser; au_al0 := al0_ser; au_al1 := al1_ser; au_ar1 := ar1_ser;
         au_sx := sx; au_sb := sb; au_sr := sr; au_c := c |}, cipher1).

Definition audit_prove (coins : AuditCoins) (private_key : Felt) (balance : Z)
    (cipher0 : ElGamalCiphertext) (auditor_pub_key : Proj) (prefix_data : option AuditPrefixData) :=
  audit_prove_with_validation coins private_key balance cipher0 auditor_pub_key true prefix_data.

(** [StarkCurve::affine_to_projective(&p.to_affine()?)]. *)
Definition parse_point (p : SerializablePoint) : Result Proj :=
  a ← sp_to_affine p; affine_to_projective a.

Definition audit_verify (proof : AuditProof) (user_pub_key : Proj)
    (cipher0 cipher1 : ElGamalCiphertext) (auditor_pub_key : Proj)
    (prefix_data : option AuditPrefixData) : Result bool :=
  g ← generator;
  ax ← parse_point (au_ax proof);
  al0 ← parse_point (au_al0 proof);
  al1 ← parse_point (au_al1 proof);
  ar1 ← parse_point (au_ar1 proof);
  let sx := au_sx proof in
  let sb := au_sb proof in
  let sr := au_sr proof in
  let c := au_c proof in
  computed_prefix ← audit_prefix prefix_data auditor_pub_key cipher0 cipher1;
  c_computed ← compute_poseidon_challenge computed_prefix [ax; al0; al1; ar1];
  if bool_decide (c <> c_computed) then Ok false else
  lhs1 ← curve_mul sx (Some g);
  y_c ← curve_mul c (Some user_pub_key);
  let rhs1 := curve_add ax y_c in
  if negb (proj_eqb lhs1 rhs1) then Ok false else
  g_sb ← curve_mul sb (Some g);
  r0_sx ← curve_mul sx (Some (ct_r cipher0));
  let lhs2 := curve_add g_sb r0_sx in
  c_l0 ← curve_mul c (Some (ct_l cipher0));
  let rhs2 := curve_add al0 c_l0 in
  if negb (proj_eqb lhs2 rhs2) then Ok false else
  lhs3 ← curve_mul sr (Some g);
  r1_c ← curve_mul c (Some (ct_r cipher1));
  let rhs3 := curve_add ar1 r1_c in
  if negb (proj_eqb lhs3 rhs3) then Ok false else
  auditor_sr ← curve_mul sr (Some auditor_pub_key);
  let lhs4 := curve_add g_sb auditor_sr in
  c_l1 ← curve_mul c (Some (ct_l cipher1));
  let rhs4 := curve_add al1 c_l1 in
  if negb (proj_eqb lhs4 rhs4) then Ok false else
  Ok true.
End audit.

(** ** The verifier's equations *)
Section audit_lemmas.
Context `{StarkLaws}.

Lemma proj_eqb_spec (p q : Proj) : proj_eqb p q = true <-> p ≡ q.
Proof. change (p ≡ q) with (Is_true (proj_eqb p q)). by destruct (proj_eqb p q). Qed.

Lemma parse_point_try p s :
  try_from_projective p = Ok s -> exists q, parse_point s = Ok q /\ q ≡ p.
Proof.
  intros (a & Ha & Hpa)%sp_to_affine_try. destruct (affine_roundtrip _ _ Hpa) as (q & Hq & Heq).
  exists q. unfold parse_point. by run Ha.
Qed.

Definition audit_equations (g y auditor : Proj) (c0 c1 : ElGamalCiphertext)
    (ax al0 al1 ar1 : Proj) (sx sb sr c : Z) : Prop :=
  sx • g ≡ ax ⊕ c • y
  /\ sb • g ⊕ sx • ct_r c0 ≡ al0 ⊕ c • ct_l c0
  /\ sr • g ≡ ar1 ⊕ c • ct_r c1
  /\ sb • g ⊕ sr • auditor ≡ al1 ⊕ c • ct_l c1.

(** [verify] accepts exactly the proofs whose points parse, whose challenge is
    the recomputed one and whose four equations hold. *)
Lemma audit_verify_true_iff pf y c0 c1 auditor pd :
  audit_verify pf y c0 c1 auditor pd = Ok true <->
  exists g ax al0 al1 ar1 prefix, generator = Ok g
    /\ parse_point (au_ax pf) = Ok ax /\ parse_point (au_al0 pf) = Ok al0
    /\ parse_point (au_al1 pf) = Ok al1 /\ parse_point (au_ar1 pf) = Ok ar1
    /\ audit_prefix pd auditor c0 c1 = Ok prefix
    /\ compute_poseidon_challenge prefix [ax; al0; al1; ar1] = Ok (au_c pf)
    /\ audit_equations g y auditor c0 c1 ax al0 al1 ar1
         (felt_val (au_sx pf)) (felt_val (au_sb pf)) (felt_val (au_sr pf)) (felt_val (au_c pf)).
Proof.
  unfold audit_verify, audit_equations, curve_add. split.
  - intros Hv. inv_ok. case_bool_decide as Hc; [done|].
    apply bind_Ok in Hv as (l1 & Hl1 & Hv). apply bind_Ok in Hv as (yc & Hyc & Hv).
    case_match eqn:E1; [done|]. inv_ok. case_match eqn:E2; [done|]. inv_ok.
    case_match eqn:E3; [done|]. inv_ok. case_match eqn:E4; [done|].
    apply negb_false_iff, proj_eqb_spec in E1, E2, E3, E4. curve_facts.
    eexists a, a0, a1, a2, a3, a4. split_and!; try done.
    all: by fold_points.
  - intros (g & ax & al0 & al1 & ar1 & prefix & Hg & H1 & H2 & H3 & H4 & Hp & Hc & E1 & E2 & E3 & E4).
    run Hg. run H1. run H2. run H3. run H4. run Hp. run Hc. rewrite bool_decide_false by tauto.
    mul_step (au_sx pf) g as l1 Hl1. mul_step (au_c pf) y as yc Hyc.
    rewrite (proj2 (proj_eqb_spec _ _)) by by point_subst. cbn [negb].
    mul_step (au_sb pf) g as gs Hgs. mul_step (au_sx pf) (ct_r c0) as rs Hrs.
    mul_step (au_c pf) (ct_l c0) as cl Hcl.
    rewrite (proj2 (proj_eqb_spec _ _)) by by point_subst. cbn [negb].
    mul_step (au_sr pf) g as l3 Hl3. mul_step (au_c pf) (ct_r c1) as rc Hrc.
    rewrite (proj2 (proj_eqb_spec _ _)) by by point_subst. cbn [negb].
    mul_step (au_sr pf) auditor as asr Hasr. mul_step (au_c pf) (ct_l c1) as cl1 Hcl1.
    by rewrite (proj2 (proj_eqb_spec _ _)) by by point_subst.
Qed.

Lemma reject_infinity_finite p msg : ~ p ≡ proj_identity -> reject_infinity p msg = Ok tt.
Proof. rewrite <- is_infinity_spec. unfold reject_infinity. by destruct (is_infinity p). Qed.

Lemma reject_infinity_Ok p msg u : reject_infinity p msg = Ok u -> ~ p ≡ proj_identity.
Proof. rewrite <- is_infinity_spec. unfold reject_infinity. by destruct (is_infinity p). Qed.

(** The prefix exists when no point that goes into it is at infinity. *)
Lemma audit_prefix_total pd auditor c0 c1 :
  (forall d, pd = Some d -> ~ apd_user_pub_key d ≡ proj_identity) ->
  Forall (fun p => ~ p ≡ proj_identity) [auditor; ct_l c0; ct_r c0; ct_l c1; ct_r c1] ->
  exists prefix, audit_prefix pd auditor c0 c1 = Ok prefix.
Proof.
  intros Hpd Hf. rewrite !Forall_cons in Hf.
  destruct Hf as ([a1 Ha]%to_affine_not_infinity & [a2 Hl0]%to_affine_not_infinity
    & [a3 Hr0]%to_affine_not_infinity & [a4 Hl1]%to_affine_not_infinity
    & [a5 Hr1]%to_affine_not_infinity & _).
  destruct pd as [d|]; cbn [audit_prefix]; [|eauto].
  destruct (proj1 (to_affine_not_infinity _) (Hpd d eq_refl)) as [a0 Hu].
  rewrite Hu, Ha, Hl0, Hr0, Hl1, Hr1. cbn. eauto.
Qed.
End audit_lemmas.

(** ** Correctness *)
Section audit_theorems.
Context `{StarkLaws}.

(** Every point an honest audit handles is finite. *)
Definition audit_finite (coins : AuditCoins) (g auditor : Proj) (balance : Z)
    (c0 : ElGamalCiphertext) (pd : option AuditPrefixData) : Prop :=
  Forall (fun p => ~ p ≡ proj_identity)
    [ct_l c0; ct_r c0; auditor;
     balance • g ⊕ felt_val (ac_r1 coins) • auditor; felt_val (ac_r1 coins) • g;
     felt_val (ac_kx coins) • g; felt_val (ac_kb coins) • g ⊕ felt_val (ac_kx coins) • ct_r c0;
     felt_val (ac_kr coins) • g; felt_val (ac_kb coins) • g ⊕ felt_val (ac_kr coins) • auditor]
  /\ (forall d, pd = Some d -> ~ apd_user_pub_key d ≡ proj_identity).

(** The check that [validate] adds. *)
Lemma audit_validation g x balance c0 :
  generator = Ok g -> 0 <= balance <= u128_MAX ->
  exists r0x gb, curve_mul x (Some (ct_r c0)) = Ok r0x
    /\ curve_mul (felt_of_Z balance) (Some g) = Ok gb
    /\ (proj_eqb (proj_sub (ct_l c0) r0x) gb = true <-> ct_l c0 ≡ balance • g ⊕ felt_val x • ct_r c0).
Proof.
  intros Hg Hb. destruct (curve_mul_spec x (ct_r c0)) as (r0x & Hr & Hre).
  destruct (curve_mul_spec (felt_of_Z balance) g) as (gb & Hgb & Hge).
  exists r0x, gb. split_and!; [done|done|]. rewrite felt_u128_val in Hge by done.
  rewrite proj_eqb_spec, Hge, Hre. split; intros He.
  - rewrite <- He. proj_module.
  - rewrite He. proj_module.
Qed.

Lemma audit_validate_ok g x balance c0 (validate : bool) :
  generator = Ok g -> 0 <= balance <= u128_MAX ->
  (validate = true -> ct_l c0 ≡ balance • g ⊕ felt_val x • ct_r c0) ->
  (if validate then
     r0_x ← curve_mul x (Some (ct_r c0));
     g_b_expected ← curve_mul (felt_of_Z balance) (Some g);
     reject_if (negb (proj_eqb (proj_sub (ct_l c0) r0_x) g_b_expected))
       (CryptoError "cipher0 is not a valid encryption of the balance")
   else Ok tt) = Ok tt.
Proof.
  intros Hg Hb Hvalid. destruct validate; [|done].
  destruct (audit_validation g x balance c0 Hg Hb) as (r0x & gb & Hr0x & Hgb & Hval).
  run Hr0x. run Hgb. by rewrite (proj2 Hval (Hvalid eq_refl)).
Qed.

(** The audit ciphertext, whose [balance = 0] branch is the general formula. *)
Lemma audit_cipher_l g auditor_r1 balance :
  0 <= balance <= u128_MAX ->
  exists l1, (if balance =? 0 then Ok auditor_r1
              else g_b ← curve_mul (felt_of_Z balance) (Some g); Ok (curve_add g_b auditor_r1)) = @Ok KmsError _ l1
    /\ l1 ≡ balance • g ⊕ auditor_r1.
Proof.
  intros Hb. destruct (Z.eqb_spec balance 0) as [-> |].
  - exists auditor_r1. split; [done|]. proj_module.
  - mul_step (felt_of_Z balance) g as gb Hgb. rewrite felt_u128_val in Hgb by done.
    eexists. split; [done|]. unfold curve_add. by rewrite Hgb.
Qed.

Lemma audit_prove_run coins x balance c0 auditor validate pd g :
  generator = Ok g -> 0 <= balance <= u128_MAX -> audit_finite coins g auditor balance c0 pd ->
  (validate = true -> ct_l c0 ≡ balance • g ⊕ felt_val x • ct_r c0) ->
  exists pf c1, audit_prove_with_validation coins x balance c0 auditor validate pd = Ok (pf, c1)
    /\ ct_l c1 ≡ balance • g ⊕ felt_val (ac_r1 coins) • auditor
    /\ ct_r c1 ≡ felt_val (ac_r1 coins) • g
    /\ (ct_l c0 ≡ balance • g ⊕ felt_val x • ct_r c0 -> forall y, y ≡ felt_val x • g ->
        audit_verify pf y c0 c1 auditor pd = Ok true).
Proof.
  intros Hg Hb (Hfin & Hpd) Hvalid. rewrite !Forall_cons in Hfin.
  destruct Hfin as (Hl0 & Hr0 & Ha & Hl1 & Hr1 & Hax & Hal0 & Har1 & Hal1 & _).
  unfold audit_prove_with_validation. run Hg.
  rewrite !reject_infinity_finite by done. cbn [mbind outcome_bind].
  rewrite (audit_validate_ok g x balance c0 validate) by done. cbn [mbind outcome_bind].
  mul_step (ac_r1 coins) auditor as ar Har.
  destruct (audit_cipher_l g ar balance Hb) as (l1 & Hl & Hle). run Hl. rewrite Har in Hle.
  mul_step (ac_r1 coins) g as rp Hrp. rewrite <- Hle in Hl1. rewrite <- Hrp in Hr1.
  rewrite !reject_infinity_finite by done. cbn [mbind outcome_bind]. unfold curve_add.
  mul_step (ac_kx coins) g as ax Haxe. mul_step (ac_kb coins) g as gkb Hgkb.
  mul_step (ac_kx coins) (ct_r c0) as rk Hrk. mul_step (ac_kr coins) g as ar1 Har1e.
  mul_step (ac_kr coins) auditor as ak Hak.
  rewrite <- Haxe in Hax. rewrite <- Hgkb, <- Hrk in Hal0. rewrite <- Har1e in Har1.
  rewrite <- Hgkb, <- Hak in Hal1.
  rewrite !reject_infinity_finite by done. cbn [mbind outcome_bind].
  destruct (audit_prefix_total pd auditor c0 {| ct_l := l1; ct_r := rp |}) as (prefix & Hprefix);
    [done|by repeat constructor|].
  run Hprefix.
  destruct (compute_poseidon_challenge_total prefix [ax; gkb ⊕ rk; gkb ⊕ ak; ar1]) as (c & Hc & _);
    [by repeat constructor|].
  run Hc.
  scalar_step (scalar_mul c x) as cx Hcx. scalar_step (scalar_add (ac_kx coins) cx) as sx Hsx.
  scalar_step (scalar_mul c (felt_of_Z balance)) as cb Hcb. scalar_step (scalar_add (ac_kb coins) cb) as sb Hsb.
  scalar_step (scalar_mul c (ac_r1 coins)) as cr Hcr. scalar_step (scalar_add (ac_kr coins) cr) as sr Hsr.
  rewrite felt_u128_val in Hcb by done.
  destruct (try_from_projective_total _ Hax) as (t1 & Ht1). run Ht1.
  destruct (try_from_projective_total _ Hal0) as (t2 & Ht2). run Ht2.
  destruct (try_from_projective_total _ Hal1) as (t3 & Ht3). run Ht3.
  destruct (try_from_projective_total _ Har1) as (t4 & Ht4). run Ht4.
  eexists _, _. split_and!; [done|done|done|]. intros Hc0 y Hy.
  apply parse_point_try in Ht1 as (p1 & Hp1 & E1), Ht2 as (p2 & Hp2 & E2),
    Ht3 as (p3 & Hp3 & E3), Ht4 as (p4 & Hp4 & E4).
  apply audit_verify_true_iff. exists g, p1, p2, p3, p4, prefix.
  cbn [au_ax au_al0 au_al1 au_ar1 au_sx au_sb au_sr au_c ct_l ct_r].
  split_and!; try done; [by rewrite E1, E2, E3, E4|].
  split_and!; cbn [ct_l ct_r]; rewrite ?Hc0; point_module.
Qed.

(** A run that returns a proof met no point at infinity, and passed the check. *)
Lemma audit_prove_Ok_finite coins x balance c0 auditor validate pd g res :
  generator = Ok g -> 0 <= balance <= u128_MAX ->
  audit_prove_with_validation coins x balance c0 auditor validate pd = Ok res ->
  audit_finite coins g auditor balance c0 pd
  /\ (validate = true -> ct_l c0 ≡ balance • g ⊕ felt_val x • ct_r c0).
Proof.
  intros Hg Hb Hp. unfold audit_prove_with_validation in Hp. rewrite Hg in Hp. cbn [mbind outcome_bind] in Hp.
  destruct (audit_validation g x balance c0 Hg Hb) as (r0x & gb & Hr0x & Hgb & Hval).
  destruct (curve_mul_spec (ac_r1 coins) auditor) as (ar & Har & Hare). rewrite Har in Hp.
  destruct (audit_cipher_l g ar balance Hb) as (l1 & Hl1 & Hl1e).
  apply bind_Ok in Hp as (u1 & Hu1%reject_infinity_Ok & Hp).
  apply bind_Ok in Hp as (u2 & Hu2%reject_infinity_Ok & Hp).
  apply bind_Ok in Hp as (u3 & Hu3%reject_infinity_Ok & Hp).
  apply bind_Ok in Hp as (u4 & Hu4 & Hp). cbn [mbind outcome_bind] in Hp.
  assert (validate = true -> ct_l c0 ≡ balance • g ⊕ felt_val x • ct_r c0) as Hvalid.
  { intros ->. rewrite Hr0x, Hgb in Hu4. cbn [mbind outcome_bind] in Hu4.
    apply reject_if_Ok in Hu4. apply Hval. by apply negb_false_iff. }
  apply bind_Ok in Hp as (l1' & Hl1' & Hp). rewrite Hl1 in Hl1'. injection Hl1' as <-.
  inv_ok. curve_facts.
  repeat match goal with Hr : reject_infinity _ _ = Ok _ |- _ => apply reject_infinity_Ok in Hr end.
  split; [split|].
  - unfold curve_add in *. rewrite !Forall_cons. split_and!; [..|constructor].
    all: fold_points; rewrite <- ?Hl1e; done.
  - intros d ->. unfold audit_prefix in *. inv_ok. apply to_affine_not_infinity. eauto.
  - exact Hvalid.
Qed.

Lemma audit_prove_Ok coins x balance c0 auditor validate pd g pf c1 :
  generator = Ok g -> 0 <= balance <= u128_MAX ->
  audit_prove_with_validation coins x balance c0 auditor validate pd = Ok (pf, c1) ->
  ct_l c1 ≡ balance • g ⊕ felt_val (ac_r1 coins) • auditor
  /\ ct_r c1 ≡ felt_val (ac_r1 coins) • g
  /\ (ct_l c0 ≡ balance • g ⊕ felt_val x • ct_r c0 -> forall y, y ≡ felt_val x • g ->
      audit_verify pf y c0 c1 auditor pd = Ok true).
Proof.
  intros Hg Hb Hp. destruct (audit_prove_Ok_finite _ _ _ _ _ _ _ _ _ Hg Hb Hp) as [Hfin Hval].
  destruct (audit_prove_run coins x balance c0 auditor validate pd g Hg Hb Hfin Hval)
    as (pf' & c1' & Hp' & Hrest). rewrite Hp in Hp'. by injection Hp' as <- <-.
Qed.


(** For a ciphertext of the balance the audit prover returns a re-encryption to the
    auditor and a proof that verifies. *)
Theorem audit_complete (coins : AuditCoins) (x : Felt) (balance : Z) (c0 : ElGamalCiphertext)
    (auditor y g : Proj) (pd : option AuditPrefixData) :
  generator = Ok g -> 0 <= balance <= u128_MAX -> y ≡ felt_val x • g ->
  ct_l c0 ≡ balance • g ⊕ felt_val x • ct_r c0 ->
  audit_finite coins g auditor balance c0 pd ->
  exists pf c1, audit_prove coins x balance c0 auditor pd = Ok (pf, c1)
    /\ ct_l c1 ≡ balance • g ⊕ felt_val (ac_r1 coins) • auditor
    /\ ct_r c1 ≡ felt_val (ac_r1 coins) • g
    /\ audit_verify pf y c0 c1 auditor pd = Ok true.
Proof.
  intros Hg Hb Hy Hc0 Hfin.
  destruct (audit_prove_run coins x balance c0 auditor true pd g Hg Hb Hfin (fun _ => Hc0))
    as (pf & c1 & Hp & Hl & Hr & Hv). eauto 10.
Qed.

(** The audit prover refuses a ciphertext that does not encrypt the claimed balance under
    the given key. *)
Theorem audit_rejects_wrong_balance (coins : AuditCoins) (x : Felt) (balance : Z)
    (c0 : ElGamalCiphertext) (auditor g : Proj) (pd : option AuditPrefixData) :
  generator = Ok g -> 0 <= balance <= u128_MAX ->
  Forall (fun p => ~ p ≡ proj_identity) [ct_l c0; ct_r c0; auditor] ->
  ~ ct_l c0 ≡ balance • g ⊕ felt_val x • ct_r c0 ->
  audit_prove coins x balance c0 auditor pd
  = Err (CryptoError "cipher0 is not a valid encryption of the balance").
Proof.
  intros Hg Hb Hf Hbad. rewrite !Forall_cons in Hf. destruct Hf as (Hl & Hr & Ha & _).
  unfold audit_prove, audit_prove_with_validation. run Hg. rewrite !reject_infinity_finite by done.
  cbn [mbind outcome_bind].
  destruct (audit_validation g x balance c0 Hg Hb) as (r0x & gb & Hr0x & Hgb & Hval).
  run Hr0x. run Hgb. rewrite <- Hval in Hbad. by destruct (proj_eqb _ gb).
Qed.

(** The key, the balance and the audit randomness two transcripts give away. *)
Definition audit_extract (pf1 pf2 : AuditProof) : Z * Z * Z :=
  let inv := order_inverse (felt_val (au_c pf1) - felt_val (au_c pf2)) in
  (inv * (felt_val (au_sx pf1) - felt_val (au_sx pf2)),
   inv * (felt_val (au_sb pf1) - felt_val (au_sb pf2)),
   inv * (felt_val (au_sr pf1) - felt_val (au_sr pf2))).

(** Two accepting audit transcripts with the same commitments and different challenges
    yield the secret key, the balance and the randomness: the audited ciphertext encrypts the
    same balance as the account ciphertext. *)
Theorem audit_special_soundness (pf1 pf2 : AuditProof) (y auditor g : Proj)
    (c0 c1 : ElGamalCiphertext) (pd1 pd2 : option AuditPrefixData) :
  generator = Ok g ->
  audit_verify pf1 y c0 c1 auditor pd1 = Ok true ->
  audit_verify pf2 y c0 c1 auditor pd2 = Ok true ->
  au_ax pf1 = au_ax pf2 -> au_al0 pf1 = au_al0 pf2 ->
  au_al1 pf1 = au_al1 pf2 -> au_ar1 pf1 = au_ar1 pf2 ->
  (felt_val (au_c pf1) - felt_val (au_c pf2)) mod CurveOrder <> 0 ->
  let '(x, b, r1) := audit_extract pf1 pf2 in
  y ≡ x • g
  /\ ct_l c0 ≡ b • g ⊕ x • ct_r c0
  /\ ct_l c1 ≡ b • g ⊕ r1 • auditor /\ ct_r c1 ≡ r1 • g.
Proof.
  intros Hg (g1 & ax & al0 & al1 & ar1 & p1 & Hg1 & A1 & A2 & A3 & A4 & _ & _ & E1 & E2 & E3 & E4)%audit_verify_true_iff
    (g2 & bx & bl0 & bl1 & br1 & p2 & Hg2 & B1 & B2 & B3 & B4 & _ & _ & F1 & F2 & F3 & F4)%audit_verify_true_iff
    Q1 Q2 Q3 Q4 Hne.
  rewrite Q1, B1 in A1. rewrite Q2, B2 in A2. rewrite Q3, B3 in A3. rewrite Q4, B4 in A4.
  rewrite Hg in Hg1, Hg2. simplify_eq. cbn [audit_extract].
  pose proof (sigma_extract _ _ _ _ _ _ E1 F1 Hne) as X1.
  pose proof (sigma_extract _ _ _ _ _ _ E2 F2 Hne) as X2.
  pose proof (sigma_extract _ _ _ _ _ _ E3 F3 Hne) as X3.
  pose proof (sigma_extract _ _ _ _ _ _ E4 F4 Hne) as X4.
  split_and!; [rewrite X1|etransitivity; [exact X2|]|etransitivity; [exact X4|]|rewrite X3]; proj_module.
Qed.
End audit_theorems.

(** ** Witnesses: key 7, balance 3, a stored ciphertext with randomness 4 *)
Definition au_point (k : Z) : @Proj model_types := (k * GXv) mod CurveOrder.
Definition au_c0 : @ElGamalCiphertext model_types := {| ct_l := au_point 31; ct_r := au_point 4 |}.
Definition au_coins1 : @AuditCoins model_types :=
  {| ac_r1 := mk 5; ac_kx := mk 6; ac_kb := mk 8; ac_kr := mk 9 |}.
Definition au_pd (chain_id : Z) : option (@AuditPrefixData model_types) :=
  Some {| apd_chain_id := mk chain_id; apd_tongo_address := mk 2; apd_sender_address := mk 3;
          apd_user_pub_key := au_point 7 |}.

Lemma audit_complete_witness :
  exists pf c1, @audit_prove model_types au_coins1 (mk 7) 3 au_c0 (au_point 11) (au_pd 1) = Ok (pf, c1)
    /\ ct_l c1 ≡ 3 • (GXv : @Proj model_types) ⊕ felt_val (ac_r1 au_coins1) • au_point 11
    /\ ct_r c1 ≡ felt_val (ac_r1 au_coins1) • (GXv : @Proj model_types)
    /\ audit_verify pf (au_point 7) au_c0 c1 (au_point 11) (au_pd 1) = Ok true.
Proof.
  apply (@audit_complete model_types model_laws au_coins1 (mk 7) 3 au_c0 (au_point 11) (au_point 7) GXv (au_pd 1));
    [vm_compute; reflexivity|unfold u128_MAX; lia|vm_compute; exact I|vm_compute; exact I|].
  split; [repeat apply Forall_cons_2; [points_differ..|constructor]|].
  intros d Hd. injection Hd as <-. points_differ.
Defined.

Lemma audit_rejects_wrong_balance_witness :
  @audit_prove model_types au_coins1 (mk 7) 4 au_c0 (au_point 11) (au_pd 1)
  = Err (CryptoError "cipher0 is not a valid encryption of the balance").
Proof.
  apply (@audit_rejects_wrong_balance model_types model_laws au_coins1 (mk 7) 4 au_c0 (au_point 11) GXv (au_pd 1));
    [vm_compute; reflexivity|unfold u128_MAX; lia| |points_differ].
  repeat apply Forall_cons_2; [points_differ..|constructor].
Defined.

(** Two audits with the same coins on two chains. *)
Definition au_none : @AuditProof model_types * @ElGamalCiphertext model_types :=
  let p := {| sp_x := mk 0; sp_y := mk 0 |} in
  ({| au_ax := p; au_al0 := p; au_al1 := p; au_ar1 := p;
      au_sx := mk 0; au_sb := mk 0; au_sr := mk 0; au_c := mk 0 |}, au_c0).
Definition au_run (chain_id : Z) : @AuditProof model_types * @ElGamalCiphertext model_types :=
  default au_none (to_option (@audit_prove model_types au_coins1 (mk 7) 3 au_c0 (au_point 11) (au_pd chain_id))).
Definition au_run1 := Eval vm_compute in au_run 1.
Definition au_run2 := Eval vm_compute in au_run 2.

Lemma audit_special_soundness_witness :
  let '(x, b, r1) := audit_extract au_run1.1 au_run2.1 in
  au_point 7 ≡ x • (GXv : @Proj model_types)
  /\ ct_l au_c0 ≡ b • (GXv : @Proj model_types) ⊕ x • ct_r au_c0
  /\ ct_l au_run1.2 ≡ b • (GXv : @Proj model_types) ⊕ r1 • au_point 11
  /\ ct_r au_run1.2 ≡ r1 • (GXv : @Proj model_types).
Proof.
  apply (@audit_special_soundness model_types model_laws au_run1.1 au_run2.1 (au_point 7) (au_point 11) GXv
           au_c0 au_run1.2 (au_pd 1) (au_pd 2));
    [vm_compute; reflexivity..|reflexivity|reflexivity|reflexivity|reflexivity|vm_compute; discriminate].
Defined.
