(* ===== verification/SdkCrypto.v ===== *)
(** * Audit hints (crates/sdk/src/crypto.rs) and accounts (crates/sdk/src/account.rs)

    ECDH on the Stark curve, SHA-256 of the shared x-coordinate as a key and
    XChaCha20-Poly1305 over the 16 bytes of a balance.  The hash and the cipher
    are third-party: the class [SdkPrims] holds their functions and [SdkPrimsLaws]
    what their documentation promises. *)

From stdpp Require Import base option list numbers strings.
From Stdlib Require Import ZArith Lia Zdiv.
From S2P Require Import Prelude StarkLib Primality GroupTac StarkModel Types Scalar Curve Hash ElGamal.

(** sha2 and chacha20poly1305. *)
Class SdkPrims : Type := {
  sha256 : list Z -> list Z;
  Cipher : Type;
  cipher_new_from_slice : list Z -> option Cipher;
  cipher_encrypt : Cipher -> list Z -> list Z -> option (list Z);
  cipher_decrypt : Cipher -> list Z -> list Z -> option (list Z);
}.

Definition TAG_SIZE : nat := 16.
Definition NONCE_SIZE : nat := 24.

Class SdkPrimsLaws `{SdkPrims} : Prop := {
  sha256_length bs : length (sha256 bs) = 32%nat;
  cipher_new_ok key : length key = 32%nat -> exists c, cipher_new_from_slice key = Some c;
  (* encryption of a short message succeeds and appends the tag *)
  cipher_encrypt_ok c nonce pt : length nonce = NONCE_SIZE -> (length pt <= 64)%nat ->
    exists ct, cipher_encrypt c nonce pt = Some ct;
  cipher_encrypt_length c nonce pt ct :
    cipher_encrypt c nonce pt = Some ct -> length ct = (length pt + TAG_SIZE)%nat;
  cipher_decrypt_encrypt c nonce pt ct :
    cipher_encrypt c nonce pt = Some ct -> cipher_decrypt c nonce ct = Some pt;
}.

Section sdk_crypto.
Context `{StarkTypes, SdkPrims}.

(** The ASCII bytes of "TONGO_AUDIT_KEY_V1". *)
Definition audit_key_domain : list Z :=
  [84; 79; 78; 71; 79; 95; 65; 85; 68; 73; 84; 95; 75; 69; 89; 95; 86; 49].

(** [dst.copy_from_slice(src)] into an array of [n] bytes. *)
Definition copy_exact (n : nat) (src : list Z) : Result (list Z) :=
  if (length src =? n)%nat then Ok src else Panic.

Definition derive_shared_secret (my_private_key : Felt) (other_public_key : Proj) : Result (list Z) :=
  shared_point ← curve_mul my_private_key (Some other_public_key);
  affine ← ok_or (proj_to_affine shared_point) PointAtInfinity;
  let hash_result := sha256 (audit_key_domain ++ to_bytes_be (aff_x affine)) in
  copy_exact 32 hash_result.

Definition invalid_key : KmsError := CryptoError "Invalid key: {}".

(** [encrypt_audit_hint]; [nonce_bytes] is the draw of [random_bytes::<24>]. *)
Definition encrypt_audit_hint (nonce_bytes : list Z) (plaintext_balance : Z) (shared_secret : list Z)
    : Result (list Z * list Z) :=
  cipher ← ok_or (cipher_new_from_slice shared_secret) invalid_key;
  let plaintext := be_bytes 16 plaintext_balance in
  ciphertext ← ok_or (cipher_encrypt cipher nonce_bytes plaintext) (CryptoError "Encryption failed: {}");
  let copy_len := Nat.min (length ciphertext) 64 in
  let ct_out := take copy_len ciphertext ++ repeat 0 (64 - copy_len) in
  Ok (ct_out, nonce_bytes).

Definition decrypt_audit_hint (ciphertext nonce shared_secret : list Z) : Result Z :=
  cipher ← ok_or (cipher_new_from_slice shared_secret) invalid_key;
  let ct_len := (16 + TAG_SIZE)%nat in
  plaintext ← ok_or (cipher_decrypt cipher nonce (take ct_len ciphertext))
    (CryptoError "Decryption failed: {}");
  reject_if (negb (length plaintext =? 16)%nat)
    (CryptoError "Invalid plaintext length: expected 16, got {}") ;;
  Ok (be_value plaintext).

Definition encrypt_for_auditor (nonce_bytes : list Z) (balance : Z) (user_private_key : Felt)
    (auditor_public_key : Proj) : Result (list Z * list Z) :=
  shared_secret ← derive_shared_secret user_private_key auditor_public_key;
  encrypt_audit_hint nonce_bytes balance shared_secret.

Definition decrypt_as_auditor (ciphertext nonce : list Z) (auditor_private_key : Felt)
    (user_public_key : Proj) : Result Z :=
  shared_secret ← derive_shared_secret auditor_private_key user_public_key;
  decrypt_audit_hint ciphertext nonce shared_secret.

(** ** Accounts *)
Record TongoKeyPair : Type := { kp_private_key : Felt; kp_public_key : Proj }.
Record TongoAccount : Type := {
  ta_keypair : TongoKeyPair; ta_state : AccountState; ta_contract_address : Felt }.

Definition default_account_state : AccountState :=
  {| st_balance := 0; st_pending_balance := 0; st_nonce := 0 |}.

Definition account_from_private_key (private_key contract_address : Felt) : Result TongoAccount :=
  public_key ← curve_mul_generator private_key;
  Ok {| ta_keypair := {| kp_private_key := private_key; kp_public_key := public_key |};
        ta_state := default_account_state; ta_contract_address := contract_address |}.

Definition owner_public_key (a : TongoAccount) : Proj := kp_public_key (ta_keypair a).
Definition owner_private_key (a : TongoAccount) : Felt := kp_private_key (ta_keypair a).
Definition account_balance (a : TongoAccount) : Z := st_balance (ta_state a).
Definition account_pending_balance (a : TongoAccount) : Z := st_pending_balance (ta_state a).
Definition account_nonce (a : TongoAccount) : Z := st_nonce (ta_state a).

Definition update_state (a : TongoAccount) (state : AccountState) : TongoAccount :=
  {| ta_keypair := ta_keypair a; ta_state := state; ta_contract_address := ta_contract_address a |}.
Definition set_balance (a : TongoAccount) (balance : Z) : TongoAccount :=
  update_state a {| st_balance := balance; st_pending_balance := account_pending_balance a;
                    st_nonce := account_nonce a |}.
Definition set_pending_balance (a : TongoAccount) (pending_balance : Z) : TongoAccount :=
  update_state a {| st_balance := account_balance a; st_pending_balance := pending_balance;
                    st_nonce := account_nonce a |}.
Definition set_nonce (a : TongoAccount) (nonce : Z) : TongoAccount :=
  update_state a {| st_balance := account_balance a; st_pending_balance := account_pending_balance a;
                    st_nonce := nonce |}.

Definition has_sufficient_balance (a : TongoAccount) (amount : Z) : bool :=
  amount <=? account_balance a.

Definition total_balance (a : TongoAccount) : Result Z :=
  ok_or (u128_checked_add (account_balance a) (account_pending_balance a))
    (InvalidAmount "account total balance overflow").

Definition account_decrypt (a : TongoAccount) (ciphertext : ElGamalCiphertext) : Result Proj :=
  elgamal_decrypt ciphertext (owner_private_key a).
End sdk_crypto.

Section sdk_crypto_lemmas.
Context `{StarkLaws, SdkPrimsLaws}.

(** The shared secret depends on the product of the two keys only. *)
Lemma derive_shared_secret_spec sk pk k g :
  pk ≡ k • g -> ~ (felt_val sk * k) • g ≡ proj_identity ->
  exists a, proj_to_affine ((felt_val sk * k) • g) = Some a
    /\ derive_shared_secret sk pk = Ok (sha256 (audit_key_domain ++ to_bytes_be (aff_x a))).
Proof.
  intros Hpk Hfin. pose proof Hfin as [a Ha]%to_affine_not_infinity. exists a. split; [done|].
  unfold derive_shared_secret, copy_exact. mul_step sk pk as p Hp.
  assert (p ≡ (felt_val sk * k) • g) as Hpa by (rewrite Hp, Hpk; proj_module).
  rewrite Hpa, Ha. cbn [ok_or mbind outcome_bind]. by rewrite sha256_length.
Qed.

(** Packing into 64 bytes and taking the first 32 back. *)
Lemma unpack_hint (ct : list Z) :
  length ct = 32%nat -> take 32 (take (Nat.min (length ct) 64) ct ++ repeat 0 (64 - Nat.min (length ct) 64)) = ct.
Proof.
  intros Hl. rewrite Hl. change (Nat.min 32 64) with 32%nat.
  rewrite <- Hl at 2. rewrite firstn_all. rewrite <- Hl at 1. by rewrite take_app_length.
Qed.

(** A hint encrypted under a key decrypts under that key. *)
Lemma audit_hint_spec nonce balance key :
  length key = 32%nat -> length nonce = NONCE_SIZE -> 0 <= balance <= u128_MAX ->
  exists ct, encrypt_audit_hint nonce balance key = Ok (ct, nonce)
    /\ length ct = 64%nat /\ decrypt_audit_hint ct nonce key = Ok balance.
Proof.
  intros Hk Hn Hb. destruct (cipher_new_ok key Hk) as [c Hc].
  assert (length (be_bytes 16 balance) = 16%nat) as Hl by apply length_be_bytes.
  destruct (cipher_encrypt_ok c nonce (be_bytes 16 balance) Hn) as [ct Hct]; [lia|].
  pose proof (cipher_encrypt_length _ _ _ _ Hct) as Hlen. rewrite Hl in Hlen. change (16 + TAG_SIZE)%nat with 32%nat in Hlen.
  unfold encrypt_audit_hint, decrypt_audit_hint. rewrite Hc. cbn [ok_or mbind outcome_bind].
  rewrite Hct. cbn [ok_or mbind outcome_bind]. eexists. split_and!; [done| |].
  - rewrite length_app, length_take, repeat_length. lia.
  - change (16 + TAG_SIZE)%nat with 32%nat. rewrite unpack_hint by done.
    rewrite (cipher_decrypt_encrypt _ _ _ _ Hct). cbn [ok_or mbind outcome_bind]. rewrite Hl.
    cbn [Nat.eqb negb reject_if mbind outcome_bind]. rewrite be_value_be_bytes. f_equal.
    apply Z.mod_small. unfold u128_MAX in Hb. change (256 ^ Z.of_nat 16) with (2 ^ 128). lia.
Qed.

Lemma shared_hint (nonce : list Z) (balance : Z) (user_sk auditor_sk : Felt)
    (user_pk auditor_pk : Proj) :
  curve_mul_generator user_sk = Ok user_pk -> curve_mul_generator auditor_sk = Ok auditor_pk ->
  length nonce = NONCE_SIZE -> 0 <= balance <= u128_MAX ->
  (felt_val user_sk * felt_val auditor_sk) mod CurveOrder <> 0 ->
  exists ct, encrypt_for_auditor nonce balance user_sk auditor_pk = Ok (ct, nonce)
    /\ length ct = 64%nat
    /\ decrypt_as_auditor ct nonce auditor_sk user_pk = Ok balance.
Proof.
  intros Hu Ha Hn Hb Hne. destruct generator_spec as [g Hg].
  unfold curve_mul_generator in Hu, Ha. rewrite Hg in Hu, Ha. cbn [mbind outcome_bind] in Hu, Ha.
  destruct (curve_scalar_mul_spec g user_sk) as (pu & Epu & Hpu).
  destruct (curve_scalar_mul_spec g auditor_sk) as (pa & Epa & Hpa).
  rewrite Epu in Hu. rewrite Epa in Ha. injection Hu as <-. injection Ha as <-.
  assert (forall k, k = felt_val user_sk * felt_val auditor_sk -> ~ k • g ≡ proj_identity) as Hfin.
  { intros k ->. by rewrite (generator_smul_infinity g). }
  destruct (derive_shared_secret_spec user_sk pa _ g Hpa) as (a & Haff & Hs1); [by apply Hfin|].
  destruct (derive_shared_secret_spec auditor_sk pu _ g Hpu) as (b & Hbff & Hs2); [apply Hfin; lia|].
  rewrite Z.mul_comm, Hbff in Haff. injection Haff as <-.
  destruct (audit_hint_spec nonce balance (sha256 (audit_key_domain ++ to_bytes_be (aff_x b))))
    as (ct & Henc & Hlen & Hdec); [apply sha256_length|done|done|].
  exists ct. unfold encrypt_for_auditor, decrypt_as_auditor. rewrite Hs1, Hs2. done.
Qed.

(** An auditor decrypts the balance a user encrypted for them: the two Diffie-Hellman
    secrets agree and the 64-byte hint carries the u128. *)
Theorem audit_hint_roundtrip (nonce : list Z) (balance : Z) (user_sk auditor_sk : Felt)
    (user_pk auditor_pk : Proj) :
  curve_mul_generator user_sk = Ok user_pk -> curve_mul_generator auditor_sk = Ok auditor_pk ->
  length nonce = NONCE_SIZE -> 0 <= balance <= u128_MAX ->
  (felt_val user_sk * felt_val auditor_sk) mod CurveOrder <> 0 ->
  exists ct, encrypt_for_auditor nonce balance user_sk auditor_pk = Ok (ct, nonce)
    /\ length ct = 64%nat
    /\ decrypt_as_auditor ct nonce auditor_sk user_pk = Ok balance.
Proof. apply shared_hint. Qed.
End sdk_crypto_lemmas.

(** ** The account as a state machine *)
Section account_lemmas.
Context `{StarkLaws}.

Inductive AccountOp : Type :=
| OpUpdateState (s : AccountState)
| OpSetBalance (balance : Z)
| OpSetPendingBalance (pending : Z)
| OpSetNonce (nonce : Z).

Definition account_step (a : TongoAccount) (op : AccountOp) : TongoAccount :=
  match op with
  | OpUpdateState s => update_state a s
  | OpSetBalance b => set_balance a b
  | OpSetPendingBalance p => set_pending_balance a p
  | OpSetNonce n => set_nonce a n
  end.

(** The operations carry machine integers. *)
Definition op_ok (op : AccountOp) : Prop :=
  match op with
  | OpUpdateState s => 0 <= st_balance s <= u128_MAX /\ 0 <= st_pending_balance s <= u128_MAX
  | OpSetBalance b => 0 <= b <= u128_MAX
  | OpSetPendingBalance p => 0 <= p <= u128_MAX
  | OpSetNonce _ => True
  end.

Definition account_inv (g : Proj) (sk : Felt) (a : TongoAccount) : Prop :=
  owner_private_key a = sk /\ owner_public_key a ≡ felt_val sk • g
  /\ 0 <= account_balance a <= u128_MAX /\ 0 <= account_pending_balance a <= u128_MAX.

Lemma account_step_inv g sk a op : account_inv g sk a -> op_ok op -> account_inv g sk (account_step a op).
Proof. intros (H1 & H2 & H3 & H4) Hop. destruct op; cbn in *; (split; [done|split; [done|]]); tauto. Qed.

Lemma account_from_private_key_inv g sk addr a :
  generator = Ok g -> account_from_private_key sk addr = Ok a -> account_inv g sk a.
Proof.
  intros Hg Ha. unfold account_from_private_key, curve_mul_generator in Ha. rewrite Hg in Ha.
  cbn [mbind outcome_bind] in Ha. destruct (curve_scalar_mul_spec g sk) as (p & Ep & Hp).
  rewrite Ep in Ha. injection Ha as <-. unfold u128_MAX. repeat split; cbn; done || lia.
Qed.

(** After any sequence of balance and nonce updates an account still holds its private key
    and the matching public key, and its total balance is the sum of its balances, or an
    overflow error exactly when the sum exceeds u128. *)
Theorem account_reachable_correct (sk addr : Felt) (g : Proj) (a0 : TongoAccount) (ops : list AccountOp) :
  generator = Ok g -> account_from_private_key sk addr = Ok a0 -> Forall op_ok ops ->
  let a := fold_left account_step ops a0 in
  owner_private_key a = sk /\ owner_public_key a ≡ felt_val sk • g
  /\ total_balance a
     = (if account_balance a + account_pending_balance a <=? u128_MAX
        then Ok (account_balance a + account_pending_balance a)
        else Err (InvalidAmount "account total balance overflow")).
Proof.
  intros Hg Ha Hops a.
  assert (account_inv g sk a) as (H1 & H2 & H3 & H4).
  { apply account_from_private_key_inv with (g := g) in Ha; [|done]. unfold a. clear a. revert a0 Ha.
    induction Hops as [|op ops Hop _ IH]; intros a0 Ha; [done|]. cbn [fold_left].
    apply IH. by apply account_step_inv. }
  split_and!; [done|done|]. unfold total_balance, u128_checked_add, in_u128.
  rewrite (proj2 (Z.leb_le 0 _)) by lia. cbn [andb]. by destruct (_ <=? u128_MAX).
Qed.
End account_lemmas.

(** ** A model of the primitives, for witnesses: the tag is sixteen zero bytes *)
#[export] Instance model_prims : SdkPrims := {
  sha256 bs := be_bytes 32 (be_value bs);
  Cipher := list Z;
  cipher_new_from_slice key := Some key;
  cipher_encrypt c nonce pt := Some (pt ++ repeat 0 16);
  cipher_decrypt c nonce ct := Some (take (length ct - 16) ct);
}.

#[export] Instance model_prims_laws : SdkPrimsLaws.
Proof.
  constructor.
  - intros bs. apply length_be_bytes.
  - intros key _. by exists key.
  - intros c nonce pt _ _. by eexists.
  - intros c nonce pt ct Hct. replace ct with (pt ++ repeat 0 16) by (change (Some (pt ++ repeat 0 16) = Some ct) in Hct; congruence).
    rewrite length_app. reflexivity.
  - intros c nonce pt ct Hct. replace ct with (pt ++ repeat 0 16) by (change (Some (pt ++ repeat 0 16) = Some ct) in Hct; congruence).
    cbn [cipher_decrypt model_prims]. f_equal.
    rewrite length_app, repeat_length, Nat.add_sub. by rewrite take_app_length.
Qed.

(** ** Witnesses *)
Definition model_pk (k : Z) : Z := default 0 (to_option (@curve_mul_generator model_types (mk k))).
Definition model_pk7 : Z := Eval vm_compute in model_pk 7.
Definition model_pk11 : Z := Eval vm_compute in model_pk 11.

Lemma audit_hint_roundtrip_witness :
  exists ct, @encrypt_for_auditor model_types model_prims (repeat 1 24) 1000 (mk 7) model_pk11 = Ok (ct, repeat 1 24)
    /\ length ct = 64%nat
    /\ @decrypt_as_auditor model_types model_prims ct (repeat 1 24) (mk 11) model_pk7 = Ok 1000.
Proof.
  apply (@audit_hint_roundtrip model_types model_laws model_prims model_prims_laws
           (repeat 1 24) 1000 (mk 7) (mk 11) model_pk7 model_pk11);
    [vm_compute; reflexivity|vm_compute; reflexivity|reflexivity|unfold u128_MAX; lia|vm_compute; discriminate].
Defined.

Definition model_account : Result (@TongoAccount model_types) := @account_from_private_key model_types (mk 7) (mk 99).
Definition model_account_none : @TongoAccount model_types :=
  {| ta_keypair := {| kp_private_key := mk 0; kp_public_key := 0 |};
     ta_state := default_account_state; ta_contract_address := mk 0 |}.

Lemma account_reachable_correct_witness :
  let a := fold_left account_step [OpSetBalance 5; OpSetPendingBalance u128_MAX]
             (default model_account_none (to_option model_account)) in
  owner_private_key a = mk 7 /\ owner_public_key a ≡ felt_val (mk 7) • (GXv : @Proj model_types)
  /\ total_balance a
     = (if account_balance a + account_pending_balance a <=? u128_MAX
        then Ok (account_balance a + account_pending_balance a)
        else Err (InvalidAmount "account total balance overflow")).
Proof.
  apply (@account_reachable_correct model_types model_laws (mk 7) (mk 99) GXv); [vm_compute; reflexivity| |].
  - unfold model_account. apply (ok_default model_account_none). vm_compute. reflexivity.
  - repeat constructor; unfold u128_MAX; lia.
Defined.
