(* ===== verification/Operations.v ===== *)
(** * Tongo operations: fund, rollover, ragequit, withdraw

    crates/sdk/src/operations.rs and operations/{shared,fund,rollover,ragequit,
    withdraw}.rs.  Each operation takes its random draws as a record. *)

From stdpp Require Import base option list numbers strings.
From Stdlib Require Import ZArith Lia Zdiv.
From S2P Require Import Prelude StarkLib Primality GroupTac StarkModel Types Scalar Curve Hash.
From S2P Require Import Poe Bit Range ElGamal AuditProver SdkCrypto.

Section operations.
Context `{StarkTypes, SdkPrims}.

Definition FUND_CAIRO_STRING : Felt := felt_of_Z 0x66756e64.
Definition ROLLOVER_CAIRO_STRING : Felt := felt_of_Z 0x726f6c6c6f766572.
Definition RAGEQUIT_CAIRO_STRING : Felt := felt_of_Z 0x7261676571756974.
Definition WITHDRAW_CAIRO_STRING : Felt := felt_of_Z 0x7769746864726177.

Record FundParams : Type := {
  fp_amount : Z; fp_nonce : Felt; fp_chain_id : Felt; fp_tongo_address : Felt;
  fp_sender_address : Felt; fp_auditor_pub_key : option Proj; fp_current_balance : ElGamalCiphertext }.
Record RolloverParams : Type := {
  rp_nonce : Felt; rp_chain_id : Felt; rp_tongo_address : Felt; rp_sender_address : Felt }.
Record WithdrawParams : Type := {
  wp_recipient_address : Felt; wp_amount : Z; wp_nonce : Felt; wp_chain_id : Felt;
  wp_tongo_address : Felt; wp_sender_address : Felt; wp_current_balance : ElGamalCiphertext;
  wp_bit_size : nat; wp_auditor_key : option Proj }.
Record RagequitParams : Type := {
  gp_recipient_address : Felt; gp_nonce : Felt; gp_chain_id : Felt; gp_tongo_address : Felt;
  gp_sender_address : Felt; gp_current_balance : ElGamalCiphertext; gp_auditor_key : option Proj }.

Record AuditInfo : Type := {
  audited_balance : ElGamalCiphertext; hint_ciphertext : list Z; hint_nonce : list Z;
  audit_proof : AuditProof }.
Record FundProof : Type := {
  fund_y : Proj; fund_proof : PoeProof; fund_amount : Z; fund_audit : option AuditInfo }.
Record RolloverProof : Type := {
  rollover_y : Proj; rollover_proof : PoeProof; rollover_pending_amount : Z }.
Record WithdrawProof : Type := {
  wd_y : Proj; wd_a_x : Proj; wd_a_r : Proj; wd_a : Proj; wd_a_v : Proj;
  wd_sx : Felt; wd_sb : Felt; wd_sr : Felt; wd_auxiliar_cipher : ElGamalCiphertext;
  wd_range : Range; wd_amount : Z; wd_recipient : Felt; wd_audit : option AuditInfo }.
Record RagequitProof : Type := {
  rq_y : Proj; rq_a_x : Proj; rq_a_r : Proj; rq_sx : Felt; rq_amount : Z; rq_recipient : Felt;
  rq_audit : option AuditInfo }.

(** The draws of one audit: the proof's scalars and the hint's nonce. *)
Record AuditDraws : Type := { ad_coins : AuditCoins; ad_nonce : list Z }.

(** [a - b] on [u128] under overflow checks. *)
Definition u128_sub (a b : Z) : Result Z := if b <=? a then Ok (a - b) else Panic.

(** shared.rs: [g^balance = L - R^x]. *)
Definition verify_cipher_encrypts_balance (cipher : ElGamalCiphertext) (x : Felt) (balance : Z)
    (g : Proj) : Result unit :=
  r0_x ← curve_mul x (Some (ct_r cipher));
  r0_x_affine ← projective_to_affine r0_x;
  neg_r0_x ← negate_affine invalid_affine_point r0_x_affine;
  let g_b := curve_add (ct_l cipher) neg_r0_x in
  expected_g_b ← curve_mul (felt_of_Z balance) (Some g);
  same ← affine_eq g_b expected_g_b;
  reject_if (negb same) (CryptoError "storedBalance is not an encryption of balance").

Definition funded_balance (balance amount : Z) : Result Z :=
  ok_or (u128_checked_add balance amount) (InvalidAmount "funded balance overflow").

(** The audit block every operation ends with: proof, then hint. *)
Definition build_audit (draws : AuditDraws) (secret : Felt) (balance : Z) (cipher : ElGamalCiphertext)
    (auditor_key : Proj) (validate : bool) (prefix : AuditPrefixData) : Result AuditInfo :=
  '(proof, audited) ← audit_prove_with_validation (ad_coins draws) secret balance cipher
     auditor_key validate (Some prefix);
  '(hint_ct, nonce) ← encrypt_for_auditor (ad_nonce draws) balance secret auditor_key;
  Ok {| audited_balance := audited; hint_ciphertext := hint_ct; hint_nonce := nonce; audit_proof := proof |}.

Definition fund_prefix (params : FundParams) (y_affine : Aff) : Felt :=
  poseidon_hash_many [
    fp_chain_id params; fp_tongo_address params; fp_sender_address params; FUND_CAIRO_STRING;
    aff_x y_affine; aff_y y_affine; felt_of_Z (fp_amount params); fp_nonce params].

(** The stored ciphertext after the contract has added the deposit. *)
Definition funded_cipher (account : TongoAccount) (params : FundParams) : Result ElGamalCiphertext :=
  g ← generator;
  g_amount ← curve_mul (felt_of_Z (fp_amount params)) (Some g);
  y_r ← curve_mul FUND_CAIRO_STRING (Some (owner_public_key account));
  let fund_cipher_l := curve_add g_amount y_r in
  fund_cipher_r ← curve_mul FUND_CAIRO_STRING (Some g);
  Ok {| ct_l := curve_add (ct_l (fp_current_balance params)) fund_cipher_l;
        ct_r := curve_add (ct_r (fp_current_balance params)) fund_cipher_r |}.

Definition fund (r : Felt) (draws : AuditDraws) (account : TongoAccount) (params : FundParams)
    : Result FundProof :=
  reject_if (fp_amount params =? 0) (InvalidAmount "Amount must be greater than zero") ;;
  let y := owner_public_key account in
  y_affine ← ok_or (proj_to_affine y) PointAtInfinity;
  let prefix := fund_prefix params y_affine in
  '(_, proof) ← poe_prove r (owner_private_key account) prefix;
  audit ← match fp_auditor_pub_key params with
  | Some auditor_key =>
      new_balance ← funded_balance (account_balance account) (fp_amount params);
      new_cipher_balance ← funded_cipher account params;
      let audit_prefix := {| apd_chain_id := fp_chain_id params; apd_tongo_address := fp_tongo_address params;
                             apd_sender_address := fp_sender_address params; apd_user_pub_key := y |} in
      audit ← build_audit draws (owner_private_key account) new_balance new_cipher_balance auditor_key
        true audit_prefix;
      Ok (Some audit)
  | None => Ok None
  end;
  Ok {| fund_y := y; fund_proof := proof; fund_amount := fp_amount params; fund_audit := audit |}.

Definition rollover_prefix (params : RolloverParams) (y_affine : Aff) : Felt :=
  poseidon_hash_many [
    rp_chain_id params; rp_tongo_address params; rp_sender_address params; ROLLOVER_CAIRO_STRING;
    aff_x y_affine; aff_y y_affine; rp_nonce params].

Definition rollover (r : Felt) (account : TongoAccount) (params : RolloverParams) : Result RolloverProof :=
  let y := owner_public_key account in
  y_affine ← ok_or (proj_to_affine y) PointAtInfinity;
  let prefix := rollover_prefix params y_affine in
  '(_, proof) ← poe_prove r (owner_private_key account) prefix;
  Ok {| rollover_y := y; rollover_proof := proof;
        rollover_pending_amount := account_pending_balance account |}.

Definition ragequit_error (e : KmsError) : KmsError :=
  match e with
  | CryptoError _ => CryptoError "storedBalance is not an encryption of full balance"
  | other => other
  end.

Definition ragequit_prefix (params : RagequitParams) (full_amount : Z) (y l0 r0 : Aff) : Felt :=
  poseidon_hash_many [
    gp_chain_id params; gp_tongo_address params; gp_sender_address params; RAGEQUIT_CAIRO_STRING;
    aff_x y; aff_y y; gp_nonce params; felt_of_Z full_amount; gp_recipient_address params;
    aff_x l0; aff_y l0; aff_x r0; aff_y r0].

(** [ragequit]; [kx] is the draw of [random_felt]. *)
Definition ragequit (kx : Felt) (draws : AuditDraws) (account : TongoAccount) (params : RagequitParams)
    : Result RagequitProof :=
  let x := owner_private_key account in
  g ← generator;
  let y := owner_public_key account in
  y_affine ← ok_or (proj_to_affine y) PointAtInfinity;
  let l0 := ct_l (gp_current_balance params) in
  let r0 := ct_r (gp_current_balance params) in
  map_err ragequit_error
    (verify_cipher_encrypts_balance (gp_current_balance params) x (account_balance account) g) ;;
  let full_amount := account_balance account in
  l0_affine ← ok_or (proj_to_affine l0) PointAtInfinity;
  r0_affine ← ok_or (proj_to_affine r0) PointAtInfinity;
  let prefix := ragequit_prefix params full_amount y_affine l0_affine r0_affine in
  a_x ← curve_mul kx (Some g);
  a_r ← curve_mul kx (Some r0);
  c ← compute_poseidon_challenge prefix [a_x; a_r];
  c_x ← scalar_mul c x;
  sx ← scalar_add kx c_x;
  audit ← match gp_auditor_key params with
  | Some auditor_key =>
      let new_balance_cipher := {| ct_l := y; ct_r := g |} in
      let audit_prefix := {| apd_chain_id := gp_chain_id params; apd_tongo_address := gp_tongo_address params;
                             apd_sender_address := gp_sender_address params; apd_user_pub_key := y |} in
      audit ← build_audit draws x 0 new_balance_cipher auditor_key true audit_prefix;
      Ok (Some audit)
  | None => Ok None
  end;
  Ok {| rq_y := y; rq_a_x := a_x; rq_a_r := a_r; rq_sx := sx; rq_amount := full_amount;
        rq_recipient := gp_recipient_address params; rq_audit := audit |}.

(** The draws of a withdrawal. *)
Record WithdrawCoins : Type := {
  wc_random_values : list Felt; wc_bits : nat -> BitCoins;
  wc_kb : Felt; wc_kx : Felt; wc_kr : Felt; wc_audit : AuditDraws }.

Definition withdraw_prefix (params : WithdrawParams) (y l0 r0 v r_aux : Aff) : Felt :=
  poseidon_hash_many [
    wp_chain_id params; wp_tongo_address params; wp_sender_address params; WITHDRAW_CAIRO_STRING;
    aff_x y; aff_y y; wp_nonce params; felt_of_Z (wp_amount params); wp_recipient_address params;
    aff_x l0; aff_y l0; aff_x r0; aff_y r0; aff_x v; aff_y v; aff_x r_aux; aff_y r_aux].

(** [x - p] through the affine coordinates of [p]. *)
Definition subtract_point (minuend subtrahend : Proj) : Result Proj :=
  affine ← projective_to_affine subtrahend;
  negated ← negate_affine invalid_affine_point affine;
  Ok (curve_add minuend negated).

(** The stored ciphertext less the withdrawn amount. *)
Definition withdraw_leftover_cipher (params : WithdrawParams) (g y : Proj) : Result ElGamalCiphertext :=
  g_amount ← curve_mul (felt_of_Z (wp_amount params)) (Some g);
  y_r ← curve_mul WITHDRAW_CAIRO_STRING (Some y);
  let cipher_l := curve_add g_amount y_r in
  cipher_r ← curve_mul WITHDRAW_CAIRO_STRING (Some g);
  l_left ← subtract_point (ct_l (wp_current_balance params)) cipher_l;
  r_left ← subtract_point (ct_r (wp_current_balance params)) cipher_r;
  Ok {| ct_l := l_left; ct_r := r_left |}.

Definition withdraw_audit (draws : AuditDraws) (params : WithdrawParams) (g y : Proj) (x : Felt)
    (left : Z) : Result (option AuditInfo) :=
  match wp_auditor_key params with
  | Some auditor_key =>
      leftover_cipher ← withdraw_leftover_cipher params g y;
      let audit_prefix := {| apd_chain_id := wp_chain_id params; apd_tongo_address := wp_tongo_address params;
                             apd_sender_address := wp_sender_address params; apd_user_pub_key := y |} in
      audit ← build_audit draws x left leftover_cipher auditor_key false audit_prefix;
      Ok (Some audit)
  | None => Ok None
  end.

Definition withdraw (coins : WithdrawCoins) (account : TongoAccount) (params : WithdrawParams)
    : Result WithdrawProof :=
  reject_if (wp_amount params =? 0) (InvalidAmount "Amount must be greater than zero") ;;
  reject_if (negb (has_sufficient_balance account (wp_amount params))) InsufficientBalance ;;
  let x := owner_private_key account in
  g ← generator;
  h ← generator_h;
  let y := owner_public_key account in
  y_affine ← ok_or (proj_to_affine y) PointAtInfinity;
  let l0 := ct_l (wp_current_balance params) in
  let r0 := ct_r (wp_current_balance params) in
  verify_cipher_encrypts_balance (wp_current_balance params) x (account_balance account) g ;;
  left ← u128_sub (account_balance account) (wp_amount params);
  let random_values := wc_random_values coins in
  r ← compute_total_randomness random_values;
  r_aux ← curve_mul r (Some g);
  g_left ← curve_mul (felt_of_Z left) (Some g);
  h_r ← curve_mul r (Some h);
  let v := curve_add g_left h_r in
  l0_affine ← ok_or (proj_to_affine l0) PointAtInfinity;
  r0_affine ← ok_or (proj_to_affine r0) PointAtInfinity;
  v_affine ← ok_or (proj_to_affine v) PointAtInfinity;
  r_aux_affine ← ok_or (proj_to_affine r_aux) PointAtInfinity;
  let prefix := withdraw_prefix params y_affine l0_affine r0_affine v_affine r_aux_affine in
  '(range, _) ← range_prove_with_randomness (wc_bits coins) left (wp_bit_size params) g h prefix random_values;
  let kb := wc_kb coins in
  let kx := wc_kx coins in
  let kr := wc_kr coins in
  a_x ← curve_mul kx (Some g);
  a_r ← curve_mul kr (Some g);
  g_kb ← curve_mul kb (Some g);
  r0_kx ← curve_mul kx (Some r0);
  h_kr ← curve_mul kr (Some h);
  let a := curve_add g_kb r0_kx in
  let a_v := curve_add g_kb h_kr in
  c ← compute_poseidon_challenge prefix [a_x; a_r; a; a_v];
  c_left ← scalar_mul c (felt_of_Z left);
  sb ← scalar_add kb c_left;
  c_x ← scalar_mul c x;
  sx ← scalar_add kx c_x;
  c_r ← scalar_mul c r;
  sr ← scalar_add kr c_r;
  let auxiliar_cipher := {| ct_l := v; ct_r := r_aux |} in
  audit ← withdraw_audit (wc_audit coins) params g y x left;
  Ok {| wd_y := y; wd_a_x := a_x; wd_a_r := a_r; wd_a := a; wd_a_v := a_v;
        wd_sx := sx; wd_sb := sb; wd_sr := sr; wd_auxiliar_cipher := auxiliar_cipher;
        wd_range := range; wd_amount := wp_amount params;
        wd_recipient := wp_recipient_address params; wd_audit := audit |}.
End operations.

(** ** Lemmas *)
Section operations_lemmas.
Context `{StarkLaws, SdkPrimsLaws}.

(** [verify_cipher_encrypts_balance] accepts exactly the ciphertexts of the
    balance, as long as neither [R^x] nor [g^balance] is at infinity. *)
Lemma verify_cipher_Ok cipher x balance g u :
  0 <= balance <= u128_MAX ->
  verify_cipher_encrypts_balance cipher x balance g = Ok u <->
  ct_l cipher ≡ balance • g ⊕ felt_val x • ct_r cipher
  /\ ~ felt_val x • ct_r cipher ≡ proj_identity /\ ~ balance • g ≡ proj_identity.
Proof.
  intros Hb. unfold verify_cipher_encrypts_balance, projective_to_affine.
  mul_step x (ct_r cipher) as rx Hrx. rewrite <- Hrx.
  destruct (proj_to_affine rx) as [a|] eqn:Ha; cbn [ok_or mbind outcome_bind].
  2:{ apply to_affine_infinity in Ha. split; [done|tauto]. }
  destruct (negate_affine_spec invalid_affine_point rx a Ha) as (n & Hn & Hne). run Hn.
  mul_step (felt_of_Z balance) g as gb Hgb. rewrite felt_u128_val in Hgb by done. unfold curve_add.
  assert (~ rx ≡ proj_identity) as Hrf by (apply to_affine_not_infinity; eauto).
  assert (ct_l cipher ⊕ n ≡ gb <-> ct_l cipher ≡ balance • g ⊕ rx) as Heq.
  { rewrite Hne, Hgb. split; intros He; [rewrite <- He|rewrite He]; proj_module. }
  rewrite <- Heq, <- Hgb. split.
  - intros Hv. inv_ok. destruct a0; [|done]. apply affine_eq_true in H3 as [He Hi].
    split_and!; [done|done|by rewrite <- He].
  - intros (He & _ & Hf). rewrite <- He in Hf. rewrite (proj2 (affine_eq_true _ _)) by done.
    by destruct u.
Qed.

Lemma subtract_point_spec p q :
  ~ q ≡ proj_identity -> exists r, subtract_point p q = Ok r /\ r ≡ p ⊕ (-1) • q.
Proof.
  intros [a Ha]%to_affine_not_infinity. unfold subtract_point, projective_to_affine.
  rewrite Ha. cbn [ok_or mbind outcome_bind].
  destruct (negate_affine_spec invalid_affine_point q a Ha) as (n & Hn & Hne). run Hn.
  eexists. split; [done|]. unfold curve_add. by rewrite Hne.
Qed.

Lemma subtract_point_Ok p q r : subtract_point p q = Ok r -> r ≡ p ⊕ (-1) • q.
Proof.
  unfold subtract_point, projective_to_affine. intros Hr. inv_ok. curve_facts.
  unfold curve_add. point_module.
Qed.

(** What an attached audit guarantees: its proof is accepted against the
    ciphertext, its ciphertext holds the balance for the auditor, and the hint
    decrypts to the balance. *)
Definition audit_info_ok (g y auditor : Proj) (x : Felt) (balance : Z) (cipher : ElGamalCiphertext)
    (prefix : AuditPrefixData) (info : AuditInfo) : Prop :=
  audit_verify (audit_proof info) y cipher (audited_balance info) auditor (Some prefix) = Ok true
  /\ (exists r1, ct_l (audited_balance info) ≡ balance • g ⊕ r1 • auditor
        /\ ct_r (audited_balance info) ≡ r1 • g)
  /\ (forall auditor_sk user_pk, curve_mul_generator auditor_sk = Ok auditor ->
        curve_mul_generator x = Ok user_pk ->
        decrypt_as_auditor (hint_ciphertext info) (hint_nonce info) auditor_sk user_pk = Ok balance).

(** A hint that was produced decrypts: the shared point was finite. *)
Lemma encrypt_for_auditor_Ok nonce balance x auditor ct n :
  length nonce = NONCE_SIZE -> 0 <= balance <= u128_MAX ->
  encrypt_for_auditor nonce balance x auditor = Ok (ct, n) ->
  forall auditor_sk user_pk, curve_mul_generator auditor_sk = Ok auditor ->
    curve_mul_generator x = Ok user_pk ->
    decrypt_as_auditor ct n auditor_sk user_pk = Ok balance.
Proof.
  intros Hn Hb Henc ask upk Ha Hu. destruct generator_spec as [g Hg].
  assert ((felt_val x * felt_val ask) mod CurveOrder <> 0) as Hne.
  { unfold encrypt_for_auditor, derive_shared_secret in Henc. inv_ok.
    unfold curve_mul_generator in Ha. rewrite Hg in Ha. cbn [mbind outcome_bind] in Ha.
    destruct (curve_scalar_mul_spec g ask) as (pa & Epa & Hpa). rewrite Epa in Ha. injection Ha as <-.
    curve_facts. assert (~ a0 ≡ proj_identity) as Hf by (apply to_affine_not_infinity; eauto).
    intros Hz. apply Hf. rewrite H4, Hpa.
    transitivity ((felt_val x * felt_val ask) • g); [proj_module|].
    by rewrite (smul_eqm _ 0). }
  destruct (shared_hint nonce balance x ask upk auditor) as (ct' & Henc' & _ & Hdec); try done.
  rewrite Henc in Henc'. by injection Henc' as <- <-.
Qed.

Lemma build_audit_Ok draws x balance cipher auditor validate prefix info g y :
  generator = Ok g -> 0 <= balance <= u128_MAX -> length (ad_nonce draws) = NONCE_SIZE ->
  y ≡ felt_val x • g -> ct_l cipher ≡ balance • g ⊕ felt_val x • ct_r cipher ->
  build_audit draws x balance cipher auditor validate prefix = Ok info ->
  audit_info_ok g y auditor x balance cipher prefix info.
Proof.
  intros Hg Hb Hn Hy Hc Hi. unfold build_audit in Hi.
  apply bind_Ok in Hi as ([pf c1] & Hp & Hi). apply bind_Ok in Hi as ([hct n] & Hh & Hi). inv_ok.
  destruct (audit_prove_Ok _ _ _ _ _ _ _ _ _ _ Hg Hb Hp) as (Hl & Hr & Hv).
  split_and!; cbn [audit_proof audited_balance hint_ciphertext hint_nonce]; [by apply Hv|eauto|].
  exact (encrypt_for_auditor_Ok _ _ _ _ _ _ Hn Hb Hh).
Qed.
End operations_lemmas.

(** ** Correctness of the operations

    Each theorem says what a returned proof satisfies: the equations that the
    on-chain verifier checks against the recomputed challenge, and the attached
    audit when an auditor is configured. *)
Section operations_theorems.
Context `{StarkLaws, SdkPrimsLaws}.

Lemma funded_cipher_Ok account params cipher g sk :
  generator = Ok g -> 0 <= fp_amount params <= u128_MAX -> owner_public_key account ≡ felt_val sk • g ->
  funded_cipher account params = Ok cipher ->
  ct_l cipher ≡ ct_l (fp_current_balance params)
                ⊕ (fp_amount params • g ⊕ (felt_val FUND_CAIRO_STRING * felt_val sk) • g)
  /\ ct_r cipher ≡ ct_r (fp_current_balance params) ⊕ felt_val FUND_CAIRO_STRING • g.
Proof.
  intros Hg Ha Hpk Hc. unfold funded_cipher in Hc. rewrite Hg in Hc. cbn [mbind outcome_bind] in Hc.
  inv_ok. curve_facts. rewrite felt_u128_val in * by done. unfold curve_add. cbn [ct_l ct_r].
  split; point_subst; [rewrite Hpk|]; proj_module.
Qed.

(** Whenever fund returns, the amount is non-zero, the proof of ownership verifies, and
    with an auditor the audit is of balance plus amount, which did not overflow. *)
Theorem fund_correct (r : Felt) (draws : AuditDraws) (account : TongoAccount) (params : FundParams)
    (p : FundProof) (g : Proj) (sk : Felt) :
  generator = Ok g -> account_inv g sk account -> 0 <= fp_amount params <= u128_MAX ->
  length (ad_nonce draws) = NONCE_SIZE ->
  fund r draws account params = Ok p ->
  fp_amount params <> 0 /\ fund_y p = owner_public_key account /\ fund_amount p = fp_amount params
  /\ (exists ya, proj_to_affine (fund_y p) = Some ya
        /\ poe_verify (fund_y p) (fund_proof p) (fund_prefix params ya)
           = if felt_val (poe_s (fund_proof p)) =? 0 then Err PointAtInfinity else Ok true)
  /\ match fp_auditor_pub_key params with
     | None => fund_audit p = None
     | Some auditor =>
         let new_balance := account_balance account + fp_amount params in
         exists cipher info, funded_cipher account params = Ok cipher /\ fund_audit p = Some info
           /\ new_balance <= u128_MAX
           /\ audit_info_ok g (fund_y p) auditor sk new_balance cipher
                {| apd_chain_id := fp_chain_id params; apd_tongo_address := fp_tongo_address params;
                   apd_sender_address := fp_sender_address params; apd_user_pub_key := fund_y p |} info
     end.
Proof.
  intros Hg (Hsk & Hpk & Hbal & _) Ha Hn Hf. unfold fund in Hf.
  apply bind_Ok in Hf as (u & Hz%reject_if_Ok & Hf). apply Z.eqb_neq in Hz.
  apply bind_Ok in Hf as (ya & Hya%ok_or_Ok & Hf).
  apply bind_Ok in Hf as ([y0 pf] & Hpoe & Hf). apply bind_Ok in Hf as (audit & Haudit & Hf).
  injection Hf as <-. cbn [fund_y fund_proof fund_amount fund_audit].
  split_and!; [done|done|done| |].
  - exists ya. split; [done|]. by apply (poe_prove_Ok _ _ _ _ _ g _ Hg Hpoe); rewrite Hsk.
  - destruct (fp_auditor_pub_key params) as [auditor|]; [|by injection Haudit as <-].
    apply bind_Ok in Haudit as (nb & Hnb & Haudit). apply bind_Ok in Haudit as (cipher & Hcipher & Haudit).
    apply bind_Ok in Haudit as (info & Hinfo & Haudit). injection Haudit as <-.
    unfold funded_balance, u128_checked_add, in_u128 in Hnb.
    destruct (Z.leb_spec 0 (account_balance account + fp_amount params)); [|done].
    destruct (Z.leb_spec (account_balance account + fp_amount params) u128_MAX); [|done].
    cbn in Hnb. injection Hnb as <-. exists cipher, info. split_and!; [done|done|done|].
    rewrite Hsk in Hinfo.
    apply (build_audit_Ok draws sk _ _ _ true); try done.
    unfold build_audit in Hinfo. apply bind_Ok in Hinfo as (res & Hprove & _).
    apply (audit_prove_Ok_finite _ _ _ _ _ _ _ g) in Hprove as [_ Hvalid]; [by apply Hvalid|done|lia].
Qed.

(** For a non-zero key and nonce rollover always returns: the proof is for the account's
    key, carries the pending balance, and the ownership proof verifies (or the verifier reports
    the point at infinity for a zero response). *)
Theorem rollover_correct (r : Felt) (account : TongoAccount) (params : RolloverParams) (g : Proj) (sk : Felt) :
  generator = Ok g -> account_inv g sk account ->
  felt_val sk mod CurveOrder <> 0 -> felt_val r mod CurveOrder <> 0 ->
  exists p ya, rollover r account params = Ok p
    /\ rollover_y p = owner_public_key account
    /\ rollover_pending_amount p = account_pending_balance account
    /\ proj_to_affine (rollover_y p) = Some ya
    /\ poe_verify (rollover_y p) (rollover_proof p) (rollover_prefix params ya)
       = if felt_val (poe_s (rollover_proof p)) =? 0 then Err PointAtInfinity else Ok true.
Proof.
  intros Hg (Hsk & Hpk & _) Hne Hr. unfold rollover.
  assert (~ owner_public_key account ≡ proj_identity) as [ya Hya]%to_affine_not_infinity.
  { by rewrite Hpk, (generator_smul_infinity g). }
  rewrite Hya. cbn [ok_or mbind outcome_bind].
  destruct (poe_prove_run r (owner_private_key account) (rollover_prefix params ya) Hr)
    as (g' & y & pf & Hg' & Hp & Hy & Hv). rewrite Hg in Hg'. injection Hg' as <-. run Hp.
  eexists _, ya. split_and!; [done..|]. cbn [rollover_y rollover_proof].
  apply (poe_prove_Ok _ _ _ _ _ g _ Hg Hp). by rewrite Hsk.
Qed.

(** The sigma equations of a ragequit: key knowledge, and [R0^x = L0 - g^amount]. *)
Definition ragequit_accepts (g : Proj) (params : RagequitParams) (p : RagequitProof) (c : Felt) : Prop :=
  let l0 := ct_l (gp_current_balance params) in
  let r0 := ct_r (gp_current_balance params) in
  felt_val (rq_sx p) • g ≡ rq_a_x p ⊕ felt_val c • rq_y p
  /\ felt_val (rq_sx p) • r0 ≡ rq_a_r p ⊕ felt_val c • (l0 ⊕ (- rq_amount p) • g).

(** Whenever ragequit returns, it withdraws exactly the positive current balance that the
    given ciphertext encrypts, the proof satisfies the verifier equations, and the audit, when
    configured, is of a zero balance. *)
Theorem ragequit_correct (kx : Felt) (draws : AuditDraws) (account : TongoAccount)
    (params : RagequitParams) (p : RagequitProof) (g : Proj) (sk : Felt) :
  generator = Ok g -> account_inv g sk account -> length (ad_nonce draws) = NONCE_SIZE ->
  ragequit kx draws account params = Ok p ->
  rq_amount p = account_balance account /\ 0 < rq_amount p
  /\ ct_l (gp_current_balance params) ≡ rq_amount p • g ⊕ felt_val sk • ct_r (gp_current_balance params)
  /\ (exists ya la ra c, proj_to_affine (rq_y p) = Some ya
        /\ proj_to_affine (ct_l (gp_current_balance params)) = Some la
        /\ proj_to_affine (ct_r (gp_current_balance params)) = Some ra
        /\ compute_poseidon_challenge (ragequit_prefix params (rq_amount p) ya la ra) [rq_a_x p; rq_a_r p] = Ok c
        /\ ragequit_accepts g params p c)
  /\ match gp_auditor_key params with
     | None => rq_audit p = None
     | Some auditor => exists info, rq_audit p = Some info
         /\ audit_info_ok g (rq_y p) auditor sk 0 {| ct_l := rq_y p; ct_r := g |}
              {| apd_chain_id := gp_chain_id params; apd_tongo_address := gp_tongo_address params;
                 apd_sender_address := gp_sender_address params; apd_user_pub_key := rq_y p |} info
     end.
Proof.
  intros Hg (Hsk & Hpk & Hbal & _) Hn Hq. unfold ragequit in Hq. rewrite Hg in Hq. cbn [mbind outcome_bind] in Hq.
  apply bind_Ok in Hq as (ya & Hya%ok_or_Ok & Hq). apply bind_Ok in Hq as (u & Hver & Hq).
  destruct (verify_cipher_encrypts_balance _ _ _ _) as [u'| |] eqn:Hv in Hver; [|done..].
  apply verify_cipher_Ok in Hv as (Hl0 & Hrx & Hgb); [|done].
  apply bind_Ok in Hq as (la & Hla%ok_or_Ok & Hq). apply bind_Ok in Hq as (ra & Hra%ok_or_Ok & Hq).
  apply bind_Ok in Hq as (ax & Hax & Hq). apply bind_Ok in Hq as (ar & Har & Hq).
  apply bind_Ok in Hq as (c & Hc & Hq). apply bind_Ok in Hq as (cx & Hcx & Hq).
  apply bind_Ok in Hq as (sx & Hsx & Hq). apply bind_Ok in Hq as (audit & Haudit & Hq).
  injection Hq as <-. cbn [rq_y rq_a_x rq_a_r rq_sx rq_amount rq_audit]. curve_facts. rewrite Hsk in *.
  split_and!; [done| |done| |].
  - destruct (decide (account_balance account = 0)) as [E|]; [|lia]. rewrite E in Hgb. destruct Hgb. proj_module.
  - exists ya, la, ra, c. split_and!; [done..|].
    unfold ragequit_accepts; cbn [rq_y rq_a_x rq_a_r rq_sx rq_amount]; split; rewrite ?Hl0, ?Hpk; point_module.
  - destruct (gp_auditor_key params) as [auditor|]; [|by injection Haudit as <-].
    apply bind_Ok in Haudit as (info & Hinfo & Haudit). injection Haudit as <-. exists info. split; [done|].
    apply (build_audit_Ok draws sk 0 _ _ true); try done.
    cbn [ct_l ct_r]. rewrite Hpk. proj_module.
Qed.

(** Ragequit on an account with zero balance always fails with PointAtInfinity. *)
Theorem ragequit_empty_account (kx : Felt) (draws : AuditDraws) (account : TongoAccount)
    (params : RagequitParams) :
  account_balance account = 0 -> ragequit kx draws account params = Err PointAtInfinity.
Proof.
  intros Hz. destruct generator_spec as [g Hg]. unfold ragequit. run Hg.
  destruct (proj_to_affine (owner_public_key account)) as [ya|]; [|done]. cbn [ok_or mbind outcome_bind].
  unfold verify_cipher_encrypts_balance, projective_to_affine, affine_eq. rewrite Hz.
  mul_step (owner_private_key account) (ct_r (gp_current_balance params)) as rx Hrx.
  destruct (proj_to_affine rx) as [a|] eqn:Ha; [|done]. cbn [ok_or mbind outcome_bind].
  destruct (negate_affine_spec invalid_affine_point rx a Ha) as (n & Hneg & _). run Hneg.
  mul_step (felt_of_Z 0) g as gb Hgb. unfold projective_to_affine.
  destruct (proj_to_affine (curve_add _ n)) as [b|]; [|done]. cbn [ok_or mbind outcome_bind].
  assert (proj_to_affine gb = None) as ->; [|done].
  apply to_affine_infinity. rewrite Hgb, felt_u128_val by (unfold u128_MAX; lia). proj_module.
Qed.
End operations_theorems.

(** ** Withdrawals *)
Section withdraw_theorems.
Context `{StarkLaws, SdkPrimsLaws}.

(** The four sigma equations of a withdrawal. *)
Definition withdraw_accepts (g h : Proj) (params : WithdrawParams) (p : WithdrawProof) (c : Felt) : Prop :=
  let l0 := ct_l (wp_current_balance params) in
  let r0 := ct_r (wp_current_balance params) in
  let aux := wd_auxiliar_cipher p in
  felt_val (wd_sx p) • g ≡ wd_a_x p ⊕ felt_val c • wd_y p
  /\ felt_val (wd_sr p) • g ≡ wd_a_r p ⊕ felt_val c • ct_r aux
  /\ felt_val (wd_sb p) • g ⊕ felt_val (wd_sx p) • r0
     ≡ wd_a p ⊕ felt_val c • (l0 ⊕ (- wd_amount p) • g)
  /\ felt_val (wd_sb p) • g ⊕ felt_val (wd_sr p) • h ≡ wd_a_v p ⊕ felt_val c • ct_l aux.

(** The leftover ciphertext that is audited encrypts what is left. *)
Lemma withdraw_leftover_encrypts params g y sk balance cipher :
  0 <= wp_amount params <= u128_MAX -> y ≡ felt_val sk • g ->
  ct_l (wp_current_balance params) ≡ balance • g ⊕ felt_val sk • ct_r (wp_current_balance params) ->
  withdraw_leftover_cipher params g y = Ok cipher ->
  ct_l cipher ≡ (balance - wp_amount params) • g ⊕ felt_val sk • ct_r cipher.
Proof.
  intros Ha Hy Hl0 Hc. unfold withdraw_leftover_cipher in Hc. inv_ok. curve_facts.
  rewrite felt_u128_val in * by done. cbn [ct_l ct_r]. unfold curve_add in *.
  repeat match goal with Hs : subtract_point _ _ = Ok _ |- _ => apply subtract_point_Ok in Hs end.
  point_subst. rewrite Hl0. proj_module.
Qed.

Lemma withdraw_audit_Ok draws params g y sk left audit :
  generator = Ok g -> length (ad_nonce draws) = NONCE_SIZE ->
  0 <= wp_amount params <= u128_MAX -> 0 <= left <= u128_MAX -> y ≡ felt_val sk • g ->
  ct_l (wp_current_balance params)
    ≡ (left + wp_amount params) • g ⊕ felt_val sk • ct_r (wp_current_balance params) ->
  withdraw_audit draws params g y sk left = Ok audit ->
  match wp_auditor_key params with
  | None => audit = None
  | Some auditor => exists cipher info, withdraw_leftover_cipher params g y = Ok cipher /\ audit = Some info
      /\ audit_info_ok g y auditor sk left cipher
           {| apd_chain_id := wp_chain_id params; apd_tongo_address := wp_tongo_address params;
              apd_sender_address := wp_sender_address params; apd_user_pub_key := y |} info
  end.
Proof.
  intros Hg Hn Ha Hleft Hy Hl0 Haudit. unfold withdraw_audit in Haudit.
  destruct (wp_auditor_key params) as [auditor|]; [|by injection Haudit as <-].
  apply bind_Ok in Haudit as (cipher & Hcipher & Haudit). apply bind_Ok in Haudit as (info & Hinfo & Haudit).
  injection Haudit as <-. exists cipher, info. split_and!; [done|done|].
  apply (build_audit_Ok draws sk left _ _ false); try done.
  pose proof (withdraw_leftover_encrypts _ _ _ _ _ _ Ha Hy Hl0 Hcipher) as He.
  by replace (left + wp_amount params - wp_amount params) with left in He by lia.
Qed.

(** C3: Whenever withdraw returns, its amount is non-zero, the leftover is non-negative and
    fits the bit width, and the proof satisfies the verifier equations for its Poseidon
    challenge; the verifier returns for the range proof the commitment of the auxiliary cipher,
    unless the width is zero, where it panics, or one of the responses is zero, which it
    refuses as a point at infinity; and an audit is attached exactly when an auditor is
    configured and audits the leftover. *)
Theorem withdraw_correct (coins : WithdrawCoins) (account : TongoAccount) (params : WithdrawParams)
    (p : WithdrawProof) (g h : Proj) (sk : Felt) :
  generator = Ok g -> generator_h = Ok h -> account_inv g sk account ->
  0 <= wp_amount params -> length (ad_nonce (wc_audit coins)) = NONCE_SIZE ->
  withdraw coins account params = Ok p ->
  let left := account_balance account - wp_amount params in
  wp_amount params <> 0 /\ 0 <= left < 2 ^ Z.of_nat (wp_bit_size params)
  /\ (exists ya la ra va rxa c, proj_to_affine (wd_y p) = Some ya
        /\ proj_to_affine (ct_l (wp_current_balance params)) = Some la
        /\ proj_to_affine (ct_r (wp_current_balance params)) = Some ra
        /\ proj_to_affine (ct_l (wd_auxiliar_cipher p)) = Some va
        /\ proj_to_affine (ct_r (wd_auxiliar_cipher p)) = Some rxa
        /\ let prefix := withdraw_prefix params ya la ra va rxa in
           compute_poseidon_challenge prefix [wd_a_x p; wd_a_r p; wd_a p; wd_a_v p] = Ok c
           /\ withdraw_accepts g h params p c
           /\ range_verdict (wd_range p) (wp_bit_size params) g h prefix (ct_l (wd_auxiliar_cipher p)))
  /\ match wp_auditor_key params with
     | None => wd_audit p = None
     | Some auditor => exists cipher info, withdraw_leftover_cipher params g (wd_y p) = Ok cipher
         /\ wd_audit p = Some info
         /\ audit_info_ok g (wd_y p) auditor sk left cipher
              {| apd_chain_id := wp_chain_id params; apd_tongo_address := wp_tongo_address params;
                 apd_sender_address := wp_sender_address params; apd_user_pub_key := wd_y p |} info
     end.
Proof.
  intros Hg Hh (Hsk & Hpk & Hbal & _) Ha Hn Hw left. unfold withdraw in Hw. rewrite Hsk in Hw.
  apply bind_Ok in Hw as (u1 & Hz%reject_if_Ok & Hw). apply Z.eqb_neq in Hz.
  apply bind_Ok in Hw as (u2 & Hs%reject_if_Ok & Hw). apply negb_false_iff, Z.leb_le in Hs.
  rewrite Hg, Hh in Hw. cbn [mbind outcome_bind] in Hw.
  apply bind_Ok in Hw as (ya & Hya%ok_or_Ok & Hw). apply bind_Ok in Hw as (u3 & Hv & Hw).
  apply verify_cipher_Ok in Hv as (Hl0 & _ & _); [|done].
  unfold u128_sub in Hw. rewrite (proj2 (Z.leb_le _ _) Hs) in Hw. cbn [mbind outcome_bind] in Hw. fold left in Hw.
  assert (0 <= left <= u128_MAX) as Hleft by (unfold left; lia).
  apply bind_Ok in Hw as (r & Hr & Hw). apply bind_Ok in Hw as (raux & Hraux & Hw).
  apply bind_Ok in Hw as (gl & Hgl & Hw). apply bind_Ok in Hw as (hr & Hhr & Hw).
  apply bind_Ok in Hw as (la & Hla%ok_or_Ok & Hw). apply bind_Ok in Hw as (ra & Hra%ok_or_Ok & Hw).
  apply bind_Ok in Hw as (va & Hva%ok_or_Ok & Hw). apply bind_Ok in Hw as (rxa & Hrxa%ok_or_Ok & Hw).
  apply bind_Ok in Hw as ([range r'] & Hrange & Hw).
  destruct (range_prove_Ok _ _ _ _ _ _ _ _ _ (generator_finite g Hg) Hleft Hrange) as (Hlt & Hr' & _ & _ & Hver).
  rewrite Hr in Hr'. injection Hr' as <-.
  inv_ok. curve_facts. rewrite felt_u128_val in * by done. unfold curve_add in *.
  cbn [wd_y wd_a_x wd_a_r wd_a wd_a_v wd_sx wd_sb wd_sr wd_auxiliar_cipher wd_range wd_audit wd_amount ct_l ct_r].
  split_and!; [done|lia|done| |].
  - exists ya, la, ra, va, rxa. eexists. split_and!; try done.
    + unfold withdraw_accepts. cbn [wd_y wd_a_x wd_a_r wd_a wd_a_v wd_sx wd_sb wd_sr wd_auxiliar_cipher wd_amount ct_l ct_r].
      unfold left in *. split_and!; rewrite ?Hl0, ?Hpk; point_module.
    + eapply range_verdict_proper, Hver. by fold_points.
  - apply (withdraw_audit_Ok (wc_audit coins)); try done; [lia|].
    replace (left + wp_amount params) with (account_balance account) by (unfold left; lia). done.
Qed.
End withdraw_theorems.

(** ** Witnesses: key 7, balance 2 stored with randomness 4, auditor key 11 *)
Definition op_account : @TongoAccount model_types :=
  {| ta_keypair := {| kp_private_key := mk 7; kp_public_key := model_pk7 |};
     ta_state := {| st_balance := 2; st_pending_balance := 3; st_nonce := 0 |};
     ta_contract_address := mk 99 |}.
Definition op_c0 : @ElGamalCiphertext model_types := {| ct_l := au_point 30; ct_r := au_point 4 |}.
Definition op_draws : @AuditDraws model_types := {| ad_coins := au_coins1; ad_nonce := repeat 1 24 |}.

Lemma op_account_inv : @account_inv model_types GXv (mk 7) op_account.
Proof.
  split; [reflexivity|]. split; [vm_compute; exact I|].
  unfold u128_MAX. split; cbn; lia.
Qed.
Lemma model_generator_Ok : @generator model_types = Ok GXv.
Proof. vm_compute. reflexivity. Qed.
Lemma model_generator_h_Ok : @generator_h model_types = Ok HXv.
Proof. vm_compute. reflexivity. Qed.

Definition op_fund_params : @FundParams model_types :=
  {| fp_amount := 5; fp_nonce := mk 1; fp_chain_id := mk 2; fp_tongo_address := mk 3; fp_sender_address := mk 4;
     fp_auditor_pub_key := Some (model_pk11 : @Proj model_types); fp_current_balance := op_c0 |}.

Lemma fund_correct_witness :
  exists p, @fund model_types model_prims (mk 5) op_draws op_account op_fund_params = Ok p
    /\ fund_amount p = 5
    /\ exists info, fund_audit p = Some info.
Proof.
  assert (is_ok (@fund model_types model_prims (mk 5) op_draws op_account op_fund_params) = true)
    as [p Hp]%is_ok_exists by (vm_compute; reflexivity).
  exists p. split; [exact Hp|].
  destruct (@fund_correct model_types model_laws model_prims model_prims_laws (mk 5) op_draws op_account
    op_fund_params p GXv (mk 7) model_generator_Ok op_account_inv) as (_ & _ & Ha & _ & cipher & info & _ & Hi & _);
    [cbn; unfold u128_MAX; lia|reflexivity|exact Hp|].
  split; [exact Ha|]. exists info. exact Hi.
Defined.

Definition op_rollover_params : @RolloverParams model_types :=
  {| rp_nonce := mk 1; rp_chain_id := mk 2; rp_tongo_address := mk 3; rp_sender_address := mk 4 |}.

Lemma rollover_correct_witness :
  exists p ya, @rollover model_types (mk 5) op_account op_rollover_params = Ok p
    /\ rollover_y p = owner_public_key op_account
    /\ rollover_pending_amount p = account_pending_balance op_account
    /\ proj_to_affine (rollover_y p) = Some ya
    /\ poe_verify (rollover_y p) (rollover_proof p) (rollover_prefix op_rollover_params ya)
       = if felt_val (poe_s (rollover_proof p)) =? 0 then Err PointAtInfinity else Ok true.
Proof.
  apply (@rollover_correct model_types model_laws (mk 5) op_account op_rollover_params GXv (mk 7)
    model_generator_Ok op_account_inv); vm_compute; discriminate.
Defined.

Definition op_ragequit_params : @RagequitParams model_types :=
  {| gp_recipient_address := mk 6; gp_nonce := mk 1; gp_chain_id := mk 2; gp_tongo_address := mk 3;
     gp_sender_address := mk 4; gp_current_balance := op_c0; gp_auditor_key := Some (model_pk11 : @Proj model_types) |}.

Lemma ragequit_correct_witness :
  exists p, @ragequit model_types model_prims (mk 5) op_draws op_account op_ragequit_params = Ok p
    /\ rq_amount p = 2 /\ exists info, rq_audit p = Some info.
Proof.
  assert (is_ok (@ragequit model_types model_prims (mk 5) op_draws op_account op_ragequit_params) = true)
    as [p Hp]%is_ok_exists by (vm_compute; reflexivity).
  exists p. split; [exact Hp|].
  destruct (@ragequit_correct model_types model_laws model_prims model_prims_laws (mk 5) op_draws op_account
    op_ragequit_params p GXv (mk 7) model_generator_Ok op_account_inv eq_refl Hp) as (Ha & _ & _ & _ & info & Hi & _).
  split; [exact Ha|]. exists info. exact Hi.
Defined.

Lemma ragequit_empty_account_witness :
  @ragequit model_types model_prims (mk 5) op_draws (set_balance op_account 0) op_ragequit_params
  = Err PointAtInfinity.
Proof.
  apply (@ragequit_empty_account model_types model_laws model_prims (mk 5) op_draws
    (set_balance op_account 0) op_ragequit_params). reflexivity.
Defined.

Definition op_withdraw_params : @WithdrawParams model_types :=
  {| wp_recipient_address := mk 6; wp_amount := 1; wp_nonce := mk 1; wp_chain_id := mk 2; wp_tongo_address := mk 3;
     wp_sender_address := mk 4; wp_current_balance := op_c0; wp_bit_size := 1;
     wp_auditor_key := Some (model_pk11 : @Proj model_types) |}.
Definition op_withdraw_coins : @WithdrawCoins model_types :=
  {| wc_random_values := [mk 5]; wc_bits := range_coins1; wc_kb := mk 21; wc_kx := mk 22; wc_kr := mk 23;
     wc_audit := op_draws |}.

Lemma withdraw_correct_witness :
  exists p prefix V, @withdraw model_types model_prims op_withdraw_coins op_account op_withdraw_params = Ok p
    /\ 0 <= account_balance op_account - wp_amount op_withdraw_params < 2 ^ Z.of_nat 1
    /\ range_verify (wd_range p) 1 GXv HXv prefix = Ok V /\ V ≡ ct_l (wd_auxiliar_cipher p)
    /\ exists info, wd_audit p = Some info.
Proof.
  assert (match @withdraw model_types model_prims op_withdraw_coins op_account op_withdraw_params with
          | Ok p => zero_response (wd_range p) HXv | _ => true end = false) as Hz by (vm_compute; reflexivity).
  destruct (@withdraw model_types model_prims op_withdraw_coins op_account op_withdraw_params)
    as [p|e|] eqn:Hp; [|discriminate Hz..].
  destruct (@withdraw_correct model_types model_laws model_prims model_prims_laws op_withdraw_coins op_account
    op_withdraw_params p GXv HXv (mk 7) model_generator_Ok model_generator_h_Ok op_account_inv)
    as (_ & Ha & (ya & la & ra & va & rxa & c & _ & _ & _ & _ & _ & _ & _ & Hv) & cipher & info & _ & Hi & _);
    [cbn; lia|reflexivity|exact Hp|].
  unfold range_verdict in Hv. rewrite Hz in Hv. destruct Hv as (V & HV & HVe).
  eexists p, _, V. split; [reflexivity|]. split; [exact Ha|]. split; [exact HV|]. split; [exact HVe|].
  exists info. exact Hi.
Defined.
