(* ===== verification/Transfer.v ===== *)
(** * Confidential transfers (crates/sdk/src/operations/transfer.rs, transfer_state.rs)

    The phases of [TransferBuildState]: validation, ciphertexts, range proofs,
    the sigma proof over eight commitments, the new balance and the audits. *)

From stdpp Require Import base option list numbers strings.
From Stdlib Require Import ZArith Lia Zdiv.
From S2P Require Import Prelude StarkLib Primality GroupTac StarkModel Types Scalar Curve Hash.
From S2P Require Import Poe Bit Range ElGamal AuditProver SdkCrypto Operations.

Section transfer.
Context `{StarkTypes, SdkPrims}.

Definition TRANSFER_CAIRO_STRING : Felt := felt_of_Z 0x7472616e73666572.

Record TransferParams : Type := {
  tp_recipient_public_key : Proj; tp_amount : Z; tp_nonce : Felt; tp_chain_id : Felt;
  tp_tongo_address : Felt; tp_sender_address : Felt; tp_current_balance : ElGamalCiphertext;
  tp_bit_size : nat; tp_auditor_pub_key : option Proj }.

Record TransferProof : Type := {
  tr_transfer_balance_l : Proj; tr_transfer_balance_r : Proj;
  tr_transfer_balance_self_l : Proj; tr_transfer_balance_self_r : Proj;
  tr_proof : ProofOfTransfer; tr_auxiliar_cipher : ElGamalCiphertext;
  tr_auxiliar_cipher2 : ElGamalCiphertext; tr_new_balance_cipher : ElGamalCiphertext;
  tr_audit_balance : option AuditInfo; tr_audit_transfer : option AuditInfo }.

(** The random draws of one transfer. *)
Record TransferCoins : Type := {
  tc_amount_randomness : list Felt; tc_leftover_randomness : list Felt;
  tc_bits : nat -> BitCoins; tc_bits2 : nat -> BitCoins;
  tc_kx : Felt; tc_kb : Felt; tc_kr : Felt; tc_kb2 : Felt; tc_kr2 : Felt;
  tc_audit_balance : AuditDraws; tc_audit_transfer : AuditDraws }.

Record TransferBuildState : Type := {
  ts_params : TransferParams; ts_secret : Felt; ts_owner : Proj; ts_amount : Z; ts_leftover : Z;
  ts_generator : Proj; ts_generator_h : Proj }.

Record PreparedCiphertexts : Type := {
  pc_randomness : Felt; pc_leftover_randomness : Felt;
  pc_amount_randomness : list Felt; pc_leftover_randomness_values : list Felt;
  pc_transfer_balance_l : Proj; pc_transfer_balance_r : Proj;
  pc_transfer_balance_self_l : Proj; pc_transfer_balance_self_r : Proj;
  pc_auxiliar_cipher : ElGamalCiphertext; pc_auxiliar_cipher2 : ElGamalCiphertext }.

Definition transfer_affine (point : Proj) : Result Aff := ok_or (proj_to_affine point) PointAtInfinity.

Definition add_scaled (first_scalar : Felt) (first_point : Proj) (second_scalar : Felt)
    (second_point : Proj) : Result Proj :=
  p ← curve_mul first_scalar (Some first_point);
  q ← curve_mul second_scalar (Some second_point);
  Ok (curve_add p q).

Definition response (randomness challenge value : Felt) : Result Felt :=
  product ← scalar_mul challenge value;
  scalar_add randomness product.

(** [TransferBuildState::new]. *)
Definition transfer_new (account : TongoAccount) (params : TransferParams) : Result TransferBuildState :=
  reject_if (tp_amount params =? 0) (InvalidAmount "Amount must be greater than zero") ;;
  reject_if (negb (has_sufficient_balance account (tp_amount params))) InsufficientBalance ;;
  let secret := owner_private_key account in
  generator ← generator;
  verify_cipher_encrypts_balance (tp_current_balance params) secret (account_balance account) generator ;;
  leftover ← u128_sub (account_balance account) (tp_amount params);
  h ← generator_h;
  Ok {| ts_params := params; ts_secret := secret; ts_owner := owner_public_key account;
        ts_amount := tp_amount params; ts_leftover := leftover;
        ts_generator := generator; ts_generator_h := h |}.

Definition prepare_ciphertexts (coins : TransferCoins) (s : TransferBuildState) : Result PreparedCiphertexts :=
  let amount_randomness := tc_amount_randomness coins in
  let leftover_randomness_values := tc_leftover_randomness coins in
  randomness ← compute_total_randomness amount_randomness;
  leftover_randomness ← compute_total_randomness leftover_randomness_values;
  let amount := felt_of_Z (ts_amount s) in
  let leftover := felt_of_Z (ts_leftover s) in
  transfer_balance_self_l ← add_scaled amount (ts_generator s) randomness (ts_owner s);
  transfer_balance_self_r ← curve_mul randomness (Some (ts_generator s));
  transfer_balance_l ← add_scaled amount (ts_generator s) randomness (tp_recipient_public_key (ts_params s));
  transfer_balance_r ← curve_mul randomness (Some (ts_generator s));
  aux_l ← add_scaled amount (ts_generator s) randomness (ts_generator_h s);
  aux_r ← curve_mul randomness (Some (ts_generator s));
  aux2_l ← add_scaled leftover (ts_generator s) leftover_randomness (ts_generator_h s);
  aux2_r ← curve_mul leftover_randomness (Some (ts_generator s));
  Ok {| pc_randomness := randomness; pc_leftover_randomness := leftover_randomness;
        pc_amount_randomness := amount_randomness;
        pc_leftover_randomness_values := leftover_randomness_values;
        pc_transfer_balance_l := transfer_balance_l; pc_transfer_balance_r := transfer_balance_r;
        pc_transfer_balance_self_l := transfer_balance_self_l;
        pc_transfer_balance_self_r := transfer_balance_self_r;
        pc_auxiliar_cipher := {| ct_l := aux_l; ct_r := aux_r |};
        pc_auxiliar_cipher2 := {| ct_l := aux2_l; ct_r := aux2_r |} |}.

Definition protocol_prefix (s : TransferBuildState) (prepared : PreparedCiphertexts) : Result Felt :=
  let params := ts_params s in
  owner ← transfer_affine (ts_owner s);
  recipient ← transfer_affine (tp_recipient_public_key params);
  current_l ← transfer_affine (ct_l (tp_current_balance params));
  current_r ← transfer_affine (ct_r (tp_current_balance params));
  tbs_l ← transfer_affine (pc_transfer_balance_self_l prepared);
  tbs_r ← transfer_affine (pc_transfer_balance_self_r prepared);
  tb_l ← transfer_affine (pc_transfer_balance_l prepared);
  tb_r ← transfer_affine (pc_transfer_balance_r prepared);
  auxiliary ← transfer_affine (ct_l (pc_auxiliar_cipher prepared));
  auxiliary_r ← transfer_affine (ct_r (pc_auxiliar_cipher prepared));
  auxiliary2 ← transfer_affine (ct_l (pc_auxiliar_cipher2 prepared));
  auxiliary2_r ← transfer_affine (ct_r (pc_auxiliar_cipher2 prepared));
  Ok (poseidon_hash_many [
    tp_chain_id params; tp_tongo_address params; tp_sender_address params; TRANSFER_CAIRO_STRING;
    aff_x owner; aff_y owner; aff_x recipient; aff_y recipient; tp_nonce params;
    aff_x current_l; aff_y current_l; aff_x current_r; aff_y current_r;
    aff_x tbs_l; aff_y tbs_l; aff_x tbs_r; aff_y tbs_r; aff_x tb_l; aff_y tb_l; aff_x tb_r; aff_y tb_r;
    aff_x auxiliary; aff_y auxiliary; aff_x auxiliary_r; aff_y auxiliary_r;
    aff_x auxiliary2; aff_y auxiliary2; aff_x auxiliary2_r; aff_y auxiliary2_r]).

Definition transfer_prove_range (bits : nat -> BitCoins) (s : TransferBuildState) (value : Z)
    (randomness : list Felt) (prefix : Felt) : Result (Range * Felt) :=
  range_prove_with_randomness bits value (tp_bit_size (ts_params s)) (ts_generator s) (ts_generator_h s)
    prefix randomness.

(** Both proofs are computed (in either order); the first failure is reported. *)
Definition prove_ranges (coins : TransferCoins) (s : TransferBuildState) (prepared : PreparedCiphertexts)
    (prefix : Felt) : Result (Range * Range) :=
  let amount := transfer_prove_range (tc_bits coins) s (ts_amount s) (pc_amount_randomness prepared) prefix in
  let leftover :=
    transfer_prove_range (tc_bits2 coins) s (ts_leftover s) (pc_leftover_randomness_values prepared) prefix in
  '(range, _) ← amount;
  '(range2, _) ← leftover;
  Ok (range, range2).

Definition build_protocol_proof (coins : TransferCoins) (s : TransferBuildState)
    (prepared : PreparedCiphertexts) (prefix : Felt) (range range2 : Range) : Result ProofOfTransfer :=
  transfer_r ← projective_to_affine (pc_transfer_balance_self_r prepared);
  neg_r ← negate_affine invalid_affine_point transfer_r;
  let g_point := curve_add (ct_r (tp_current_balance (ts_params s))) neg_r in
  let g := ts_generator s in
  let kx := tc_kx coins in
  let kb := tc_kb coins in
  let kr := tc_kr coins in
  let kb2 := tc_kb2 coins in
  let kr2 := tc_kr2 coins in
  a_x ← curve_mul kx (Some g);
  a_r ← curve_mul kr (Some g);
  a_r2 ← curve_mul kr2 (Some g);
  a_b ← add_scaled kb g kr (ts_owner s);
  a_bar ← add_scaled kb g kr (tp_recipient_public_key (ts_params s));
  a_v ← add_scaled kb g kr (ts_generator_h s);
  a_b2 ← add_scaled kb2 g kx g_point;
  a_v2 ← add_scaled kb2 g kr2 (ts_generator_h s);
  challenge ← compute_poseidon_challenge prefix [a_x; a_r; a_r2; a_b; a_b2; a_v; a_v2; a_bar];
  ser_x ← try_from_projective a_x;
  ser_r ← try_from_projective a_r;
  ser_r2 ← try_from_projective a_r2;
  ser_b ← try_from_projective a_b;
  ser_b2 ← try_from_projective a_b2;
  ser_v ← try_from_projective a_v;
  ser_v2 ← try_from_projective a_v2;
  ser_bar ← try_from_projective a_bar;
  s_x ← response kx challenge (ts_secret s);
  s_r ← response kr challenge (pc_randomness prepared);
  s_b ← response kb challenge (felt_of_Z (ts_amount s));
  s_b2 ← response kb2 challenge (felt_of_Z (ts_leftover s));
  s_r2 ← response kr2 challenge (pc_leftover_randomness prepared);
  Ok {| pt_a_x := ser_x; pt_a_r := ser_r; pt_a_r2 := ser_r2; pt_a_b := ser_b; pt_a_b2 := ser_b2;
        pt_a_v := ser_v; pt_a_v2 := ser_v2; pt_a_bar := ser_bar;
        pt_s_x := s_x; pt_s_r := s_r; pt_s_b := s_b; pt_s_b2 := s_b2; pt_s_r2 := s_r2;
        pt_range := range; pt_range2 := range2 |}.

Definition new_balance_cipher (s : TransferBuildState) (prepared : PreparedCiphertexts)
    : Result ElGamalCiphertext :=
  l ← subtract_point (ct_l (tp_current_balance (ts_params s))) (pc_transfer_balance_self_l prepared);
  r ← subtract_point (ct_r (tp_current_balance (ts_params s))) (pc_transfer_balance_self_r prepared);
  Ok {| ct_l := l; ct_r := r |}.

Definition transfer_audit_prefix (s : TransferBuildState) : AuditPrefixData :=
  {| apd_chain_id := tp_chain_id (ts_params s); apd_tongo_address := tp_tongo_address (ts_params s);
     apd_sender_address := tp_sender_address (ts_params s); apd_user_pub_key := ts_owner s |}.

Definition build_audits (coins : TransferCoins) (s : TransferBuildState) (prepared : PreparedCiphertexts)
    (new_balance : ElGamalCiphertext) : Result (option AuditInfo * option AuditInfo) :=
  match tp_auditor_pub_key (ts_params s) with
  | None => Ok (None, None)
  | Some auditor =>
      let prefix := transfer_audit_prefix s in
      balance_audit ← build_audit (tc_audit_balance coins) (ts_secret s) (ts_leftover s) new_balance
        auditor false prefix;
      let transfer_self := {| ct_l := pc_transfer_balance_self_l prepared;
                              ct_r := pc_transfer_balance_self_r prepared |} in
      transfer_audit ← build_audit (tc_audit_transfer coins) (ts_secret s) (ts_amount s) transfer_self
        auditor true prefix;
      Ok (Some balance_audit, Some transfer_audit)
  end.

(** [TransferBuildState::execute]. *)
Definition transfer_execute (coins : TransferCoins) (s : TransferBuildState) : Result TransferProof :=
  prepared ← prepare_ciphertexts coins s;
  prefix ← protocol_prefix s prepared;
  '(range, range2) ← prove_ranges coins s prepared prefix;
  proof ← build_protocol_proof coins s prepared prefix range range2;
  new_balance ← new_balance_cipher s prepared;
  '(audit_balance, audit_transfer) ← build_audits coins s prepared new_balance;
  Ok {| tr_transfer_balance_l := pc_transfer_balance_l prepared;
        tr_transfer_balance_r := pc_transfer_balance_r prepared;
        tr_transfer_balance_self_l := pc_transfer_balance_self_l prepared;
        tr_transfer_balance_self_r := pc_transfer_balance_self_r prepared;
        tr_proof := proof;
        tr_auxiliar_cipher := pc_auxiliar_cipher prepared;
        tr_auxiliar_cipher2 := pc_auxiliar_cipher2 prepared;
        tr_new_balance_cipher := new_balance;
        tr_audit_balance := audit_balance; tr_audit_transfer := audit_transfer |}.

Definition transfer (coins : TransferCoins) (account : TongoAccount) (params : TransferParams)
    : Result TransferProof :=
  s ← transfer_new account params;
  transfer_execute coins s.
End transfer.

(** ** Lemmas about the phases *)
Section transfer_lemmas.
Context `{StarkLaws, SdkPrimsLaws}.

Lemma add_scaled_Ok a p b q r : add_scaled a p b q = Ok r -> r ≡ felt_val a • p ⊕ felt_val b • q.
Proof. unfold add_scaled, curve_add. intros Hr. inv_ok. curve_facts. by point_subst. Qed.

Lemma response_Ok k c v s :
  response k c v = Ok s -> felt_val s mod CurveOrder = (felt_val k + felt_val c * felt_val v) mod CurveOrder.
Proof.
  unfold response. intros Hs. inv_ok. curve_facts. rewrite Hs, H3, Z.mod_mod by discriminate.
  by rewrite Zplus_mod_idemp_r.
Qed.

Lemma response_smul k c v s p :
  response k c v = Ok s -> felt_val s • p ≡ felt_val k • p ⊕ felt_val c • (felt_val v • p).
Proof. intros Hs%response_Ok. rewrite (smul_eqm _ _ _ Hs). proj_module. Qed.

(** The validated state of a transfer. *)
Definition transfer_state_ok (g h : Proj) (sk : Felt) (balance : Z) (s : TransferBuildState) : Prop :=
  ts_generator s = g /\ ts_generator_h s = h /\ ts_secret s = sk /\ ts_owner s ≡ felt_val sk • g
  /\ 0 < ts_amount s <= u128_MAX /\ 0 <= ts_leftover s <= u128_MAX
  /\ ts_amount s + ts_leftover s = balance
  /\ ct_l (tp_current_balance (ts_params s))
     ≡ balance • g ⊕ felt_val sk • ct_r (tp_current_balance (ts_params s)).

Lemma transfer_new_Ok account params s g h sk :
  generator = Ok g -> generator_h = Ok h -> account_inv g sk account -> 0 <= tp_amount params ->
  transfer_new account params = Ok s ->
  transfer_state_ok g h sk (account_balance account) s
  /\ ts_params s = params /\ ts_amount s = tp_amount params /\ ts_owner s = owner_public_key account.
Proof.
  intros Hg Hh (Hsk & Hpk & Hbal & _) Ha Hs. unfold transfer_new in Hs.
  apply bind_Ok in Hs as (u1 & Hz%reject_if_Ok & Hs). apply Z.eqb_neq in Hz.
  apply bind_Ok in Hs as (u2 & Hle%reject_if_Ok & Hs). apply negb_false_iff, Z.leb_le in Hle.
  rewrite Hg, Hh in Hs. cbn [mbind outcome_bind] in Hs.
  apply bind_Ok in Hs as (u3 & Hv & Hs). apply verify_cipher_Ok in Hv as (Hl0 & _); [|done].
  unfold u128_sub in Hs. rewrite (proj2 (Z.leb_le _ _) Hle) in Hs. cbn in Hs. injection Hs as <-.
  rewrite Hsk in *. unfold transfer_state_ok.
  cbn [ts_generator ts_generator_h ts_secret ts_owner ts_amount ts_leftover ts_params].
  split_and!; try done; lia.
Qed.

(** The ciphertexts of a transfer, as combinations of the bases. *)
Definition prepared_ok (g h : Proj) (s : TransferBuildState) (p : PreparedCiphertexts) : Prop :=
  let r := felt_val (pc_randomness p) in
  let r2 := felt_val (pc_leftover_randomness p) in
  pc_transfer_balance_self_l p ≡ ts_amount s • g ⊕ r • ts_owner s
  /\ pc_transfer_balance_self_r p ≡ r • g
  /\ pc_transfer_balance_l p ≡ ts_amount s • g ⊕ r • tp_recipient_public_key (ts_params s)
  /\ pc_transfer_balance_r p ≡ r • g
  /\ ct_l (pc_auxiliar_cipher p) ≡ ts_amount s • g ⊕ r • h
  /\ ct_r (pc_auxiliar_cipher p) ≡ r • g
  /\ ct_l (pc_auxiliar_cipher2 p) ≡ ts_leftover s • g ⊕ r2 • h
  /\ ct_r (pc_auxiliar_cipher2 p) ≡ r2 • g.

Lemma prepare_Ok coins s p g h sk balance :
  transfer_state_ok g h sk balance s -> prepare_ciphertexts coins s = Ok p ->
  prepared_ok g h s p
  /\ compute_total_randomness (tc_amount_randomness coins) = Ok (pc_randomness p)
  /\ compute_total_randomness (tc_leftover_randomness coins) = Ok (pc_leftover_randomness p)
  /\ pc_amount_randomness p = tc_amount_randomness coins
  /\ pc_leftover_randomness_values p = tc_leftover_randomness coins.
Proof.
  intros (<- & <- & _ & _ & Ha & Hl & _) Hp. unfold prepare_ciphertexts in Hp. inv_ok.
  repeat match goal with Hs : add_scaled _ _ _ _ = Ok _ |- _ => apply add_scaled_Ok in Hs end.
  curve_facts. rewrite !felt_u128_val in * by lia. unfold prepared_ok.
  cbn [pc_randomness pc_leftover_randomness pc_amount_randomness pc_leftover_randomness_values
       pc_transfer_balance_l pc_transfer_balance_r pc_transfer_balance_self_l pc_transfer_balance_self_r
       pc_auxiliar_cipher pc_auxiliar_cipher2 ct_l ct_r].
  split_and!; done.
Qed.

(** The new stored balance encrypts what is left. *)
Lemma new_balance_Ok s p g h sk balance c :
  transfer_state_ok g h sk balance s -> prepared_ok g h s p -> new_balance_cipher s p = Ok c ->
  ct_l c ≡ ts_leftover s • g ⊕ felt_val sk • ct_r c.
Proof.
  intros (_ & _ & _ & Ho & _ & _ & Hsum & Hl0) (Hsl & Hsr & _) Hc. unfold new_balance_cipher in Hc. inv_ok.
  repeat match goal with Hs : subtract_point _ _ = Ok _ |- _ => apply subtract_point_Ok in Hs end.
  cbn [ct_l ct_r]. point_subst. rewrite Hl0, Hsl, Hsr, Ho. proj_module.
Qed.

(** The eight equations the contract checks. *)
Definition transfer_accepts (g h : Proj) (s : TransferBuildState) (p : PreparedCiphertexts)
    (pf : ProofOfTransfer) (a_x a_r a_r2 a_b a_b2 a_v a_v2 a_bar : Proj) (c : Z) : Prop :=
  let c0 := tp_current_balance (ts_params s) in
  let sx := felt_val (pt_s_x pf) in
  let sr := felt_val (pt_s_r pf) in
  let sb := felt_val (pt_s_b pf) in
  let sb2 := felt_val (pt_s_b2 pf) in
  let sr2 := felt_val (pt_s_r2 pf) in
  sx • g ≡ a_x ⊕ c • ts_owner s
  /\ sr • g ≡ a_r ⊕ c • pc_transfer_balance_self_r p
  /\ sr2 • g ≡ a_r2 ⊕ c • ct_r (pc_auxiliar_cipher2 p)
  /\ sb • g ⊕ sr • ts_owner s ≡ a_b ⊕ c • pc_transfer_balance_self_l p
  /\ sb2 • g ⊕ sx • (ct_r c0 ⊕ (-1) • pc_transfer_balance_self_r p)
     ≡ a_b2 ⊕ c • (ct_l c0 ⊕ (-1) • pc_transfer_balance_self_l p)
  /\ sb • g ⊕ sr • h ≡ a_v ⊕ c • ct_l (pc_auxiliar_cipher p)
  /\ sb2 • g ⊕ sr2 • h ≡ a_v2 ⊕ c • ct_l (pc_auxiliar_cipher2 p)
  /\ sb • g ⊕ sr • tp_recipient_public_key (ts_params s) ≡ a_bar ⊕ c • pc_transfer_balance_l p.

(** The proof as the contract reads it: its points parse, the challenge is the
    hash of them after the prefix, and the equations hold. *)
Definition transfer_proof_ok (g h : Proj) (s : TransferBuildState) (p : PreparedCiphertexts)
    (prefix : Felt) (pf : ProofOfTransfer) : Prop :=
  exists a_x a_r a_r2 a_b a_b2 a_v a_v2 a_bar c,
    parse_point (pt_a_x pf) = Ok a_x /\ parse_point (pt_a_r pf) = Ok a_r
    /\ parse_point (pt_a_r2 pf) = Ok a_r2 /\ parse_point (pt_a_b pf) = Ok a_b
    /\ parse_point (pt_a_b2 pf) = Ok a_b2 /\ parse_point (pt_a_v pf) = Ok a_v
    /\ parse_point (pt_a_v2 pf) = Ok a_v2 /\ parse_point (pt_a_bar pf) = Ok a_bar
    /\ compute_poseidon_challenge prefix [a_x; a_r; a_r2; a_b; a_b2; a_v; a_v2; a_bar] = Ok c
    /\ transfer_accepts g h s p pf a_x a_r a_r2 a_b a_b2 a_v a_v2 a_bar (felt_val c).

Lemma build_protocol_proof_Ok coins s p prefix range range2 pf g h sk balance :
  transfer_state_ok g h sk balance s -> prepared_ok g h s p ->
  build_protocol_proof coins s p prefix range range2 = Ok pf ->
  transfer_proof_ok g h s p prefix pf /\ pt_range pf = range /\ pt_range2 pf = range2.
Proof.
  intros (<- & <- & <- & Ho & Ha & Hl & Hsum & Hl0) (P1 & P2 & P3 & _ & P5 & P6 & P7 & P8) Hb.
  unfold build_protocol_proof, projective_to_affine, curve_add in Hb. inv_ok.
  repeat match goal with Hs : add_scaled _ _ _ _ = Ok _ |- _ => apply add_scaled_Ok in Hs end.
  repeat match goal with Hs : response _ _ _ = Ok _ |- _ =>
    pose proof (fun q => response_smul _ _ _ _ q Hs); clear Hs end.
  repeat match goal with Ht : try_from_projective _ = Ok _ |- _ =>
    apply parse_point_try in Ht as (? & ? & ?) end.
  curve_facts. rewrite !felt_u128_val in * by lia. split; [|done].
  unfold transfer_proof_ok, transfer_accepts.
  cbn [pt_a_x pt_a_r pt_a_r2 pt_a_b pt_a_b2 pt_a_v pt_a_v2 pt_a_bar pt_s_x pt_s_r pt_s_b pt_s_b2 pt_s_r2].
  repeat match goal with Hs : forall q, felt_val ?s • q ≡ _ |- _ => setoid_rewrite Hs; clear Hs end.
  do 9 eexists. split_and!; [eassumption..| | | | | | | | |].
  { etransitivity; [|eassumption]. apply compute_poseidon_challenge_proper; [done|].
    repeat (constructor; [eassumption|]). constructor. }
  all: repeat match goal with E : ?a ≡ _ |- context [?a] => is_var a; rewrite E end.
  all: rewrite ?P1, ?P2, ?P3, ?P5, ?P6, ?P7, ?P8, ?Ho, ?Hl0, <- ?Hsum; proj_module.
Qed.
End transfer_lemmas.

(** ** Correctness of a transfer *)
Section transfer_theorems.
Context `{StarkLaws, SdkPrimsLaws}.

(** The phases of a successful transfer. *)
Lemma transfer_phases coins account params p g h sk :
  generator = Ok g -> generator_h = Ok h -> account_inv g sk account -> 0 <= tp_amount params ->
  transfer coins account params = Ok p ->
  exists s prepared prefix,
    transfer_new account params = Ok s /\ transfer_state_ok g h sk (account_balance account) s
    /\ ts_params s = params /\ ts_amount s = tp_amount params /\ ts_owner s = owner_public_key account
    /\ prepare_ciphertexts coins s = Ok prepared /\ prepared_ok g h s prepared
    /\ protocol_prefix s prepared = Ok prefix
    /\ prove_ranges coins s prepared prefix = Ok (pt_range (tr_proof p), pt_range2 (tr_proof p))
    /\ transfer_proof_ok g h s prepared prefix (tr_proof p)
    /\ new_balance_cipher s prepared = Ok (tr_new_balance_cipher p)
    /\ build_audits coins s prepared (tr_new_balance_cipher p) = Ok (tr_audit_balance p, tr_audit_transfer p)
    /\ tr_transfer_balance_l p = pc_transfer_balance_l prepared
    /\ tr_transfer_balance_r p = pc_transfer_balance_r prepared
    /\ tr_auxiliar_cipher p = pc_auxiliar_cipher prepared
    /\ tr_auxiliar_cipher2 p = pc_auxiliar_cipher2 prepared.
Proof.
  intros Hg Hh Hinv Ha Ht. unfold transfer in Ht. apply bind_Ok in Ht as (s & Hs & Ht).
  destruct (transfer_new_Ok _ _ _ g h sk Hg Hh Hinv Ha Hs) as (Hok & Hparams & Hamount & Howner).
  unfold transfer_execute in Ht.
  apply bind_Ok in Ht as (prepared & Hp & Ht). apply bind_Ok in Ht as (prefix & Hpre & Ht).
  apply bind_Ok in Ht as ([range range2] & Hr & Ht). apply bind_Ok in Ht as (pf & Hpf & Ht).
  apply bind_Ok in Ht as (nb & Hnb & Ht). apply bind_Ok in Ht as ([ab at'] & Hau & Ht). injection Ht as <-.
  destruct (prepare_Ok _ _ _ _ _ _ _ Hok Hp) as (Hprep & _).
  destruct (build_protocol_proof_Ok _ _ _ _ _ _ _ _ _ _ _ Hok Hprep Hpf) as (Hproof & <- & <-).
  exists s, prepared, prefix.
  cbn [tr_proof tr_new_balance_cipher tr_audit_balance tr_audit_transfer tr_transfer_balance_l
       tr_transfer_balance_r tr_auxiliar_cipher tr_auxiliar_cipher2].
  by split_and!.
Qed.

(** C2: A transfer moves exactly the amount: the ciphertext for the recipient decrypts under
    the recipient key to the amount, the sender's new balance cipher decrypts to balance minus
    amount, the amount is positive and the sender could afford it. *)
Theorem transfer_conserves (coins : TransferCoins) (account : TongoAccount) (params : TransferParams)
    (p : TransferProof) (g h : Proj) (sk recipient_sk : Felt) :
  generator = Ok g -> generator_h = Ok h -> account_inv g sk account -> 0 <= tp_amount params ->
  curve_mul_generator recipient_sk = Ok (tp_recipient_public_key params) ->
  transfer coins account params = Ok p ->
  let leftover := account_balance account - tp_amount params in
  0 < tp_amount params /\ 0 <= leftover
  /\ (exists q, elgamal_decrypt {| ct_l := tr_transfer_balance_l p; ct_r := tr_transfer_balance_r p |} recipient_sk = Ok q
        /\ q ≡ tp_amount params • g)
  /\ (exists q, account_decrypt account (tr_new_balance_cipher p) = Ok q /\ q ≡ leftover • g).
Proof.
  intros Hg Hh Hinv Ha Hrec Ht leftover.
  destruct (transfer_phases _ _ _ _ _ _ _ Hg Hh Hinv Ha Ht)
    as (s & prepared & prefix & _ & Hok & Hparams & Hamount & _ & _ & Hprep & _ & _ & _ & Hnb & _ & El & Er & _).
  pose proof (new_balance_Ok _ _ _ _ _ _ _ Hok Hprep Hnb) as Hnew.
  pose proof Hok as (_ & _ & _ & _ & Hab & Hlb & Hsum & _).
  destruct Hprep as (_ & _ & Hl & Hr & _). rewrite Hparams in Hl. rewrite Hamount in Hl, Hsum, Hab.
  assert (ts_leftover s = leftover) as Hleft by (unfold leftover; lia). rewrite Hleft in Hnew, Hlb.
  split_and!; [lia|lia| |].
  - destruct (elgamal_decrypt_spec {| ct_l := tr_transfer_balance_l p; ct_r := tr_transfer_balance_r p |} recipient_sk)
      as (q & Hq & Hqe). exists q. split; [done|]. rewrite Hqe. cbn [ct_l ct_r]. rewrite El, Er, Hl, Hr.
    unfold curve_mul_generator in Hrec. rewrite Hg in Hrec. cbn [mbind outcome_bind] in Hrec.
    destruct (curve_scalar_mul_spec g recipient_sk) as (pk & Epk & Hpk). rewrite Epk in Hrec.
    injection Hrec as <-. rewrite Hpk. proj_module.
  - unfold account_decrypt. destruct Hinv as (-> & _).
    destruct (elgamal_decrypt_spec (tr_new_balance_cipher p) sk) as (q & Hq & Hqe). exists q. split; [done|].
    rewrite Hqe, Hnew. proj_module.
Qed.

(** C1: Whenever transfer returns a proof, it satisfies the ownership and ciphertext sigma
    equations the on-chain verifier checks for the state, ciphertexts and transcript prefix the
    builder computed; the bit width is positive and the amount and the leftover fit it; and the
    verifier returns for each range proof the commitment of its auxiliary cipher, or refuses it
    as a point at infinity exactly when one of its responses is zero. *)
Theorem transfer_proof_accepted (coins : TransferCoins) (account : TongoAccount) (params : TransferParams)
    (p : TransferProof) (g h : Proj) (sk : Felt) :
  generator = Ok g -> generator_h = Ok h -> account_inv g sk account -> 0 <= tp_amount params ->
  transfer coins account params = Ok p ->
  exists s prepared prefix,
    transfer_new account params = Ok s /\ prepare_ciphertexts coins s = Ok prepared
    /\ protocol_prefix s prepared = Ok prefix
    /\ transfer_proof_ok g h s prepared prefix (tr_proof p)
    /\ (1 <= tp_bit_size params)%nat /\ tp_amount params < 2 ^ Z.of_nat (tp_bit_size params)
    /\ account_balance account - tp_amount params < 2 ^ Z.of_nat (tp_bit_size params)
    /\ range_verdict (pt_range (tr_proof p)) (tp_bit_size params) g h prefix (ct_l (tr_auxiliar_cipher p))
    /\ range_verdict (pt_range2 (tr_proof p)) (tp_bit_size params) g h prefix (ct_l (tr_auxiliar_cipher2 p)).
Proof.
  intros Hg Hh Hinv Ha Ht.
  destruct (transfer_phases _ _ _ _ _ _ _ Hg Hh Hinv Ha Ht)
    as (s & prepared & prefix & Hs & Hok & Hparams & Hamount & _ & Hp & Hprep & Hpre & Hr & Hproof & _ & _ & _ & _ & E1 & E2).
  exists s, prepared, prefix.
  destruct (prepare_Ok _ _ _ _ _ _ _ Hok Hp) as (_ & Hr1 & Hr2 & Er1 & Er2).
  destruct Hok as (Eg & Eh & _ & _ & Hab & Hlb & Hsum & _).
  unfold prove_ranges, transfer_prove_range in Hr. rewrite Er1, Er2, Eg, Eh, Hparams in Hr.
  apply bind_Ok in Hr as ([range1 r1] & Hrange1 & Hr). apply bind_Ok in Hr as ([range2' r2] & Hrange2 & Hr).
  injection Hr as -> ->.
  apply range_prove_Ok in Hrange1 as (Hlt1 & Hc1 & _ & _ & Hv1); [|by apply generator_finite|lia].
  apply range_prove_Ok in Hrange2 as (Hlt2 & Hc2 & _ & _ & Hv2); [|by apply generator_finite|lia].
  rewrite Hr1 in Hc1. rewrite Hr2 in Hc2. injection Hc1 as <-. injection Hc2 as <-.
  destruct Hprep as (_ & _ & _ & _ & P5 & _ & P7 & _).
  split_and!; try done; [|lia|lia| |].
  - destruct (tp_bit_size params); [change (2 ^ Z.of_nat 0) with 1 in Hlt1; lia|lia].
  - by rewrite E1, P5.
  - by rewrite E2, P7.
Qed.

(** With an auditor configured, both audits of a transfer are present and verify: one for
    the sender's leftover balance and one for the transferred amount, each with a hint that the
    auditor decrypts. *)
Theorem transfer_audits (coins : TransferCoins) (account : TongoAccount) (params : TransferParams)
    (p : TransferProof) (g h auditor : Proj) (sk : Felt) :
  generator = Ok g -> generator_h = Ok h -> account_inv g sk account -> 0 <= tp_amount params ->
  length (ad_nonce (tc_audit_balance coins)) = NONCE_SIZE ->
  length (ad_nonce (tc_audit_transfer coins)) = NONCE_SIZE ->
  tp_auditor_pub_key params = Some auditor -> transfer coins account params = Ok p ->
  exists s prepared info_balance info_transfer,
    transfer_new account params = Ok s /\ prepare_ciphertexts coins s = Ok prepared
    /\ tr_audit_balance p = Some info_balance /\ tr_audit_transfer p = Some info_transfer
    /\ audit_info_ok g (owner_public_key account) auditor sk (account_balance account - tp_amount params)
         (tr_new_balance_cipher p) (transfer_audit_prefix s) info_balance
    /\ audit_info_ok g (owner_public_key account) auditor sk (tp_amount params)
         {| ct_l := pc_transfer_balance_self_l prepared; ct_r := pc_transfer_balance_self_r prepared |}
         (transfer_audit_prefix s) info_transfer.
Proof.
  intros Hg Hh Hinv Ha Hn1 Hn2 Haud Ht.
  destruct (transfer_phases _ _ _ _ _ _ _ Hg Hh Hinv Ha Ht)
    as (s & prepared & prefix & Hs & Hok & Hparams & Hamount & Howner & Hp & Hprep & _ & _ & _ & Hnb & Hau & _).
  pose proof (new_balance_Ok _ _ _ _ _ _ _ Hok Hprep Hnb) as Hnew.
  pose proof Hok as (_ & _ & Esk & Ho & Hab & Hlb & Hsum & _).
  destruct Hprep as (P1 & P2 & _).
  unfold build_audits in Hau. rewrite Hparams, Haud in Hau.
  apply bind_Ok in Hau as (info1 & Hi1 & Hau). apply bind_Ok in Hau as (info2 & Hi2 & Hau).
  injection Hau as E1 E2. exists s, prepared, info1, info2. rewrite Esk in Hi1, Hi2. rewrite Howner in Ho.
  assert (ts_leftover s = account_balance account - tp_amount params) as <- by lia. rewrite <- Hamount.
  split_and!; try done.
  - by apply (build_audit_Ok (tc_audit_balance coins) sk _ _ _ false).
  - apply (build_audit_Ok (tc_audit_transfer coins) sk _ _ _ true); try done; [lia|].
    cbn [ct_l ct_r]. rewrite P1, P2, Howner, Ho. proj_module.
Qed.
End transfer_theorems.

(** ** Witnesses: a transfer of 1 out of 2 to the key 13, audited *)
Definition model_pk13 : Z := Eval vm_compute in model_pk 13.
Definition tr_params1 : @TransferParams model_types :=
  {| tp_recipient_public_key := model_pk13; tp_amount := 1; tp_nonce := mk 1; tp_chain_id := mk 2;
     tp_tongo_address := mk 3; tp_sender_address := mk 4; tp_current_balance := op_c0; tp_bit_size := 1;
     tp_auditor_pub_key := Some (model_pk11 : @Proj model_types) |}.
Definition tr_coins1 : @TransferCoins model_types :=
  {| tc_amount_randomness := [mk 5]; tc_leftover_randomness := [mk 6];
     tc_bits := range_coins1; tc_bits2 := range_coins1;
     tc_kx := mk 21; tc_kb := mk 22; tc_kr := mk 23; tc_kb2 := mk 24; tc_kr2 := mk 25;
     tc_audit_balance := op_draws; tc_audit_transfer := op_draws |}.

Lemma transfer_run_Ok : exists p, @transfer model_types model_prims tr_coins1 op_account tr_params1 = Ok p.
Proof. apply is_ok_exists. vm_compute. reflexivity. Qed.

Lemma transfer_conserves_witness :
  exists p, @transfer model_types model_prims tr_coins1 op_account tr_params1 = Ok p
    /\ exists q, elgamal_decrypt {| ct_l := tr_transfer_balance_l p; ct_r := tr_transfer_balance_r p |} (mk 13) = Ok q
         /\ q ≡ 1 • (GXv : @Proj model_types).
Proof.
  destruct transfer_run_Ok as [p Hp]. exists p. split; [exact Hp|].
  destruct (@transfer_conserves model_types model_laws model_prims tr_coins1 op_account tr_params1 p
    GXv HXv (mk 7) (mk 13) model_generator_Ok model_generator_h_Ok op_account_inv)
    as (_ & _ & (q & Hq & Hqe) & _); [cbn; lia|vm_compute; reflexivity|exact Hp|].
  exists q. split; [exact Hq|exact Hqe].
Defined.

(** Both range proofs of the transfer are accepted. *)
Lemma transfer_proof_accepted_witness :
  exists p s prepared prefix V V2, @transfer model_types model_prims tr_coins1 op_account tr_params1 = Ok p
    /\ transfer_proof_ok GXv HXv s prepared prefix (tr_proof p)
    /\ range_verify (pt_range (tr_proof p)) 1 GXv HXv prefix = Ok V /\ V ≡ ct_l (tr_auxiliar_cipher p)
    /\ range_verify (pt_range2 (tr_proof p)) 1 GXv HXv prefix = Ok V2 /\ V2 ≡ ct_l (tr_auxiliar_cipher2 p).
Proof.
  assert (match @transfer model_types model_prims tr_coins1 op_account tr_params1 with
          | Ok p => zero_response (pt_range (tr_proof p)) HXv || zero_response (pt_range2 (tr_proof p)) HXv
          | _ => true end = false) as Hz by (vm_compute; reflexivity).
  destruct transfer_run_Ok as [p Hp]. rewrite Hp in Hz. apply orb_false_iff in Hz as [Hz1 Hz2].
  destruct (@transfer_proof_accepted model_types model_laws model_prims tr_coins1 op_account tr_params1 p
    GXv HXv (mk 7) model_generator_Ok model_generator_h_Ok op_account_inv)
    as (s & prepared & prefix & _ & _ & _ & Hok & _ & _ & _ & Hv1 & Hv2); [cbn; lia|exact Hp|].
  unfold range_verdict in Hv1, Hv2. rewrite Hz1 in Hv1. rewrite Hz2 in Hv2.
  destruct Hv1 as (V & HV & HVe), Hv2 as (V2 & HV2 & HVe2).
  exists p, s, prepared, prefix, V, V2. split; [exact Hp|]. split; [exact Hok|].
  split; [exact HV|]. split; [exact HVe|]. split; [exact HV2|exact HVe2].
Defined.

Lemma transfer_audits_witness :
  exists p info_balance info_transfer, @transfer model_types model_prims tr_coins1 op_account tr_params1 = Ok p
    /\ tr_audit_balance p = Some info_balance /\ tr_audit_transfer p = Some info_transfer.
Proof.
  destruct transfer_run_Ok as [p Hp].
  destruct (@transfer_audits model_types model_laws model_prims model_prims_laws tr_coins1 op_account tr_params1 p
    GXv HXv model_pk11 (mk 7) model_generator_Ok model_generator_h_Ok op_account_inv)
    as (s & prepared & i1 & i2 & _ & _ & H1 & H2 & _); [cbn; lia|reflexivity|reflexivity|reflexivity|exact Hp|].
  exists p, i1, i2. split; [exact Hp|]. split; [exact H1|exact H2].
Defined.
