(* ===== verification/Serialization.v ===== *)
(** * Cairo calldata

    crates/common/src/serialization.rs: the felt layout of points, proofs,
    ciphertexts, balance hints and options that the contracts read. *)

From stdpp Require Import base option list numbers strings.
From Stdlib Require Import ZArith Lia.
From S2P Require Import Prelude StarkLib StarkModel Types.

#[local] Open Scope Z_scope.

Section serialization.
Context `{StarkTypes}.

Definition serialize_projective_point (point : Proj) : Result (Felt * Felt) :=
  affine ← ok_or (proj_to_affine point) (CryptoError "Invalid point");
  Ok (aff_x affine, aff_y affine).

Definition deserialize_projective_point (x y : Felt) : Result Proj :=
  ok_or (proj_from_affine x y) (CryptoError "Invalid point coordinates").

Definition sp_felts (p : SerializablePoint) : list Felt := [sp_x p; sp_y p].

Definition serialize_poe_proof (proof : PoeProof) : Result (list Felt) :=
  Ok [sp_x (poe_a proof); sp_y (poe_a proof); poe_s proof].

Definition serialize_poe2_proof (proof : Poe2Proof) : Result (list Felt) :=
  Ok [sp_x (poe2_a proof); sp_y (poe2_a proof); poe2_s1 proof; poe2_s2 proof].

Definition serialize_elgamal_proof (proof : ElGamalProof) : Result (list Felt) :=
  Ok [sp_x (eg_al proof); sp_y (eg_al proof); sp_x (eg_ar proof); sp_y (eg_ar proof);
      eg_sb proof; eg_sr proof].

Definition u128_to_u256 (value : Z) : Felt * Felt := (felt_of_Z value, felt_of_Z 0).

Definition u256_to_u128 (low high : Felt) : Result Z :=
  _ ← reject_if (negb (bool_decide (high = felt_of_Z 0))) (CryptoError "Value too large for u128");
  let bytes := to_bytes_be low in
  _ ← reject_if (existsb (fun b => negb (b =? 0)) (take 16 bytes)) (CryptoError "Value too large for u128");
  Ok (be_value (drop 16 bytes)).

(** The 16-byte limb at an offset, [Felt::from(u128::from_be_bytes(..))]. *)
Definition limb (bytes : list Z) (i : nat) : Felt := felt_of_Z (be_value (take 16 (drop i bytes))).

Definition bytes_to_u512 (bytes : list Z) : Felt * Felt * Felt * Felt :=
  (limb bytes 0, limb bytes 16, limb bytes 32, limb bytes 48).

(** The low limb is the second half. *)
Definition bytes_to_u256 (bytes : list Z) : Felt * Felt := (limb bytes 16, limb bytes 0).

Definition serialize_ae_balance (ciphertext_bytes nonce_bytes : list Z) : Result (list Felt) :=
  _ ← reject_if (negb (length ciphertext_bytes =? 64)%nat) (CryptoError "Ciphertext must be 64 bytes, got {}");
  _ ← reject_if (negb (length nonce_bytes =? 24)%nat) (CryptoError "Nonce must be 24 bytes, got {}");
  let '(c0, c1, c2, c3) := bytes_to_u512 ciphertext_bytes in
  let nonce_padded := nonce_bytes ++ replicate 8 0 in
  let '(n0, n1) := bytes_to_u256 nonce_padded in
  Ok [c0; c1; c2; c3; n0; n1].

Definition serialize_cairo_some (data : list Felt) : list Felt := felt_of_Z 0 :: data.
Definition serialize_cairo_none : list Felt := [felt_of_Z 1].

Definition serialize_audit_proof (proof : AuditProof) : Result (list Felt) :=
  Ok [sp_x (au_ax proof); sp_y (au_ax proof); sp_x (au_al0 proof); sp_y (au_al0 proof);
      sp_x (au_al1 proof); sp_y (au_al1 proof); sp_x (au_ar1 proof); sp_y (au_ar1 proof);
      au_sx proof; au_sb proof; au_sr proof].

Record AuditCalldata : Type := {
  audited_balance : ElGamalCiphertext; hint_ciphertext : list Z; hint_nonce : list Z;
  audit_calldata_proof : AuditProof }.

Definition serialize_cipher_balance (cipher : ElGamalCiphertext) : Result (list Felt) :=
  '(l_x, l_y) ← serialize_projective_point (ct_l cipher);
  '(r_x, r_y) ← serialize_projective_point (ct_r cipher);
  Ok [l_x; l_y; r_x; r_y].

Definition serialize_audit_option (audit : option AuditCalldata) : Result (list Felt) :=
  match audit with
  | None => Ok serialize_cairo_none
  | Some audit =>
      let felts := serialize_cairo_some [] in
      balance ← serialize_cipher_balance (audited_balance audit);
      hint ← serialize_ae_balance (hint_ciphertext audit) (hint_nonce audit);
      proof ← serialize_audit_proof (audit_calldata_proof audit);
      Ok (felts ++ balance ++ hint ++ proof)
  end.

Definition serialize_bit_proof (proof : ProofOfBit) : Result (list Felt) :=
  Ok [sp_x (pb_a0 proof); sp_y (pb_a0 proof); sp_x (pb_a1 proof); sp_y (pb_a1 proof);
      pb_c0 proof; pb_s0 proof; pb_s1 proof].

Definition serialize_range (range : Range) : Result (list Felt) :=
  let felts := [felt_of_Z (Z.of_nat (length (commitments range)))] in
  let felts := felts ++ flat_map sp_felts (commitments range) in
  let felts := felts ++ [felt_of_Z (Z.of_nat (length (proofs range)))] in
  foldM (fun felts proof => bits ← serialize_bit_proof proof; Ok (felts ++ bits)) felts (proofs range).

Definition serialize_proof_of_transfer (proof : ProofOfTransfer) : Result (list Felt) :=
  let felts := flat_map sp_felts
    [pt_a_x proof; pt_a_r proof; pt_a_r2 proof; pt_a_b proof; pt_a_b2 proof; pt_a_v proof;
     pt_a_v2 proof; pt_a_bar proof] in
  let felts := felts ++ [pt_s_x proof; pt_s_r proof; pt_s_b proof; pt_s_b2 proof; pt_s_r2 proof] in
  range ← serialize_range (pt_range proof);
  range2 ← serialize_range (pt_range2 proof);
  Ok (felts ++ range ++ range2).
End serialization.

(** ** Blocks of fixed width *)
Section blocks.
Context {A B : Type} (f : A -> list B) (k : nat).
Context (Hlen : forall a, length (f a) = k) (Hinj : forall a b, f a = f b -> a = b).

Lemma blocks_prefix l1 : forall l2 t1 t2,
  length l1 = length l2 -> flat_map f l1 ++ t1 = flat_map f l2 ++ t2 -> l1 = l2 /\ t1 = t2.
Proof.
  induction l1 as [|a l1 IH]; intros [|b l2] t1 t2 Hl Heq; try done.
  cbn [flat_map] in Heq. rewrite <- !app_assoc in Heq.
  apply app_inj_1 in Heq as [Hab Heq]; [|by rewrite !Hlen].
  apply Hinj in Hab as ->. destruct (IH l2 t1 t2) as [-> ->]; [by injection Hl|done|done].
Qed.
End blocks.

Section serialization_lemmas.
Context `{StarkLaws}.

Definition bit_felts (proof : ProofOfBit) : list Felt :=
  [sp_x (pb_a0 proof); sp_y (pb_a0 proof); sp_x (pb_a1 proof); sp_y (pb_a1 proof);
   pb_c0 proof; pb_s0 proof; pb_s1 proof].

Definition range_felts (r : Range) : list Felt :=
  felt_of_Z (Z.of_nat (length (commitments r))) :: flat_map sp_felts (commitments r)
  ++ felt_of_Z (Z.of_nat (length (proofs r))) :: flat_map bit_felts (proofs r).

Lemma foldM_bits felts l :
  foldM (fun felts proof => bits ← serialize_bit_proof proof; Ok (felts ++ bits)) felts l
  = @Ok KmsError _ (felts ++ flat_map bit_felts l).
Proof.
  revert felts; induction l as [|p l IH]; intros felts; cbn [foldM flat_map]; [by rewrite app_nil_r|].
  cbn [serialize_bit_proof mbind outcome_bind]. rewrite IH, <- app_assoc. done.
Qed.

Lemma serialize_range_felts r : serialize_range r = Ok (range_felts r).
Proof. unfold serialize_range, range_felts. rewrite foldM_bits. cbn. by rewrite <- app_assoc. Qed.

Lemma sp_felts_inj a b : sp_felts a = sp_felts b -> a = b.
Proof. destruct a, b. by intros [= -> ->]. Qed.

Lemma bit_felts_inj a b : bit_felts a = bit_felts b -> a = b.
Proof. destruct a as [[] []], b as [[] []]. by intros [= -> -> -> -> -> -> ->]. Qed.

Lemma felt_of_nat_inj n m :
  Z.of_nat n < felt_prime -> Z.of_nat m < felt_prime ->
  felt_of_Z (Z.of_nat n) = felt_of_Z (Z.of_nat m) -> n = m.
Proof.
  intros Hn Hm Heq. apply (f_equal felt_val) in Heq.
  rewrite !felt_of_Z_val, !Z.mod_small in Heq by lia. lia.
Qed.

(** [Vec] lengths are [usize]. *)
Definition range_sized (r : Range) : Prop :=
  Z.of_nat (length (commitments r)) <= u64_MAX /\ Z.of_nat (length (proofs r)) <= u64_MAX.

Lemma u64_lt_prime : u64_MAX < felt_prime.
Proof. reflexivity. Qed.

(** A range's layout says where it ends. *)
Lemma range_felts_prefix r1 r2 t1 t2 :
  range_sized r1 -> range_sized r2 ->
  range_felts r1 ++ t1 = range_felts r2 ++ t2 -> r1 = r2 /\ t1 = t2.
Proof.
  intros [Hc1 Hp1] [Hc2 Hp2] Heq. destruct r1 as [cs1 ps1], r2 as [cs2 ps2].
  unfold range_felts in Heq. cbn [commitments proofs] in *. pose proof u64_lt_prime.
  cbn [app] in Heq. injection Heq as Hn Heq. rewrite <- !app_assoc in Heq.
  apply felt_of_nat_inj in Hn; [|lia|lia].
  apply (blocks_prefix sp_felts 2) in Heq as [-> Heq]; [|done|apply sp_felts_inj|done].
  cbn [app] in Heq. injection Heq as Hm Heq. apply felt_of_nat_inj in Hm; [|lia|lia].
  by apply (blocks_prefix bit_felts 7) in Heq as [-> ->]; [|done|apply bit_felts_inj|done].
Qed.

Lemma limb_val bytes i :
  Forall byte_ok bytes -> (i + 16 <= length bytes)%nat ->
  be_bytes 16 (felt_val (limb bytes i)) = take 16 (drop i bytes).
Proof.
  intros Hok Hi. set (l := take 16 (drop i bytes)).
  assert (length l = 16%nat) as Hl by (unfold l; rewrite length_take, length_drop; lia).
  assert (Forall byte_ok l) as Hlok by by apply Forall_take, Forall_drop.
  pose proof (be_value_bound l Hlok) as Hb. rewrite Hl in Hb.
  unfold limb. fold l. rewrite felt_of_Z_val, Z.mod_small; [|split; [lia|]|lia].
  - rewrite <- Hl at 1. by apply be_bytes_be_value.
  - assert (256 ^ Z.of_nat 16 < felt_prime) by reflexivity. lia.
Qed.

(** The bytes of the hint's six felts: the ciphertext, then the padded nonce
    with its halves swapped. *)
Definition ae_bytes (felts : list Felt) : option (list Z * list Z) :=
  match felts with
  | [c0; c1; c2; c3; n0; n1] =>
      Some (flat_map (fun f => be_bytes 16 (felt_val f)) [c0; c1; c2; c3],
            take 24 (flat_map (fun f => be_bytes 16 (felt_val f)) [n1; n0]))
  | _ => None
  end.
End serialization_lemmas.

Section serialization_properties.
Context `{StarkLaws}.

Lemma chunk_step n (l : list Z) : take 16 (drop n l) ++ drop (n + 16) l = drop n l.
Proof. rewrite <- drop_drop. apply take_drop. Qed.

(** The Cairo calldata of a transfer proof determines the proof: two proofs with the same
    felts are equal, range lengths included. *)
Theorem transfer_calldata_injective p1 p2 felts :
  range_sized (pt_range p1) -> range_sized (pt_range2 p1) ->
  range_sized (pt_range p2) -> range_sized (pt_range2 p2) ->
  serialize_proof_of_transfer p1 = Ok felts -> serialize_proof_of_transfer p2 = Ok felts -> p1 = p2.
Proof.
  intros H11 H12 H21 H22 Hs1 Hs2. unfold serialize_proof_of_transfer in *.
  rewrite !serialize_range_felts in Hs1, Hs2. cbn [mbind outcome_bind] in *.
  apply (inj Ok) in Hs1 as <-. apply (inj Ok) in Hs2 as Heq.
  apply app_inj_1 in Heq as [Hhead Heq]; [|done].
  destruct p1 as [[u0 v0] [u1 v1] [u2 v2] [u3 v3] [u4 v4] [u5 v5] [u6 v6] [u7 v7] s1 s2 s3 s4 s5 r1 r1'],
    p2 as [[x0 y0] [x1 y1] [x2 y2] [x3 y3] [x4 y4] [x5 y5] [x6 y6] [x7 y7] t1 t2 t3 t4 t5 r2 r2'].
  injection Hhead as -> -> -> -> -> -> -> -> -> -> -> -> -> -> -> -> -> -> -> -> ->.
  cbn [pt_range pt_range2] in *.
  apply range_felts_prefix in Heq as [-> Heq]; [|done|done].
  rewrite <- (app_nil_r (range_felts r1')), <- (app_nil_r (range_felts r2')) in Heq.
  by apply range_felts_prefix in Heq as [-> _]; [|done|done].
Qed.

(** The six felts of a balance hint hold exactly the 64 ciphertext bytes and the 24 nonce
    bytes. *)
Theorem ae_balance_roundtrip ciphertext nonce :
  Forall byte_ok ciphertext -> Forall byte_ok nonce ->
  length ciphertext = 64%nat -> length nonce = 24%nat ->
  exists felts, serialize_ae_balance ciphertext nonce = Ok felts
    /\ ae_bytes felts = Some (ciphertext, nonce).
Proof.
  intros Hc Hn Hlc Hln. unfold serialize_ae_balance. rewrite Hlc, Hln. cbn [Nat.eqb negb reject_if mbind outcome_bind].
  eexists. split; [reflexivity|]. cbn [bytes_to_u512 bytes_to_u256 ae_bytes].
  set (padded := nonce ++ replicate 8 0).
  assert (Forall byte_ok padded) as Hp by (apply Forall_app; split; [done|by apply Forall_replicate]).
  assert (length padded = 32%nat) as Hlp by (unfold padded; rewrite length_app, length_replicate; lia).
  cbn [flat_map]. rewrite !limb_val, !app_nil_r by (done || lia). do 2 f_equal.
  - rewrite (take_ge (drop 48 ciphertext)) by (rewrite length_drop; lia).
    rewrite (chunk_step 32), (chunk_step 16), (chunk_step 0). apply drop_0.
  - rewrite drop_0. rewrite (take_ge (drop 16 padded)) by (rewrite length_drop; lia).
    rewrite take_drop. unfold padded. rewrite take_app_le by lia. apply take_ge. lia.
Qed.

Lemma existsb_nonzero l : existsb (fun b => negb (b =? 0)) l = false <-> Forall (fun b => b = 0) l.
Proof.
  induction l as [|b l IH]; cbn [existsb]; [done|].
  rewrite orb_false_iff, negb_false_iff, Z.eqb_eq, IH, Forall_cons. done.
Qed.

Lemma be_value_zeros l : Forall (fun b => b = 0) l -> be_value l = 0.
Proof. induction 1 as [|b l -> _ IH]; [done|]. rewrite be_value_cons, IH. lia. Qed.

Lemma be_value_zero_inv l : Forall byte_ok l -> be_value l = 0 -> Forall (fun b => b = 0) l.
Proof.
  induction 1 as [|b l Hb Hl IH]; [done|]. rewrite be_value_cons. pose proof (be_value_bound l Hl).
  pose proof (Z.pow_pos_nonneg 256 (Z.of_nat (length l))). unfold byte_ok in Hb. intros Hz.
  constructor; [nia|apply IH; nia].
Qed.

Lemma u256_to_u128_Ok low high value :
  u256_to_u128 low high = Ok value <->
  felt_val high = 0 /\ felt_val low = value /\ 0 <= value <= u128_MAX.
Proof.
  unfold u256_to_u128.
  assert (high = felt_of_Z 0 <-> felt_val high = 0) as Hhigh.
  { split; [intros ->; by rewrite felt_of_Z_val|]. intros Hv. apply felt_val_inj. by rewrite Hv, felt_of_Z_val. }
  assert (length (take 16 (to_bytes_be low)) = 16%nat /\ length (drop 16 (to_bytes_be low)) = 16%nat) as [Ht Hd]
    by (rewrite length_take, length_drop, to_bytes_be_length; lia).
  pose proof (to_bytes_be_ok low) as Hok. pose proof (take_drop 16 (to_bytes_be low)) as Htd.
  assert (Forall byte_ok (take 16 (to_bytes_be low)) /\ Forall byte_ok (drop 16 (to_bytes_be low))) as [Hok1 Hok2]
    by by apply Forall_app; rewrite Htd.
  pose proof (be_value_bound _ Hok1). pose proof (be_value_bound _ Hok2) as Hb2. rewrite Hd in Hb2.
  assert (felt_val low = be_value (take 16 (to_bytes_be low)) * 256 ^ Z.of_nat 16 + be_value (drop 16 (to_bytes_be low)))
    as Hlow by (unfold felt_val; rewrite <- Htd at 1; by rewrite be_value_app, Hd).
  change (256 ^ Z.of_nat 16) with (u128_MAX + 1) in *. assert (0 < u128_MAX) by reflexivity.
  destruct (bool_decide_reflect (high = felt_of_Z 0)) as [Hh|Hh]; cbn [negb reject_if mbind outcome_bind];
    [|split; [done|intros (Hv & _); by apply Hhigh in Hv]].
  apply Hhigh in Hh. destruct (existsb _ (take 16 (to_bytes_be low))) eqn:Hex; cbn [reject_if mbind outcome_bind].
  - split; [done|]. intros (_ & <- & Hr).
    assert (Forall (fun b => b = 0) (take 16 (to_bytes_be low))) as Hz by (apply be_value_zero_inv; [done|nia]).
    apply existsb_nonzero in Hz. congruence.
  - apply existsb_nonzero, be_value_zeros in Hex. rewrite Hex in Hlow. split.
    + intros [= <-]. split_and!; [done|lia|lia|lia].
    + intros (_ & <- & _). f_equal. lia.
Qed.

(** [u256_to_u128] accepts exactly the pairs that hold a [u128]. *)
Theorem u256_conversion value low high :
  0 <= value <= u128_MAX ->
  u256_to_u128 (fst (u128_to_u256 value)) (snd (u128_to_u256 value)) = Ok value
  /\ (u256_to_u128 low high = Ok value <-> felt_val high = 0 /\ felt_val low = value)
  /\ u256_to_u128 low high <> Panic.
Proof.
  intros Hv. assert (u128_MAX < felt_prime) by reflexivity. split_and!.
  - apply u256_to_u128_Ok. cbn [fst snd u128_to_u256]. rewrite !felt_of_Z_val by lia.
    rewrite Z.mod_0_l, Z.mod_small by (done || lia). done.
  - rewrite u256_to_u128_Ok. tauto.
  - unfold u256_to_u128. destruct (negb _); [done|]. cbn. by destruct (existsb _ _).
Qed.

(** A finite point survives serialisation. *)
Theorem point_calldata_roundtrip p :
  ~ p ≡ proj_identity ->
  exists x y q, serialize_projective_point p = Ok (x, y)
    /\ deserialize_projective_point x y = Ok q /\ q ≡ p.
Proof.
  intros Hp. unfold serialize_projective_point, deserialize_projective_point.
  destruct (proj_to_affine p) as [a|] eqn:Ha; [|by apply to_affine_infinity in Ha].
  destruct (from_affine_valid (aff_x a) (aff_y a) a (aff_on_curve a)) as (q & Hq & Hqa).
  exists (aff_x a), (aff_y a), q. cbn. rewrite Hq. split_and!; [done|done|].
  apply to_affine_eq. by rewrite Ha.
Qed.
End serialization_properties.

(** ** Concrete instances *)
Definition ex_point : SerializablePoint := {| sp_x := felt_of_Z 1; sp_y := felt_of_Z 2 |}.

Definition ex_transfer (range : Range) : ProofOfTransfer :=
  {| pt_a_x := ex_point; pt_a_r := ex_point; pt_a_r2 := ex_point; pt_a_b := ex_point;
     pt_a_b2 := ex_point; pt_a_v := ex_point; pt_a_v2 := ex_point; pt_a_bar := ex_point;
     pt_s_x := felt_of_Z 3; pt_s_r := felt_of_Z 3; pt_s_b := felt_of_Z 3; pt_s_b2 := felt_of_Z 3;
     pt_s_r2 := felt_of_Z 3; pt_range := range; pt_range2 := {| commitments := []; proofs := [] |} |}.

Lemma transfer_calldata_injective_witness :
  serialize_proof_of_transfer (ex_transfer {| commitments := []; proofs := [] |})
  <> serialize_proof_of_transfer (ex_transfer {| commitments := [ex_point]; proofs := [] |}).
Proof.
  intros Heq.
  set (p1 := ex_transfer {| commitments := []; proofs := [] |}) in *.
  set (p2 := ex_transfer {| commitments := [ex_point]; proofs := [] |}) in *.
  destruct (is_ok_exists (serialize_proof_of_transfer p1)) as [felts Hf]; [reflexivity|].
  assert (p1 = p2) as Hp.
  { apply (transfer_calldata_injective p1 p2 felts); try (by split); [exact Hf|by rewrite <- Heq]. }
  apply (f_equal (fun p => length (commitments (pt_range p)))) in Hp. discriminate Hp.
Defined.

Lemma ae_balance_roundtrip_witness :
  exists felts, serialize_ae_balance (replicate 64 7) (replicate 24 9) = Ok felts
    /\ ae_bytes felts = Some (replicate 64 7, replicate 24 9).
Proof. apply ae_balance_roundtrip; [by apply Forall_replicate..|reflexivity|reflexivity]. Defined.

Lemma u256_conversion_witness :
  u256_to_u128 (fst (u128_to_u256 5)) (snd (u128_to_u256 5)) = Ok 5.
Proof.
  apply (u256_conversion 5 (felt_of_Z 0) (felt_of_Z 0)). unfold u128_MAX. lia.
Defined.

Lemma point_calldata_roundtrip_witness :
  exists p x y q, proj_from_affine G_X G_Y = Some p /\ serialize_projective_point p = Ok (x, y)
    /\ deserialize_projective_point x y = Ok q /\ q ≡ p.
Proof.
  destruct generator_valid as [a Ha]. destruct (from_affine_valid _ _ _ Ha) as (p & Hp & Hpa).
  destruct (point_calldata_roundtrip p) as (x & y & q & Hs & Hd & Hq).
  - intros Hi. apply to_affine_infinity in Hi. congruence.
  - exists p, x, y, q. split; [exact Hp|]. split; [exact Hs|]. split; [exact Hd|exact Hq].
Defined.
