(* ===== verification/TxHash.v ===== *)
(** * Transaction hashes and contract addresses

    crates/kms/src/tx_hash.rs (the V1, V2 and V3 transaction hashes) and
    crates/kms/src/account.rs (Pedersen hashing of arrays, Cairo short strings,
    contract addresses).

    A signer signs the hash, so the hash has to determine the transaction.  The
    hash functions are parameters and nothing is assumed of them globally:
    [coll_free h xs] says that [h] has no collision among the finitely many
    inputs [xs] that the hashes under comparison really feed to it. *)

From stdpp Require Import base option list numbers strings.
From Stdlib Require Import ZArith Lia Zdiv.
From S2P Require Import Prelude StarkLib StarkModel Types Scalar.

#[local] Open Scope Z_scope.

(** ** What else the code calls of starknet-types-core and starknet-rust-core *)
Class FeltExtras `{StarkTypes} : Type := {
  felt_mul : Felt -> Felt -> Felt;
  from_bytes_be_slice : list Z -> Felt;
  normalize_address : Felt -> Felt }.

(** [2^251 - 256], the bound of contract addresses. *)
Definition ADDR_BOUND : Z := 2 ^ 251 - 256.

Class FeltExtrasLaws `{FeltExtras} : Prop := {
  felt_mul_val f g : felt_val (felt_mul f g) = (felt_val f * felt_val g) mod felt_prime;
  from_bytes_be_slice_val bs :
    (length bs <= 32)%nat -> Forall byte_ok bs ->
    felt_val (from_bytes_be_slice bs) = be_value bs mod felt_prime;
  normalize_address_val f : felt_val (normalize_address f) = felt_val f mod ADDR_BOUND }.

(** ** Arrays, short strings and addresses (account.rs) *)
Section account.
Context `{FeltExtras}.

Definition hash_elements (elements : list Felt) : Felt :=
  let current := fold_left pedersen_hash elements (felt_of_Z 0) in
  let length := felt_of_Z (Z.of_nat (length elements)) in
  pedersen_hash current length.

(** The argument is the string's bytes. *)
Definition encode_short_string (s : list Z) : Result Felt :=
  _ ← reject_if (31 <? length s)%nat (CryptoError "Short string must be <= 31 characters");
  Ok (from_bytes_be_slice s).

(** The bytes of "STARKNET_CONTRACT_ADDRESS". *)
Definition CONTRACT_ADDRESS_PREFIX : list Z :=
  [83; 84; 65; 82; 75; 78; 69; 84; 95; 67; 79; 78; 84; 82; 65; 67; 84; 95; 65; 68; 68; 82; 69; 83; 83].

Definition calculate_contract_address (salt class_hash : Felt) (constructor_calldata : list Felt)
    (deployer_address : Felt) : Result Felt :=
  let calldata_hash := hash_elements constructor_calldata in
  prefix_felt ← encode_short_string CONTRACT_ADDRESS_PREFIX;
  let elements := [prefix_felt; deployer_address; salt; class_hash; calldata_hash] in
  let address := normalize_address (hash_elements elements) in
  Ok address.

Definition derive_oz_account_address (public_key class_hash : Felt) (salt : option Felt) : Result Felt :=
  let salt := default public_key salt in
  let constructor_calldata := [public_key] in
  let deployer_address := felt_of_Z 0 in
  calculate_contract_address salt class_hash constructor_calldata deployer_address.
End account.

(** ** Transaction hashes (tx_hash.rs) *)
Record ResourceBounds := { max_amount : Z; max_price_per_unit : Z }.

Inductive DaMode := DaL1 | DaL2.

#[export] Instance ResourceBounds_eq_dec : EqDecision ResourceBounds.
Proof. solve_decision. Defined.
#[export] Instance DaMode_eq_dec : EqDecision DaMode.
Proof. solve_decision. Defined.

(** [nonce_da as u64]. *)
Definition da_mode_u64 (m : DaMode) : Z := match m with DaL1 => 0 | DaL2 => 1 end.

Section tx_hash.
Context `{FeltExtras}.

Definition INVOKE_PREFIX : Felt := felt_of_Z 0x696e766f6b65.
Definition DEPLOY_ACCOUNT_PREFIX : Felt := felt_of_Z 0x6465706c6f795f6163636f756e74.
Definition DECLARE_PREFIX : Felt := felt_of_Z 0x6465636c617265.

Definition L1_GAS_NAME : Felt := felt_of_Z 0x4c315f474153.
Definition L2_GAS_NAME : Felt := felt_of_Z 0x4c325f474153.
Definition L1_DATA_NAME : Felt := felt_of_Z 0x4c315f44415441.

Definition TWO_POW_192 : Felt := felt_of_Z 0x1000000000000000000000000000000000000000000000000.
Definition TWO_POW_128 : Felt := felt_of_Z 0x100000000000000000000000000000000.

Definition VERSION_1 : Felt := felt_of_Z 1.
Definition VERSION_2 : Felt := felt_of_Z 2.
Definition VERSION_3 : Felt := felt_of_Z 3.

Definition resource_bounds_zero : ResourceBounds := {| max_amount := 0; max_price_per_unit := 0 |}.

(** *** V1 and V2: Pedersen *)
Definition compute_invoke_v1_hash (sender_address : Felt) (calldata : list Felt)
    (max_fee chain_id nonce : Felt) : Felt :=
  let calldata_hash := hash_elements calldata in
  hash_elements [INVOKE_PREFIX; VERSION_1; sender_address; felt_of_Z 0; calldata_hash;
                 max_fee; chain_id; nonce].

Definition compute_deploy_account_v1_hash (contract_address class_hash : Felt)
    (constructor_calldata : list Felt) (salt max_fee chain_id nonce : Felt) : Felt :=
  let inner := [class_hash; salt] ++ constructor_calldata in
  let inner_hash := hash_elements inner in
  hash_elements [DEPLOY_ACCOUNT_PREFIX; VERSION_1; contract_address; felt_of_Z 0; inner_hash;
                 max_fee; chain_id; nonce].

Definition compute_declare_v2_hash (sender_address class_hash max_fee chain_id nonce
    compiled_class_hash : Felt) : Felt :=
  let class_hash_hash := hash_elements [class_hash] in
  hash_elements [DECLARE_PREFIX; VERSION_2; sender_address; felt_of_Z 0; class_hash_hash;
                 max_fee; chain_id; nonce; compiled_class_hash].

(** *** V3: Poseidon *)
Definition pack_resource_bounds (resource_name : Felt) (bounds : ResourceBounds) : Felt :=
  felt_add
    (felt_add (felt_mul resource_name TWO_POW_192)
              (felt_mul (felt_of_Z (max_amount bounds)) TWO_POW_128))
    (felt_of_Z (max_price_per_unit bounds)).

Definition pack_da_modes (nonce_da fee_da : DaMode) : Felt :=
  felt_of_Z (Z.shiftl (da_mode_u64 nonce_da) 32 + da_mode_u64 fee_da).

Definition compute_fee_hash (tip : Z) (l1_gas l2_gas l1_data_gas : ResourceBounds) : Felt :=
  let l1_packed := pack_resource_bounds L1_GAS_NAME l1_gas in
  let l2_packed := pack_resource_bounds L2_GAS_NAME l2_gas in
  let l1_data_packed := pack_resource_bounds L1_DATA_NAME l1_data_gas in
  poseidon_hash_array [felt_of_Z tip; l1_packed; l2_packed; l1_data_packed].

Definition compute_invoke_v3_hash_with_proof_facts (sender_address : Felt) (calldata : list Felt)
    (chain_id nonce : Felt) (account_deployment_data : list Felt) (tip : Z)
    (l1_gas l2_gas l1_data_gas : ResourceBounds) (paymaster_data : list Felt)
    (nonce_da_mode fee_da_mode : DaMode) (proof_facts : list Felt) : Felt :=
  let fee_hash := compute_fee_hash tip l1_gas l2_gas l1_data_gas in
  let paymaster_hash := poseidon_hash_array paymaster_data in
  let da_mode := pack_da_modes nonce_da_mode fee_da_mode in
  let deployment_data_hash := poseidon_hash_array account_deployment_data in
  let calldata_hash := poseidon_hash_array calldata in
  match proof_facts with
  | [] =>
      poseidon_hash_array [INVOKE_PREFIX; VERSION_3; sender_address; fee_hash; paymaster_hash;
                           chain_id; nonce; da_mode; deployment_data_hash; calldata_hash]
  | _ =>
      let proof_facts_hash := poseidon_hash_array proof_facts in
      poseidon_hash_array [INVOKE_PREFIX; VERSION_3; sender_address; fee_hash; paymaster_hash;
                           chain_id; nonce; da_mode; deployment_data_hash; calldata_hash;
                           proof_facts_hash]
  end.

Definition compute_invoke_v3_hash (sender_address : Felt) (calldata : list Felt)
    (chain_id nonce : Felt) (account_deployment_data : list Felt) (tip : Z)
    (l1_gas l2_gas l1_data_gas : ResourceBounds) (paymaster_data : list Felt)
    (nonce_da_mode fee_da_mode : DaMode) : Felt :=
  compute_invoke_v3_hash_with_proof_facts sender_address calldata chain_id nonce
    account_deployment_data tip l1_gas l2_gas l1_data_gas paymaster_data nonce_da_mode fee_da_mode [].

Definition compute_deploy_account_v3_hash (contract_address class_hash : Felt)
    (constructor_calldata : list Felt) (salt chain_id nonce : Felt) (tip : Z)
    (l1_gas l2_gas l1_data_gas : ResourceBounds) (paymaster_data : list Felt)
    (nonce_da_mode fee_da_mode : DaMode) : Felt :=
  let fee_hash := compute_fee_hash tip l1_gas l2_gas l1_data_gas in
  let paymaster_hash := poseidon_hash_array paymaster_data in
  let da_mode := pack_da_modes nonce_da_mode fee_da_mode in
  let constructor_hash := poseidon_hash_array constructor_calldata in
  poseidon_hash_array [DEPLOY_ACCOUNT_PREFIX; VERSION_3; contract_address; fee_hash; paymaster_hash;
                       chain_id; nonce; da_mode; constructor_hash; class_hash; salt].

Definition compute_declare_v3_hash (sender_address class_hash compiled_class_hash chain_id nonce : Felt)
    (tip : Z) (l1_gas l2_gas l1_data_gas : ResourceBounds) (paymaster_data : list Felt)
    (nonce_da_mode fee_da_mode : DaMode) (account_deployment_data : list Felt) : Felt :=
  let fee_hash := compute_fee_hash tip l1_gas l2_gas l1_data_gas in
  let paymaster_hash := poseidon_hash_array paymaster_data in
  let da_mode := pack_da_modes nonce_da_mode fee_da_mode in
  let deployment_data_hash := poseidon_hash_array account_deployment_data in
  poseidon_hash_array [DECLARE_PREFIX; VERSION_3; sender_address; fee_hash; paymaster_hash;
                       chain_id; nonce; da_mode; deployment_data_hash; class_hash; compiled_class_hash].
End tx_hash.

(** ** Reference vocabulary

    A transaction as one value, its hash by the functions above, and the inputs
    that the hash feeds to Poseidon or Pedersen on the way. *)
Definition coll_free {A B} (h : A -> B) (xs : list A) : Prop :=
  Forall (fun x => Forall (fun y => h x = h y -> x = y) xs) xs.

Lemma coll_free_spec {A B} (h : A -> B) xs x y :
  coll_free h xs -> x ∈ xs -> y ∈ xs -> h x = h y -> x = y.
Proof. unfold coll_free. intros Hc Hx Hy. rewrite Forall_forall in Hc. specialize (Hc x Hx). rewrite Forall_forall in Hc. eauto. Qed.

Definition bounds_ok (b : ResourceBounds) : Prop :=
  0 <= max_amount b <= u64_MAX /\ 0 <= max_price_per_unit b <= u128_MAX.

Section vocabulary.
Context `{FeltExtras}.

(** What every V3 transaction carries; the address is the sender's, or the
    deployed contract's. *)
Record V3Common := {
  v3_address : Felt; v3_chain_id : Felt; v3_nonce : Felt; v3_tip : Z;
  v3_l1_gas : ResourceBounds; v3_l2_gas : ResourceBounds; v3_l1_data_gas : ResourceBounds;
  v3_paymaster_data : list Felt; v3_nonce_da : DaMode; v3_fee_da : DaMode }.

Inductive TxV3 :=
  | InvokeV3 (c : V3Common) (calldata account_deployment_data proof_facts : list Felt)
  | DeployAccountV3 (c : V3Common) (class_hash : Felt) (constructor_calldata : list Felt) (salt : Felt)
  | DeclareV3 (c : V3Common) (class_hash compiled_class_hash : Felt) (account_deployment_data : list Felt).

Definition tx_v3_hash (t : TxV3) : Felt :=
  match t with
  | InvokeV3 c calldata deployment proof_facts =>
      compute_invoke_v3_hash_with_proof_facts (v3_address c) calldata (v3_chain_id c) (v3_nonce c)
        deployment (v3_tip c) (v3_l1_gas c) (v3_l2_gas c) (v3_l1_data_gas c) (v3_paymaster_data c)
        (v3_nonce_da c) (v3_fee_da c) proof_facts
  | DeployAccountV3 c class_hash calldata salt =>
      compute_deploy_account_v3_hash (v3_address c) class_hash calldata salt (v3_chain_id c) (v3_nonce c)
        (v3_tip c) (v3_l1_gas c) (v3_l2_gas c) (v3_l1_data_gas c) (v3_paymaster_data c)
        (v3_nonce_da c) (v3_fee_da c)
  | DeclareV3 c class_hash compiled deployment =>
      compute_declare_v3_hash (v3_address c) class_hash compiled (v3_chain_id c) (v3_nonce c)
        (v3_tip c) (v3_l1_gas c) (v3_l2_gas c) (v3_l1_data_gas c) (v3_paymaster_data c)
        (v3_nonce_da c) (v3_fee_da c) deployment
  end.

Definition v3_common (t : TxV3) : V3Common :=
  match t with InvokeV3 c _ _ _ | DeployAccountV3 c _ _ _ | DeclareV3 c _ _ _ => c end.

(** The machine integers of a transaction are within their widths. *)
Definition tx_v3_ok (t : TxV3) : Prop :=
  let c := v3_common t in
  0 <= v3_tip c <= u64_MAX /\ bounds_ok (v3_l1_gas c) /\ bounds_ok (v3_l2_gas c)
  /\ bounds_ok (v3_l1_data_gas c).

Definition fee_array (c : V3Common) : list Felt :=
  [felt_of_Z (v3_tip c); pack_resource_bounds L1_GAS_NAME (v3_l1_gas c);
   pack_resource_bounds L2_GAS_NAME (v3_l2_gas c); pack_resource_bounds L1_DATA_NAME (v3_l1_data_gas c)].

Definition common_array (prefix : Felt) (c : V3Common) : list Felt :=
  [prefix; VERSION_3; v3_address c; poseidon_hash_array (fee_array c);
   poseidon_hash_array (v3_paymaster_data c); v3_chain_id c; v3_nonce c;
   pack_da_modes (v3_nonce_da c) (v3_fee_da c)].

(** The last array hashed, whose hash is the result. *)
Definition outer_array (t : TxV3) : list Felt :=
  match t with
  | InvokeV3 c calldata deployment proof_facts =>
      common_array INVOKE_PREFIX c
      ++ [poseidon_hash_array deployment; poseidon_hash_array calldata]
      ++ match proof_facts with [] => [] | _ => [poseidon_hash_array proof_facts] end
  | DeployAccountV3 c class_hash calldata salt =>
      common_array DEPLOY_ACCOUNT_PREFIX c ++ [poseidon_hash_array calldata; class_hash; salt]
  | DeclareV3 c class_hash compiled deployment =>
      common_array DECLARE_PREFIX c ++ [poseidon_hash_array deployment; class_hash; compiled]
  end.

(** Every array that [tx_v3_hash] hands to Poseidon. *)
Definition v3_hashed (t : TxV3) : list (list Felt) :=
  outer_array t :: fee_array (v3_common t) :: v3_paymaster_data (v3_common t)
  :: match t with
     | InvokeV3 _ calldata deployment proof_facts =>
         [deployment; calldata] ++ match proof_facts with [] => [] | _ => [proof_facts] end
     | DeployAccountV3 _ _ calldata _ => [calldata]
     | DeclareV3 _ _ _ deployment => [deployment]
     end.
End vocabulary.

(** Membership among the hashed arrays. *)
Ltac mem_solve :=
  rewrite ?elem_of_app; unfold v3_hashed; cbn [v3_common app]; rewrite ?elem_of_cons; tauto.

(** ** Packing *)
Section packing.
Context `{FeltExtrasLaws, !StarkLaws}.

Lemma felt_of_Z_small z : 0 <= z < felt_prime -> felt_val (felt_of_Z z) = z.
Proof. intros Hz. rewrite felt_of_Z_val by lia. by apply Z.mod_small. Qed.

Lemma felt_of_Z_inj y z :
  0 <= y < felt_prime -> 0 <= z < felt_prime -> felt_of_Z y = felt_of_Z z -> y = z.
Proof. intros Hy Hz Heq. rewrite <- (felt_of_Z_small y), <- (felt_of_Z_small z), Heq by done. done. Qed.

(** The packed word is exact: nothing wraps around the field. *)
Lemma pack_resource_bounds_val name b :
  0 <= name < 2 ^ 56 -> bounds_ok b ->
  felt_val (pack_resource_bounds (felt_of_Z name) b)
  = name * 2 ^ 192 + max_amount b * 2 ^ 128 + max_price_per_unit b.
Proof.
  unfold bounds_ok, u64_MAX, u128_MAX. intros Hn Hb. unfold pack_resource_bounds, TWO_POW_192, TWO_POW_128.
  rewrite !felt_add_val, !felt_mul_val, !felt_of_Z_small by (unfold felt_prime; lia).
  change 0x1000000000000000000000000000000000000000000000000 with (2 ^ 192).
  change 0x100000000000000000000000000000000 with (2 ^ 128).
  unfold felt_prime.
  rewrite (Z.mod_small (name * 2 ^ 192)), (Z.mod_small (max_amount b * 2 ^ 128)) by lia.
  rewrite (Z.mod_small (name * 2 ^ 192 + max_amount b * 2 ^ 128)) by lia. apply Z.mod_small. lia.
Qed.

Lemma pack_resource_bounds_inj name b1 b2 :
  0 <= name < 2 ^ 56 -> bounds_ok b1 -> bounds_ok b2 ->
  pack_resource_bounds (felt_of_Z name) b1 = pack_resource_bounds (felt_of_Z name) b2 -> b1 = b2.
Proof.
  intros Hn Hb1 Hb2 Heq. apply (f_equal felt_val) in Heq. rewrite !pack_resource_bounds_val in Heq by done.
  destruct b1 as [a1 p1], b2 as [a2 p2]; unfold bounds_ok, u64_MAX, u128_MAX in *; cbn in *. f_equal; lia.
Qed.

Lemma pack_da_modes_inj n1 f1 n2 f2 : pack_da_modes n1 f1 = pack_da_modes n2 f2 -> n1 = n2 /\ f1 = f2.
Proof.
  unfold pack_da_modes. intros Heq. apply felt_of_Z_inj in Heq; [|by destruct n1, f1..|by destruct n2, f2].
  by destruct n1, f1, n2, f2.
Qed.
End packing.

(** ** The V3 hash determines the transaction *)
Section v3_binding.
Context `{FeltExtrasLaws, !StarkLaws}.

Lemma tx_v3_hash_outer t : tx_v3_hash t = poseidon_hash_array (outer_array t).
Proof. by destruct t as [c ? ? [|]|c|c]. Qed.

Lemma prefixes_differ :
  INVOKE_PREFIX <> DEPLOY_ACCOUNT_PREFIX /\ INVOKE_PREFIX <> DECLARE_PREFIX
  /\ DEPLOY_ACCOUNT_PREFIX <> DECLARE_PREFIX.
Proof. split_and!; intros Heq%felt_of_Z_inj; done. Qed.

Lemma fee_array_inj c1 c2 :
  0 <= v3_tip c1 <= u64_MAX -> 0 <= v3_tip c2 <= u64_MAX ->
  bounds_ok (v3_l1_gas c1) -> bounds_ok (v3_l2_gas c1) -> bounds_ok (v3_l1_data_gas c1) ->
  bounds_ok (v3_l1_gas c2) -> bounds_ok (v3_l2_gas c2) -> bounds_ok (v3_l1_data_gas c2) ->
  fee_array c1 = fee_array c2 ->
  v3_tip c1 = v3_tip c2 /\ v3_l1_gas c1 = v3_l1_gas c2 /\ v3_l2_gas c1 = v3_l2_gas c2
  /\ v3_l1_data_gas c1 = v3_l1_data_gas c2.
Proof.
  unfold fee_array. intros ? ? ? ? ? ? ? ? [= Ht Hl1 Hl2 Hd].
  apply felt_of_Z_inj in Ht; [|unfold felt_prime, u64_MAX in *; lia..].
  apply pack_resource_bounds_inj in Hl1, Hl2, Hd; done.
Qed.

(** Equal outer arrays have equal prefixes, equal remainders, and - by the
    absence of collisions - equal common parts. *)
Lemma common_array_inj t1 t2 p1 p2 r1 r2 :
  tx_v3_ok t1 -> tx_v3_ok t2 -> coll_free poseidon_hash_array (v3_hashed t1 ++ v3_hashed t2) ->
  common_array p1 (v3_common t1) ++ r1 = common_array p2 (v3_common t2) ++ r2 ->
  p1 = p2 /\ v3_common t1 = v3_common t2 /\ r1 = r2.
Proof.
  intros (Ht1 & Ha1 & Hb1 & Hc1) (Ht2 & Ha2 & Hb2 & Hc2) Hcf. unfold common_array. cbn [app].
  intros [= Hp Haddr Hfee Hpay Hchain Hnonce Hda Hr].
  apply (coll_free_spec _ _ _ _ Hcf) in Hfee; [|mem_solve..].
  apply (coll_free_spec _ _ _ _ Hcf) in Hpay; [|mem_solve..].
  apply fee_array_inj in Hfee as (Htip & Hl1 & Hl2 & Hd); [|done..].
  apply pack_da_modes_inj in Hda as [Hn Hf]. split_and!; [done| |done].
  destruct (v3_common t1), (v3_common t2); cbn in *. congruence.
Qed.

Lemma outer_array_inj t1 t2 :
  tx_v3_ok t1 -> tx_v3_ok t2 -> coll_free poseidon_hash_array (v3_hashed t1 ++ v3_hashed t2) ->
  outer_array t1 = outer_array t2 -> t1 = t2.
Proof.
  intros Hok1 Hok2 Hcf Heq. destruct prefixes_differ as (Hid & Hic & Hdc).
  assert (forall x y, x ∈ v3_hashed t1 -> y ∈ v3_hashed t2 ->
            poseidon_hash_array x = poseidon_hash_array y -> x = y) as Hinj.
  { intros x y Hx Hy. apply (coll_free_spec _ _ _ _ Hcf); apply elem_of_app; auto. }
  destruct t1 as [c1 cd1 dep1 pf1|c1 cl1 cd1 s1|c1 cl1 cc1 dep1], t2 as [c2 cd2 dep2 pf2|c2 cl2 cd2 s2|c2 cl2 cc2 dep2];
    unfold outer_array in Heq;
    apply (common_array_inj _ _ _ _ _ _ Hok1 Hok2 Hcf) in Heq as (Hp & Hc & Hr); try done;
    cbn [v3_common] in Hc; subst c2.
  - destruct pf1 as [|x1 pf1], pf2 as [|x2 pf2]; try discriminate Hr.
    + injection Hr as Hdep Hcd. apply Hinj in Hdep as <-; [|mem_solve..].
      apply Hinj in Hcd as <-; [done|mem_solve..].
    + injection Hr as Hdep Hcd Hpf. apply Hinj in Hdep as <-; [|mem_solve..].
      apply Hinj in Hcd as <-; [|mem_solve..]. apply Hinj in Hpf as <-; [done|mem_solve..].
  - injection Hr as Hcd -> ->. apply Hinj in Hcd as <-; [done|mem_solve..].
  - injection Hr as Hdep -> ->. apply Hinj in Hdep as <-; [done|mem_solve..].
Qed.
End v3_binding.

(** ** Pedersen over arrays determines the array *)
Section pedersen.
Context `{FeltExtras}.

Definition pedersen_pair (p : Felt * Felt) : Felt := pedersen_hash p.1 p.2.

Fixpoint chain_pairs (current : Felt) (l : list Felt) : list (Felt * Felt) :=
  match l with
  | [] => []
  | x :: l => (current, x) :: chain_pairs (pedersen_hash current x) l
  end.

Definition chain_end (l : list Felt) : Felt := fold_left pedersen_hash l (felt_of_Z 0).

(** Every pair that [hash_elements] hands to Pedersen. *)
Definition hashed_pairs (l : list Felt) : list (Felt * Felt) :=
  chain_pairs (felt_of_Z 0) l ++ [(chain_end l, felt_of_Z (Z.of_nat (length l)))].

Lemma chain_pairs_snoc current l x :
  chain_pairs current (l ++ [x]) = chain_pairs current l ++ [(fold_left pedersen_hash l current, x)].
Proof. revert current; induction l as [|y l IH]; intros current; cbn; [done|]. by rewrite IH. Qed.

Lemma chain_end_snoc l x : chain_end (l ++ [x]) = pedersen_hash (chain_end l) x.
Proof. unfold chain_end. by rewrite fold_left_app. Qed.

Lemma chain_inj l1 l2 :
  length l1 = length l2 ->
  (forall p q, p ∈ chain_pairs (felt_of_Z 0) l1 -> q ∈ chain_pairs (felt_of_Z 0) l2 ->
     pedersen_pair p = pedersen_pair q -> p = q) ->
  chain_end l1 = chain_end l2 -> l1 = l2.
Proof.
  revert l2; induction l1 as [|x l1 IH] using rev_ind; intros l2 Hlen Hinj Heq.
  { by destruct l2. }
  destruct l2 as [|y l2 _] using rev_ind; [rewrite length_app in Hlen; cbn in Hlen; lia|].
  rewrite !length_app in Hlen; cbn in Hlen. rewrite !chain_pairs_snoc in Hinj. rewrite !chain_end_snoc in Heq.
  assert ((chain_end l1, x) = (chain_end l2, y)) as [= Hend ->].
  { apply Hinj; [apply elem_of_app; right; by apply list_elem_of_singleton..|done]. }
  f_equal. apply IH; [lia| |done]. intros p q Hp Hq. apply Hinj; apply elem_of_app; by left.
Qed.
End pedersen.

(** ** V1 and V2 transactions *)
Section v1.
Context `{FeltExtras}.

Inductive TxV1 :=
  | InvokeV1 (sender_address : Felt) (calldata : list Felt) (max_fee chain_id nonce : Felt)
  | DeployAccountV1 (contract_address class_hash : Felt) (constructor_calldata : list Felt)
      (salt max_fee chain_id nonce : Felt)
  | DeclareV2 (sender_address class_hash max_fee chain_id nonce compiled_class_hash : Felt).

Definition tx_v1_hash (t : TxV1) : Felt :=
  match t with
  | InvokeV1 sender calldata max_fee chain nonce => compute_invoke_v1_hash sender calldata max_fee chain nonce
  | DeployAccountV1 address class calldata salt max_fee chain nonce =>
      compute_deploy_account_v1_hash address class calldata salt max_fee chain nonce
  | DeclareV2 sender class max_fee chain nonce compiled =>
      compute_declare_v2_hash sender class max_fee chain nonce compiled
  end.

Definition v1_inner (t : TxV1) : list Felt :=
  match t with
  | InvokeV1 _ calldata _ _ _ => calldata
  | DeployAccountV1 _ class calldata salt _ _ _ => [class; salt] ++ calldata
  | DeclareV2 _ class _ _ _ _ => [class]
  end.

Definition v1_outer (t : TxV1) : list Felt :=
  let inner := hash_elements (v1_inner t) in
  match t with
  | InvokeV1 sender _ max_fee chain nonce =>
      [INVOKE_PREFIX; VERSION_1; sender; felt_of_Z 0; inner; max_fee; chain; nonce]
  | DeployAccountV1 address _ _ _ max_fee chain nonce =>
      [DEPLOY_ACCOUNT_PREFIX; VERSION_1; address; felt_of_Z 0; inner; max_fee; chain; nonce]
  | DeclareV2 sender _ max_fee chain nonce compiled =>
      [DECLARE_PREFIX; VERSION_2; sender; felt_of_Z 0; inner; max_fee; chain; nonce; compiled]
  end.

Definition v1_hashed (t : TxV1) : list (Felt * Felt) := hashed_pairs (v1_outer t) ++ hashed_pairs (v1_inner t).

(** An array's length is a [u64]. *)
Definition len_ok (l : list Felt) : Prop := Z.of_nat (length l) <= u64_MAX.
End v1.

Section v1_binding.
Context `{FeltExtrasLaws, !StarkLaws}.

Lemma hash_elements_inj l1 l2 :
  len_ok l1 -> len_ok l2 ->
  (forall p q, p ∈ hashed_pairs l1 -> q ∈ hashed_pairs l2 -> pedersen_pair p = pedersen_pair q -> p = q) ->
  hash_elements l1 = hash_elements l2 -> l1 = l2.
Proof.
  unfold len_ok, hashed_pairs. intros Hl1 Hl2 Hinj Heq.
  assert ((chain_end l1, felt_of_Z (Z.of_nat (length l1))) = (chain_end l2, felt_of_Z (Z.of_nat (length l2))))
    as [= Hend Hlen].
  { apply Hinj; [apply elem_of_app; right; by apply list_elem_of_singleton..|exact Heq]. }
  apply felt_of_Z_inj in Hlen; [|unfold u64_MAX, felt_prime in *; lia..].
  apply chain_inj; [lia| |done]. intros p q Hp Hq. apply Hinj; apply elem_of_app; by left.
Qed.

Lemma tx_v1_hash_outer t : tx_v1_hash t = hash_elements (v1_outer t).
Proof. by destruct t. Qed.

Lemma v1_outer_len t : len_ok (v1_outer t).
Proof. by destruct t. Qed.

Lemma v1_outer_inj t1 t2 :
  v1_outer t1 = v1_outer t2 -> (hash_elements (v1_inner t1) = hash_elements (v1_inner t2) -> v1_inner t1 = v1_inner t2) ->
  t1 = t2.
Proof.
  intros Heq Hinj. destruct prefixes_differ as (Hid & Hic & Hdc).
  destruct t1, t2; cbn in Heq, Hinj; try (by injection Heq).
  - injection Heq as -> Hin -> -> ->. by rewrite (Hinj Hin).
  - injection Heq as -> Hin -> -> ->. by injection (Hinj Hin) as -> -> ->.
  - injection Heq as -> Hin -> -> -> ->. by injection (Hinj Hin) as ->.
Qed.
End v1_binding.

(** ** Short strings and contract addresses *)
Section address.
Context `{FeltExtrasLaws, !StarkLaws}.

Lemma encode_short_string_val s f :
  Forall byte_ok s -> encode_short_string s = Ok f -> (length s <= 31)%nat /\ felt_val f = be_value s.
Proof.
  intros Hs. unfold encode_short_string. intros (u & Hlen & Hf)%bind_Ok.
  apply reject_if_Ok, Nat.ltb_ge in Hlen. apply (inj Ok) in Hf as <-. split; [done|].
  rewrite from_bytes_be_slice_val by (done || lia). apply Z.mod_small.
  pose proof (be_value_bound s Hs) as Hb.
  assert (256 ^ Z.of_nat (length s) <= 256 ^ 31) by (apply Z.pow_le_mono_r; lia).
  assert (256 ^ 31 < felt_prime) by reflexivity. lia.
Qed.

(** The array that an address is the (reduced) hash of. *)
Definition address_array (salt class_hash : Felt) (calldata : list Felt) (deployer : Felt) : list Felt :=
  [from_bytes_be_slice CONTRACT_ADDRESS_PREFIX; deployer; salt; class_hash; hash_elements calldata].

Lemma calculate_contract_address_eq salt class_hash calldata deployer :
  calculate_contract_address salt class_hash calldata deployer
  = Ok (normalize_address (hash_elements (address_array salt class_hash calldata deployer))).
Proof. reflexivity. Qed.

Lemma address_array_inj s1 c1 cd1 d1 s2 c2 cd2 d2 :
  len_ok cd1 -> len_ok cd2 ->
  coll_free pedersen_pair
    ((hashed_pairs (address_array s1 c1 cd1 d1) ++ hashed_pairs cd1)
     ++ (hashed_pairs (address_array s2 c2 cd2 d2) ++ hashed_pairs cd2)) ->
  hash_elements (address_array s1 c1 cd1 d1) = hash_elements (address_array s2 c2 cd2 d2) ->
  s1 = s2 /\ c1 = c2 /\ cd1 = cd2 /\ d1 = d2.
Proof.
  intros Hl1 Hl2 Hcf Heq. apply hash_elements_inj in Heq; [|done..|].
  - injection Heq as -> -> -> Hcd. split_and!; [done..| |done].
    apply hash_elements_inj in Hcd; [done..|]. intros p q Hp Hq.
    apply (coll_free_spec _ _ _ _ Hcf); rewrite !elem_of_app; auto.
  - intros p q Hp Hq. apply (coll_free_spec _ _ _ _ Hcf); rewrite !elem_of_app; auto.
Qed.
End address.

(** ** Properties *)

(** C38: The V3 transaction hash determines the transaction: unless Poseidon collides on the
    arrays hashed, two invoke, deploy-account or declare transactions with the same hash are
    equal in every field, resource bounds, tip, data-availability modes and proof facts
    included, and are of the same type. *)
Theorem v3_hash_binding `{FeltExtrasLaws, !StarkLaws} t1 t2 :
  tx_v3_ok t1 -> tx_v3_ok t2 ->
  coll_free poseidon_hash_array (v3_hashed t1 ++ v3_hashed t2) ->
  (tx_v3_hash t1 = tx_v3_hash t2 <-> t1 = t2).
Proof.
  intros Hok1 Hok2 Hcf. split; [|by intros ->]. rewrite !tx_v3_hash_outer. intros Heq.
  apply outer_array_inj; [done..|]. apply (coll_free_spec _ _ _ _ Hcf); [mem_solve..|done].
Qed.

(** The V1 and V2 transaction hashes determine the transaction, its type included, unless
    Pedersen collides on the pairs hashed; array lengths are part of the hash. *)
Theorem v1_hash_binding `{FeltExtrasLaws, !StarkLaws} t1 t2 :
  len_ok (v1_inner t1) -> len_ok (v1_inner t2) ->
  coll_free pedersen_pair (v1_hashed t1 ++ v1_hashed t2) ->
  (tx_v1_hash t1 = tx_v1_hash t2 <-> t1 = t2).
Proof.
  intros Hl1 Hl2 Hcf. split; [|by intros ->]. rewrite !tx_v1_hash_outer. intros Heq.
  apply v1_outer_inj.
  - apply hash_elements_inj; [apply v1_outer_len..| |done].
    intros p q Hp Hq. apply (coll_free_spec _ _ _ _ Hcf); unfold v1_hashed; rewrite !elem_of_app; auto.
  - apply hash_elements_inj; [done..|].
    intros p q Hp Hq. apply (coll_free_spec _ _ _ _ Hcf); unfold v1_hashed; rewrite !elem_of_app; auto.
Qed.

(** Address calculation always succeeds and gives an address below 2^251 - 256; unless a
    raw hash wraps at that bound or Pedersen collides on the pairs hashed, equal addresses come
    from equal salt, class, constructor calldata and deployer. *)
Theorem contract_address_binding `{FeltExtrasLaws, !StarkLaws} s1 c1 cd1 d1 s2 c2 cd2 d2 :
  len_ok cd1 -> len_ok cd2 ->
  coll_free pedersen_pair
    ((hashed_pairs (address_array s1 c1 cd1 d1) ++ hashed_pairs cd1)
     ++ (hashed_pairs (address_array s2 c2 cd2 d2) ++ hashed_pairs cd2)) ->
  exists a1 a2,
    calculate_contract_address s1 c1 cd1 d1 = Ok a1 /\ felt_val a1 < ADDR_BOUND
    /\ calculate_contract_address s2 c2 cd2 d2 = Ok a2 /\ felt_val a2 < ADDR_BOUND
    /\ (felt_val (hash_elements (address_array s1 c1 cd1 d1)) < ADDR_BOUND ->
        felt_val (hash_elements (address_array s2 c2 cd2 d2)) < ADDR_BOUND ->
        a1 = a2 <-> s1 = s2 /\ c1 = c2 /\ cd1 = cd2 /\ d1 = d2).
Proof.
  intros Hl1 Hl2 Hcf. do 2 eexists. rewrite !calculate_contract_address_eq.
  split_and!; [done|rewrite normalize_address_val; by apply Z.mod_pos_bound
              |done|rewrite normalize_address_val; by apply Z.mod_pos_bound|].
  intros Hb1 Hb2. split; [|by intros (-> & -> & -> & ->)]. intros Heq.
  apply address_array_inj; [done..|]. apply (f_equal felt_val) in Heq.
  rewrite !normalize_address_val, !Z.mod_small in Heq by (split; [apply felt_val_range|done]).
  by apply felt_val_inj.
Qed.

(** ** Witnesses *)
#[local] Instance model_extras : @FeltExtras model_types :=
  {| felt_mul := fun a b : @Felt model_types => mk (mval a * mval b) : @Felt model_types;
     from_bytes_be_slice := fun bs => mk (be_value bs) : @Felt model_types;
     normalize_address := fun f : @Felt model_types => mk (mval f mod ADDR_BOUND) : @Felt model_types |}.

#[local] Instance model_extras_laws : @FeltExtrasLaws model_types model_extras.
Proof.
  constructor; intros; rewrite ?model_felt_val; cbn -[mval mk]; rewrite ?mval_mk; [done|done|].
  assert (0 < ADDR_BOUND < felt_prime) by done.
  apply Z.mod_small. pose proof (Z.mod_pos_bound (mval f) ADDR_BOUND). lia.
Qed.

#[local] Instance coll_free_dec {A B} `{EqDecision A, EqDecision B} (h : A -> B) xs : Decision (coll_free h xs).
Proof. unfold coll_free. apply _. Defined.

Definition tx_common (nonce : Z) : @V3Common model_types :=
  {| v3_address := mk 5 : @Felt model_types; v3_chain_id := mk 6; v3_nonce := mk nonce; v3_tip := 2;
     v3_l1_gas := {| max_amount := u64_MAX; max_price_per_unit := u128_MAX |};
     v3_l2_gas := resource_bounds_zero; v3_l1_data_gas := {| max_amount := 3; max_price_per_unit := 4 |};
     v3_paymaster_data := []; v3_nonce_da := DaL1; v3_fee_da := DaL2 |}.

Definition tx_a : @TxV3 model_types := InvokeV3 (tx_common 7) [mk 1; mk 2] [mk 8] [].
Definition tx_b : @TxV3 model_types := InvokeV3 (tx_common 7) [mk 1; mk 2] [mk 8] [mk 9].

Lemma v3_hash_binding_witness : tx_v3_hash tx_a <> tx_v3_hash tx_b.
Proof.
  intros Heq. apply (v3_hash_binding tx_a tx_b) in Heq; [discriminate Heq|..].
  1-2: vm_compute; repeat split; discriminate.
  refine (bool_decide_eq_true_1 _ _). vm_compute. reflexivity.
Defined.

Definition tx_c : @TxV1 model_types := InvokeV1 (mk 5) [mk 1; mk 2] (mk 10) (mk 6) (mk 7).
Definition tx_d : @TxV1 model_types := DeployAccountV1 (mk 5) (mk 1) [] (mk 2) (mk 10) (mk 6) (mk 7).

Lemma v1_hash_binding_witness : tx_v1_hash tx_c <> tx_v1_hash tx_d.
Proof.
  intros Heq. apply (v1_hash_binding tx_c tx_d) in Heq; [discriminate Heq|..].
  1-2: vm_compute; discriminate.
  refine (bool_decide_eq_true_1 _ _). vm_compute. reflexivity.
Defined.

Lemma contract_address_binding_witness :
  calculate_contract_address (mk 1 : @Felt model_types) (mk 2) [mk 3] (mk 0)
  <> calculate_contract_address (mk 4 : @Felt model_types) (mk 2) [mk 3] (mk 0).
Proof.
  destruct (contract_address_binding (mk 1 : @Felt model_types) (mk 2) [mk 3] (mk 0) (mk 4) (mk 2) [mk 3] (mk 0))
    as (a1 & a2 & -> & _ & -> & _ & Hinj); [vm_compute; discriminate..| |].
  { refine (bool_decide_eq_true_1 _ _). vm_compute. reflexivity. }
  intros Heq%(inj Ok). apply Hinj in Heq as [Heq _]; [|vm_compute; reflexivity..].
  apply (f_equal mval) in Heq. vm_compute in Heq. discriminate Heq.
Defined.
