(* ===== verification/Text.v ===== *)
(** * Text

    What the sources use of [str] and [String]: a string is its UTF-8 bytes.
    White space is Unicode's [White_Space]; decimal printing and parsing are the
    standard library's [Display] and [FromStr] for unsigned integers. *)

From stdpp Require Import base option list numbers strings.
From Stdlib Require Import ZArith Lia.
From S2P Require Import Prelude.

#[local] Open Scope Z_scope.

Definition string_bytes (s : string) : list Z :=
  map (fun c => Z.of_N (Ascii.N_of_ascii c)) (String.list_ascii_of_string s).

(** ** White space

    The blanks are one, two or three bytes long. *)
Definition is_blank1 (a : Z) : bool := (9 <=? a) && (a <=? 13) || (a =? 32).
Definition is_blank2 (a b : Z) : bool := (a =? 0xC2) && ((b =? 0x85) || (b =? 0xA0)).
Definition is_blank3 (a b c : Z) : bool :=
  (a =? 0xE1) && (b =? 0x9A) && (c =? 0x80)
  || (a =? 0xE2) && (b =? 0x80)
     && ((0x80 <=? c) && (c <=? 0x8A) || (c =? 0xA8) || (c =? 0xA9) || (c =? 0xAF))
  || (a =? 0xE2) && (b =? 0x81) && (c =? 0x9F)
  || (a =? 0xE3) && (b =? 0x80) && (c =? 0x80).

(** [trim_start]. *)
Fixpoint trim_start (l : list Z) : list Z :=
  match l with
  | [] => []
  | a :: l1 =>
      if is_blank1 a then trim_start l1
      else match l1 with
           | b :: l2 =>
               if is_blank2 a b then trim_start l2
               else match l2 with
                    | c :: l3 => if is_blank3 a b c then trim_start l3 else l
                    | [] => l
                    end
           | [] => l
           end
  end.

(** [trim_end], on the reversed string: a blank's bytes come last first. *)
Fixpoint trim_rev (l : list Z) : list Z :=
  match l with
  | [] => []
  | a :: l1 =>
      if is_blank1 a then trim_rev l1
      else match l1 with
           | b :: l2 =>
               if is_blank2 b a then trim_rev l2
               else match l2 with
                    | c :: l3 => if is_blank3 c b a then trim_rev l3 else l
                    | [] => l
                    end
           | [] => l
           end
  end.

Definition trim (l : list Z) : list Z := rev (trim_rev (rev (trim_start l))).

(** [s.trim().is_empty()]: nothing but blanks, so [trim_start] takes it all. *)
Definition is_blank (l : list Z) : bool :=
  match trim_start l with [] => true | _ => false end.

(** ** UTF-8 validity ([String::from_utf8]) *)
Definition in_range (lo hi b : Z) : bool := (lo <=? b) && (b <=? hi).
Definition is_cont (b : Z) : bool := in_range 0x80 0xBF b.

Fixpoint utf8_valid (l : list Z) : bool :=
  match l with
  | [] => true
  | a :: l1 =>
      if in_range 0 0x7F a then utf8_valid l1
      else match l1 with
           | [] => false
           | b :: l2 =>
               if in_range 0xC2 0xDF a && is_cont b then utf8_valid l2
               else match l2 with
                    | [] => false
                    | c :: l3 =>
                        if ((a =? 0xE0) && in_range 0xA0 0xBF b
                            || (in_range 0xE1 0xEC a || in_range 0xEE 0xEF a) && is_cont b
                            || (a =? 0xED) && in_range 0x80 0x9F b) && is_cont c
                        then utf8_valid l3
                        else match l3 with
                             | [] => false
                             | d :: l4 =>
                                 if ((a =? 0xF0) && in_range 0x90 0xBF b
                                     || in_range 0xF1 0xF3 a && is_cont b
                                     || (a =? 0xF4) && in_range 0x80 0x8F b)
                                    && is_cont c && is_cont d
                                 then utf8_valid l4 else false
                             end
                    end
           end
  end.

(** ** Decimal numbers *)
Definition is_digit (c : Z) : bool := in_range 48 57 c.

(** [u128]'s [Display]: its decimal digits, most significant first. *)
Fixpoint print_onto (fuel : nat) (z : Z) (rest : list Z) : list Z :=
  match fuel with
  | O => rest
  | S fuel =>
      let rest := (48 + z mod 10) :: rest in
      if z <? 10 then rest else print_onto fuel (z / 10) rest
  end.
(** 39 digits hold [2^128 - 1]. *)
Definition print_u128 (z : Z) : list Z := print_onto 39 z [].

(** The digits after the sign, with the overflow checks of [from_str]. *)
Fixpoint parse_digits (acc : Z) (l : list Z) : option Z :=
  match l with
  | [] => Some acc
  | c :: l =>
      if is_digit c then
        let acc := acc * 10 + (c - 48) in
        if acc <=? u128_MAX then parse_digits acc l else None
      else None
  end.

(** [str::parse::<u128>]: a leading [+] is accepted, the empty string and a lone
    sign are not. *)
Definition parse_u128 (l : list Z) : option Z :=
  match l with
  | [] => None
  | [c] => parse_digits 0 [c]
  | c :: l' => if c =? 43 then parse_digits 0 l' else parse_digits 0 l
  end.

(** [{:0>width$}] and [{:0<width$}] of ASCII text. *)
Definition pad_left (width : nat) (l : list Z) : list Z := replicate (width - length l) 48 ++ l.
Definition pad_right (width : nat) (l : list Z) : list Z := l ++ replicate (width - length l) 48.

(** [trim_end_matches('0')]. *)
Fixpoint drop_zeros (l : list Z) : list Z :=
  match l with c :: l' => if c =? 48 then drop_zeros l' else l | [] => [] end.
Definition trim_end_zeros (l : list Z) : list Z := rev (drop_zeros (rev l)).

(** ** Lemmas on text *)
Definition digits (l : list Z) : Prop := Forall (fun c => Is_true (is_digit c)) l.

Definition dec_value (l : list Z) : Z := fold_left (fun acc c => acc * 10 + (c - 48)) l 0.

Lemma is_digit_range c : Is_true (is_digit c) <-> 48 <= c <= 57.
Proof. unfold is_digit, in_range. rewrite Is_true_true, andb_true_iff, !Z.leb_le. lia. Qed.

Lemma dec_value_acc l acc :
  fold_left (fun acc c => acc * 10 + (c - 48)) l acc = acc * 10 ^ Z.of_nat (length l) + dec_value l.
Proof.
  unfold dec_value. revert acc; induction l as [|c l IH]; intros acc; cbn [fold_left length].
  - rewrite Z.pow_0_r. lia.
  - rewrite IH, (IH (0 * 10 + _)), Nat2Z.inj_succ, Z.pow_succ_r by lia. ring.
Qed.

Lemma dec_value_app l1 l2 :
  dec_value (l1 ++ l2) = dec_value l1 * 10 ^ Z.of_nat (length l2) + dec_value l2.
Proof. unfold dec_value at 1. rewrite fold_left_app. apply dec_value_acc. Qed.

Lemma dec_value_bound l : digits l -> 0 <= dec_value l < 10 ^ Z.of_nat (length l).
Proof.
  induction l as [|c l IH] using rev_ind; intros Hd; [done|].
  apply Forall_app in Hd as [Hd Hc]. apply Forall_singleton, is_digit_range in Hc.
  rewrite dec_value_app, length_app. cbn [length]. change (10 ^ Z.of_nat 1) with 10.
  rewrite Nat.add_1_r, Nat2Z.inj_succ, Z.pow_succ_r by lia.
  change (dec_value [c]) with (c - 48). specialize (IH Hd). lia.
Qed.

Lemma dec_value_zeros n : dec_value (replicate n 48) = 0.
Proof.
  induction n as [|n IH]; [done|]. cbn [replicate]. change (48 :: replicate n 48) with ([48] ++ replicate n 48).
  rewrite dec_value_app, IH. change (dec_value [48]) with 0. lia.
Qed.

Lemma digits_zeros n : digits (replicate n 48).
Proof. apply Forall_replicate. done. Qed.

(** Printing. *)
Lemma print_onto_app fuel z rest : print_onto fuel z rest = print_onto fuel z [] ++ rest.
Proof.
  revert z rest; induction fuel as [|fuel IH]; intros z rest; cbn [print_onto]; [done|].
  destruct (z <? 10); [done|]. rewrite IH, (IH _ [_]), <- app_assoc. done.
Qed.

Lemma print_onto_spec fuel z :
  0 <= z < 10 ^ Z.of_nat fuel ->
  digits (print_onto fuel z []) /\ dec_value (print_onto fuel z []) = z
  /\ forall n, (0 < n)%nat -> z < 10 ^ Z.of_nat n -> (length (print_onto fuel z []) <= n)%nat.
Proof.
  revert z; induction fuel as [|fuel IH]; intros z Hz; [cbn in Hz; split_and!; [constructor|cbn; lia|cbn; lia]|].
  cbn [print_onto]. rewrite Nat2Z.inj_succ, Z.pow_succ_r in Hz by lia.
  pose proof (Z.mod_pos_bound z 10 ltac:(lia)) as Hm. pose proof (Z.div_mod z 10 ltac:(lia)) as Hdm.
  assert (Is_true (is_digit (48 + z mod 10))) as Hdig by (apply is_digit_range; lia).
  destruct (Z.ltb_spec z 10) as [Hlt|Hge].
  - rewrite Z.mod_small by lia. split_and!; [constructor; [apply is_digit_range; lia|constructor]| |].
    + change (dec_value [48 + z]) with (48 + z - 48). lia.
    + cbn. lia.
  - rewrite print_onto_app. destruct (IH (z / 10)) as (Hd & Hv & Hl).
    { split; [apply Z.div_pos; lia|apply Z.div_lt_upper_bound; lia]. }
    split_and!.
    + apply Forall_app. split; [done|by constructor].
    + rewrite dec_value_app, Hv. change (dec_value [48 + z mod 10]) with (48 + z mod 10 - 48).
      change (10 ^ Z.of_nat (length [48 + z mod 10])) with 10. lia.
    + intros n Hn Hz'. rewrite length_app. cbn [length].
      destruct n as [|[|n]]; [lia|cbn in Hz'; lia|].
      rewrite Nat2Z.inj_succ, Z.pow_succ_r in Hz' by lia.
      specialize (Hl (S n) ltac:(lia)). assert (z / 10 < 10 ^ Z.of_nat (S n)) by (apply Z.div_lt_upper_bound; lia). lia.
Qed.

Lemma print_onto_nonempty fuel z : (0 < fuel)%nat -> print_onto fuel z [] <> [].
Proof.
  destruct fuel as [|fuel]; [lia|]. intros _. cbn [print_onto]. destruct (z <? 10); [done|].
  rewrite print_onto_app. by intros []%app_eq_nil.
Qed.

Lemma print_u128_spec z :
  0 <= z <= u128_MAX ->
  digits (print_u128 z) /\ dec_value (print_u128 z) = z /\ print_u128 z <> []
  /\ forall n, (0 < n)%nat -> z < 10 ^ Z.of_nat n -> (length (print_u128 z) <= n)%nat.
Proof.
  intros Hz. destruct (print_onto_spec 39 z) as (Hd & Hv & Hl).
  { assert (u128_MAX < 10 ^ Z.of_nat 39) by by vm_compute. lia. }
  split_and!; [done|done|apply print_onto_nonempty; lia|done].
Qed.

(** Parsing. *)
Lemma parse_digits_spec l acc :
  digits l -> 0 <= acc -> fold_left (fun acc c => acc * 10 + (c - 48)) l acc <= u128_MAX ->
  parse_digits acc l = Some (fold_left (fun acc c => acc * 10 + (c - 48)) l acc).
Proof.
  revert acc; induction l as [|c l IH]; intros acc Hd Ha Hb; [done|].
  apply Forall_cons in Hd as [Hc Hd]. cbn [parse_digits fold_left] in *.
  rewrite (Is_true_true_1 _ Hc). apply is_digit_range in Hc.
  assert (acc * 10 + (c - 48) <= u128_MAX).
  { rewrite dec_value_acc in Hb. pose proof (dec_value_bound l Hd).
    assert (1 <= 10 ^ Z.of_nat (length l)) by (pose proof (Z.pow_pos_nonneg 10 (Z.of_nat (length l))); lia). nia. }
  rewrite (proj2 (Z.leb_le _ _)) by done. apply IH; [done|lia|done].
Qed.

Lemma parse_u128_digits l :
  digits l -> l <> [] -> dec_value l <= u128_MAX -> parse_u128 l = Some (dec_value l).
Proof.
  intros Hd Hne Hb. assert (parse_u128 l = parse_digits 0 l) as ->.
  { destruct l as [|c [|c' l]]; [done|done|]. cbn [parse_u128].
    apply Forall_cons in Hd as [Hc%is_digit_range _]. destruct (Z.eqb_spec c 43); [lia|done]. }
  by apply parse_digits_spec.
Qed.

(** Padding and trimming. *)
Lemma rev_replicate {A} n (x : A) : rev (replicate n x) = replicate n x.
Proof.
  induction n as [|n IH]; [done|]. cbn [replicate rev]. rewrite IH. by rewrite <- replicate_S_end.
Qed.

Lemma trim_end_zeros_pad n l :
  length l = n -> pad_right n (trim_end_zeros l) = l /\ (length (trim_end_zeros l) <= n)%nat.
Proof.
  intros <-. unfold pad_right, trim_end_zeros.
  assert (exists k, rev l = replicate k 48 ++ drop_zeros (rev l)) as [k Hk].
  { generalize (rev l). clear. induction l as [|c l [k IH]]; [by exists O|]. cbn [drop_zeros].
    destruct (Z.eqb_spec c 48) as [->|]; [exists (S k); cbn; by f_equal|by exists O]. }
  pose proof (f_equal (@rev Z) Hk) as Hr. rewrite rev_involutive, rev_app_distr in Hr.
  rewrite rev_replicate in Hr.
  pose proof (f_equal length Hk) as Hlen. rewrite length_rev, length_app, length_replicate in Hlen.
  rewrite length_rev. replace (length l - length (drop_zeros (rev l)))%nat with k by lia.
  split; [by symmetry|lia].
Qed.

(** Text made of digits and points has nothing to trim. *)
Definition plain (c : Z) : Prop := 46 <= c <= 57.

Lemma plain_not_blank a b c :
  plain a -> is_blank1 a = false /\ is_blank2 a b = false /\ is_blank3 a b c = false.
Proof.
  unfold plain, is_blank1, is_blank2, is_blank3. intros Ha.
  rewrite !(proj2 (Z.eqb_neq a _)), (proj2 (Z.leb_gt a 13)) by lia. cbn. by rewrite !andb_false_r.
Qed.

Lemma trim_start_plain l : Forall plain l -> trim_start l = l.
Proof.
  intros Hl. destruct Hl as [|a l Ha Hl]; [done|]. cbn [trim_start].
  rewrite (proj1 (plain_not_blank a 0 0 Ha)). destruct l as [|b l]; [done|].
  rewrite (proj1 (proj2 (plain_not_blank a b 0 Ha))). destruct l as [|c l]; [done|].
  by rewrite (proj2 (proj2 (plain_not_blank a b c Ha))).
Qed.

Lemma trim_rev_plain l : Forall plain l -> trim_rev l = l.
Proof.
  intros Hl. destruct Hl as [|a l Ha Hl]; [done|]. cbn [trim_rev].
  rewrite (proj1 (plain_not_blank a 0 0 Ha)). destruct Hl as [|b l Hb Hl]; [done|].
  rewrite (proj1 (proj2 (plain_not_blank b a 0 Hb))). destruct Hl as [|c l Hc Hl]; [done|].
  by rewrite (proj2 (proj2 (plain_not_blank c b a Hc))).
Qed.

Lemma trim_plain l : Forall plain l -> trim l = l.
Proof.
  intros Hl. unfold trim. rewrite trim_start_plain by done.
  rewrite trim_rev_plain, rev_involutive; [done|]. by apply Forall_rev.
Qed.

Lemma digits_plain l : digits l -> Forall plain l.
Proof.
  intros Hl. eapply Forall_impl; [exact Hl|]. intros c Hc%is_digit_range. unfold plain. lia.
Qed.

(** The first occurrence of a byte ([find] and [position]). *)
Fixpoint position (c : Z) (l : list Z) : option nat :=
  match l with
  | [] => None
  | b :: l => if b =? c then Some O else S <$> position c l
  end.

Lemma position_app c l1 l2 :
  position c (l1 ++ l2)
  = match position c l1 with Some p => Some p | None => Nat.add (length l1) <$> position c l2 end.
Proof.
  induction l1 as [|b l1 IH]; cbn; [by destruct (position c l2)|].
  destruct (b =? c); [done|]. rewrite IH. destruct (position c l1), (position c l2); done.
Qed.

Lemma position_lt c l p : position c l = Some p -> (p < length l)%nat.
Proof.
  revert p; induction l as [|b l IH]; intros p; cbn; [done|].
  destruct (b =? c); [intros [= <-]; lia|]. destruct (position c l) as [q|]; [|done].
  intros [= <-]. specialize (IH q eq_refl). lia.
Qed.

Lemma position_digits l : digits l -> position 46 l = None.
Proof.
  induction 1 as [|c l Hc _ IH]; [done|]. cbn. apply is_digit_range in Hc.
  destruct (Z.eqb_spec c 46); [lia|]. by rewrite IH.
Qed.

Lemma position_point l1 l2 : digits l1 -> position 46 (l1 ++ 46 :: l2) = Some (length l1).
Proof. intros Hl. rewrite position_app, position_digits by done. cbn. f_equal. lia. Qed.
