(* ===== verification/Amount.v ===== *)
(** * Token amounts and unit conversion

    crates/common/src/amount.rs and the conversions of crates/common/src/utils.rs:
    exact decimal amounts in [u128] base units, their text form, and the rate
    between base units and Tongo units.  Text is UTF-8 bytes; [decimals] and
    [scale] are [u8]. *)

From stdpp Require Import base option list numbers strings.
From Stdlib Require Import ZArith Lia.
From S2P Require Import Prelude Text StarkLib Types.

#[local] Open Scope Z_scope.

Record Amount : Type := { amount_raw : Z; amount_decimals : nat }.

(** [Amount::from_raw]. *)
Definition from_raw (raw : Z) (decimals : nat) : Amount :=
  {| amount_raw := raw; amount_decimals := decimals |}.

(** [str.parse().map_err(..)]. *)
Definition parse_or (l : list Z) (e : KmsError) : Result Z := ok_or (parse_u128 l) e.

(** [Amount::from_human]. *)
Definition from_human (s : list Z) (decimals : nat) : Result Amount :=
  let s := trim s in
  factor ← ok_or (u128_ten_pow decimals) (InvalidAmount "decimals too large");
  raw ←
    match position 46 s with
    | Some dot =>
        let integer_part := take dot s in
        let frac_part := drop (dot + 1) s in
        _ ← reject_if (decimals <? length frac_part)%nat
              (InvalidAmount "too many decimal places (max {})");
        int_val ← match integer_part with
                  | [] => Ok 0
                  | _ => parse_or integer_part (InvalidAmount "invalid number: {}")
                  end;
        let padded_frac := pad_right decimals frac_part in
        frac_val ← parse_or padded_frac (InvalidAmount "invalid fraction: {}");
        ok_or (v ← u128_checked_mul int_val factor; u128_checked_add v frac_val)
          (InvalidAmount "overflow")
    | None =>
        int_val ← parse_or s (InvalidAmount "invalid number: {}");
        ok_or (u128_checked_mul int_val factor) (InvalidAmount "overflow")
    end;
  Ok {| amount_raw := raw; amount_decimals := decimals |}.

Definition zero_point : list Z := [48; 46].

(** [Amount::to_human]. *)
Definition to_human (a : Amount) : list Z :=
  let decimals := amount_decimals a in
  if (decimals =? 0)%nat then print_u128 (amount_raw a)
  else match u128_ten_pow decimals with
       | None =>
           let frac_str := pad_left decimals (print_u128 (amount_raw a)) in
           match trim_end_zeros frac_str with
           | [] => zero_point ++ [48]
           | trimmed => zero_point ++ trimmed
           end
       | Some factor =>
           let integer := amount_raw a / factor in
           let fraction := amount_raw a mod factor in
           if fraction =? 0 then print_u128 integer ++ [46; 48]
           else
             let frac_str := pad_left decimals (print_u128 fraction) in
             print_u128 integer ++ 46 :: trim_end_zeros frac_str
       end.

(** [Amount::checked_add] and [Amount::checked_sub]. *)
Definition amount_checked_add (a b : Amount) : Result Amount :=
  _ ← reject_if (negb (amount_decimals a =? amount_decimals b)%nat)
        (InvalidAmount "cannot add amounts with different decimals");
  raw ← ok_or (u128_checked_add (amount_raw a) (amount_raw b)) (InvalidAmount "overflow");
  Ok {| amount_raw := raw; amount_decimals := amount_decimals a |}.

Definition amount_checked_sub (a b : Amount) : Result Amount :=
  _ ← reject_if (negb (amount_decimals a =? amount_decimals b)%nat)
        (InvalidAmount "cannot subtract amounts with different decimals");
  raw ← ok_or (u128_checked_sub (amount_raw a) (amount_raw b)) (InvalidAmount "underflow");
  Ok {| amount_raw := raw; amount_decimals := amount_decimals a |}.

Definition amount_is_zero (a : Amount) : bool := amount_raw a =? 0.

(** [Amount::to_u256]. *)
Definition amount_to_u256 `{StarkTypes} (a : Amount) : Felt * Felt :=
  (felt_of_Z (amount_raw a), felt_of_Z 0).

(** ** Conversions of utils.rs *)
Definition STRK_DECIMALS : nat := 18.

Definition validate_rate (rate : Z) : Result unit :=
  reject_if (rate =? 0) (InvalidAmount "Rate must be greater than zero").

(** [amount.div_ceil(rate)]. *)
Definition div_ceil (a b : Z) : Z := if 0 <? a mod b then a / b + 1 else a / b.

Definition base_units_to_tongo (amount rate : Z) : Result Z :=
  _ ← validate_rate rate;
  Ok (div_ceil amount rate).

Definition tongo_to_base_units (tongo_amount rate : Z) : Result Z :=
  _ ← validate_rate rate;
  ok_or (u128_checked_mul tongo_amount rate) (InvalidAmount "Amount overflow").

Definition fri_to_strk (fri : Z) : Amount := from_raw fri STRK_DECIMALS.

Definition tongo_to_strk (tongo_amount rate : Z) : Result Amount :=
  fri ← tongo_to_base_units tongo_amount rate;
  Ok (fri_to_strk fri).

(** [trim_end_matches("STRK")]: every trailing occurrence. *)
Fixpoint trim_suffix_rev (fuel : nat) (l : list Z) : list Z :=
  match fuel, l with
  | S fuel, 75 :: 82 :: 84 :: 83 :: l' => trim_suffix_rev fuel l'
  | _, _ => l
  end.
Definition trim_end_strk (l : list Z) : list Z := rev (trim_suffix_rev (length l) (rev l)).

Definition strk_to_fri (strk : list Z) : Result Z :=
  let strk_clean := trim (trim_end_strk (trim strk)) in
  _ ← reject_if (match strk_clean with 45 :: _ => true | _ => false end)
        (InvalidAmount "Amount cannot be negative");
  amount ← from_human strk_clean STRK_DECIMALS;
  Ok (amount_raw amount).

Definition strk_to_tongo (strk : list Z) (rate : Z) : Result Z :=
  fri ← strk_to_fri strk;
  base_units_to_tongo fri rate.

Definition ten_pow (exp : nat) : Result Z :=
  ok_or (u128_ten_pow exp) (InvalidAmount "Amount overflow").

Definition round_div (value divisor : Z) : Result Z :=
  let half := divisor / 2 in
  adjusted ← ok_or (u128_checked_add value half) (InvalidAmount "Amount overflow");
  Ok (adjusted / divisor).

Definition format_scaled_integer (value : Z) (scale : nat) : Result (list Z) :=
  factor ← ten_pow scale;
  let integer := value / factor in
  let fraction := value mod factor in
  Ok (print_u128 integer ++ 46 :: pad_left scale (print_u128 fraction)).

Definition format_amount_with_scale (amount : Amount) (scale : nat) : Result (list Z) :=
  let decimals := amount_decimals amount in
  if (scale =? 0)%nat then
    divisor ← ten_pow decimals;
    rounded ← round_div (amount_raw amount) divisor;
    Ok (print_u128 rounded)
  else if (scale <? decimals)%nat then
    divisor ← ten_pow (decimals - scale);
    rounded ← round_div (amount_raw amount) divisor;
    format_scaled_integer rounded scale
  else
    multiplier ← ten_pow (scale - decimals);
    scaled ← ok_or (u128_checked_mul (amount_raw amount) multiplier) (InvalidAmount "Amount overflow");
    format_scaled_integer scaled scale.

Definition format_tongo_balance (tongo_amount rate : Z) : Result (list Z) :=
  strk ← tongo_to_strk tongo_amount rate;
  text ← format_amount_with_scale strk 2;
  Ok (text ++ string_bytes " STRK").

(** ** Lemmas *)
Lemma u128_ten_pow_small d : (d <= 38)%nat -> u128_ten_pow d = Some (10 ^ Z.of_nat d).
Proof.
  intros Hd. unfold u128_ten_pow. rewrite (proj2 (in_u128_spec _)); [done|]. split; [apply Z.pow_nonneg; lia|].
  transitivity (10 ^ 38); [apply Z.pow_le_mono_r; lia|]. by vm_compute.
Qed.

Lemma checked_mul_Some a b : 0 <= a * b <= u128_MAX -> u128_checked_mul a b = Some (a * b).
Proof. intros Hab. unfold u128_checked_mul. by rewrite (proj2 (in_u128_spec _)). Qed.

Lemma checked_add_Some a b : 0 <= a + b <= u128_MAX -> u128_checked_add a b = Some (a + b).
Proof. intros Hab. unfold u128_checked_add. by rewrite (proj2 (in_u128_spec _)). Qed.

Lemma pad_right_spec d fp :
  digits fp -> (length fp <= d)%nat ->
  digits (pad_right d fp) /\ length (pad_right d fp) = d
  /\ dec_value (pad_right d fp) = dec_value fp * 10 ^ Z.of_nat (d - length fp).
Proof.
  intros Hd Hl. unfold pad_right. split_and!.
  - apply Forall_app. split; [done|apply digits_zeros].
  - rewrite length_app, length_replicate. lia.
  - rewrite dec_value_app, dec_value_zeros, length_replicate. lia.
Qed.

Lemma pad_left_spec d l :
  digits l -> (length l <= d)%nat ->
  digits (pad_left d l) /\ length (pad_left d l) = d /\ dec_value (pad_left d l) = dec_value l.
Proof.
  intros Hd Hl. unfold pad_left. split_and!.
  - apply Forall_app. split; [apply digits_zeros|done].
  - rewrite length_app, length_replicate. lia.
  - rewrite dec_value_app, dec_value_zeros. lia.
Qed.

(** The exact value of [integer.fraction] in base units. *)
Definition decimal_raw (ip fp : list Z) (d : nat) : Z :=
  dec_value ip * 10 ^ Z.of_nat d + dec_value fp * 10 ^ Z.of_nat (d - length fp).

Lemma decimal_raw_parts ip fp d :
  digits ip -> digits fp ->
  0 <= dec_value ip <= dec_value ip * 10 ^ Z.of_nat d
  /\ 0 <= dec_value fp * 10 ^ Z.of_nat (d - length fp).
Proof.
  intros Hi Hf. pose proof (dec_value_bound ip Hi). pose proof (dec_value_bound fp Hf).
  pose proof (Z.pow_pos_nonneg 10 (Z.of_nat d)). pose proof (Z.pow_pos_nonneg 10 (Z.of_nat (d - length fp))). nia.
Qed.

Lemma from_human_exact ip fp d :
  digits ip -> digits fp -> (length fp <= d <= 38)%nat -> (0 < d)%nat ->
  decimal_raw ip fp d <= u128_MAX ->
  from_human (ip ++ 46 :: fp) d = Ok (from_raw (decimal_raw ip fp d) d).
Proof.
  intros Hip Hfp Hlen Hd Hmax. unfold from_human.
  destruct (decimal_raw_parts ip fp d Hip Hfp) as [Hi Hf]. unfold decimal_raw in Hmax.
  destruct (pad_right_spec d fp Hfp (proj1 Hlen)) as (Hpd & Hpl & Hpv).
  rewrite trim_plain by (apply Forall_app; split; [|constructor]; [by apply digits_plain|unfold plain; lia|by apply digits_plain]).
  rewrite u128_ten_pow_small by lia. cbn [ok_or mbind outcome_bind].
  rewrite position_point by done.
  replace (drop (length ip + 1) (ip ++ 46 :: fp)) with fp
    by (rewrite drop_app_ge by lia; replace (length ip + 1 - length ip)%nat with 1%nat by lia; done).
  rewrite take_app_length. rewrite (proj2 (Nat.ltb_ge _ _)) by lia.
  cbn [reject_if mbind outcome_bind].
  assert (match ip with [] => Ok 0 | _ :: _ => parse_or ip (InvalidAmount "invalid number: {}") end
          = Ok (dec_value ip)) as ->.
  { destruct ip as [|c ip]; [done|]. unfold parse_or. rewrite parse_u128_digits; [done|done|done|lia]. }
  cbn [mbind outcome_bind]. unfold parse_or.
  rewrite parse_u128_digits, Hpv; [|done|intros Hn; rewrite Hn in Hpl; cbn in Hpl; lia|lia].
  cbn [ok_or mbind outcome_bind option_bind].
  rewrite checked_mul_Some by lia. cbn [mbind option_bind]. rewrite checked_add_Some by lia. done.
Qed.

Lemma from_human_integer ip d :
  digits ip -> ip <> [] -> (d <= 38)%nat -> dec_value ip * 10 ^ Z.of_nat d <= u128_MAX ->
  from_human ip d = Ok (from_raw (dec_value ip * 10 ^ Z.of_nat d) d).
Proof.
  intros Hip Hne Hd Hmax. unfold from_human.
  destruct (decimal_raw_parts ip [] d Hip ltac:(constructor)) as [Hi _].
  rewrite trim_plain by by apply digits_plain.
  rewrite u128_ten_pow_small, position_digits by done. cbn [ok_or mbind outcome_bind].
  unfold parse_or. rewrite parse_u128_digits by (done || lia). cbn [ok_or mbind outcome_bind].
  rewrite checked_mul_Some by lia. done.
Qed.

(** The text of an amount is its exact decimal expansion. *)
Lemma to_human_decimal a :
  0 <= amount_raw a <= u128_MAX -> (0 < amount_decimals a <= 38)%nat ->
  exists ip fp, to_human a = ip ++ 46 :: fp /\ digits ip /\ digits fp
    /\ (length fp <= amount_decimals a)%nat /\ decimal_raw ip fp (amount_decimals a) = amount_raw a.
Proof.
  destruct a as [raw d]. cbn [amount_raw amount_decimals]. intros Hraw Hd. unfold to_human.
  cbn [amount_raw amount_decimals]. rewrite (proj2 (Nat.eqb_neq _ _)), u128_ten_pow_small by lia.
  assert (1 <= 10 ^ Z.of_nat d) as Hpow by (pose proof (Z.pow_pos_nonneg 10 (Z.of_nat d)); lia).
  pose proof (Z.mod_pos_bound raw (10 ^ Z.of_nat d) ltac:(lia)) as Hm.
  pose proof (Z.div_mod raw (10 ^ Z.of_nat d) ltac:(lia)) as Hdm.
  assert (0 <= raw / 10 ^ Z.of_nat d <= raw) as Hq by (split; [apply Z.div_pos; lia|apply Z.div_le_upper_bound; nia]).
  destruct (print_u128_spec (raw / 10 ^ Z.of_nat d)) as (Hid & Hiv & _ & _); [lia|].
  exists (print_u128 (raw / 10 ^ Z.of_nat d)). unfold decimal_raw. rewrite Hiv.
  destruct (Z.eqb_spec (raw mod 10 ^ Z.of_nat d) 0) as [Hz|Hnz].
  - exists [48]. split_and!; [done|done|apply (digits_zeros 1)|cbn; lia|].
    change (dec_value [48]) with 0. lia.
  - destruct (print_u128_spec (raw mod 10 ^ Z.of_nat d)) as (Hfd & Hfv & _ & Hfl); [lia|].
    destruct (pad_left_spec d (print_u128 (raw mod 10 ^ Z.of_nat d)) Hfd) as (Hpd & Hpl & Hpv); [apply Hfl; lia|].
    set (frac := pad_left d (print_u128 (raw mod 10 ^ Z.of_nat d))) in *.
    destruct (trim_end_zeros_pad d frac Hpl) as [Htr Htl].
    assert (digits (trim_end_zeros frac)) as Htd.
    { rewrite <- Htr in Hpd. by apply Forall_app in Hpd as [? _]. }
    exists (trim_end_zeros frac).
    split; [reflexivity|]. split; [exact Hid|]. split; [exact Htd|]. split; [exact Htl|].
    destruct (pad_right_spec d (trim_end_zeros frac) Htd Htl) as (_ & _ & Hv).
    rewrite Htr, Hpv, Hfv in Hv. lia.
Qed.

Lemma div_ceil_spec a b : 0 < b -> a <= div_ceil a b * b < a + b.
Proof.
  intros Hb. unfold div_ceil. pose proof (Z.mod_pos_bound a b Hb). pose proof (Z.div_mod a b).
  destruct (Z.ltb_spec 0 (a mod b)); nia.
Qed.

Lemma round_div_spec value divisor r :
  0 < divisor -> round_div value divisor = Ok r -> 2 * Z.abs (r * divisor - value) <= divisor.
Proof.
  intros Hd Hr. unfold round_div in Hr. inv_ok.
  unfold u128_checked_add in H. destruct (in_u128 _); [|done]. injection H as <-.
  pose proof (Z.mod_pos_bound (value + divisor / 2) divisor Hd).
  pose proof (Z.div_mod (value + divisor / 2) divisor).
  pose proof (Z.mod_pos_bound divisor 2). pose proof (Z.div_mod divisor 2). nia.
Qed.

Lemma format_scaled_integer_spec value scale :
  0 <= value <= u128_MAX -> (0 < scale <= 38)%nat ->
  exists ip fp, format_scaled_integer value scale = Ok (ip ++ 46 :: fp) /\ digits ip /\ digits fp
    /\ length fp = scale /\ decimal_raw ip fp scale = value.
Proof.
  intros Hv Hs. unfold format_scaled_integer, ten_pow. rewrite u128_ten_pow_small by lia.
  cbn [ok_or mbind outcome_bind]. set (factor := 10 ^ Z.of_nat scale).
  assert (1 <= factor) as Hpow by (pose proof (Z.pow_pos_nonneg 10 (Z.of_nat scale)); lia).
  pose proof (Z.mod_pos_bound value factor ltac:(lia)) as Hm.
  pose proof (Z.div_mod value factor ltac:(lia)) as Hdm.
  assert (0 <= value / factor <= value) as Hq by (split; [apply Z.div_pos; lia|apply Z.div_le_upper_bound; nia]).
  destruct (print_u128_spec (value / factor)) as (Hid & Hiv & _ & _); [lia|].
  destruct (print_u128_spec (value mod factor)) as (Hfd & Hfv & _ & Hfl); [lia|].
  destruct (pad_left_spec scale (print_u128 (value mod factor)) Hfd) as (Hpd & Hpl & Hpv); [apply Hfl; lia|].
  exists (print_u128 (value / factor)), (pad_left scale (print_u128 (value mod factor))).
  split; [reflexivity|]. split; [exact Hid|]. split; [exact Hpd|]. split; [exact Hpl|].
  unfold decimal_raw. rewrite Hiv, Hpv, Hfv, Hpl, Nat.sub_diag. fold factor. lia.
Qed.

(** ** Properties *)

(** Printing an amount with at most 38 decimals and parsing it back gives the same amount. *)
Theorem amount_roundtrip a :
  0 <= amount_raw a <= u128_MAX -> (amount_decimals a <= 38)%nat ->
  from_human (to_human a) (amount_decimals a) = Ok a.
Proof.
  intros Hraw Hd. destruct a as [raw d]. cbn [amount_raw amount_decimals] in *.
  destruct (decide (d = 0%nat)) as [->|Hne].
  - destruct (print_u128_spec raw Hraw) as (Hdig & Hv & Hnil & _).
    change (to_human _) with (print_u128 raw). rewrite from_human_integer by (done || rewrite Hv; cbn; lia).
    rewrite Hv. change (10 ^ Z.of_nat 0) with 1. by rewrite Z.mul_1_r.
  - destruct (to_human_decimal {| amount_raw := raw; amount_decimals := d |})
      as (ip & fp & -> & Hip & Hfp & Hlen & Hval); [done|cbn; lia|].
    cbn [amount_raw amount_decimals] in *. rewrite from_human_exact by (done || lia). by rewrite Hval.
Qed.

(** A plain decimal is read as its exact value in base units. *)
Theorem from_human_value ip fp d :
  digits ip -> digits fp -> (length fp <= d <= 38)%nat -> (0 < d)%nat ->
  decimal_raw ip fp d <= u128_MAX ->
  from_human (ip ++ 46 :: fp) d = Ok (from_raw (decimal_raw ip fp d) d).
Proof. apply from_human_exact. Qed.

(** Parsing accepts a plus sign inside the fraction and reads 1.+5 as 1.05; and 1. with
    zero decimals is refused. *)
Theorem from_human_accepts_signed_fraction :
  from_human (string_bytes "1.+5") 6 = Ok (from_raw 1050000 6)
  /\ from_human (string_bytes "1.5") 6 = Ok (from_raw 1500000 6)
  /\ from_human (string_bytes "1.") 0 = Err (InvalidAmount "invalid fraction: {}").
Proof. split_and!; reflexivity. Qed.

(** Conversion to Tongo units rounds up by less than one unit; the way back is exact. *)
Theorem rate_conversion_roundtrip amount tongo rate :
  0 <= amount <= u128_MAX -> 0 < rate <= u128_MAX -> 0 <= tongo * rate <= u128_MAX ->
  (exists t, base_units_to_tongo amount rate = Ok t /\ amount <= t * rate < amount + rate /\ 0 <= t <= amount)
  /\ (b ← tongo_to_base_units tongo rate; base_units_to_tongo b rate) = Ok tongo
  /\ base_units_to_tongo amount 0 = Err (InvalidAmount "Rate must be greater than zero").
Proof.
  intros Ha Hr Ht. unfold base_units_to_tongo, tongo_to_base_units, validate_rate.
  rewrite (proj2 (Z.eqb_neq rate 0)) by lia. cbn [reject_if mbind outcome_bind].
  rewrite checked_mul_Some by done. cbn [ok_or mbind outcome_bind]. split_and!.
  - exists (div_ceil amount rate). pose proof (div_ceil_spec amount rate). split_and!; [done|lia|lia|nia|nia].
  - f_equal. pose proof (div_ceil_spec (tongo * rate) rate). nia.
  - done.
Qed.

(** A formatted Tongo balance has two decimals and is within half a cent-unit of the exact
    value. *)
Theorem format_balance_rounds tongo rate text :
  0 <= tongo -> 0 < rate -> format_tongo_balance tongo rate = Ok text ->
  exists ip fp, text = (ip ++ 46 :: fp) ++ string_bytes " STRK" /\ digits ip /\ digits fp
    /\ length fp = 2%nat
    /\ 2 * Z.abs (decimal_raw ip fp 2 * 10 ^ 16 - tongo * rate) <= 10 ^ 16.
Proof.
  intros Ht Hr Hf. unfold format_tongo_balance in Hf.
  apply bind_Ok in Hf as (strk & Hs & Hf). apply bind_Ok in Hf as (body & Hb & [= <-]).
  unfold tongo_to_strk, tongo_to_base_units in Hs. inv_ok.
  match goal with H : u128_checked_mul _ _ = Some ?f |- _ =>
    unfold u128_checked_mul in H; destruct (in_u128 (tongo * rate)) eqn:Hin; [|discriminate H]; injection H as <- end.
  apply in_u128_spec in Hin.
  change (format_amount_with_scale (fri_to_strk (tongo * rate)) 2) with
    (divisor ← ten_pow 16; rounded ← round_div (tongo * rate) divisor; format_scaled_integer rounded 2) in Hb.
  unfold ten_pow in Hb. rewrite u128_ten_pow_small in Hb by lia. cbn [ok_or mbind outcome_bind] in Hb.
  apply bind_Ok in Hb as (rounded & Hround & Hb).
  change (10 ^ Z.of_nat 16) with (10 ^ 16) in Hround.
  pose proof (round_div_spec (tongo * rate) (10 ^ 16) rounded ltac:(lia) Hround) as Hclose.
  destruct (format_scaled_integer_spec rounded 2) as (ip & fp & Hfmt & Hip & Hfp & Hlen & Hval);
    [lia|lia|]. rewrite Hfmt in Hb. injection Hb as <-.
  exists ip, fp. rewrite Hval. by split_and!.
Qed.

Lemma amount_roundtrip_witness :
  to_human (from_raw 1500000 6) = string_bytes "1.5"
  /\ from_human (to_human (from_raw 1500000 6)) 6 = Ok (from_raw 1500000 6).
Proof. split; [reflexivity|]. apply (amount_roundtrip (from_raw 1500000 6)); cbn [amount_raw amount_decimals from_raw]; unfold u128_MAX; lia. Defined.

Lemma from_human_value_witness :
  from_human (string_bytes "12.034") 6 = Ok (from_raw 12034000 6).
Proof.
  apply (from_human_value (string_bytes "12") (string_bytes "034") 6);
    first [by repeat constructor | by vm_compute | cbn; lia].
Defined.

Lemma rate_conversion_roundtrip_witness :
  exists t, base_units_to_tongo 1001 10 = Ok t /\ 1001 <= t * 10 < 1011.
Proof.
  destruct (rate_conversion_roundtrip 1001 5 10) as [(t & Ht & Hb & _) _]; [unfold u128_MAX; lia..|].
  exists t. split; [exact Ht|lia].
Defined.

Lemma format_balance_rounds_witness :
  format_tongo_balance 1555 (10 ^ 16) = Ok (string_bytes "15.55 STRK")
  /\ exists ip fp, string_bytes "15.55 STRK" = (ip ++ 46 :: fp) ++ string_bytes " STRK"
    /\ decimal_raw ip fp 2 = 1555.
Proof.
  split; [reflexivity|].
  destruct (format_balance_rounds 1555 (10 ^ 16) (string_bytes "15.55 STRK"))
    as (ip & fp & Htext & _ & _ & _ & Hclose); [lia|lia|reflexivity|].
  exists ip, fp. split; [exact Htext|]. lia.
Defined.
