(* ===== verification/Fee.v ===== *)
(** * Fee ceilings

    crates/common/src/fee.rs: caller-supplied ceilings on the resource bounds a
    wallet signs.  The scaling of estimates uses [f64]: a number is kept as an
    integer of halves and rounded to 53 significant bits, ties to even, which is
    what IEEE 754 does to the integers and products that occur here. *)

From stdpp Require Import base option list numbers strings.
From Stdlib Require Import ZArith Lia.
From S2P Require Import Prelude.

#[local] Open Scope string_scope.
#[local] Open Scope list_scope.
#[local] Open Scope Z_scope.

(** ** The floating-point scaling *)

(** The nearest multiple of [2 ^ e], ties to even. *)
Definition round_half_even (z e : Z) : Z :=
  let q := z / 2 ^ e in
  let r := z mod 2 ^ e in
  let half := 2 ^ (e - 1) in
  (if (half <? r) || ((half =? r) && Z.odd q) then q + 1 else q) * 2 ^ e.

(** Rounding a non-negative integer to 53 significant bits. *)
Definition round53 (z : Z) : Z :=
  if z <? 2 ^ 53 then z else round_half_even z (Z.log2 z - 52).

(** [x as f64], in halves. *)
Definition as_f64 (x : Z) : Z := 2 * round53 x.

(** [ESTIMATE_MULTIPLIER = 1.5], in halves. *)
Definition ESTIMATE_MULTIPLIER : Z := 3.

(** [x as f64 * ESTIMATE_MULTIPLIER], in halves: the exact product is
    [3 * round53 x] halves. *)
Definition scaled_halves (x : Z) : Z := round53 (ESTIMATE_MULTIPLIER * (as_f64 x / 2)).

(** [.. as u64] saturates, [.. as u128] does not need to. *)
Definition scale_u64 (x : Z) : Z := Z.min (scaled_halves x / 2) u64_MAX.
Definition scale_u128 (x : Z) : Z := Z.min (scaled_halves x / 2) u128_MAX.

(** ** Bounds and ceilings *)
Record MaxBound : Type := { mb_max_amount : Z; mb_max_price_per_unit : Z }.

Inductive FeeCeilingError : Type :=
| ZeroCeiling (dimension field : string)
| EstimateOutOfRange
| Exceeded (dimension field : string) (proposed ceiling : Z).

Definition DEFAULT_TIP : Z := 0.
Definition DIMENSIONS : list string := ["l1_gas"; "l2_gas"; "l1_data_gas"].

(** [MaxBound::from_estimate]. *)
Definition max_bound_from_estimate (consumed price_per_unit : Z) : outcome FeeCeilingError MaxBound :=
  _ ← reject_if (u64_MAX <? price_per_unit) EstimateOutOfRange;
  Ok {| mb_max_amount := scale_u64 consumed; mb_max_price_per_unit := scale_u128 price_per_unit |}.

(** [MaxBound::fields]. *)
Definition fields (b : MaxBound) : list (string * Z) :=
  [("max_amount", mb_max_amount b); ("max_price_per_unit", mb_max_price_per_unit b)].

Record ProposedResourceBounds : Type := {
  prb_l1_gas : MaxBound; prb_l2_gas : MaxBound; prb_l1_data_gas : MaxBound }.

(** [ProposedResourceBounds::from_estimate]. *)
Definition proposed_from_estimate (l1_gas l2_gas l1_data_gas : Z * Z)
    : outcome FeeCeilingError ProposedResourceBounds :=
  l1 ← max_bound_from_estimate (fst l1_gas) (snd l1_gas);
  l2 ← max_bound_from_estimate (fst l2_gas) (snd l2_gas);
  data ← max_bound_from_estimate (fst l1_data_gas) (snd l1_data_gas);
  Ok {| prb_l1_gas := l1; prb_l2_gas := l2; prb_l1_data_gas := data |}.

(** [ProposedResourceBounds::bounds]. *)
Definition proposed_bounds (p : ProposedResourceBounds) : list MaxBound :=
  [prb_l1_gas p; prb_l2_gas p; prb_l1_data_gas p].

Record ResourceBoundsCeiling : Type := {
  rbc_l1_gas : MaxBound; rbc_l2_gas : MaxBound; rbc_l1_data_gas : MaxBound; rbc_max_tip : Z }.

(** [ResourceBoundsCeiling::bounds]. *)
Definition ceiling_bounds (c : ResourceBoundsCeiling) : list MaxBound :=
  [rbc_l1_gas c; rbc_l2_gas c; rbc_l1_data_gas c].

(** The body of [validate]'s loop: the first zero field is an error. *)
Definition validate_bound (entry : string * MaxBound) : outcome FeeCeilingError unit :=
  let '(dimension, bound) := entry in
  match List.find (fun '(_, value) => value =? 0) (fields bound) with
  | Some (field, _) => Err (ZeroCeiling dimension field)
  | None => Ok tt
  end.

(** A [for] loop whose body may return an error. *)
Definition for_each {A} (body : A -> outcome FeeCeilingError unit) (l : list A) : outcome FeeCeilingError unit :=
  foldM (fun _ a => body a) tt l.

(** [ResourceBoundsCeiling::validate]. *)
Definition ceiling_validate (c : ResourceBoundsCeiling) : outcome FeeCeilingError unit :=
  for_each validate_bound (zip DIMENSIONS (ceiling_bounds c)).

(** The inner and outer loops of [admit]. *)
Definition admit_field (dimension : string) (pair : (string * Z) * (string * Z)) : outcome FeeCeilingError unit :=
  let '((field, ceiling), (_, proposed)) := pair in
  reject_if (ceiling <? proposed) (Exceeded dimension field proposed ceiling).

Definition admit_bound (entry : (string * MaxBound) * MaxBound) : outcome FeeCeilingError unit :=
  let '((dimension, ceiling), proposed) := entry in
  for_each (admit_field dimension) (zip (fields ceiling) (fields proposed)).

(** [ResourceBoundsCeiling::admit]. *)
Definition admit_bounds (c : ResourceBoundsCeiling) (proposed : ProposedResourceBounds)
    : outcome FeeCeilingError unit :=
  _ ← ceiling_validate c;
  for_each admit_bound (zip (zip DIMENSIONS (ceiling_bounds c)) (proposed_bounds proposed)).

(** [ResourceBoundsCeiling::admit_estimate]. *)
Definition admit_estimate (c : ResourceBoundsCeiling) (l1_gas l2_gas l1_data_gas : Z * Z)
    : outcome FeeCeilingError ProposedResourceBounds :=
  proposed ← proposed_from_estimate l1_gas l2_gas l1_data_gas;
  _ ← admit_bounds c proposed;
  Ok proposed.

(** [ResourceBoundsCeiling::new] and [with_max_tip]. *)
Definition ceiling_new (l1_gas l2_gas l1_data_gas : MaxBound) : outcome FeeCeilingError ResourceBoundsCeiling :=
  let ceiling := {| rbc_l1_gas := l1_gas; rbc_l2_gas := l2_gas; rbc_l1_data_gas := l1_data_gas;
                    rbc_max_tip := DEFAULT_TIP |} in
  _ ← ceiling_validate ceiling;
  Ok ceiling.

Definition with_max_tip (c : ResourceBoundsCeiling) (max_tip : Z) : ResourceBoundsCeiling :=
  {| rbc_l1_gas := rbc_l1_gas c; rbc_l2_gas := rbc_l2_gas c; rbc_l1_data_gas := rbc_l1_data_gas c;
     rbc_max_tip := max_tip |}.

(** ** Loops *)
Lemma for_each_Ok {A} (body : A -> outcome FeeCeilingError unit) l :
  (forall a, body a <> Panic) ->
  (for_each body l = Ok tt <-> Forall (fun a => body a = Ok tt) l) /\ for_each body l <> Panic.
Proof.
  intros Hp. unfold for_each. induction l as [|a l [IH IHp]]; cbn [foldM].
  { split; [|done]. split; [constructor|done]. }
  specialize (Hp a). rewrite Forall_cons. destruct (body a) as [[]|e|]; [|by split; [split; [done|by intros [? _]]|]|done].
  cbn [mbind outcome_bind]. rewrite IH. split; [|done]. split; [by intros|by intros [_ ?]].
Qed.

(** ** Rounding *)
Lemma round_half_even_error z e :
  1 <= e -> 0 <= z -> Z.abs (2 * (round_half_even z e - z)) <= 2 ^ e.
Proof.
  intros He Hz. unfold round_half_even. pose proof (Z.pow_pos_nonneg 2 e ltac:(lia) ltac:(lia)) as Hpos.
  pose proof (Z.div_mod z (2 ^ e) ltac:(lia)) as Hdm. pose proof (Z.mod_pos_bound z (2 ^ e) Hpos) as Hmod.
  assert (2 * 2 ^ (e - 1) = 2 ^ e) as Hhalf by (rewrite <- Z.pow_succ_r by lia; f_equal; lia).
  destruct (Z.ltb_spec (2 ^ (e - 1)) (z mod 2 ^ e)), (Z.eqb_spec (2 ^ (e - 1)) (z mod 2 ^ e));
    cbn [orb andb]; [lia|nia| |nia].
  destruct (Z.odd _); nia.
Qed.

(** Rounding is off by at most one part in [2 ^ 53]. *)
Lemma round53_error z : 0 <= z -> 2 ^ 53 * Z.abs (round53 z - z) <= z.
Proof.
  intros Hz. unfold round53. destruct (Z.ltb_spec z (2 ^ 53)) as [Hlt|Hge].
  { rewrite Z.sub_diag. cbn [Z.abs]. lia. }
  assert (53 <= Z.log2 z) as Hlog by (apply Z.log2_le_pow2; lia).
  destruct (Z.log2_spec z ltac:(lia)) as [Hlo _].
  pose proof (round_half_even_error z (Z.log2 z - 52) ltac:(lia) Hz) as Herr.
  assert (2 ^ Z.log2 z = 2 ^ 52 * 2 ^ (Z.log2 z - 52)) as Hpow
    by (rewrite <- Z.pow_add_r by lia; f_equal; lia).
  rewrite Z.abs_mul in Herr. change (Z.abs 2) with 2 in Herr.
  change (2 ^ 53) with (2 * 2 ^ 52). nia.
Qed.

Lemma round53_exact z : z < 2 ^ 53 -> round53 z = z.
Proof. intros Hz. unfold round53. by rewrite (proj2 (Z.ltb_lt _ _) Hz). Qed.

Lemma scaled_halves_eq x : scaled_halves x = round53 (3 * round53 x).
Proof. unfold scaled_halves, as_f64, ESTIMATE_MULTIPLIER. f_equal. rewrite Z.mul_comm, (Z.mul_comm 2), Z.div_mul by lia. lia. Qed.

(** [y] is one and a half times [x], up to half a unit and nine parts in [2 ^ 54]. *)
Definition one_and_a_half (x y : Z) : Prop := 2 ^ 53 * Z.abs (2 * y - 3 * x) <= 2 ^ 53 + 9 * x.

Lemma scaled_halves_error x : 0 <= x -> one_and_a_half x (scaled_halves x / 2).
Proof.
  intros Hx. unfold one_and_a_half. rewrite scaled_halves_eq. pose proof (round53_error x Hx) as Hr.
  assert (0 <= round53 x <= 2 * x) as Hr0 by lia.
  pose proof (round53_error (3 * round53 x) ltac:(lia)) as HN.
  pose proof (Z.div_mod (round53 (3 * round53 x)) 2 ltac:(lia)) as Hdm.
  pose proof (Z.mod_pos_bound (round53 (3 * round53 x)) 2 ltac:(lia)). lia.
Qed.

Lemma scaled_halves_exact x : 0 <= x < 2 ^ 51 -> scaled_halves x / 2 = 3 * x / 2.
Proof. intros Hx. rewrite scaled_halves_eq, (round53_exact x), round53_exact by lia. done. Qed.

(** ** What a ceiling admits *)
Definition bound_le (p c : MaxBound) : Prop :=
  mb_max_amount p <= mb_max_amount c /\ mb_max_price_per_unit p <= mb_max_price_per_unit c.

Definition bound_positive (c : MaxBound) : Prop := mb_max_amount c <> 0 /\ mb_max_price_per_unit c <> 0.

(** The most a transaction with these bounds and this tip can be charged. *)
Definition worst_fee (l1 l2 data : MaxBound) (tip : Z) : Z :=
  mb_max_amount l1 * mb_max_price_per_unit l1 + mb_max_amount l2 * mb_max_price_per_unit l2
  + mb_max_amount data * mb_max_price_per_unit data + mb_max_amount l2 * tip.

Lemma validate_bound_Ok d b : validate_bound (d, b) = Ok tt <-> bound_positive b.
Proof.
  unfold validate_bound, bound_positive, fields. cbn [List.find].
  destruct (Z.eqb_spec (mb_max_amount b) 0), (Z.eqb_spec (mb_max_price_per_unit b) 0); split; try done; by intros [].
Qed.

Lemma ceiling_validate_Ok c :
  (ceiling_validate c = Ok tt <->
   bound_positive (rbc_l1_gas c) /\ bound_positive (rbc_l2_gas c) /\ bound_positive (rbc_l1_data_gas c))
  /\ ceiling_validate c <> Panic.
Proof.
  unfold ceiling_validate. destruct (for_each_Ok validate_bound (zip DIMENSIONS (ceiling_bounds c))) as [Hok Hp].
  { intros [d b]. unfold validate_bound. by destruct (List.find _ _) as [[f v]|]. }
  split; [|exact Hp]. rewrite Hok. cbn [zip zip_with DIMENSIONS ceiling_bounds].
  rewrite !Forall_cons, !validate_bound_Ok. intuition.
Qed.

Lemma admit_field_Ok d f c f' p : admit_field d ((f, c), (f', p)) = Ok tt <-> p <= c.
Proof. cbn [admit_field]. rewrite reject_if_Ok, Z.ltb_ge. done. Qed.

Lemma admit_bound_Ok d c p : (admit_bound ((d, c), p) = Ok tt <-> bound_le p c) /\ admit_bound ((d, c), p) <> Panic.
Proof.
  cbn [admit_bound]. destruct (for_each_Ok (admit_field d) (zip (fields c) (fields p))) as [Hok Hp].
  { intros [[f x] [f' y]]. cbn [admit_field]. by destruct (x <? y). }
  split; [|exact Hp]. rewrite Hok. cbn [zip zip_with fields].
  rewrite !Forall_cons, !admit_field_Ok. unfold bound_le. intuition.
Qed.

Lemma admit_bounds_Ok c p :
  (admit_bounds c p = Ok tt <->
   (bound_positive (rbc_l1_gas c) /\ bound_positive (rbc_l2_gas c) /\ bound_positive (rbc_l1_data_gas c))
   /\ bound_le (prb_l1_gas p) (rbc_l1_gas c) /\ bound_le (prb_l2_gas p) (rbc_l2_gas c)
   /\ bound_le (prb_l1_data_gas p) (rbc_l1_data_gas c)) /\ admit_bounds c p <> Panic.
Proof.
  unfold admit_bounds. destruct (ceiling_validate_Ok c) as [Hv Hvp].
  destruct (for_each_Ok admit_bound (zip (zip DIMENSIONS (ceiling_bounds c)) (proposed_bounds p))) as [Hok Hp].
  { intros [[d b] q]. apply admit_bound_Ok. }
  destruct (ceiling_validate c) as [[]|e|]; [| |done]; cbn [mbind outcome_bind].
  2:{ split; [|done]. split; [done|]. intros [Hpos _]. by apply Hv in Hpos. }
  split; [|exact Hp]. rewrite Hok. cbn [zip zip_with DIMENSIONS ceiling_bounds proposed_bounds].
  rewrite !Forall_cons, !(proj1 (admit_bound_Ok _ _ _)). pose proof (proj1 Hv eq_refl). intuition.
Qed.

(** The bounds an estimate scales to. *)
Definition scaled (estimate : Z * Z) : MaxBound :=
  {| mb_max_amount := scale_u64 (fst estimate); mb_max_price_per_unit := scale_u128 (snd estimate) |}.

Lemma max_bound_from_estimate_cases e :
  (snd e <= u64_MAX /\ max_bound_from_estimate (fst e) (snd e) = Ok (scaled e))
  \/ (u64_MAX < snd e /\ max_bound_from_estimate (fst e) (snd e) = Err EstimateOutOfRange).
Proof.
  unfold max_bound_from_estimate. destruct (Z.ltb_spec u64_MAX (snd e)); [right|left]; split; done || lia.
Qed.

Lemma admit_estimate_Ok c e1 e2 e3 p :
  admit_estimate c e1 e2 e3 = Ok p <->
  (bound_positive (rbc_l1_gas c) /\ bound_positive (rbc_l2_gas c) /\ bound_positive (rbc_l1_data_gas c))
  /\ (snd e1 <= u64_MAX /\ snd e2 <= u64_MAX /\ snd e3 <= u64_MAX)
  /\ (bound_le (scaled e1) (rbc_l1_gas c) /\ bound_le (scaled e2) (rbc_l2_gas c)
      /\ bound_le (scaled e3) (rbc_l1_data_gas c))
  /\ p = {| prb_l1_gas := scaled e1; prb_l2_gas := scaled e2; prb_l1_data_gas := scaled e3 |}.
Proof.
  unfold admit_estimate, proposed_from_estimate.
  destruct (max_bound_from_estimate_cases e1) as [[He1 ->]|[He1 ->]]; cbn [mbind outcome_bind];
    [|split; [done|lia]].
  destruct (max_bound_from_estimate_cases e2) as [[He2 ->]|[He2 ->]]; cbn [mbind outcome_bind];
    [|split; [done|lia]].
  destruct (max_bound_from_estimate_cases e3) as [[He3 ->]|[He3 ->]]; cbn [mbind outcome_bind];
    [|split; [done|lia]].
  set (q := {| prb_l1_gas := scaled e1 |}). destruct (admit_bounds_Ok c q) as [Hok Hp].
  destruct (admit_bounds c q) as [[]|e|]; cbn [mbind outcome_bind]; [| |done].
  - pose proof (proj1 Hok eq_refl) as (Hpos & Hle). split; [intros [= <-]; done|]. by intros (_ & _ & _ & ->).
  - split; [done|]. intros (Hpos & _ & Hle & _). by pose proof (proj2 Hok (conj Hpos Hle)).
Qed.

Lemma admit_estimate_total c e1 e2 e3 : admit_estimate c e1 e2 e3 <> Panic.
Proof.
  unfold admit_estimate, proposed_from_estimate.
  destruct (max_bound_from_estimate_cases e1) as [[_ ->]|[_ ->]]; [|done].
  destruct (max_bound_from_estimate_cases e2) as [[_ ->]|[_ ->]]; [|done].
  destruct (max_bound_from_estimate_cases e3) as [[_ ->]|[_ ->]]; [|done]. cbn [mbind outcome_bind].
  set (q := {| prb_l1_gas := scaled e1 |}). pose proof (proj2 (admit_bounds_Ok c q)) as Hp.
  by destruct (admit_bounds c q).
Qed.

Lemma scaled_halves_range x : 0 <= x <= u64_MAX -> 0 <= scaled_halves x / 2 < u128_MAX.
Proof.
  intros Hx. pose proof (scaled_halves_error x ltac:(lia)) as He. unfold one_and_a_half, u64_MAX, u128_MAX in *.
  split; [|lia]. apply Z.div_pos; [|lia]. rewrite scaled_halves_eq.
  pose proof (round53_error x ltac:(lia)). pose proof (round53_error (3 * round53 x) ltac:(lia)). lia.
Qed.

Lemma scaled_nonneg e :
  0 <= fst e <= u64_MAX -> 0 <= snd e <= u64_MAX ->
  0 <= mb_max_amount (scaled e) <= u64_MAX /\ 0 <= mb_max_price_per_unit (scaled e)
  /\ mb_max_price_per_unit (scaled e) = scaled_halves (snd e) / 2.
Proof.
  intros Ha%scaled_halves_range Hp%scaled_halves_range.
  cbn [scaled mb_max_amount mb_max_price_per_unit]. unfold scale_u64, scale_u128.
  assert (0 <= u64_MAX) by (unfold u64_MAX; lia). lia.
Qed.

Lemma charge_mono (p c : MaxBound) :
  0 <= mb_max_amount p -> 0 <= mb_max_price_per_unit p -> bound_le p c ->
  mb_max_amount p * mb_max_price_per_unit p <= mb_max_amount c * mb_max_price_per_unit c.
Proof. intros ? ? []. by apply Z.mul_le_mono_nonneg. Qed.

(** ** Properties *)

(** C11: Admitting a fee estimate never panics; in what is admitted every price, and every
    amount up to saturation at 2^64-1, is one and a half times the estimate's to within half a
    unit and nine parts in 2^54 of it; and the most it can cost, tip included, is at most what
    the ceiling allows. *)
Theorem fee_ceiling_safe c e1 e2 e3 :
  (forall e, e ∈ [e1; e2; e3] -> 0 <= fst e <= u64_MAX /\ 0 <= snd e) -> 0 <= rbc_max_tip c ->
  admit_estimate c e1 e2 e3 <> Panic
  /\ forall p, admit_estimate c e1 e2 e3 = Ok p ->
     worst_fee (prb_l1_gas p) (prb_l2_gas p) (prb_l1_data_gas p) (rbc_max_tip c)
        <= worst_fee (rbc_l1_gas c) (rbc_l2_gas c) (rbc_l1_data_gas c) (rbc_max_tip c)
     /\ Forall2 (fun e b =>
          (exists amount, one_and_a_half (fst e) amount /\ mb_max_amount b = Z.min amount u64_MAX)
          /\ one_and_a_half (snd e) (mb_max_price_per_unit b)) [e1; e2; e3] (proposed_bounds p).
Proof.
  intros He Htip. split; [apply admit_estimate_total|].
  intros p (_ & Hrange & (Hle1 & Hle2 & Hle3) & ->)%admit_estimate_Ok.
  assert (forall e, e ∈ [e1; e2; e3] -> snd e <= u64_MAX) as Hmax
    by (intros e; rewrite !elem_of_cons; intros [->|[->|[->|[]%elem_of_nil]]]; tauto).
  assert (forall e, e ∈ [e1; e2; e3] -> 0 <= mb_max_amount (scaled e) <= u64_MAX
    /\ 0 <= mb_max_price_per_unit (scaled e) /\ mb_max_price_per_unit (scaled e) = scaled_halves (snd e) / 2) as Hs.
  { intros e Hin. specialize (He e Hin). specialize (Hmax e Hin). apply scaled_nonneg; lia. }
  destruct (Hs e1) as (Ha1 & Hp1 & _); [by left|]. destruct (Hs e2) as (Ha2 & Hp2 & _); [by right; left|].
  destruct (Hs e3) as (Ha3 & Hp3 & _); [by right; right; left|]. split.
  - unfold worst_fee. cbn [prb_l1_gas prb_l2_gas prb_l1_data_gas].
    pose proof (charge_mono _ _ (proj1 Ha1) Hp1 Hle1). pose proof (charge_mono _ _ (proj1 Ha2) Hp2 Hle2).
    pose proof (charge_mono _ _ (proj1 Ha3) Hp3 Hle3).
    pose proof (Z.mul_le_mono_nonneg_r _ _ (rbc_max_tip c) Htip (proj1 Hle2)). lia.
  - assert (forall e, e ∈ [e1; e2; e3] ->
      (exists amount, one_and_a_half (fst e) amount /\ mb_max_amount (scaled e) = Z.min amount u64_MAX)
      /\ one_and_a_half (snd e) (mb_max_price_per_unit (scaled e))) as Hall.
    { intros e Hin. destruct (Hs e Hin) as (_ & _ & ->). destruct (He e Hin) as [[Hf _] Hsn]. split.
      - exists (scaled_halves (fst e) / 2). split; [by apply scaled_halves_error|done].
      - by apply scaled_halves_error. }
    cbn [proposed_bounds prb_l1_gas prb_l2_gas prb_l1_data_gas].
    repeat constructor; apply Hall; rewrite !elem_of_cons; tauto.
Qed.

(** Admission is exact: an estimate is admitted exactly when the ceiling has no
    zero field, the prices fit 64 bits and every scaled field is within it, and
    small estimates are scaled to three halves, rounded down. *)
Theorem fee_ceiling_exact c e1 e2 e3 :
  ((exists p, admit_estimate c e1 e2 e3 = Ok p) <->
   (bound_positive (rbc_l1_gas c) /\ bound_positive (rbc_l2_gas c) /\ bound_positive (rbc_l1_data_gas c))
   /\ (snd e1 <= u64_MAX /\ snd e2 <= u64_MAX /\ snd e3 <= u64_MAX)
   /\ (bound_le (scaled e1) (rbc_l1_gas c) /\ bound_le (scaled e2) (rbc_l2_gas c)
       /\ bound_le (scaled e3) (rbc_l1_data_gas c)))
  /\ (forall x, 0 <= x < 2 ^ 51 -> scale_u64 x = 3 * x / 2 /\ scale_u128 x = 3 * x / 2).
Proof.
  split.
  - split.
    + intros [p (Hpos & Hr & Hle & _)%admit_estimate_Ok]. done.
    + intros (Hpos & Hr & Hle). eexists. apply admit_estimate_Ok.
      split; [exact Hpos|]. split; [exact Hr|]. split; [exact Hle|reflexivity].
  - intros x Hx. unfold scale_u64, scale_u128. rewrite scaled_halves_exact by done.
    assert (0 <= 3 * x / 2 < 2 ^ 53) as Hq by (split; [apply Z.div_pos|apply Z.div_lt_upper_bound]; lia).
    unfold u64_MAX, u128_MAX. lia.
Qed.

(** The saturating edge, and the first estimate that [f64] does not scale
    exactly. *)
Example scaling_edges :
  scale_u64 u64_MAX = u64_MAX /\ scale_u64 (2 ^ 53 + 1) = 3 * 2 ^ 52 /\ scale_u128 u64_MAX = 3 * 2 ^ 63.
Proof. split_and!; vm_compute; reflexivity. Qed.

(** ** Witness *)
Lemma fee_ceiling_safe_witness :
  let c := {| rbc_l1_gas := {| mb_max_amount := 150; mb_max_price_per_unit := 15 |};
              rbc_l2_gas := {| mb_max_amount := 1500; mb_max_price_per_unit := 3 |};
              rbc_l1_data_gas := {| mb_max_amount := 10; mb_max_price_per_unit := 10 |}; rbc_max_tip := 2 |} in
  exists p, admit_estimate c (100, 10) (1000, 2) (1, 1) = Ok p
    /\ worst_fee (prb_l1_gas p) (prb_l2_gas p) (prb_l1_data_gas p) 2 <= 9850.
Proof.
  eexists. split; [vm_compute; reflexivity|].
  refine (proj1 (proj2 (fee_ceiling_safe
    {| rbc_l1_gas := {| mb_max_amount := 150; mb_max_price_per_unit := 15 |};
       rbc_l2_gas := {| mb_max_amount := 1500; mb_max_price_per_unit := 3 |};
       rbc_l1_data_gas := {| mb_max_amount := 10; mb_max_price_per_unit := 10 |}; rbc_max_tip := 2 |}
    (100, 10) (1000, 2) (1, 1) _ _) _ _)).
  - intros e. rewrite !elem_of_cons. unfold u64_MAX.
    intros [->|[->|[->|[]%elem_of_nil]]]; cbn [fst snd]; lia.
  - cbn. lia.
  - vm_compute. reflexivity.
Defined.
