(* ===== verification/Domain.v ===== *)
(** * The gateway's domain types

    crates/domain/src/runtime.rs, account.rs and error.rs: requests, snapshots,
    cache and wait policies, tracked operations and typed errors, with the
    constructors that validate them.  [FeltHex], [OperationId] and [SecretRef]
    are the source's newtypes over [String].  An error's text is the source's
    literal; a [format!] keeps its template and drops the interpolated values.
    [u64] and [u32] fields are [Z]; the operations that compute with them write
    the saturation out. *)

From stdpp Require Import base option list numbers strings countable.
From Stdlib Require Import ZArith.
From S2P Require Import Prelude Text.

#[local] Open Scope string_scope.
#[local] Open Scope list_scope.
#[local] Open Scope Z_scope.

Record FeltHex : Type := mk_FeltHex { felt_hex_str : string }.
Record OperationId : Type := mk_OperationId { operation_id_str : string }.

Inductive ChainId : Type := Mainnet | Sepolia.

Inductive QueryMode : Type := ActiveView | BackgroundView.

Inductive BlockSelector : Type :=
| Block_Latest | Block_Pending | Block_Number (number : Z) | Block_Hash (hash : FeltHex).

Record TrackedToken : Type := {
  token_symbol : string; token_address : FeltHex; token_decimals : Z }.

Record CachePolicy : Type := { ttl_ms : Z; stale_while_revalidate_ms : Z }.

(** The serialised shape of a policy, with the field 1.0 gateways require. *)
Record CachePolicyWire : Type := {
  wire_ttl_ms : Z; wire_stale_while_revalidate_ms : Z; wire_max_entries : Z }.

(** [From<CachePolicy> for CachePolicyWire]. *)
Definition cache_policy_into_wire (policy : CachePolicy) : CachePolicyWire :=
  {| wire_ttl_ms := ttl_ms policy;
     wire_stale_while_revalidate_ms := stale_while_revalidate_ms policy;
     wire_max_entries := 1 |}.

Record WaitPolicy : Type := { poll_interval_ms : Z; timeout_ms : Z }.

Inductive DeployMode : Type := SubmitOnly | WaitForAcceptance (wait : WaitPolicy).

Inductive CacheStatus : Type := Miss | Hit | Stale.

Record CacheMetadata : Type := {
  meta_status : CacheStatus; meta_generated_at_ms : Z; meta_age_ms : Z }.

Record AccountSnapshotRequest : Type := {
  req_chain_id : ChainId; req_address : FeltHex; req_tokens : list TrackedToken;
  req_block : BlockSelector; req_mode : QueryMode; req_cache_policy : CachePolicy }.

Record TokenBalanceSnapshot : Type := { tbs_token : TrackedToken; tbs_amount_raw : string }.

Record SnapshotBlockMetadata : Type := {
  sbm_selector : BlockSelector; sbm_block_hash : option FeltHex; sbm_block_number : option Z }.

(** ** Errors *)
Inductive DomainError : Type :=
| InvalidFeltHex (msg : string)
| InvalidHexBytes (msg : string)
| EmptyField (field : string)
| Domain_InvalidDerivationPath (msg : string)
| Domain_InvalidCachePolicy (msg : string)
| Domain_InvalidWaitPolicy (msg : string)
| InvalidSignRequest (msg : string)
| InvalidSecretRef (msg : string).

Inductive GatewayErrorCode : Type :=
| Code_Undeployed | Code_NotFound | Code_ProviderTransport | Code_InsufficientBalance
| Code_InsufficientFee | Code_NonceMismatch | Code_InvalidRequest | Code_InvalidClassHash
| Code_ConstructorCalldataMismatch | Code_InvalidDerivationPath | Code_InvalidCachePolicy
| Code_InvalidWaitPolicy | Code_UnsupportedKeyDomain | Code_UnsupportedAccountClass
| Code_ChainMismatch | Code_UnsupportedProtocolVersion | Code_UnsupportedSigningDomain
| Code_CacheUnavailable | Code_CacheStale | Code_RpcDegraded | Code_Timeout
| Code_SecretUnavailable | Code_Internal.

Record GatewayError : Type := mk_GatewayError {
  err_code : GatewayErrorCode; err_retryable : bool; err_message : option string }.

(** [GatewayError::new]. *)
Definition gateway_error_new (code : GatewayErrorCode) (retryable : bool)
    (message : option string) : GatewayError :=
  {| err_code := code; err_retryable := retryable; err_message := message |}.

(** ** Accounts *)
Inductive KeyDomain : Type := StarknetAccount | TongoAccountDomain | NostrEvent.

Definition expected_coin_type (d : KeyDomain) : Z :=
  match d with StarknetAccount => 9004 | TongoAccountDomain => 5454 | NostrEvent => 1237 end.

Record DerivationPath : Type := { coin_type : Z; account_index : Z; address_index : Z }.

(** [DerivationPath::validate_for]. *)
Definition validate_for (path : DerivationPath) (domain : KeyDomain)
    : outcome DomainError DerivationPath :=
  if negb (coin_type path =? expected_coin_type domain)
  then Err (Domain_InvalidDerivationPath "coin_type {} does not match {:?} domain (expected {})")
  else Ok path.

Record Provenance : Type := {
  prov_chain_id : ChainId; prov_key_domain : KeyDomain;
  prov_derivation_path : DerivationPath; prov_class_hash : option FeltHex }.

Inductive DeploymentState : Type :=
| Dep_Undeployed | Dep_Deploying (tx_hash : FeltHex) | Dep_Deployed
| Dep_Rejected (error : GatewayError).

Record AccountSnapshot : Type := mk_AccountSnapshot {
  snap_address : FeltHex; snap_deployment : DeploymentState; snap_nonce : option FeltHex;
  snap_balances : list TokenBalanceSnapshot; snap_block : SnapshotBlockMetadata;
  snap_cache : CacheMetadata }.

(** ** Tracked operations *)
Inductive OperationKind : Type :=
| DeriveAccount | CheckDeployment | DeployAccount | Sign | QueryAccountSnapshot.

Inductive OperationState : Type :=
| Op_Queued | Op_Running | Op_Completed
| Op_Submitted (tx_hash : FeltHex) | Op_Accepted (tx_hash : FeltHex)
| Op_Rejected (error : GatewayError) | Op_Expired.

Record OperationStatus : Type := mk_OperationStatus {
  os_id : OperationId; os_kind : OperationKind; os_state : OperationState;
  os_provenance : option Provenance }.

(** ** Validating constructors *)

(** [CachePolicy::with_ttl]. *)
Definition with_ttl (ttl stale : Z) : outcome DomainError CachePolicy :=
  if ttl =? 0
  then Err (Domain_InvalidCachePolicy "ttl_ms must be greater than zero")
  else Ok {| ttl_ms := ttl; stale_while_revalidate_ms := stale |}.

Definition MIN_POLL_INTERVAL_MS : Z := 250.

(** [WaitPolicy::new]. *)
Definition wait_policy_new (poll timeout : Z) : outcome DomainError WaitPolicy :=
  if poll <? MIN_POLL_INTERVAL_MS
  then Err (Domain_InvalidWaitPolicy "poll_interval_ms must be at least 250")
  else if timeout =? 0
  then Err (Domain_InvalidWaitPolicy "timeout_ms must be greater than zero")
  else Ok {| poll_interval_ms := poll; timeout_ms := timeout |}.

(** [OperationId::new]. *)
Definition operation_id_new (value : string) : outcome DomainError OperationId :=
  if is_blank (string_bytes value) then Err (EmptyField "operation_id") else Ok (mk_OperationId value).

(** ** Decidable equality and countability *)
#[export] Instance FeltHex_eq_dec : EqDecision FeltHex.
Proof. solve_decision. Defined.
#[export] Instance FeltHex_countable : Countable FeltHex.
Proof. apply (inj_countable' felt_hex_str mk_FeltHex). by intros []. Defined.
#[export] Instance OperationId_eq_dec : EqDecision OperationId.
Proof. solve_decision. Defined.
#[export] Instance OperationId_countable : Countable OperationId.
Proof. apply (inj_countable' operation_id_str mk_OperationId). by intros []. Defined.
#[export] Instance ChainId_eq_dec : EqDecision ChainId.
Proof. solve_decision. Defined.
#[export] Instance ChainId_countable : Countable ChainId.
Proof.
  apply (inj_countable' (fun c => match c with Mainnet => true | Sepolia => false end)
           (fun b : bool => if b then Mainnet else Sepolia)). by intros [].
Defined.
#[export] Instance QueryMode_eq_dec : EqDecision QueryMode.
Proof. solve_decision. Defined.
#[export] Instance BlockSelector_eq_dec : EqDecision BlockSelector.
Proof. solve_decision. Defined.
#[export] Instance TrackedToken_eq_dec : EqDecision TrackedToken.
Proof. solve_decision. Defined.
#[export] Instance GatewayErrorCode_eq_dec : EqDecision GatewayErrorCode.
Proof. solve_decision. Defined.
#[export] Instance GatewayError_eq_dec : EqDecision GatewayError.
Proof. solve_decision. Defined.
#[export] Instance KeyDomain_eq_dec : EqDecision KeyDomain.
Proof. solve_decision. Defined.
#[export] Instance OperationState_eq_dec : EqDecision OperationState.
Proof. solve_decision. Defined.
