(* ===== verification/Primitives.v ===== *)
(** * Canonical identifiers

    crates/domain/src/primitives.rs: [FeltHex] parsing with its canonicity check,
    [HexBytes] parsing, and the [SecretRef] constructor with the filter that
    keeps raw key material out of request logs.  Text is UTF-8 bytes.

    [Felt::from_hex] is third-party: [FeltFromHex] says that it returns field
    elements and reads prefixed hexadecimal digits back.  The source's comment records that
    it also accepts the field prime as zero; [felt_hex_canonical] shows that
    [FeltHex::parse] does not. *)

From stdpp Require Import base option list numbers strings.
From Stdlib Require Import ZArith Lia.
From S2P Require Import Prelude Text StarkLib Domain.

#[local] Open Scope Z_scope.

(** ** Hexadecimal text *)
Definition is_hexdigit (c : Z) : bool := is_digit c || in_range 65 70 c || in_range 97 102 c.

Definition to_lower (c : Z) : Z := if in_range 65 90 c then c + 32 else c.

Definition nibble (c : Z) : Z :=
  if is_digit c then c - 48 else if in_range 65 70 c then c - 55 else c - 87.

Definition hex_value (l : list Z) : Z := fold_left (fun acc c => acc * 16 + nibble c) l 0.

Definition hex_digit (n : Z) : Z := if n <? 10 then 48 + n else 87 + n.

(** The low [n] hexadecimal digits, lower case ([{:064x}] with [n = 64]). *)
Fixpoint hex_print (n : nat) (z : Z) : list Z :=
  match n with
  | O => []
  | S n => hex_print n (z / 16) ++ [hex_digit (z mod 16)]
  end.

Definition starts_with (p l : list Z) : bool := bool_decide (take (length p) l = p).

(** [strip_prefix]. *)
Definition strip_prefix (p l : list Z) : option (list Z) :=
  if starts_with p l then Some (drop (length p) l) else None.

Definition px : list Z := [48; 120].
Definition pX : list Z := [48; 88].

(** ** FeltHex *)
Class FeltFromHex : Type := {
  felt_from_hex : list Z -> option Z;
  felt_from_hex_range s v : felt_from_hex s = Some v -> 0 <= v < felt_prime;
  felt_from_hex_digits n v :
    (1 <= n <= 64)%nat -> 0 <= v < felt_prime -> v < 16 ^ Z.of_nat n ->
    felt_from_hex (px ++ hex_print n v) = Some v }.

(** [FeltHex::parse]. *)
Definition felt_hex_parse `{FeltFromHex} (value : list Z) : outcome DomainError (list Z) :=
  felt ← ok_or (felt_from_hex value) (InvalidFeltHex "{e}");
  let canonical := hex_print 64 felt in
  let trimmed := default value (strip_prefix px value) in
  let is_canonical :=
    (length trimmed <=? 64)%nat && bool_decide (pad_left 64 (map to_lower trimmed) = canonical) in
  _ ← reject_if (negb is_canonical) (InvalidFeltHex "value is not a canonical field element: {value}");
  Ok (px ++ canonical).

(** ** HexBytes *)

(** [HexBytes::parse]. *)
Definition hex_bytes_parse (value : list Z) : outcome DomainError (list Z) :=
  let trimmed := trim value in
  let normalized :=
    match strip_prefix px trimmed with
    | Some s => s
    | None => default trimmed (strip_prefix pX trimmed)
    end in
  _ ← reject_if (negb (length normalized mod 2 =? 0)%nat)
        (InvalidHexBytes "hex byte strings must have an even number of digits");
  _ ← reject_if (negb (forallb is_hexdigit normalized))
        (InvalidHexBytes "value contains non-hex characters");
  Ok (map to_lower normalized).

(** ** SecretRef *)

(** [split_whitespace().count()]: how many runs of other characters. *)
Fixpoint count_words (in_word : bool) (l : list Z) : nat :=
  match l with
  | [] => 0
  | a :: l1 =>
      let other := ((if in_word then 0 else 1) + count_words true l1)%nat in
      if is_blank1 a then count_words false l1
      else match l1 with
           | b :: l2 =>
               if is_blank2 a b then count_words false l2
               else match l2 with
                    | c :: l3 => if is_blank3 a b c then count_words false l3 else other
                    | [] => other
                    end
           | [] => other
           end
  end.

(** [trim_start_matches('0').len()]. *)
Definition significant_len (l : list Z) : nat := length (drop_zeros l).

Definition looks_like_raw_secret_material (value : list Z) : bool :=
  let trimmed := trim value in
  let '(has_0x, hex_body) :=
    match strip_prefix px trimmed with
    | Some body => (true, body)
    | None => match strip_prefix pX trimmed with
              | Some body => (true, body)
              | None => (false, trimmed)
              end
    end in
  let hex_like :=
    negb (length hex_body =? 0)%nat && forallb is_hexdigit hex_body in
  let widths := [length hex_body; significant_len hex_body] in
  if hex_like && has_0x && existsb (fun w => (w <=? 64)%nat) widths then true
  else if hex_like && negb has_0x && existsb (fun w => (48 <=? w)%nat && (w <=? 64)%nat) widths then true
  else (12 <=? count_words false trimmed)%nat.

(** [SecretRef::new]. *)
Definition secret_ref_new (value : list Z) : outcome DomainError (list Z) :=
  _ ← reject_if (is_blank value) (EmptyField "secret_ref");
  _ ← reject_if (looks_like_raw_secret_material value)
        (InvalidSecretRef "must be an opaque identifier, not raw key material");
  Ok value.

(** ** Lemmas on hexadecimal text *)
Lemma in_range_spec lo hi c : in_range lo hi c = true <-> lo <= c <= hi.
Proof. unfold in_range. rewrite andb_true_iff, !Z.leb_le. lia. Qed.

Lemma is_hexdigit_spec c : is_hexdigit c = true <-> 48 <= c <= 57 \/ 65 <= c <= 70 \/ 97 <= c <= 102.
Proof. unfold is_hexdigit, is_digit. rewrite !orb_true_iff, !in_range_spec. lia. Qed.

Lemma in_range_false lo hi c : in_range lo hi c = false <-> c < lo \/ hi < c.
Proof. rewrite <- not_true_iff_false, in_range_spec. lia. Qed.

Lemma to_lower_spec c :
  (in_range 65 90 c = true /\ to_lower c = c + 32) \/ (in_range 65 90 c = false /\ to_lower c = c).
Proof. unfold to_lower. destruct (in_range 65 90 c); auto. Qed.

Lemma to_lower_hexdigit c : is_hexdigit (to_lower c) = true -> is_hexdigit c = true /\ nibble (to_lower c) = nibble c.
Proof.
  rewrite !is_hexdigit_spec. destruct (to_lower_spec c) as [[Hr ->]|[Hr ->]]; [|done].
  apply in_range_spec in Hr. intros Hc. split; [lia|]. unfold nibble, is_digit.
  rewrite !(proj2 (in_range_false _ _ _)), (proj2 (in_range_spec 65 70 c)) by lia. lia.
Qed.

Lemma hex_digit_spec n :
  0 <= n < 16 -> is_hexdigit (hex_digit n) = true /\ to_lower (hex_digit n) = hex_digit n /\ nibble (hex_digit n) = n.
Proof.
  intros Hn. assert (n ∈ seqZ 0 16) as Hin by (apply elem_of_seqZ; lia).
  revert n Hn Hin. cut (Forall (fun n => is_hexdigit (hex_digit n) = true
    /\ to_lower (hex_digit n) = hex_digit n /\ nibble (hex_digit n) = n) (seqZ 0 16)).
  { intros Hall n _ Hin. rewrite Forall_forall in Hall. by apply Hall. }
  by repeat constructor.
Qed.

Lemma hex_value_acc l acc :
  fold_left (fun acc c => acc * 16 + nibble c) l acc = acc * 16 ^ Z.of_nat (length l) + hex_value l.
Proof.
  unfold hex_value. revert acc; induction l as [|c l IH]; intros acc; cbn [fold_left length].
  - rewrite Z.pow_0_r. lia.
  - rewrite IH, (IH (0 * 16 + _)), Nat2Z.inj_succ, Z.pow_succ_r by lia. ring.
Qed.

Lemma hex_value_app l1 l2 :
  hex_value (l1 ++ l2) = hex_value l1 * 16 ^ Z.of_nat (length l2) + hex_value l2.
Proof. unfold hex_value at 1. rewrite fold_left_app. apply hex_value_acc. Qed.

Lemma hex_value_zeros n : hex_value (replicate n 48) = 0.
Proof.
  induction n as [|n IH]; [done|]. cbn [replicate]. change (48 :: replicate n 48) with ([48] ++ replicate n 48).
  rewrite hex_value_app, IH. change (hex_value [48]) with 0. lia.
Qed.

Definition hexdigits (l : list Z) : Prop := Forall (fun c => is_hexdigit c = true) l.

Lemma hex_print_spec n z :
  0 <= z -> hexdigits (hex_print n z) /\ map to_lower (hex_print n z) = hex_print n z
  /\ length (hex_print n z) = n /\ hex_value (hex_print n z) = z mod 16 ^ Z.of_nat n.
Proof.
  revert z; induction n as [|n IH]; intros z Hz; cbn [hex_print].
  { split_and!; [constructor|done|done|]. by rewrite Z.pow_0_r, Z.mod_1_r. }
  destruct (IH (z / 16)) as (Hd & Hl & Hlen & Hv); [by apply Z.div_pos|].
  destruct (hex_digit_spec (z mod 16)) as (Hd1 & Hl1 & Hv1); [apply Z.mod_pos_bound; lia|].
  split_and!.
  - apply Forall_app. split; [done|by constructor].
  - rewrite map_app, Hl. cbn. by rewrite Hl1.
  - rewrite length_app, Hlen. cbn. lia.
  - rewrite hex_value_app, Hv.
    cbn [length]. change (16 ^ Z.of_nat 1) with 16.
    rewrite Nat2Z.inj_succ, Z.pow_succ_r, Z.rem_mul_r by lia.
    change (hex_value [hex_digit (z mod 16)]) with (0 * 16 + nibble (hex_digit (z mod 16))).
    rewrite Hv1. lia.
Qed.

Lemma hex_value_lower l : hexdigits (map to_lower l) -> hexdigits l /\ hex_value (map to_lower l) = hex_value l.
Proof.
  induction l as [|c l IH] using rev_ind; [done|]. rewrite map_app. cbn [map].
  intros [Hl Hc]%Forall_app. apply Forall_singleton, to_lower_hexdigit in Hc as [Hc Hn].
  destruct (IH Hl) as [Hd Hv]. split; [apply Forall_app; split; [done|by constructor]|].
  rewrite !hex_value_app, Hv. cbn [length].
  change (hex_value [to_lower c]) with (0 * 16 + nibble (to_lower c)).
  change (hex_value [c]) with (0 * 16 + nibble c). by rewrite Hn.
Qed.

Lemma strip_prefix_Some p l r : strip_prefix p l = Some r <-> l = p ++ r.
Proof.
  unfold strip_prefix, starts_with. split.
  - destruct (bool_decide_reflect (take (length p) l = p)) as [Ht|]; [|done].
    intros [= <-]. by rewrite <- Ht at 1; rewrite take_drop.
  - intros ->. rewrite bool_decide_eq_true_2 by apply take_app_length. by rewrite drop_app_length.
Qed.

Lemma prime_lt_hex64 : felt_prime < 16 ^ Z.of_nat 64.
Proof. reflexivity. Qed.

Section felt_hex.
Context `{FeltFromHex}.

Lemma felt_from_hex_canonical v : 0 <= v < felt_prime -> felt_from_hex (px ++ hex_print 64 v) = Some v.
Proof. intros Hv. pose proof prime_lt_hex64. apply felt_from_hex_digits; lia. Qed.

Lemma felt_hex_parse_canonical_text v :
  0 <= v < felt_prime -> felt_hex_parse (px ++ hex_print 64 v) = Ok (px ++ hex_print 64 v).
Proof.
  intros Hv. destruct (hex_print_spec 64 v) as (_ & Hlow & Hlen & _); [lia|].
  unfold felt_hex_parse. rewrite felt_from_hex_canonical by done. cbn [ok_or mbind outcome_bind].
  rewrite (proj2 (strip_prefix_Some px (px ++ hex_print 64 v) (hex_print 64 v)) eq_refl).
  cbn [from_option id]. unfold pad_left. rewrite length_map, Hlow, Hlen, Nat.sub_diag.
  rewrite bool_decide_eq_true_2 by done. done.
Qed.

Lemma felt_hex_parse_inv s h :
  felt_hex_parse s = Ok h ->
  exists ds, (s = ds \/ s = px ++ ds) /\ hexdigits ds /\ (length ds <= 64)%nat
    /\ 0 <= hex_value ds < felt_prime /\ h = px ++ hex_print 64 (hex_value ds).
Proof.
  unfold felt_hex_parse. intros Hp. apply bind_Ok in Hp as (v & Hv & Hp).
  apply ok_or_Ok, felt_from_hex_range in Hv. cbn zeta in Hp.
  set (ds := default s (strip_prefix px s)) in *. apply bind_Ok in Hp as (u & Hc & Hp).
  apply (inj Ok) in Hp as <-. apply reject_if_Ok, negb_false_iff, andb_prop in Hc as [Hlen Heq].
  apply Nat.leb_le in Hlen. apply bool_decide_eq_true_1 in Heq.
  pose proof prime_lt_hex64 as Hp64. destruct (hex_print_spec 64 v) as (Hd & _ & _ & Hval); [lia|].
  rewrite Z.mod_small in Hval by lia. rewrite <- Heq in Hd, Hval.
  unfold pad_left in Hd, Hval. apply Forall_app in Hd as [_ Hd].
  rewrite hex_value_app, hex_value_zeros in Hval.
  destruct (hex_value_lower ds Hd) as [Hhex Hlow]. rewrite Hlow in Hval.
  assert (v = hex_value ds) as -> by lia. exists ds. split_and!; try done; try lia.
  subst ds. destruct (strip_prefix px s) as [r|] eqn:Hs; [right|by left].
  exact (proj1 (strip_prefix_Some px s r) Hs).
Qed.
End felt_hex.

(** ** Trimming *)
Definition blanks (l : list Z) : Prop := Forall (fun c => is_blank1 c = true) l.
(** An ASCII character that is not white space. *)
Definition solid (c : Z) : Prop := 33 <= c <= 126.

Lemma solid_not_blank a b c :
  solid a -> is_blank1 a = false /\ is_blank2 a b = false /\ is_blank3 a b c = false.
Proof.
  unfold solid, is_blank1, is_blank2, is_blank3. intros Ha.
  rewrite !(proj2 (Z.eqb_neq a _)), (proj2 (Z.leb_gt a 13)) by lia. cbn. by rewrite !andb_false_r.
Qed.

Lemma solid_last_not_blank a b c :
  solid a -> is_blank1 a = false /\ is_blank2 b a = false /\ is_blank3 c b a = false.
Proof.
  unfold solid, is_blank1, is_blank2, is_blank3. intros Ha.
  rewrite !(proj2 (Z.eqb_neq a _)), (proj2 (Z.leb_gt a 13)), (proj2 (Z.leb_gt 0x80 a)) by lia.
  cbn. by rewrite !andb_false_r.
Qed.

Lemma trim_start_blanks ws a l : blanks ws -> solid a -> trim_start (ws ++ a :: l) = a :: l.
Proof.
  intros Hws Ha. induction Hws as [|w ws Hw _ IH]; cbn [app trim_start]; [|by rewrite Hw].
  rewrite (proj1 (solid_not_blank a 0 0 Ha)). destruct l as [|b l]; [done|].
  rewrite (proj1 (proj2 (solid_not_blank a b 0 Ha))). destruct l as [|c l]; [done|].
  by rewrite (proj2 (proj2 (solid_not_blank a b c Ha))).
Qed.

Lemma trim_rev_blanks ws a l : blanks ws -> solid a -> trim_rev (ws ++ a :: l) = a :: l.
Proof.
  intros Hws Ha. induction Hws as [|w ws Hw _ IH]; cbn [app trim_rev]; [|by rewrite Hw].
  rewrite (proj1 (solid_last_not_blank a 0 0 Ha)). destruct l as [|b l]; [done|].
  rewrite (proj1 (proj2 (solid_last_not_blank a b 0 Ha))). destruct l as [|c l]; [done|].
  by rewrite (proj2 (proj2 (solid_last_not_blank a b c Ha))).
Qed.

(** Blanks around solid text are trimmed. *)
Lemma trim_blanks ws1 ws2 l : blanks ws1 -> blanks ws2 -> Forall solid l -> l <> [] -> trim (ws1 ++ l ++ ws2) = l.
Proof.
  intros H1 H2 Hl Hne. unfold trim. destruct Hl as [|a l Ha Hl]; [done|]. cbn [app].
  rewrite trim_start_blanks by done. change (a :: l ++ ws2) with ((a :: l) ++ ws2). rewrite rev_app_distr.
  assert (Forall solid (rev (a :: l))) as Hr by (apply Forall_rev; by constructor).
  destruct (rev (a :: l)) as [|b r] eqn:Hrev.
  { apply (f_equal length) in Hrev. rewrite length_rev in Hrev. done. }
  inversion Hr; subst. rewrite trim_rev_blanks by (done || by apply Forall_rev).
  rewrite <- Hrev. apply rev_involutive.
Qed.

Lemma hexdigits_solid l : hexdigits l -> Forall solid l.
Proof.
  intros Hl. eapply Forall_impl; [exact Hl|]. intros c Hc%is_hexdigit_spec. unfold solid. lia.
Qed.

Lemma forallb_hexdigits l : forallb is_hexdigit l = true <-> hexdigits l.
Proof.
  induction l as [|c l IH]; cbn [forallb]; [by split; [constructor|]|].
  rewrite andb_true_iff, IH. unfold hexdigits. by rewrite Forall_cons.
Qed.

Lemma significant_len_le zeros (l : list Z) : (significant_len (replicate zeros 48%Z ++ l) <= length l)%nat.
Proof.
  unfold significant_len. induction zeros as [|n IH]; cbn [replicate app drop_zeros]; [|done].
  induction l as [|c l IH]; cbn [drop_zeros]; [done|]. destruct (c =? 48); cbn [length]; lia.
Qed.

Lemma strip_0x p body :
  p = px \/ p = pX ->
  match strip_prefix px (p ++ body) with
  | Some body => (true, body)
  | None => match strip_prefix pX (p ++ body) with
            | Some body => (true, body)
            | None => (false, p ++ body)
            end
  end = (true, body).
Proof.
  intros [-> | ->]; [by rewrite (proj2 (strip_prefix_Some px _ body) eq_refl)|].
  destruct (strip_prefix px (pX ++ body)) eqn:Hs; [apply strip_prefix_Some in Hs; discriminate Hs|].
  by rewrite (proj2 (strip_prefix_Some pX _ body) eq_refl).
Qed.

(** ** Lemmas on HexBytes *)
Lemma hexdigits_lower l : hexdigits l -> hexdigits (map to_lower l) /\ map to_lower (map to_lower l) = map to_lower l.
Proof.
  induction 1 as [|c l Hc _ [IHd IHl]]; [by split; [constructor|]|]. cbn [map]. rewrite IHl.
  apply is_hexdigit_spec in Hc. split.
  - constructor; [|done]. apply is_hexdigit_spec.
    destruct (to_lower_spec c) as [[Hr%in_range_spec ->]|[Hr%in_range_false ->]]; lia.
  - f_equal. destruct (to_lower_spec (to_lower c)) as [[Hr%in_range_spec _]|[_ Hr]]; [|done].
    destruct (to_lower_spec c) as [[Hr2%in_range_spec He]|[Hr2%in_range_false He]]; lia.
Qed.

Lemma trim_solid l : Forall solid l -> trim l = l.
Proof.
  intros Hl. destruct l as [|a l]; [done|].
  rewrite <- (trim_blanks [] [] (a :: l)) at 2 by (done || constructor). by rewrite app_nil_r.
Qed.

Lemma hexdigits_no_prefix p l : p = px \/ p = pX -> hexdigits l -> strip_prefix p l = None.
Proof.
  intros Hp Hl. destruct (strip_prefix p l) as [r|] eqn:Hs; [|done].
  apply strip_prefix_Some in Hs as ->. exfalso.
  destruct Hp as [-> | ->]; apply Forall_app in Hl as [Hl _];
    repeat (apply Forall_cons in Hl as [? Hl]); discriminate.
Qed.

Lemma hex_bytes_parse_normal l :
  hexdigits l -> map to_lower l = l -> (length l mod 2 = 0)%nat -> hex_bytes_parse l = Ok l.
Proof.
  intros Hd Hl Hev. unfold hex_bytes_parse. rewrite trim_solid by by apply hexdigits_solid.
  rewrite !hexdigits_no_prefix by auto. cbn [from_option id].
  rewrite Hev, (proj2 (forallb_hexdigits l) Hd), Hl. done.
Qed.

Lemma hex_bytes_parse_inv value h :
  hex_bytes_parse value = Ok h ->
  exists n, h = map to_lower n /\ hexdigits n /\ (length n mod 2 = 0)%nat.
Proof.
  unfold hex_bytes_parse. cbn zeta. intros (u & Hev & Hp)%bind_Ok.
  apply bind_Ok in Hp as (u' & Hh & Hp). apply (inj Ok) in Hp as <-.
  apply reject_if_Ok, negb_false_iff, Nat.eqb_eq in Hev.
  apply reject_if_Ok, negb_false_iff, forallb_hexdigits in Hh. eauto.
Qed.

(** ** Properties *)

(** FeltHex::parse accepts only optionally 0x-prefixed text of at most 64 hexadecimal
    digits whose value is below the field prime, also when the library parser takes the prime
    for zero, and returns the canonical text of that value, which it reads back unchanged. *)
Theorem felt_hex_canonical `{FeltFromHex} s h :
  felt_hex_parse s = Ok h ->
  (exists ds, (s = ds \/ s = px ++ ds) /\ hexdigits ds /\ (length ds <= 64)%nat
     /\ 0 <= hex_value ds < felt_prime /\ h = px ++ hex_print 64 (hex_value ds))
  /\ felt_hex_parse h = Ok h.
Proof.
  intros Hp. destruct (felt_hex_parse_inv s h Hp) as (ds & Hs & Hd & Hl & Hv & ->).
  split; [by exists ds|]. by apply felt_hex_parse_canonical_text.
Qed.

(** A 0x-prefixed hexadecimal key of up to 64 significant digits, in either case, with any
    number of leading zeros and any surrounding ASCII white space, is refused as a secret
    reference. *)
Theorem secret_ref_rejects_keys ws1 ws2 p zeros digits :
  blanks ws1 -> blanks ws2 -> p = px \/ p = pX ->
  hexdigits digits -> digits <> [] -> (length digits <= 64)%nat ->
  secret_ref_new (ws1 ++ (p ++ replicate zeros 48 ++ digits) ++ ws2)
  = Err (InvalidSecretRef "must be an opaque identifier, not raw key material").
Proof.
  intros H1 H2 Hp Hd Hne Hlen. set (body := replicate zeros 48 ++ digits).
  assert (hexdigits body) as Hb by (apply Forall_app; split; [by apply Forall_replicate|done]).
  assert (Forall solid (p ++ body)) as Hsolid.
  { apply Forall_app. split; [|by apply hexdigits_solid]. destruct Hp as [-> | ->]; repeat constructor; done. }
  assert (p ++ body <> []) as Hpne by (by destruct Hp as [-> | ->]).
  unfold secret_ref_new. assert (is_blank (ws1 ++ (p ++ body) ++ ws2) = false) as ->.
  { unfold is_blank. destruct Hp as [-> | ->]; cbn [app px pX]; rewrite trim_start_blanks; done. }
  cbn [reject_if mbind outcome_bind]. unfold looks_like_raw_secret_material.
  rewrite trim_blanks, strip_0x by done.
  assert (length body <> 0%nat) as Hbl by (unfold body; rewrite length_app; destruct digits; [done|cbn; lia]).
  rewrite (proj2 (Nat.eqb_neq _ _)), (proj2 (forallb_hexdigits _)) by done.
  cbn [existsb negb andb]. pose proof (significant_len_le zeros digits) as Hsig. fold body in Hsig.
  rewrite (proj2 (Nat.leb_le (significant_len body) 64)), orb_true_r by lia. done.
Qed.

(** [HexBytes::parse] normalises: what it returns is an even number of lower
    case hexadecimal digits without prefix, and is read back unchanged. *)
Theorem hex_bytes_normal value h :
  hex_bytes_parse value = Ok h ->
  hexdigits h /\ (length h mod 2 = 0)%nat /\ map to_lower h = h /\ hex_bytes_parse h = Ok h.
Proof.
  intros Hp. destruct (hex_bytes_parse_inv value h Hp) as (n & -> & Hn & Hev).
  destruct (hexdigits_lower n Hn) as [Hd Hl]. rewrite length_map. split_and!; try done.
  apply hex_bytes_parse_normal; [done|done|]. by rewrite length_map.
Qed.

(** ** Witnesses *)

(** A reader of hexadecimal text that takes the field prime for zero, as the
    source's comment says the library's does. *)
Definition model_from_hex (s : list Z) : option Z :=
  let ds := default s (strip_prefix px s) in
  if forallb is_hexdigit ds && negb (length ds =? 0)%nat && (hex_value ds <=? felt_prime)
  then Some (hex_value ds mod felt_prime) else None.

#[local] Lemma model_from_hex_range s v : model_from_hex s = Some v -> 0 <= v < felt_prime.
Proof.
  unfold model_from_hex. destruct (_ && _); [|done]. intros [= <-]. by apply Z.mod_pos_bound.
Qed.

#[local] Lemma model_from_hex_digits n v :
  (1 <= n <= 64)%nat -> 0 <= v < felt_prime -> v < 16 ^ Z.of_nat n ->
  model_from_hex (px ++ hex_print n v) = Some v.
Proof.
  intros Hn Hv Hlt. destruct (hex_print_spec n v) as (Hd & _ & Hlen & Hval); [lia|].
  rewrite Z.mod_small in Hval by lia. unfold model_from_hex.
  rewrite (proj2 (strip_prefix_Some px (px ++ hex_print n v) (hex_print n v)) eq_refl).
  cbn [from_option id].
  rewrite Hval, Hlen, (proj2 (forallb_hexdigits _) Hd), (proj2 (Z.leb_le _ _)), (proj2 (Nat.eqb_neq n 0)) by lia.
  cbn [andb negb]. by rewrite Z.mod_small.
Qed.

#[local] Instance model_felt_from_hex : FeltFromHex :=
  {| felt_from_hex := model_from_hex;
     felt_from_hex_range := model_from_hex_range;
     felt_from_hex_digits := model_from_hex_digits |}.

(** The field prime itself is the input the canonicity check is for. *)
Example prime_is_rejected :
  model_from_hex (hex_print 64 felt_prime) = Some 0
  /\ felt_hex_parse (hex_print 64 felt_prime)
     = Err (InvalidFeltHex "value is not a canonical field element: {value}").
Proof. split; vm_compute; reflexivity. Qed.

Lemma felt_hex_canonical_witness :
  felt_hex_parse (px ++ hex_print 64 26) = Ok (px ++ hex_print 64 26)
  /\ felt_hex_parse [48; 120; 49; 65] = Ok (px ++ hex_print 64 26).
Proof.
  split; [|vm_compute; reflexivity].
  eapply proj2, (felt_hex_canonical [48; 120; 49; 65] (px ++ hex_print 64 26)).
  vm_compute. reflexivity.
Defined.

Lemma secret_ref_rejects_keys_witness :
  secret_ref_new ([32] ++ (px ++ replicate 70 48 ++ [65; 49]) ++ [10])
  = Err (InvalidSecretRef "must be an opaque identifier, not raw key material").
Proof.
  apply (secret_ref_rejects_keys [32] [10] px 70 [65; 49]);
    [repeat constructor|repeat constructor|left; reflexivity|repeat constructor|discriminate|cbn [length]; lia].
Defined.

Lemma hex_bytes_normal_witness :
  hex_bytes_parse [32; 48; 88; 65; 98; 10] = Ok [97; 98] /\ hex_bytes_parse [97; 98] = Ok [97; 98].
Proof.
  split; [vm_compute; reflexivity|].
  apply (hex_bytes_normal [32; 48; 88; 65; 98; 10] [97; 98]); vm_compute; reflexivity.
Defined.
