(* ===== verification/Ssrf.v ===== *)
(** * Request-forgery protection of the multisig coordinator

    crates/client/src/multisig/http/ssrf.rs: which addresses and URLs the HTTP
    coordinator may contact.

    Addresses are their octets and segments; the predicates of [std::net] the
    source calls are written out.  Name resolution is a function of the host and
    port at the time of the lookup, an argument; [parse_ip] stands for the parser
    of address literals.  The reference is the table of special-purpose blocks as
    prefixes of 32-bit and 128-bit numbers, with the IPv4 address that the bits of an
    IPv6 address hold under each transition prefix. *)

From stdpp Require Import base option list numbers strings.
From Stdlib Require Import ZArith Lia.
From S2P Require Import Prelude Types Text Primitives.

#[local] Open Scope string_scope.
#[local] Open Scope list_scope.
#[local] Open Scope Z_scope.

Record Ipv4Addr : Type := ipv4 { o0 : Z; o1 : Z; o2 : Z; o3 : Z }.
Record Ipv6Addr : Type := ipv6 { s0 : Z; s1 : Z; s2 : Z; s3 : Z; s4 : Z; s5 : Z; s6 : Z; s7 : Z }.
Inductive IpAddr : Type := V4 (v4 : Ipv4Addr) | V6 (v6 : Ipv6Addr).

(** ** [std::net] *)
Definition v4_is_private (a : Ipv4Addr) : bool :=
  (o0 a =? 10) || ((o0 a =? 172) && (16 <=? o1 a) && (o1 a <=? 31)) || ((o0 a =? 192) && (o1 a =? 168)).
Definition v4_is_loopback (a : Ipv4Addr) : bool := o0 a =? 127.
Definition v4_is_link_local (a : Ipv4Addr) : bool := (o0 a =? 169) && (o1 a =? 254).
Definition v4_is_broadcast (a : Ipv4Addr) : bool := (o0 a =? 255) && (o1 a =? 255) && (o2 a =? 255) && (o3 a =? 255).
Definition v4_is_documentation (a : Ipv4Addr) : bool :=
  ((o0 a =? 192) && (o1 a =? 0) && (o2 a =? 2)) || ((o0 a =? 198) && (o1 a =? 51) && (o2 a =? 100))
  || ((o0 a =? 203) && (o1 a =? 0) && (o2 a =? 113)).
Definition v4_is_unspecified (a : Ipv4Addr) : bool := (o0 a =? 0) && (o1 a =? 0) && (o2 a =? 0) && (o3 a =? 0).
Definition v4_is_multicast (a : Ipv4Addr) : bool := (224 <=? o0 a) && (o0 a <=? 239).

Definition top_zero (n : nat) (a : Ipv6Addr) : bool :=
  forallb (fun s => s =? 0) (take n [s0 a; s1 a; s2 a; s3 a; s4 a; s5 a; s6 a; s7 a]).
Definition v6_is_loopback (a : Ipv6Addr) : bool := top_zero 7 a && (s7 a =? 1).
Definition v6_is_unspecified (a : Ipv6Addr) : bool := top_zero 8 a.
Definition v6_is_multicast (a : Ipv6Addr) : bool := Z.land (s0 a) 0xff00 =? 0xff00.
Definition v6_is_unicast_link_local (a : Ipv6Addr) : bool := Z.land (s0 a) 0xffc0 =? 0xfe80.
Definition v6_is_unique_local (a : Ipv6Addr) : bool := Z.land (s0 a) 0xfe00 =? 0xfc00.

(** ** Blocked ranges *)
Definition ipv4_from_u16_pair (hi lo : Z) : Ipv4Addr :=
  ipv4 (Z.shiftr hi 8 mod 256) (hi mod 256) (Z.shiftr lo 8 mod 256) (lo mod 256).

Definition to_ipv4_mapped (a : Ipv6Addr) : option Ipv4Addr :=
  if top_zero 5 a && (s5 a =? 0xffff) then Some (ipv4_from_u16_pair (s6 a) (s7 a)) else None.

Definition is_blocked_ipv4 (a : Ipv4Addr) : bool :=
  v4_is_private a || v4_is_loopback a || v4_is_link_local a || v4_is_broadcast a || v4_is_documentation a
  || v4_is_unspecified a || v4_is_multicast a || (o0 a =? 0)
  || ((o0 a =? 100) && (Z.land (o1 a) 0xc0 =? 0x40))
  || ((o0 a =? 169) && (o1 a =? 254) && (o2 a =? 169) && (o3 a =? 254))
  || ((o0 a =? 192) && (o1 a =? 0) && (o2 a =? 0))
  || ((o0 a =? 198) && ((o1 a =? 18) || (o1 a =? 19)))
  || (240 <=? o0 a).

Definition is_blocked_ipv6 (a : Ipv6Addr) : bool :=
  v6_is_loopback a || v6_is_unspecified a || v6_is_multicast a || v6_is_unicast_link_local a || v6_is_unique_local a
  || (Z.land (s0 a) 0xffc0 =? 0xfec0)
  || ((s0 a =? 0x2001) && (s1 a =? 0x0db8))
  || ((s0 a =? 0x0100) && (s1 a =? 0) && (s2 a =? 0) && (s3 a =? 0)).

Definition ipv4_from_nat64_prefix (a : Ipv6Addr) : option Ipv4Addr :=
  if (s0 a =? 0x64) && (s1 a =? 0xff9b) && (s2 a =? 0) && (s3 a =? 0) && (s4 a =? 0) && (s5 a =? 0)
  then Some (ipv4_from_u16_pair (s6 a) (s7 a))
  else if (s0 a =? 0x64) && (s1 a =? 0xff9b) && (s2 a =? 1) && (s3 a =? 0) && (s4 a =? 0) && (s5 a =? 0)
  then Some (ipv4_from_u16_pair (s6 a) (s7 a))
  else if (s0 a =? 0x64) && (s1 a =? 0xff9b) && (s2 a =? 1) && (Z.shiftr (s4 a) 8 =? 0)
  then Some (ipv4 (Z.shiftr (s3 a) 8 mod 256) (s3 a mod 256) (s4 a mod 256) (Z.shiftr (s5 a) 8 mod 256))
  else None.

Definition is_local_use_nat64_prefix (a : Ipv6Addr) : bool := (s0 a =? 0x64) && (s1 a =? 0xff9b) && (s2 a =? 1).

Definition ipv4_from_transition_prefix (a : Ipv6Addr) : option Ipv4Addr :=
  if s0 a =? 0x2002 then Some (ipv4_from_u16_pair (s1 a) (s2 a))
  else if top_zero 6 a && negb ((s6 a =? 0) && (s7 a =? 0)) then Some (ipv4_from_u16_pair (s6 a) (s7 a))
  else None.

Definition is_blocked_ip (ip : IpAddr) : bool :=
  match ip with
  | V4 v4 => is_blocked_ipv4 v4
  | V6 v6 =>
      match to_ipv4_mapped v6 with
      | Some v4 => is_blocked_ipv4 v4
      | None =>
          match ipv4_from_nat64_prefix v6 with
          | Some v4 => is_blocked_ipv4 v4
          | None =>
              if is_local_use_nat64_prefix v6 then true
              else match ipv4_from_transition_prefix v6 with
                   | Some v4 => is_blocked_ipv4 v4
                   | None => is_blocked_ipv6 v6
                   end
          end
      end
  end.

(** ** URLs *)
Record SocketAddr : Type := { sa_ip : IpAddr; sa_port : Z }.
Inductive Host : Type := Host_Ipv4 (a : Ipv4Addr) | Host_Ipv6 (a : Ipv6Addr) | Host_Domain (domain : string).
(** [url::Url] by what is read of it; the port is [port_or_known_default]. *)
Record Url : Type := { url_scheme : string; url_host : option Host; url_port : option Z }.

(** A lookup at one moment; [None] is a failure. *)
Definition Lookup : Type := string -> Z -> option (list SocketAddr).

Definition resolve_public_socket_addrs (lookup : Lookup) (host : string) (port : Z) : Result (list SocketAddr) :=
  addrs ← ok_or (lookup host port) (MultisigError "failed to resolve coordinator host '{host}': {error}");
  _ ← reject_if (length addrs =? 0)%nat (MultisigError "coordinator host '{host}' resolved to no addresses");
  _ ← foldM (fun _ addr => reject_if (is_blocked_ip (sa_ip addr))
               (MultisigError "coordinator host '{host}' resolves to blocked address {}")) tt addrs;
  Ok addrs.

(** [s.ends_with(suffix)]. *)
Definition ends_with (suffix l : list Z) : bool := bool_decide (drop (length l - length suffix) l = suffix).

Definition is_local_name (domain : string) : bool :=
  let host_lower := map to_lower (string_bytes domain) in
  bool_decide (host_lower = string_bytes "localhost") || ends_with (string_bytes ".localhost") host_lower
  || bool_decide (host_lower = string_bytes "metadata.google.internal").

Definition port_or_80 (url : Url) : Z := default 80 (url_port url).

Definition validate_coordinator_url (lookup : Lookup) (url : Url) : Result unit :=
  _ ← reject_if (negb (bool_decide (url_scheme url = "http") || bool_decide (url_scheme url = "https")))
        (MultisigError "unsupported coordinator URL scheme '{other}' (only http/https)");
  host ← ok_or (url_host url) (MultisigError "coordinator URL missing host");
  match host with
  | Host_Ipv4 v4 =>
      reject_if (is_blocked_ipv4 v4) (MultisigError "coordinator host '{v4}' is a blocked IP address")
  | Host_Ipv6 v6 =>
      reject_if (is_blocked_ip (V6 v6)) (MultisigError "coordinator host '{v6}' is a blocked IP address")
  | Host_Domain domain =>
      _ ← reject_if (is_local_name domain) (MultisigError "coordinator host '{domain}' is blocked (loopback/metadata)");
      _ ← resolve_public_socket_addrs lookup domain (port_or_80 url);
      Ok tt
  end.

(** [PublicOnlyResolver::resolve]: an error is the text of an I/O error. *)
Fixpoint trim_dots_rev (l : list Z) : list Z :=
  match l with c :: l' => if c =? 46 then trim_dots_rev l' else l | [] => [] end.
Definition trim_end_dots (l : list Z) : list Z := rev (trim_dots_rev (rev l)).

Definition strip_brackets (raw : list Z) : list Z :=
  match raw with
  | c :: h => if (c =? 91) && bool_decide (last h = Some 93) then removelast h else raw
  | [] => raw
  end.

Definition public_only_resolve (parse_ip : list Z -> option IpAddr) (lookup : list Z -> option (list SocketAddr))
    (name : list Z) : outcome string (list SocketAddr) :=
  let host := strip_brackets (trim_end_dots name) in
  match parse_ip host with
  | Some ip =>
      _ ← reject_if (is_blocked_ip ip) "coordinator host '{host}' is a blocked IP address";
      Ok [{| sa_ip := ip; sa_port := 0 |}]
  | None =>
      addrs ← ok_or (lookup host) "DNS resolve failed for '{host}': {error}";
      _ ← reject_if (length addrs =? 0)%nat "coordinator host '{host}' resolved to no addresses";
      _ ← reject_if (existsb (fun addr => is_blocked_ip (sa_ip addr)) addrs)
            "coordinator host '{host}' resolved to a blocked address";
      Ok addrs
  end.

(** The redirect policy: [Ok] follows. *)
Definition redirect_policy (lookup : Lookup) (previous : nat) (url : Url) : Result unit :=
  _ ← reject_if (10 <=? previous)%nat (MultisigError "too many redirects while contacting coordinator");
  validate_coordinator_url lookup url.

(** The addresses [build_ssrf_safe_client] pins for the base host. *)
Definition pinned_addresses (lookup : Lookup) (url : Url) : Result (list SocketAddr) :=
  match url_host url with
  | Some (Host_Domain domain) => resolve_public_socket_addrs lookup domain (port_or_80 url)
  | _ => Ok []
  end.

(** ** The reference *)
Definition octets_ok (a : Ipv4Addr) : Prop :=
  0 <= o0 a < 256 /\ 0 <= o1 a < 256 /\ 0 <= o2 a < 256 /\ 0 <= o3 a < 256.

Definition v4_value (a : Ipv4Addr) : Z := o0 a * 2 ^ 24 + o1 a * 2 ^ 16 + o2 a * 2 ^ 8 + o3 a.

(** [a] lies in the block [prefix/len]. *)
Definition in_block4 (a : Ipv4Addr) (block : Ipv4Addr * Z) : bool :=
  v4_value a / 2 ^ (32 - snd block) =? v4_value (fst block) / 2 ^ (32 - snd block).

(** Special-purpose IPv4 blocks: this network, private, shared, loopback, link
    local, protocol assignments, documentation, benchmarking, multicast, reserved. *)
Definition special_blocks4 : list (Ipv4Addr * Z) :=
  [(ipv4 0 0 0 0, 8); (ipv4 10 0 0 0, 8); (ipv4 100 64 0 0, 10); (ipv4 127 0 0 0, 8); (ipv4 169 254 0 0, 16);
   (ipv4 172 16 0 0, 12); (ipv4 192 0 0 0, 24); (ipv4 192 0 2 0, 24); (ipv4 192 168 0 0, 16); (ipv4 198 18 0 0, 15);
   (ipv4 198 51 100 0, 24); (ipv4 203 0 113 0, 24); (ipv4 224 0 0 0, 4); (ipv4 240 0 0 0, 4)].

Definition special4 (a : Ipv4Addr) : bool := existsb (in_block4 a) special_blocks4.

(** Masking the high bits of a number of [n] bits. *)
Lemma land_high n k x :
  0 <= k <= n -> 0 <= x < 2 ^ n -> Z.land x (2 ^ n - 2 ^ k) = x / 2 ^ k * 2 ^ k.
Proof.
  intros Hk Hx. replace (2 ^ n - 2 ^ k) with (Z.shiftl (Z.ones (n - k)) k).
  2:{ rewrite Z.shiftl_mul_pow2, Z.ones_equiv by lia. replace (2 ^ n) with (2 ^ (n - k) * 2 ^ k); [lia|].
      rewrite <- Z.pow_add_r by lia. f_equal. lia. }
  rewrite <- Z.shiftr_div_pow2, <- Z.shiftl_mul_pow2 by lia. apply Z.bits_inj'. intros i Hi.
  rewrite Z.land_spec, !Z.shiftl_spec by lia. destruct (Z.lt_ge_cases i k) as [Hlt|Hge].
  - rewrite !(Z.testbit_neg_r _ (i - k)) by lia. apply andb_false_r.
  - rewrite Z.shiftr_spec by lia. replace (i - k + k) with i by lia.
    destruct (Z.lt_ge_cases i n) as [Hin|Hout].
    + rewrite Z.ones_spec_low by lia. apply andb_true_r.
    + rewrite Z.ones_spec_high by lia. rewrite andb_false_r. symmetry.
      destruct (decide (x = 0)) as [->|Hne]; [apply Z.testbit_0_l|]. apply Z.bits_above_log2; [lia|].
      apply (Z.lt_le_trans _ n); [|lia]. apply Z.log2_lt_pow2; lia.
Qed.

Lemma v4_prefixes a : octets_ok a ->
  v4_value a / 2 ^ 28 = o0 a / 16 /\ v4_value a / 2 ^ 24 = o0 a /\ v4_value a / 2 ^ 22 = o0 a * 4 + o1 a / 64
  /\ v4_value a / 2 ^ 20 = o0 a * 16 + o1 a / 16 /\ v4_value a / 2 ^ 17 = o0 a * 128 + o1 a / 2
  /\ v4_value a / 2 ^ 16 = o0 a * 256 + o1 a /\ v4_value a / 2 ^ 8 = o0 a * 65536 + o1 a * 256 + o2 a.
Proof.
  destruct a as [a b c d]. unfold octets_ok, v4_value. cbn [o0 o1 o2 o3]. intros (Ha & Hb & Hc & Hd).
  split_and!; match goal with |- _ / ?p = _ => let v := eval vm_compute in p in change p with v end;
    change (2 ^ 24) with 16777216; change (2 ^ 16) with 65536; change (2 ^ 8) with 256;
    Z.div_mod_to_equations; lia.
Qed.

(** Each block as a condition on the octets. *)
Lemma in_block4_octets a p len c :
  (in_block4 a (p, len) = true <-> c = true) -> in_block4 a (p, len) = c.
Proof. apply eq_true_iff_eq. Qed.

Ltac block_octets Ha :=
  apply in_block4_octets; destruct (v4_prefixes _ Ha) as (H28 & H24 & H22 & H20 & H17 & H16 & H8);
  unfold octets_ok in Ha; unfold in_block4; cbn [fst snd];
  match goal with |- context [v4_value (ipv4 ?p ?q ?r ?s) / 2 ^ (32 - ?k)] =>
    let e := eval vm_compute in (32 - k) in change (32 - k) with e;
    let v := eval vm_compute in (v4_value (ipv4 p q r s) / 2 ^ e) in
    change (v4_value (ipv4 p q r s) / 2 ^ e) with v end;
  rewrite ?H28, ?H24, ?H22, ?H20, ?H17, ?H16, ?H8; clear H28 H24 H22 H20 H17 H16 H8;
  rewrite ?andb_true_iff, ?orb_true_iff, ?andb_true_iff, ?Z.eqb_eq, ?Z.leb_le; Z.div_mod_to_equations; lia.

Section blocks.
Context (a : Ipv4Addr) (Ha : octets_ok a).

Lemma block_0 : in_block4 a (ipv4 0 0 0 0, 8) = (o0 a =? 0).
Proof. block_octets Ha. Qed.
Lemma block_10 : in_block4 a (ipv4 10 0 0 0, 8) = (o0 a =? 10).
Proof. block_octets Ha. Qed.
Lemma block_127 : in_block4 a (ipv4 127 0 0 0, 8) = (o0 a =? 127).
Proof. block_octets Ha. Qed.
Lemma block_shared : in_block4 a (ipv4 100 64 0 0, 10) = (o0 a =? 100) && (Z.land (o1 a) 0xc0 =? 0x40).
Proof.
  pose proof Ha as (_ & H1 & _). rewrite (land_high 8 6 (o1 a) ltac:(lia) H1 : Z.land (o1 a) 0xc0 = _).
  change (2 ^ 6) with 64. clear H1. block_octets Ha.
Qed.
Lemma block_link_local : in_block4 a (ipv4 169 254 0 0, 16) = (o0 a =? 169) && (o1 a =? 254).
Proof. block_octets Ha. Qed.
Lemma block_172 : in_block4 a (ipv4 172 16 0 0, 12) = (o0 a =? 172) && (16 <=? o1 a) && (o1 a <=? 31).
Proof. block_octets Ha. Qed.
Lemma block_assignments : in_block4 a (ipv4 192 0 0 0, 24) = (o0 a =? 192) && (o1 a =? 0) && (o2 a =? 0).
Proof. block_octets Ha. Qed.
Lemma block_doc1 : in_block4 a (ipv4 192 0 2 0, 24) = (o0 a =? 192) && (o1 a =? 0) && (o2 a =? 2).
Proof. block_octets Ha. Qed.
Lemma block_192_168 : in_block4 a (ipv4 192 168 0 0, 16) = (o0 a =? 192) && (o1 a =? 168).
Proof. block_octets Ha. Qed.
Lemma block_benchmark : in_block4 a (ipv4 198 18 0 0, 15) = (o0 a =? 198) && ((o1 a =? 18) || (o1 a =? 19)).
Proof. block_octets Ha. Qed.
Lemma block_doc2 : in_block4 a (ipv4 198 51 100 0, 24) = (o0 a =? 198) && (o1 a =? 51) && (o2 a =? 100).
Proof. block_octets Ha. Qed.
Lemma block_doc3 : in_block4 a (ipv4 203 0 113 0, 24) = (o0 a =? 203) && (o1 a =? 0) && (o2 a =? 113).
Proof. block_octets Ha. Qed.
Lemma block_multicast : in_block4 a (ipv4 224 0 0 0, 4) = (224 <=? o0 a) && (o0 a <=? 239).
Proof. block_octets Ha. Qed.
Lemma block_reserved : in_block4 a (ipv4 240 0 0 0, 4) = (240 <=? o0 a).
Proof. block_octets Ha. Qed.

(** The source's conditions are exactly the table. *)
Lemma is_blocked_ipv4_table : is_blocked_ipv4 a = special4 a.
Proof.
  unfold special4, special_blocks4. cbn [existsb]. rewrite orb_false_r.
  rewrite block_0, block_10, block_127, block_shared, block_link_local, block_172, block_assignments, block_doc1,
    block_192_168, block_benchmark, block_doc2, block_doc3, block_multicast, block_reserved.
  unfold is_blocked_ipv4, v4_is_private, v4_is_loopback, v4_is_link_local, v4_is_documentation, v4_is_multicast.
  assert (v4_is_broadcast a = true -> (240 <=? o0 a) = true) as Hb.
  { unfold v4_is_broadcast. rewrite !andb_true_iff, !Z.eqb_eq, Z.leb_le. lia. }
  assert (v4_is_unspecified a = true -> (o0 a =? 0) = true) as Hu.
  { unfold v4_is_unspecified. rewrite !andb_true_iff. by intros [[[? ?] ?] ?]. }
  assert ((o0 a =? 169) && (o1 a =? 254) && (o2 a =? 169) && (o3 a =? 254) = true
          -> (o0 a =? 169) && (o1 a =? 254) = true) as Hm.
  { rewrite !andb_true_iff. by intros [[[? ?] ?] ?]. }
  apply eq_true_iff_eq. rewrite !orb_true_iff. tauto.
Qed.
End blocks.

(** ** IPv6 *)
Definition segments (a : Ipv6Addr) : list Z := [s0 a; s1 a; s2 a; s3 a; s4 a; s5 a; s6 a; s7 a].
Definition segment_ok (s : Z) : Prop := 0 <= s < 2 ^ 16.
Definition segments_ok (a : Ipv6Addr) : Prop := Forall segment_ok (segments a).
Definition segments_value (l : list Z) : Z := fold_left (fun v s => v * 2 ^ 16 + s) l 0.
Definition v6_value (a : Ipv6Addr) : Z := segments_value (segments a).

Definition in_block6 (a : Ipv6Addr) (block : Ipv6Addr * Z) : bool :=
  v6_value a / 2 ^ (128 - snd block) =? v6_value (fst block) / 2 ^ (128 - snd block).

(** Special-purpose IPv6 blocks: unspecified, loopback, discard, documentation,
    unique local, link local, site local, multicast. *)
Definition special_blocks6 : list (Ipv6Addr * Z) :=
  [(ipv6 0 0 0 0 0 0 0 0, 128); (ipv6 0 0 0 0 0 0 0 1, 128); (ipv6 0x100 0 0 0 0 0 0 0, 64);
   (ipv6 0x2001 0xdb8 0 0 0 0 0 0, 32); (ipv6 0xfc00 0 0 0 0 0 0 0, 7); (ipv6 0xfe80 0 0 0 0 0 0 0, 10);
   (ipv6 0xfec0 0 0 0 0 0 0 0, 10); (ipv6 0xff00 0 0 0 0 0 0 0, 8)].

Definition special6 (a : Ipv6Addr) : bool := existsb (in_block6 a) special_blocks6.

(** The [len] bits of an address that follow its first [from], as RFC 6052 counts them. *)
Definition bits (a : Ipv6Addr) (from len : Z) : Z := v6_value a / 2 ^ (128 - from - len) mod 2 ^ len.

Definition v4_of_value (v : Z) : Ipv4Addr :=
  ipv4 (v / 2 ^ 24 mod 256) (v / 2 ^ 16 mod 256) (v / 2 ^ 8 mod 256) (v mod 256).

(** The prefixes under which an address stands for an IPv4 address: mapped
    (RFC 4291), the well-known and the local-use NAT64 prefix (RFC 6052, RFC 8215),
    6to4 (RFC 3056) and compatible (RFC 4291). *)
Definition mapped_prefix : Ipv6Addr * Z := (ipv6 0 0 0 0 0 0xffff 0 0, 96).
Definition nat64_prefix : Ipv6Addr * Z := (ipv6 0x64 0xff9b 0 0 0 0 0 0, 96).
Definition nat64_local_96 : Ipv6Addr * Z := (ipv6 0x64 0xff9b 1 0 0 0 0 0, 96).
Definition nat64_local : Ipv6Addr * Z := (ipv6 0x64 0xff9b 1 0 0 0 0 0, 48).
Definition sixto4_prefix : Ipv6Addr * Z := (ipv6 0x2002 0 0 0 0 0 0 0, 16).
Definition compatible_prefix : Ipv6Addr * Z := (ipv6 0 0 0 0 0 0 0 0, 96).

(** The IPv4 address in one of these forms.  Under the local-use prefix the last 32
    bits count when the other free bits are zero, and otherwise the layout of
    RFC 6052 for a prefix of 48 bits, which skips a zero octet. *)
Definition embedded4 (a : Ipv6Addr) : option Ipv4Addr :=
  if in_block6 a mapped_prefix || in_block6 a nat64_prefix || in_block6 a nat64_local_96
  then Some (v4_of_value (bits a 96 32))
  else if in_block6 a nat64_local && (bits a 64 8 =? 0)
  then Some (v4_of_value (bits a 48 16 * 2 ^ 16 + bits a 72 16))
  else if in_block6 a sixto4_prefix then Some (v4_of_value (bits a 16 32))
  else if in_block6 a compatible_prefix && negb (v6_value a =? 0) then Some (v4_of_value (bits a 96 32))
  else None.

(** The addresses that are not to be contacted, by the reference. *)
Definition reserved (ip : IpAddr) : bool :=
  match ip with
  | V4 a => special4 a
  | V6 s => match embedded4 s with Some a => special4 a | None => in_block6 s nat64_local || special6 s end
  end.
Definition public (ip : IpAddr) : Prop := reserved ip = false.

Definition ip_ok (ip : IpAddr) : Prop := match ip with V4 a => octets_ok a | V6 s => segments_ok s end.

(** *** Prefixes of segments *)
Lemma segments_value_snoc l x : segments_value (l ++ [x]) = segments_value l * 2 ^ 16 + x.
Proof. unfold segments_value. by rewrite fold_left_app. Qed.

Lemma segments_value_nonneg l : Forall segment_ok l -> 0 <= segments_value l.
Proof.
  induction l as [|x l IH] using rev_ind; [done|]. rewrite Forall_app, Forall_singleton, segments_value_snoc.
  unfold segment_ok. intros [?%IH ?]. lia.
Qed.

Lemma segments_value_prefix l1 l2 :
  Forall segment_ok l2 -> segments_value (l1 ++ l2) / 2 ^ (16 * Z.of_nat (length l2)) = segments_value l1.
Proof.
  induction l2 as [|x l IH] using rev_ind; [by rewrite app_nil_r, Z.div_1_r|].
  rewrite Forall_app, Forall_singleton, length_app, app_assoc, segments_value_snoc. unfold segment_ok. intros [Hl Hx].
  replace (16 * Z.of_nat (length l + length [x])) with (16 + 16 * Z.of_nat (length l)) by (cbn; lia).
  rewrite Z.pow_add_r, <- Z.div_div, (Z.add_comm _ x), Z.div_add, (Z.div_small x) by lia. by apply IH.
Qed.

Lemma segments_value_suffix l1 l2 :
  Forall segment_ok l2 ->
  segments_value (l1 ++ l2) mod 2 ^ (16 * Z.of_nat (length l2)) = segments_value l2.
Proof.
  induction l2 as [|x l IH] using rev_ind; [by rewrite app_nil_r, Z.mod_1_r|].
  rewrite Forall_app, Forall_singleton, length_app, app_assoc, !segments_value_snoc. intros [Hl Hx].
  specialize (IH Hl). pose proof (segments_value_nonneg l Hl).
  replace (16 * Z.of_nat (length l + length [x])) with (16 * Z.of_nat (length l) + 16) by (cbn; lia).
  rewrite Z.pow_add_r by lia. set (m := 2 ^ (16 * Z.of_nat (length l))) in *.
  assert (0 < m) as Hm by (apply Z.pow_pos_nonneg; lia). unfold segment_ok in Hx.
  pose proof (Z.mod_pos_bound (segments_value (l1 ++ l)) m Hm). pose proof (Z.div_mod (segments_value (l1 ++ l)) m ltac:(lia)) as Hdm.
  rewrite IH in *. symmetry. apply (Z.mod_unique_pos _ _ (segments_value (l1 ++ l) / m)); [nia|]. rewrite Hdm at 1. ring.
Qed.

Lemma segments_value_inj l1 : forall l2,
  length l1 = length l2 -> Forall segment_ok l1 -> Forall segment_ok l2 ->
  segments_value l1 = segments_value l2 -> l1 = l2.
Proof.
  induction l1 as [|x l1 IH] using rev_ind; intros l2 Hlen H1 H2 Heq.
  { by destruct l2. }
  destruct l2 as [|y l2 _] using rev_ind; [rewrite length_app in Hlen; cbn in Hlen; lia|].
  rewrite !length_app in Hlen. cbn [length] in Hlen. rewrite !Forall_app, !Forall_singleton in *. unfold segment_ok in *.
  rewrite !segments_value_snoc in Heq. f_equal; [apply IH; try tauto; lia|f_equal; lia].
Qed.

(** A block of whole segments is a condition on them. *)
Lemma in_block6_segments s p (k : nat) :
  (k <= 8)%nat -> segments_ok s -> segments_ok p ->
  in_block6 s (p, 16 * Z.of_nat k) = bool_decide (take k (segments s) = take k (segments p)).
Proof.
  intros Hk Hs Hp. unfold in_block6, v6_value. cbn [fst snd].
  assert (forall a, segments_ok a ->
    segments_value (segments a) / 2 ^ (128 - 16 * Z.of_nat k) = segments_value (take k (segments a))) as Hpre.
  { intros a Ha. rewrite <- (take_drop k (segments a)) at 1.
    replace (128 - 16 * Z.of_nat k) with (16 * Z.of_nat (length (drop k (segments a)))).
    - apply segments_value_prefix. by apply Forall_drop.
    - rewrite length_drop. change (length (segments a)) with 8%nat. lia. }
  rewrite !Hpre by done. apply eq_true_iff_eq. rewrite Z.eqb_eq, bool_decide_eq_true. split; [|by intros ->].
  apply segments_value_inj; [by rewrite !length_take|by apply Forall_take..].
Qed.

(** A block within the first segment is a mask of it. *)
Lemma in_block6_mask s p k m v :
  segments_ok s -> segments_ok p -> 0 <= k <= 16 -> m = 2 ^ 16 - 2 ^ k -> v = s0 p -> v mod 2 ^ k = 0 ->
  in_block6 s (p, 16 - k) = (Z.land (s0 s) m =? v).
Proof.
  intros Hs Hp Hk -> -> Hv. unfold in_block6, v6_value. cbn [fst snd].
  assert (forall a, segments_ok a -> segments_value (segments a) / 2 ^ (128 - (16 - k)) = s0 a / 2 ^ k) as Hpre.
  { intros a Ha. replace (128 - (16 - k)) with (16 * Z.of_nat (length (drop 1 (segments a))) + k) by (cbn; lia).
    rewrite Z.pow_add_r, <- Z.div_div by lia. change (segments a) with ([s0 a] ++ drop 1 (segments a)) at 1.
    by rewrite segments_value_prefix by by apply Forall_drop. }
  rewrite !Hpre, land_high by (done || by apply (Forall_inv Hs)).
  pose proof (Z.pow_pos_nonneg 2 k ltac:(lia) ltac:(lia)). pose proof (Z.div_mod (s0 p) (2 ^ k) ltac:(lia)).
  apply eq_true_iff_eq. rewrite !Z.eqb_eq. split; intros Heq; nia.
Qed.

Lemma segments_ok_of s : forallb (fun x => (0 <=? x) && (x <? 65536)) (segments s) = true -> segments_ok s.
Proof.
  unfold segments_ok. rewrite forallb_forall, Forall_forall. intros Hall x Hx%list_elem_of_In.
  apply Hall in Hx. unfold segment_ok. change (2 ^ 16) with 65536. lia.
Qed.

Lemma eqb_list (l l' : list Z) :
  length l = length l' -> bool_decide (l = l') = forallb (fun '(x, y) => x =? y) (zip l l').
Proof.
  revert l'. induction l as [|x l IH]; intros [|y l'] Hlen; try discriminate Hlen; [done|].
  cbn [zip zip_with forallb]. fold (zip l l'). rewrite <- IH by (cbn in Hlen; lia).
  apply eq_true_iff_eq. rewrite andb_true_iff, Z.eqb_eq, !bool_decide_eq_true. split; [by intros [=]|by intros [-> ->]].
Qed.

(** Rewrites the blocks of [s] as conditions on its segments. *)
Ltac segment_block s Hs :=
  match goal with
  | |- context [in_block6 s (?p, ?len)] =>
      let k := eval vm_compute in (Z.to_nat (len / 16)) in
      change (in_block6 s (p, len)) with (in_block6 s (p, 16 * Z.of_nat k));
      rewrite (in_block6_segments s p k) by (lia || exact Hs || by apply segments_ok_of);
      rewrite eqb_list by reflexivity; cbn [segments take zip zip_with forallb s0 s1 s2 s3 s4 s5 s6 s7]
  end.

(** The source's conditions on IPv6 addresses are exactly the table. *)
Lemma is_blocked_ipv6_table s : segments_ok s -> is_blocked_ipv6 s = special6 s.
Proof.
  intros Hs. unfold special6, special_blocks6. cbn [existsb]. rewrite orb_false_r.
  rewrite (in_block6_mask s (ipv6 0xfc00 0 0 0 0 0 0 0) 9 0xfe00 0xfc00
             Hs ltac:(by apply segments_ok_of) ltac:(lia) eq_refl eq_refl eq_refl : in_block6 s (_, 7) = _).
  rewrite (in_block6_mask s (ipv6 0xfe80 0 0 0 0 0 0 0) 6 0xffc0 0xfe80
             Hs ltac:(by apply segments_ok_of) ltac:(lia) eq_refl eq_refl eq_refl : in_block6 s (_, 10) = _).
  rewrite (in_block6_mask s (ipv6 0xfec0 0 0 0 0 0 0 0) 6 0xffc0 0xfec0
             Hs ltac:(by apply segments_ok_of) ltac:(lia) eq_refl eq_refl eq_refl : in_block6 s (_, 10) = _).
  rewrite (in_block6_mask s (ipv6 0xff00 0 0 0 0 0 0 0) 8 0xff00 0xff00
             Hs ltac:(by apply segments_ok_of) ltac:(lia) eq_refl eq_refl eq_refl : in_block6 s (_, 8) = _).
  do 4 segment_block s Hs.
  unfold is_blocked_ipv6, v6_is_loopback, v6_is_unspecified, top_zero, v6_is_multicast, v6_is_unicast_link_local,
    v6_is_unique_local. cbn [take forallb].
  apply eq_true_iff_eq. rewrite !orb_true_iff, !andb_true_iff. tauto.
Qed.

(** *** The embedded address *)
Lemma pair_of_value hi lo :
  segment_ok hi -> segment_ok lo -> v4_of_value (hi * 2 ^ 16 + lo) = ipv4_from_u16_pair hi lo.
Proof.
  unfold segment_ok. change (2 ^ 16) with 65536. intros Hh Hl. unfold v4_of_value, ipv4_from_u16_pair.
  rewrite !Z.shiftr_div_pow2 by lia. change (2 ^ 24) with 16777216. change (2 ^ 16) with 65536. change (2 ^ 8) with 256.
  f_equal; Z.div_mod_to_equations; lia.
Qed.

(** The bits of whole segments. *)
Lemma bits_segments s (i n : nat) :
  (i + n <= 8)%nat -> segments_ok s ->
  bits s (16 * Z.of_nat i) (16 * Z.of_nat n) = segments_value (take n (drop i (segments s))).
Proof.
  intros Hin Hs. unfold bits, v6_value.
  replace (128 - 16 * Z.of_nat i - 16 * Z.of_nat n) with (16 * Z.of_nat (length (drop (i + n) (segments s)))).
  2:{ rewrite length_drop. change (length (segments s)) with 8%nat. lia. }
  rewrite <- (take_drop (i + n) (segments s)) at 1. rewrite segments_value_prefix by by apply Forall_drop.
  replace (take (i + n) (segments s)) with (take i (segments s) ++ take n (drop i (segments s))).
  2:{ rewrite <- take_take_drop. done. }
  replace (16 * Z.of_nat n) with (16 * Z.of_nat (length (take n (drop i (segments s))))).
  2:{ rewrite length_take, length_drop. change (length (segments s)) with 8%nat. f_equal. lia. }
  apply segments_value_suffix. by apply Forall_take, Forall_drop.
Qed.

Section embedding.
Context (s : Ipv6Addr) (Hs : segments_ok s).

Lemma segments_bounds :
  segment_ok (s0 s) /\ segment_ok (s1 s) /\ segment_ok (s2 s) /\ segment_ok (s3 s)
  /\ segment_ok (s4 s) /\ segment_ok (s5 s) /\ segment_ok (s6 s) /\ segment_ok (s7 s).
Proof. pose proof Hs as Hs'. unfold segments_ok, segments in Hs'. rewrite !Forall_cons in Hs'. tauto. Qed.

Lemma last_pair : v4_of_value (bits s 96 32) = ipv4_from_u16_pair (s6 s) (s7 s).
Proof.
  rewrite (bits_segments s 6 2 ltac:(lia) Hs : bits s 96 32 = _). pose proof segments_bounds.
  apply pair_of_value; tauto.
Qed.

Lemma sixto4_pair : v4_of_value (bits s 16 32) = ipv4_from_u16_pair (s1 s) (s2 s).
Proof.
  rewrite (bits_segments s 1 2 ltac:(lia) Hs : bits s 16 32 = _). pose proof segments_bounds.
  apply pair_of_value; tauto.
Qed.

(** The layout for 48 bits: segments 3 and 4 without the zero octet, and half of 5. *)
Lemma local_48_bits :
  bits s 64 8 = Z.shiftr (s4 s) 8
  /\ v4_of_value (bits s 48 16 * 2 ^ 16 + bits s 72 16)
     = ipv4 (Z.shiftr (s3 s) 8 mod 256) (s3 s mod 256) (s4 s mod 256) (Z.shiftr (s5 s) 8 mod 256).
Proof.
  rewrite (bits_segments s 3 1 ltac:(lia) Hs : bits s 48 16 = _).
  destruct segments_bounds as (H0 & H1 & H2 & H3 & H4 & H5 & H6 & H7).
  assert (v6_value s / 2 ^ 32
          = segments_value [s0 s; s1 s; s2 s; s3 s; s4 s; s5 s]) as Hv.
  { exact (segments_value_prefix [s0 s; s1 s; s2 s; s3 s; s4 s; s5 s] [s6 s; s7 s] ltac:(rewrite !Forall_cons, Forall_nil; tauto)). }
  assert (0 <= segments_value [s0 s; s1 s; s2 s; s3 s]) as Hpos by (apply segments_value_nonneg; rewrite !Forall_cons, Forall_nil; tauto).
  unfold bits. change (128 - 64 - 8) with (32 + 24). change (128 - 72 - 16) with (32 + 8).
  rewrite !(Z.pow_add_r 2 32), <- !Z.div_div, Hv by lia.
  change (segments_value [s0 s; s1 s; s2 s; s3 s; s4 s; s5 s])
    with ((segments_value [s0 s; s1 s; s2 s; s3 s] * 2 ^ 16 + s4 s) * 2 ^ 16 + s5 s).
  change (segments_value (take 1 (drop 3 (segments s)))) with (s3 s).
  clear Hv. revert Hpos. generalize (segments_value [s0 s; s1 s; s2 s; s3 s]). intros q Hq. unfold segment_ok in *.
  rewrite !Z.shiftr_div_pow2 by lia. unfold v4_of_value. change (2 ^ 24) with 16777216. change (2 ^ 16) with 65536 in *.
  change (2 ^ 8) with 256. split; [Z.div_mod_to_equations; lia|].
  f_equal; Z.div_mod_to_equations; lia.
Qed.

Lemma value_zero : (v6_value s =? 0) = top_zero 8 s.
Proof.
  pose proof (in_block6_segments s (ipv6 0 0 0 0 0 0 0 0) 8 ltac:(lia) Hs ltac:(by apply segments_ok_of)) as Hb.
  unfold in_block6 in Hb. cbn [fst snd] in Hb. change (128 - 16 * Z.of_nat 8) with 0 in Hb. rewrite !Z.div_1_r in Hb.
  change (v6_value (ipv6 0 0 0 0 0 0 0 0)) with 0 in Hb. rewrite Hb, eqb_list by reflexivity. reflexivity.
Qed.

(** The addresses the source blocks are exactly those of the reference. *)
Lemma is_blocked_ipv6_reserved : is_blocked_ip (V6 s) = reserved (V6 s).
Proof.
  unfold is_blocked_ip, reserved, embedded4, mapped_prefix, nat64_prefix, nat64_local_96, nat64_local, sixto4_prefix,
    compatible_prefix. do 6 segment_block s Hs. destruct local_48_bits as [-> ->].
  rewrite last_pair, sixto4_pair, value_zero, <- is_blocked_ipv6_table by exact Hs.
  unfold to_ipv4_mapped, ipv4_from_nat64_prefix, is_local_use_nat64_prefix, ipv4_from_transition_prefix, top_zero.
  cbn [take forallb].
  assert (forall hi lo, octets_ok (ipv4_from_u16_pair hi lo)) as Hpair
    by (intros hi lo; unfold octets_ok; cbn; split_and!; apply Z.mod_pos_bound; lia).
  assert (octets_ok (ipv4 (Z.shiftr (s3 s) 8 mod 256) (s3 s mod 256) (s4 s mod 256) (Z.shiftr (s5 s) 8 mod 256))) as H48
    by (unfold octets_ok; cbn; split_and!; apply Z.mod_pos_bound; lia).
  rewrite !andb_true_r, !andb_assoc.
  set (local := (s0 s =? 0x64) && (s1 s =? 0xff9b) && (s2 s =? 1)).
  set (compatible := (s0 s =? 0) && (s1 s =? 0) && (s2 s =? 0) && (s3 s =? 0) && (s4 s =? 0) && (s5 s =? 0)).
  assert (local = true -> (s0 s =? 0x2002) = false /\ compatible = false) as Hlocal.
  { unfold local, compatible. intros [[->%Z.eqb_eq _]%andb_true_iff _]%andb_true_iff. done. }
  destruct (_ && (s5 s =? 0xffff)); [by apply is_blocked_ipv4_table|]. cbn [orb].
  destruct ((s0 s =? 0x64) && (s1 s =? 0xff9b) && (s2 s =? 0) && _ && _ && _); [by apply is_blocked_ipv4_table|]. cbn [orb].
  destruct local; cbn [andb orb].
  - destruct (Hlocal eq_refl) as [-> ->]. cbn [andb].
    destruct ((s3 s =? 0) && (s4 s =? 0) && (s5 s =? 0)); [by apply is_blocked_ipv4_table|].
    destruct (Z.shiftr (s4 s) 8 =? 0); [by apply is_blocked_ipv4_table|done].
  - destruct (s0 s =? 0x2002); [by apply is_blocked_ipv4_table|].
    destruct compatible; cbn [andb]; [|done]. destruct ((s6 s =? 0) && (s7 s =? 0)); [done|]. cbn [negb].
    by apply is_blocked_ipv4_table.
Qed.
End embedding.

(** ** Properties *)
Lemma is_blocked_ip_reserved ip : ip_ok ip -> is_blocked_ip ip = reserved ip.
Proof. destruct ip as [a|s]; [apply is_blocked_ipv4_table|apply is_blocked_ipv6_reserved]. Qed.

Lemma unblocked_public ip : ip_ok ip -> is_blocked_ip ip = false -> public ip.
Proof. intros Hok. unfold public. by rewrite is_blocked_ip_reserved. Qed.

(** Lookups return well-formed addresses. *)
Definition lookup_ok (lookup : Lookup) : Prop :=
  forall host port addrs, lookup host port = Some addrs -> Forall (fun a => ip_ok (sa_ip a)) addrs.

(** The loop over the addresses passes exactly when none is blocked. *)
Lemma reject_loop_Ok (e : KmsError) addrs u :
  foldM (fun (_ : unit) addr => reject_if (is_blocked_ip (sa_ip addr)) e) tt addrs = Ok u ->
  Forall (fun a => is_blocked_ip (sa_ip a) = false) addrs.
Proof.
  induction addrs as [|y m IH]; [constructor|]. cbn [foldM]. intros (v & Hy%reject_if_Ok & Hm)%bind_Ok. destruct v.
  constructor; [exact Hy|by apply IH].
Qed.

Lemma resolve_public_Ok lookup host port addrs :
  lookup_ok lookup -> resolve_public_socket_addrs lookup host port = Ok addrs ->
  lookup host port = Some addrs /\ addrs <> [] /\ Forall (fun a => public (sa_ip a)) addrs.
Proof.
  intros Hl. unfold resolve_public_socket_addrs. destruct (lookup host port) as [l|] eqn:Hlook; [|done].
  cbn [ok_or mbind outcome_bind]. specialize (Hl _ _ _ Hlook). destruct l as [|x l]; [done|].
  intros (u & _ & (v & Hf%reject_loop_Ok & Heq)%bind_Ok)%bind_Ok. injection Heq as <-.
  split; [done|]. split; [done|]. eapply Forall_impl; [apply Forall_and; exact (conj Hl Hf)|].
  intros a [Hok Hb]. by apply unblocked_public.
Qed.

(** What a URL's host may be. *)
Definition host_public (lookup : Lookup) (url : Url) (host : Host) : Prop :=
  match host with
  | Host_Ipv4 a => public (V4 a)
  | Host_Ipv6 s => public (V6 s)
  | Host_Domain domain =>
      exists addrs, lookup domain (port_or_80 url) = Some addrs /\ addrs <> []
        /\ Forall (fun a => public (sa_ip a)) addrs
  end.

Definition host_ok (host : Host) : Prop :=
  match host with Host_Ipv4 a => octets_ok a | Host_Ipv6 s => segments_ok s | Host_Domain _ => True end.

Lemma validate_url_Ok lookup url :
  lookup_ok lookup -> (forall host, url_host url = Some host -> host_ok host) ->
  validate_coordinator_url lookup url = Ok tt ->
  (url_scheme url = "http" \/ url_scheme url = "https")
  /\ exists host, url_host url = Some host /\ host_public lookup url host.
Proof.
  intros Hl Hok. unfold validate_coordinator_url.
  destruct (bool_decide (url_scheme url = "http") || bool_decide (url_scheme url = "https")) eqn:Hs; [|done].
  cbn [negb reject_if mbind outcome_bind]. apply orb_true_iff in Hs. rewrite !bool_decide_eq_true in Hs.
  destruct (url_host url) as [host|]; [|done]. cbn [ok_or mbind outcome_bind]. specialize (Hok host eq_refl).
  intros Hv. split; [exact Hs|]. exists host. split; [done|]. destruct host as [a|s|domain]; cbn [host_public host_ok] in *.
  - apply (unblocked_public (V4 a) Hok). by apply reject_if_Ok in Hv.
  - apply (unblocked_public (V6 s) Hok). by apply reject_if_Ok in Hv.
  - destruct (is_local_name domain); [done|]. cbn [reject_if mbind outcome_bind] in Hv.
    destruct (resolve_public_socket_addrs lookup domain (port_or_80 url)) as [addrs|?|] eqn:Hr; [|done..].
    exists addrs. by apply resolve_public_Ok in Hr.
Qed.

Lemma public_only_resolve_Ok parse_ip lookup name addrs :
  (forall h ip, parse_ip h = Some ip -> ip_ok ip) ->
  (forall h l, lookup h = Some l -> Forall (fun a => ip_ok (sa_ip a)) l) ->
  public_only_resolve parse_ip lookup name = Ok addrs -> addrs <> [] /\ Forall (fun a => public (sa_ip a)) addrs.
Proof.
  intros Hp Hl. unfold public_only_resolve. cbv zeta. destruct (parse_ip _) as [ip|] eqn:Hip.
  - destruct (is_blocked_ip ip) eqn:Hb; [done|]. cbn [reject_if mbind outcome_bind]. intros [= <-].
    split; [done|]. repeat constructor. cbn [sa_ip]. apply unblocked_public; [by eapply Hp|done].
  - destruct (lookup _) as [l|] eqn:Hlook; [|done]. cbn [ok_or mbind outcome_bind]. apply Hl in Hlook.
    destruct l as [|x l]; [done|]. cbn [length Nat.eqb reject_if mbind outcome_bind].
    destruct (existsb _ _) eqn:He; [done|]. cbn [reject_if mbind outcome_bind]. intros [= <-]. split; [done|].
    apply not_true_iff_false in He. rewrite Forall_forall in Hlook |- *. intros a Hin. apply unblocked_public; [by apply Hlook|].
    apply not_true_iff_false. intros Hb. apply He. apply existsb_exists. exists a. split; [by apply list_elem_of_In|done].
Qed.

(** C16: A coordinator is contacted only at addresses outside the reserved ones: a followed
    redirect is one of the first ten, http or https, to a host none of whose resolved addresses
    is reserved, and so are the pinned addresses and every address the connection-time resolver
    returns. The addresses blocked are exactly the reserved ones: the special-purpose IPv4
    blocks; an IPv6 address by the IPv4 address it embeds when it is mapped, compatible, 6to4,
    under the well-known NAT64 prefix, or under the local-use NAT64 prefix with the last 32
    bits after zeros or else the 48-bit layout; any other local-use NAT64 address; and the
    special-purpose IPv6 blocks. Other prefix lengths under the local-use prefix are not
    recognised: 64:ff9b:1:808::a00:1 passes. *)
Theorem ssrf_safe lookup parse_ip dns url :
  lookup_ok lookup -> (forall host, url_host url = Some host -> host_ok host) ->
  (forall h ip, parse_ip h = Some ip -> ip_ok ip) ->
  (forall h l, dns h = Some l -> Forall (fun a => ip_ok (sa_ip a)) l) ->
  (forall previous, redirect_policy lookup previous url = Ok tt ->
     (previous < 10)%nat /\ (url_scheme url = "http" \/ url_scheme url = "https")
     /\ exists host, url_host url = Some host /\ host_public lookup url host)
  /\ (forall addrs, pinned_addresses lookup url = Ok addrs -> Forall (fun a => public (sa_ip a)) addrs)
  /\ (forall name addrs, public_only_resolve parse_ip dns name = Ok addrs ->
      addrs <> [] /\ Forall (fun a => public (sa_ip a)) addrs)
  /\ (forall ip, ip_ok ip -> is_blocked_ip ip = reserved ip)
  /\ public (V6 (ipv6 0x64 0xff9b 1 0x808 0 0 0x0a00 0x0001)).
Proof.
  intros Hl Hok Hp Hd. split_and!.
  - intros previous. unfold redirect_policy. destruct (Nat.leb_spec 10 previous) as [|Hlt]; [done|].
    cbn [reject_if mbind outcome_bind]. intros Hv. split; [done|]. by apply validate_url_Ok.
  - intros addrs. unfold pinned_addresses. destruct (url_host url) as [[a|s|domain]|]; try (intros [= <-]; constructor).
    intros Hr. by apply resolve_public_Ok in Hr as (_ & _ & ?).
  - intros name addrs. by apply public_only_resolve_Ok.
  - apply is_blocked_ip_reserved.
  - vm_compute. reflexivity.
Qed.

(** Under the local-use NAT64 prefix 64:ff9b:1::/48 an operator may pick any
    prefix length (RFC 6052).  An address whose last 32 bits are 10.0.0.1 under the
    /96 prefix 64:ff9b:1:808::/96 is read as a /48 embedding of 8.8.0.0 and not
    blocked. *)
Theorem nat64_local_prefix_lengths :
  let target := ipv4 10 0 0 1 in
  let address := ipv6 0x64 0xff9b 1 0x808 0 0 0x0a00 0x0001 in
  is_blocked_ip (V4 target) = true /\ is_blocked_ip (V6 address) = false
  /\ ipv4_from_nat64_prefix address = Some (ipv4 8 8 0 0).
Proof. vm_compute. done. Qed.

(** ** Witness *)
Lemma ssrf_safe_witness :
  let url := {| url_scheme := "https"; url_host := Some (Host_Domain "example.org"); url_port := Some 443 |} in
  let lookup : Lookup := fun _ port => Some [{| sa_ip := V4 (ipv4 93 184 216 34); sa_port := port |}] in
  redirect_policy lookup 3 url = Ok tt /\ exists host, url_host url = Some host /\ host_public lookup url host.
Proof.
  intros url lookup. split; [vm_compute; reflexivity|].
  refine (proj2 (proj2 (proj1 (ssrf_safe lookup (fun _ => None) (fun _ => None) url _ _ _ _) 3%nat _))).
  - intros host port addrs Ha. apply (inj Some) in Ha as <-. repeat constructor; cbn; lia.
  - intros host Hh. apply (inj Some) in Hh as <-. exact I.
  - done.
  - done.
  - vm_compute. reflexivity.
Defined.
