(* ===== verification/Derivation.v ===== *)
(** * Key derivation

    crates/kms/src/derivation.rs (BIP-32 over secp256k1, key grinding, the
    BIP-44 paths of Tongo, Starknet, Nostr and legacy Argent keys),
    crates/kms/src/mnemonic.rs (parsing and seeds) and
    crates/kms/src/zeroizing_hmac.rs (HMAC and HKDF-Expand over a hash).

    The hash functions, the secp256k1 arithmetic and the BIP-39 word list are
    third-party and are parameters ([HashFns], [Secp256k1], [Bip39]).  Wiping of
    secrets is not observable here; byte arrays are lists of bytes as [Z]. *)

From stdpp Require Import base option list numbers strings.
From Stdlib Require Import ZArith Lia Zdiv.
From S2P Require Import Prelude StarkLib StarkModel Types Scalar Curve.

#[local] Open Scope Z_scope.

Create HintDb no_panic.

(** ** Third-party code *)
Record Digest := { d_hash : list Z -> list Z; d_block_size : nat; d_output_size : nat }.

Class HashFns : Type := { sha256 : list Z -> list Z; sha512 : list Z -> list Z }.

Class HashFnsLaws `{HashFns} : Prop := {
  sha256_length m : length (sha256 m) = 32%nat;
  sha256_ok m : Forall byte_ok (sha256 m);
  sha512_length m : length (sha512 m) = 64%nat;
  sha512_ok m : Forall byte_ok (sha512 m) }.

Definition Sha256 `{HashFns} : Digest := {| d_hash := sha256; d_block_size := 64; d_output_size := 32 |}.
Definition Sha512 `{HashFns} : Digest := {| d_hash := sha512; d_block_size := 128; d_output_size := 64 |}.

(** Order of secp256k1. *)
Definition SECP_ORDER : Z := 0xfffffffffffffffffffffffffffffffebaaedce6af48a03bbfd25e8cd0364141.

(** [k256]: signing keys and scalars. *)
Class Secp256k1 : Type := {
  secp_compressed_pubkey : list Z -> option (list Z);
  secp_pubkey_x : list Z -> option (list Z);
  SecpScalar : Type;
  secp_reduce : Z -> SecpScalar;
  secp_add : SecpScalar -> SecpScalar -> SecpScalar;
  secp_is_zero : SecpScalar -> bool;
  secp_to_bytes : SecpScalar -> list Z }.

Definition secp_val `{Secp256k1} (s : SecpScalar) : Z := be_value (secp_to_bytes s).

Class Secp256k1Laws `{Secp256k1} : Prop := {
  secp_signing_key_valid key :
    length key = 32%nat -> Forall byte_ok key ->
    is_Some (secp_compressed_pubkey key) <-> 1 <= be_value key < SECP_ORDER;
  secp_to_bytes_length s : length (secp_to_bytes s) = 32%nat;
  secp_to_bytes_ok s : Forall byte_ok (secp_to_bytes s);
  secp_reduce_val z : 0 <= z < 2 ^ 256 -> secp_val (secp_reduce z) = z mod SECP_ORDER;
  secp_add_val s t : secp_val (secp_add s t) = (secp_val s + secp_val t) mod SECP_ORDER;
  secp_is_zero_val s : secp_is_zero s = true <-> secp_val s = 0 }.

(** [bip39::Mnemonic]. *)
Class Bip39 : Type := {
  Mnemonic : Type;
  mnemonic_from_str : list Z -> option Mnemonic;
  mnemonic_seed : Mnemonic -> list Z -> list Z }.

(** ** HMAC and HKDF-Expand (zeroizing_hmac.rs) *)
Definition MAX_HMAC_BLOCK : nat := 128.
Definition IPAD : Z := 0x36.
Definition OPAD : Z := 0x5c.
Definition SHA256_LEN : nat := 32.

(** [pad[..key.len()].copy_from_slice(key)] on a zeroed block. *)
Definition key_block (block : nat) (key : list Z) : list Z := key ++ replicate (block - length key) 0.

Definition xor_all (mask : Z) (pad : list Z) : list Z := map (fun byte => Z.lxor byte mask) pad.

Definition take_output (n : nat) (output : list Z) : list Z := take n output.

Definition hmac (D : Digest) (N : nat) (key : list Z) (message : list (list Z)) : Result (list Z) :=
  let block := d_block_size D in
  _ ← reject_if ((block <? length key)%nat || (MAX_HMAC_BLOCK <? block)%nat
                 || negb (N =? d_output_size D)%nat)
        (CryptoError "HMAC key must fit one block and the output its digest");
  let pad := key_block block key in
  let pad := xor_all IPAD pad in
  let inner := fold_left (fun state part => state ++ part) message pad in
  let inner_hash := d_hash D inner in
  let pad := xor_all (Z.lxor IPAD OPAD) pad in
  let outer := pad ++ inner_hash in
  Ok (take_output N (d_hash D outer)).

(** [okm.chunks_mut(SHA256_LEN)] zipped with the counter: the lengths of the
    chunks of [l] bytes with their counters. *)
Fixpoint hkdf_chunks `{HashFns} (prk info : list Z) (counters : list Z) (remaining : nat)
    (previous : list Z) : Result (list Z) :=
  match counters with
  | [] => Ok []
  | counter :: counters =>
      if (remaining =? 0)%nat then Ok []
      else
        let chunk_len := Nat.min SHA256_LEN remaining in
        let chained := if counter =? 1 then [] else previous in
        block ← hmac Sha256 SHA256_LEN prk [chained; info; [counter]];
        rest ← hkdf_chunks prk info counters (remaining - chunk_len) block;
        Ok (take chunk_len block ++ rest)
  end.

Definition hkdf_sha256_expand `{HashFns} (L : nat) (prk info : list Z) : Result (list Z) :=
  _ ← reject_if (255 * SHA256_LEN <? L)%nat (CryptoError "HKDF-SHA256 output is limited to 8160 bytes");
  hkdf_chunks prk info (seqZ 1 255) L (replicate SHA256_LEN 0).

(** ** Mnemonics (mnemonic.rs) *)
Section mnemonic.
Context `{Bip39}.

Definition parse_mnemonic (phrase : list Z) : Result Mnemonic :=
  ok_or (mnemonic_from_str phrase) (InvalidMnemonic "{e:?}").

Definition validate_mnemonic (phrase : list Z) : Result unit :=
  _ ← parse_mnemonic phrase; Ok tt.

Definition mnemonic_to_seed (mnemonic passphrase : list Z) : Result (list Z) :=
  m ← parse_mnemonic mnemonic; Ok (mnemonic_seed m passphrase).
End mnemonic.

(** ** Derivation (derivation.rs) *)
Definition TONGO_COIN_TYPE : Z := 5454.
Definition STARKNET_COIN_TYPE : Z := 9004.
Definition NOSTR_COIN_TYPE : Z := 1237.

Definition U256_MAX : Z := 2 ^ 256 - 1.
Definition STARK_ORDER : Z := 0x0800000000000010ffffffffffffffffb781126dcae7b2321e66a241adc64d2f.
Definition GRIND_LIMIT : Z := (U256_MAX - U256_MAX mod STARK_ORDER) mod 2 ^ 256.

Definition HARDENED : Z := 0x80000000.

Definition require_unhardened_component (value : Z) (field : string) : Result unit :=
  reject_if (negb (Z.land value HARDENED =? 0))
    (InvalidDerivationPath "{field} {value} has the BIP-32 hardened bit set (must be < 2^31)").

Definition split_key_and_chain (output : list Z) : list Z * list Z := (take 32 output, drop 32 output).

Section derivation.
Context `{HashFns, Secp256k1, Bip39, StarkTypes}.

(** The bytes of "Bitcoin seed". *)
Definition BITCOIN_SEED : list Z := [66; 105; 116; 99; 111; 105; 110; 32; 115; 101; 101; 100].

Definition derive_master_key (seed : list Z) : Result (list Z * list Z) :=
  output ← hmac Sha512 64 BITCOIN_SEED [seed];
  Ok (split_key_and_chain output).

Definition child_scalar (il parent : list Z) : Result SecpScalar :=
  let il := be_value il in
  _ ← reject_if (negb (il <? SECP_ORDER)) (CryptoError "BIP-32 child derivation failed: IL >= curve order n");
  let il := secp_reduce il in
  let parent := secp_reduce (be_value parent) in
  let child := secp_add il parent in
  _ ← reject_if (secp_is_zero child) (CryptoError "BIP-32 child derivation failed: derived key is zero");
  Ok child.

Definition derive_child (key chain_code : list Z) (index : Z) : Result (list Z * list Z) :=
  let index_bytes := be_bytes 4 index in
  output ← (if negb (Z.land index HARDENED =? 0)
            then hmac Sha512 64 chain_code [[0]; key; index_bytes]
            else compressed_pubkey ← ok_or (secp_compressed_pubkey key) (CryptoError "Invalid secp256k1 key: {}");
                 hmac Sha512 64 chain_code [compressed_pubkey; index_bytes]);
  let '(derived_key, derived_chain) := split_key_and_chain output in
  child ← child_scalar derived_key key;
  Ok (secp_to_bytes child, derived_chain).

Definition derive_path (master_key master_chain : list Z) (path : list Z) : Result (list Z * list Z) :=
  foldM (fun '(key, chain) index => derive_child key chain index) (master_key, master_chain) path.

(** One pass of the grinding loop: [None] continues. *)
Definition grind_step (key_seed : list Z) (i : Z) : option Felt :=
  let digest := sha256 (key_seed ++ [i]) in
  let candidate := be_value digest in
  if GRIND_LIMIT <=? candidate then None
  else
    let k := candidate mod STARK_ORDER in
    if k =? 0 then None else Some (from_bytes_be (be_bytes 32 k)).

Fixpoint grind_loop (key_seed : list Z) (counters : list Z) : Result Felt :=
  match counters with
  | [] => Err (CryptoError "Failed to grind key after 256 iterations")
  | i :: counters => match grind_step key_seed i with
               | Some key => Ok key
               | None => grind_loop key_seed counters
               end
  end.

Definition grind_key (key_seed : list Z) : Result Felt := grind_loop key_seed (seqZ 0 256).

(** The five components [m / 44' / coin_type' / account' / 0 / index]. *)
Definition bip44_path (coin_type account_index index : Z) : list Z :=
  [Z.lor 44 HARDENED; Z.lor coin_type HARDENED; Z.lor account_index HARDENED; 0; index].

Definition derive_private_key_with_coin_type (mnemonic : list Z) (index account_index coin_type : Z)
    (passphrase : option (list Z)) : Result Felt :=
  _ ← require_unhardened_component index "index";
  _ ← require_unhardened_component account_index "account_index";
  _ ← require_unhardened_component coin_type "coin_type";
  seed ← mnemonic_to_seed mnemonic (default [] passphrase);
  master ← derive_master_key seed;
  let path := bip44_path coin_type account_index index in
  derived ← derive_path master.1 master.2 path;
  grind_key derived.1.

Definition derive_private_key (mnemonic : list Z) (index account_index : Z)
    (passphrase : option (list Z)) : Result Felt :=
  derive_private_key_with_coin_type mnemonic index account_index TONGO_COIN_TYPE passphrase.

Record TongoKeyPair := { tkp_private_key : Felt; tkp_public_key : Proj }.

Definition compute_public_key (private_key : Felt) : Result Proj := curve_mul_generator private_key.

Definition derive_keypair_with_coin_type (mnemonic : list Z) (index account_index coin_type : Z)
    (passphrase : option (list Z)) : Result TongoKeyPair :=
  private_key ← derive_private_key_with_coin_type mnemonic index account_index coin_type passphrase;
  public_key ← compute_public_key private_key;
  Ok {| tkp_private_key := private_key; tkp_public_key := public_key |}.

Definition derive_keypair (mnemonic : list Z) (index account_index : Z)
    (passphrase : option (list Z)) : Result TongoKeyPair :=
  derive_keypair_with_coin_type mnemonic index account_index TONGO_COIN_TYPE passphrase.

Definition derive_nostr_private_key (mnemonic : list Z) (index account_index : Z)
    (passphrase : option (list Z)) : Result (list Z) :=
  _ ← require_unhardened_component index "index";
  _ ← require_unhardened_component account_index "account_index";
  seed ← mnemonic_to_seed mnemonic (default [] passphrase);
  master ← derive_master_key seed;
  let path := bip44_path NOSTR_COIN_TYPE account_index index in
  derived ← derive_path master.1 master.2 path;
  Ok derived.1.

Record NostrKeyPair := { nkp_private_key : list Z; nkp_public_key : list Z }.

(** [SigningKey::from_bytes] and the x coordinate of its verifying key. *)
Definition derive_nostr_keypair (mnemonic : list Z) (index account_index : Z)
    (passphrase : option (list Z)) : Result NostrKeyPair :=
  private_key ← derive_nostr_private_key mnemonic index account_index passphrase;
  _ ← ok_or (secp_compressed_pubkey private_key) (CryptoError "Invalid secp256k1 key: {}");
  public_key ← ok_or (secp_pubkey_x private_key) (CryptoError "Failed to get x coordinate");
  Ok {| nkp_private_key := private_key; nkp_public_key := public_key |}.

Definition derive_stark_from_eth_key (eth_private_key : list Z) (index account_index : Z) : Result Felt :=
  _ ← require_unhardened_component index "index";
  _ ← require_unhardened_component account_index "account_index";
  master ← derive_master_key eth_private_key;
  let path := bip44_path STARKNET_COIN_TYPE account_index index in
  derived ← derive_path master.1 master.2 path;
  grind_key derived.1.

Definition derive_argent_legacy_private_key (mnemonic : list Z) (index account_index : Z) : Result Felt :=
  seed ← mnemonic_to_seed mnemonic [];
  master ← derive_master_key seed;
  let eth_path := [Z.lor 44 HARDENED; Z.lor 60 HARDENED; HARDENED; 0; 0] in
  eth_derived ← derive_path master.1 master.2 eth_path;
  derive_stark_from_eth_key eth_derived.1 index account_index.
End derivation.

(** ** HMAC is RFC 2104 *)

(** [H((K0 xor opad) || H((K0 xor ipad) || text))], [K0] the zero-padded key. *)
Definition rfc2104 (D : Digest) (key text : list Z) : list Z :=
  let k0 := key_block (d_block_size D) key in
  d_hash D (xor_all OPAD k0 ++ d_hash D (xor_all IPAD k0 ++ text)).

Lemma xor_all_twice a b l : xor_all (Z.lxor a b) (xor_all a l) = xor_all b l.
Proof.
  unfold xor_all. rewrite map_map. apply map_ext. intros x.
  by rewrite Z.lxor_assoc, <- (Z.lxor_assoc a), Z.lxor_nilpotent, Z.lxor_0_l.
Qed.

Lemma fold_left_append (message : list (list Z)) state :
  fold_left (fun state part => state ++ part) message state = state ++ concat message.
Proof.
  revert state; induction message as [|part message IH]; intros state; cbn; [by rewrite app_nil_r|].
  by rewrite IH, app_assoc.
Qed.

Lemma hmac_eq D N key message :
  (length key <= d_block_size D)%nat -> (d_block_size D <= MAX_HMAC_BLOCK)%nat -> N = d_output_size D ->
  hmac D N key message = Ok (take N (rfc2104 D key (concat message))).
Proof.
  intros Hkey Hblock ->. unfold hmac.
  rewrite (proj2 (Nat.ltb_ge _ _) Hkey), (proj2 (Nat.ltb_ge _ _) Hblock), Nat.eqb_refl.
  cbn [orb negb reject_if mbind outcome_bind]. by rewrite fold_left_append, xor_all_twice.
Qed.

Lemma hmac_sha512 `{HashFnsLaws} key message :
  (length key <= 128)%nat -> hmac Sha512 64 key message = Ok (rfc2104 Sha512 key (concat message)).
Proof.
  intros Hkey. rewrite hmac_eq by (done || cbn; unfold MAX_HMAC_BLOCK; lia).
  rewrite take_ge; [done|]. unfold rfc2104. cbn. by rewrite sha512_length.
Qed.

Lemma hmac_sha256 `{HashFnsLaws} key message :
  (length key <= 64)%nat -> hmac Sha256 32 key message = Ok (rfc2104 Sha256 key (concat message)).
Proof.
  intros Hkey. rewrite hmac_eq by (done || cbn; unfold MAX_HMAC_BLOCK; lia).
  rewrite take_ge; [done|]. unfold rfc2104. cbn. by rewrite sha256_length.
Qed.

(** ** HKDF-Expand is RFC 5869 *)

(** [T(i)] for [i >= 1], with [T(0)] empty. *)
Fixpoint rfc5869_T `{HashFns} (prk info : list Z) (i : nat) : list Z :=
  match i with
  | O => []
  | S j => rfc2104 Sha256 prk (rfc5869_T prk info j ++ info ++ [Z.of_nat i])
  end.

Definition rfc5869_blocks `{HashFns} (prk info : list Z) (from n : nat) : list Z :=
  concat (map (rfc5869_T prk info) (seq from n)).

Section hkdf_lemmas.
Context `{HashFnsLaws}.

Lemma rfc5869_T_length prk info i : length (rfc5869_T prk info (S i)) = 32%nat.
Proof. cbn. unfold rfc2104. cbn. apply sha256_length. Qed.

Lemma hkdf_chunks_eq prk info n from remaining :
  length prk = 32%nat -> (remaining <= 32 * n)%nat ->
  forall previous, (from = O \/ previous = rfc5869_T prk info from) ->
  hkdf_chunks prk info (map Z.of_nat (seq (S from) n)) remaining previous
  = Ok (take remaining (rfc5869_blocks prk info (S from) n)).
Proof.
  intros Hprk. revert from remaining; induction n as [|n IH]; intros from remaining Hr previous Hprev.
  { replace remaining with O by lia. done. }
  cbn [seq map hkdf_chunks]. destruct (Nat.eqb_spec remaining 0) as [->|Hr0]; [done|].
  rewrite hmac_sha256 by (rewrite Hprk; lia). cbn [mbind outcome_bind concat]. rewrite app_nil_r.
  assert ((if Z.of_nat (S from) =? 1 then [] else previous) = rfc5869_T prk info from) as ->.
  { destruct (Z.eqb_spec (Z.of_nat (S from)) 1) as [E|E]; destruct Hprev as [->| ->]; try done; try lia.
    by replace from with O by lia. }
  change (rfc2104 Sha256 prk (rfc5869_T prk info from ++ info ++ [Z.of_nat (S from)]))
    with (rfc5869_T prk info (S from)).
  rewrite IH by (auto; unfold SHA256_LEN; lia). cbn [mbind outcome_bind]. f_equal.
  unfold rfc5869_blocks. cbn [seq map concat]. rewrite take_app, rfc5869_T_length.
  unfold SHA256_LEN. destruct (Nat.le_gt_cases remaining 32) as [Hle|Hgt].
  - rewrite Nat.min_r by done. by replace (remaining - remaining)%nat with (remaining - 32)%nat by lia.
  - rewrite Nat.min_l by lia. rewrite !(take_ge (rfc5869_T prk info (S from))) by (rewrite rfc5869_T_length; lia). done.
Qed.

Lemma length_rfc5869_blocks prk info from n : length (rfc5869_blocks prk info (S from) n) = (32 * n)%nat.
Proof.
  unfold rfc5869_blocks. revert from; induction n as [|n IH]; intros from; [done|].
  cbn [seq map concat]. rewrite length_app, IH, rfc5869_T_length. lia.
Qed.
End hkdf_lemmas.

Lemma seqZ_of_seq from n : seqZ (Z.of_nat from) (Z.of_nat n) = map Z.of_nat (seq from n).
Proof.
  revert from; induction n as [|n IH]; intros from; [done|].
  rewrite Nat2Z.inj_succ, seqZ_cons by lia. cbn [seq map]. f_equal.
  rewrite <- Nat2Z.inj_succ, Z.pred_succ. apply IH.
Qed.

(** Where an element of [seqZ] stands. *)
Lemma seqZ_split from n l1 i l2 :
  seqZ from n = l1 ++ i :: l2 -> from <= i < from + n /\ l1 = seqZ from (i - from).
Proof.
  revert from n; induction l1 as [|x l1 IH]; intros from n Heq;
    (destruct (Z.le_gt_cases n 0) as [Hn|Hn]; [rewrite seqZ_nil in Heq by lia; discriminate Heq|]);
    rewrite seqZ_cons in Heq by lia; injection Heq as Hx Heq.
  - subst i. rewrite Z.sub_diag. split; [lia|done].
  - apply IH in Heq as [Hi ->]. subst x. split; [lia|].
    rewrite (seqZ_cons from) by lia. f_equal. f_equal. lia.
Qed.

(** ** Path components *)
Lemma land_hardened v : 0 <= v < 2 ^ 32 -> Z.land v HARDENED = 0 <-> v < 2 ^ 31.
Proof.
  intros Hv. assert (Z.land v HARDENED = Z.b2z (Z.testbit v 31) * 2 ^ 31) as ->.
  { change HARDENED with (2 ^ 31). apply Z.bits_inj'. intros n Hn.
    rewrite Z.land_spec, Z.pow2_bits_eqb by lia. destruct (Z.testbit v 31) eqn:Hbit; cbn [Z.b2z].
    - rewrite Z.mul_1_l, Z.pow2_bits_eqb by lia.
      destruct (Z.eqb_spec 31 n) as [<-|_]; [by rewrite Hbit|apply andb_false_r].
    - rewrite Z.bits_0. destruct (Z.eqb_spec 31 n) as [<-|_]; [by rewrite Hbit|apply andb_false_r]. }
  rewrite Z.testbit_odd, Z.shiftr_div_pow2 by lia. destruct (Z.lt_ge_cases v (2 ^ 31)) as [Hlt|Hge].
  - rewrite Z.div_small by lia. done.
  - assert (v / 2 ^ 31 = 1) as -> by (symmetry; apply (Z.div_unique _ _ _ (v - 2 ^ 31)); lia). cbn. lia.
Qed.

Lemma lor_hardened v : 0 <= v < 2 ^ 31 -> Z.lor v HARDENED = v + 2 ^ 31.
Proof.
  intros Hv. pose proof (proj2 (land_hardened v ltac:(lia)) ltac:(lia)) as Hl.
  pose proof (Z.add_lor_land v HARDENED) as Ha. change HARDENED with (2 ^ 31) in *. lia.
Qed.

Lemma require_unhardened_Ok v field u :
  0 <= v < 2 ^ 32 -> require_unhardened_component v field = Ok u <-> v < 2 ^ 31.
Proof.
  intros Hv. unfold require_unhardened_component.
  rewrite reject_if_Ok, negb_false_iff, Z.eqb_eq. by apply land_hardened.
Qed.

Lemma require_unhardened_cases v field :
  0 <= v < 2 ^ 32 ->
  (require_unhardened_component v field = Ok tt /\ v < 2 ^ 31)
  \/ (require_unhardened_component v field
      = Err (InvalidDerivationPath "{field} {value} has the BIP-32 hardened bit set (must be < 2^31)")
      /\ 2 ^ 31 <= v).
Proof.
  intros Hv. unfold require_unhardened_component.
  destruct (Z.eqb_spec (Z.land v HARDENED) 0) as [E|E]; rewrite land_hardened in E by done;
    [left|right]; split; done || lia.
Qed.

Lemma bip44_path_inj c1 a1 i1 c2 a2 i2 :
  0 <= c1 < 2 ^ 31 -> 0 <= a1 < 2 ^ 31 -> 0 <= c2 < 2 ^ 31 -> 0 <= a2 < 2 ^ 31 ->
  bip44_path c1 a1 i1 = bip44_path c2 a2 i2 -> c1 = c2 /\ a1 = a2 /\ i1 = i2.
Proof.
  intros Hc1 Ha1 Hc2 Ha2. unfold bip44_path. rewrite !(lor_hardened c1), !(lor_hardened a1),
    !(lor_hardened c2), !(lor_hardened a2) by done. intros Heq.
  apply (f_equal (fun l => (l !! 1%nat, l !! 2%nat, l !! 4%nat))) in Heq. cbn [lookup list_lookup] in Heq.
  injection Heq as H1 H2 H3. lia.
Qed.

(** ** BIP-32 children and paths *)

(** A private key of secp256k1, as 32 bytes. *)
Definition secp_key_ok (key : list Z) : Prop :=
  length key = 32%nat /\ Forall byte_ok key /\ 1 <= be_value key < SECP_ORDER.

Section bip32.
Context `{HashFnsLaws, Secp256k1Laws, Bip39}.

Lemma secp_val_range s : 0 <= secp_val s < 2 ^ 256.
Proof.
  pose proof (be_value_bound _ (secp_to_bytes_ok s)) as Hb. rewrite secp_to_bytes_length in Hb.
  unfold secp_val. change (256 ^ Z.of_nat 32) with (2 ^ 256) in Hb. lia.
Qed.

Lemma child_scalar_val il parent s :
  Forall byte_ok il -> length il = 32%nat -> Forall byte_ok parent -> length parent = 32%nat ->
  child_scalar il parent = Ok s ->
  be_value il < SECP_ORDER /\ secp_val s = (be_value il + be_value parent) mod SECP_ORDER
  /\ 1 <= secp_val s < SECP_ORDER.
Proof.
  intros Hil Hil32 Hp Hp32. unfold child_scalar. intros (u & Hlt & Hs)%bind_Ok.
  apply bind_Ok in Hs as (u' & Hz & Hs). apply (inj Ok) in Hs as <-.
  apply reject_if_Ok, negb_false_iff, Z.ltb_lt in Hlt. apply reject_if_Ok in Hz.
  apply be_value_bound in Hil, Hp. rewrite Hil32 in Hil. rewrite Hp32 in Hp.
  change (256 ^ Z.of_nat 32) with (2 ^ 256) in *.
  assert (secp_val (secp_add (secp_reduce (be_value il)) (secp_reduce (be_value parent)))
          = (be_value il + be_value parent) mod SECP_ORDER) as Hv.
  { rewrite secp_add_val, !secp_reduce_val by done. by rewrite <- Z.add_mod by done. }
  assert (secp_val (secp_add (secp_reduce (be_value il)) (secp_reduce (be_value parent))) <> 0) as Hn0.
  { intros E%secp_is_zero_val. congruence. }
  pose proof (Z.mod_pos_bound (be_value il + be_value parent) SECP_ORDER ltac:(done)). lia.
Qed.

Lemma rfc2104_sha512_ok key text :
  length (rfc2104 Sha512 key text) = 64%nat /\ Forall byte_ok (rfc2104 Sha512 key text).
Proof. unfold rfc2104. cbn. split; [apply sha512_length|apply sha512_ok]. Qed.

(** A child is a valid key and the chain code stays 32 bytes. *)
Lemma derive_child_ok key chain index key' chain' :
  length key = 32%nat -> Forall byte_ok key -> length chain = 32%nat ->
  derive_child key chain index = Ok (key', chain') -> secp_key_ok key' /\ length chain' = 32%nat.
Proof.
  intros Hk Hkb Hc. unfold derive_child. intros (output & Hout & Hd)%bind_Ok.
  assert (exists text, output = rfc2104 Sha512 chain text) as [text ->].
  { destruct (negb _).
    - rewrite hmac_sha512 in Hout by lia. apply (inj Ok) in Hout as <-. eauto.
    - apply bind_Ok in Hout as (pk & _ & Hout). rewrite hmac_sha512 in Hout by lia.
      apply (inj Ok) in Hout as <-. eauto. }
  destruct (rfc2104_sha512_ok chain text) as [Hlen Hok].
  unfold split_key_and_chain in Hd. apply bind_Ok in Hd as (s & Hs & Hd).
  apply (inj Ok), pair_equal_spec in Hd as [<- <-].
  apply child_scalar_val in Hs as (_ & _ & Hr); [|by apply Forall_take|rewrite length_take; lia|done..].
  unfold secp_key_ok. rewrite secp_to_bytes_length, length_drop, Hlen.
  split_and!; [done|apply secp_to_bytes_ok|apply Hr|apply Hr|done].
Qed.

Lemma derive_path_app key chain p1 p2 :
  derive_path key chain (p1 ++ p2) = (m ← derive_path key chain p1; derive_path m.1 m.2 p2).
Proof.
  unfold derive_path. rewrite foldM_app. destruct (foldM _ (key, chain) p1) as [[k c]| |]; done.
Qed.

Lemma derive_path_ok path : forall key chain key' chain',
  path <> [] -> length key = 32%nat -> Forall byte_ok key -> length chain = 32%nat ->
  derive_path key chain path = Ok (key', chain') -> secp_key_ok key' /\ length chain' = 32%nat.
Proof.
  induction path as [|index path IH]; intros key chain key' chain' Hne Hk Hkb Hc Hd; [done|].
  change (index :: path) with ([index] ++ path) in Hd. rewrite derive_path_app in Hd.
  apply bind_Ok in Hd as ([k1 c1] & Hd1 & Hd). cbn in Hd1.
  apply bind_Ok in Hd1 as ([k2 c2] & Hd1 & [= -> ->]).
  apply derive_child_ok in Hd1 as [Hk1 Hc1]; [|done..].
  destruct path as [|i path]; [by injection Hd as <- <-|].
  destruct Hk1 as (? & ? & ?). by refine (IH _ _ _ _ _ _ _ Hc1 Hd).
Qed.

Lemma derive_master_key_ok seed key chain :
  derive_master_key seed = Ok (key, chain) ->
  length key = 32%nat /\ Forall byte_ok key /\ length chain = 32%nat.
Proof.
  unfold derive_master_key. rewrite hmac_sha512 by (cbn; lia). intros Heq.
  destruct (rfc2104_sha512_ok BITCOIN_SEED (concat [seed])) as [Hlen Hok].
  apply (inj Ok), pair_equal_spec in Heq as [<- <-]. rewrite length_take, length_drop, Hlen. split_and!; [done|by apply Forall_take|done].
Qed.

(** Master key then path: the key at its end. *)
Lemma derive_from_seed_ok seed path master derived :
  path <> [] -> derive_master_key seed = Ok master -> derive_path master.1 master.2 path = Ok derived ->
  secp_key_ok derived.1.
Proof.
  destruct master as [k c], derived as [k' c']. intros Hne (? & ? & ?)%derive_master_key_ok Hd.
  eapply derive_path_ok in Hd; [|done..]. apply Hd.
Qed.
End bip32.

(** ** Grinding *)

(** The digest that pass [i] of the loop looks at. *)
Definition grind_candidate `{HashFns} (key_seed : list Z) (i : Z) : Z := be_value (sha256 (key_seed ++ [i])).

(** Pass [i] is skipped: out of the unbiased range, or zero. *)
Definition grind_rejected `{HashFns} (key_seed : list Z) (i : Z) : Prop :=
  GRIND_LIMIT <= grind_candidate key_seed i \/ grind_candidate key_seed i mod STARK_ORDER = 0.

(** The rejection bound is the largest multiple of the order in 256 bits. *)
Lemma grind_limit_multiple : GRIND_LIMIT = STARK_ORDER * (2 ^ 256 / STARK_ORDER).
Proof. reflexivity. Qed.

(** Each scalar has the same number of accepted candidates. *)
Lemma grind_unbiased k c :
  0 <= k < STARK_ORDER -> 0 <= c ->
  (c < GRIND_LIMIT /\ c mod STARK_ORDER = k) <-> exists q, 0 <= q < 2 ^ 256 / STARK_ORDER /\ c = k + STARK_ORDER * q.
Proof.
  rewrite grind_limit_multiple. intros Hk Hc.
  set (m := 2 ^ 256 / STARK_ORDER). assert (0 < STARK_ORDER) as Hn by reflexivity.
  pose proof (Z.div_mod c STARK_ORDER ltac:(lia)) as Hdm. split.
  - intros [Hlt Hm]. exists (c / STARK_ORDER). split; [|lia].
    split; [apply Z.div_pos; lia|]. apply Z.div_lt_upper_bound; lia.
  - intros (q & Hq & ->). split; [nia|].
    rewrite Z.mul_comm, Z.mod_add by lia. by apply Z.mod_small.
Qed.

Section grind.
Context `{HashFnsLaws, StarkLaws}.

Lemma grind_candidate_range seed i : 0 <= grind_candidate seed i < 2 ^ 256.
Proof.
  pose proof (be_value_bound _ (sha256_ok (seed ++ [i]))) as Hb. rewrite sha256_length in Hb. exact Hb.
Qed.

Lemma grind_step_None seed i : grind_step seed i = None <-> grind_rejected seed i.
Proof.
  unfold grind_step, grind_rejected. fold (grind_candidate seed i).
  destruct (Z.leb_spec GRIND_LIMIT (grind_candidate seed i)); [split; auto|].
  destruct (Z.eqb_spec (grind_candidate seed i mod STARK_ORDER) 0); split; auto; [done|lia].
Qed.

Lemma grind_step_Some seed i key :
  grind_step seed i = Some key ->
  ~ grind_rejected seed i /\ felt_val key = grind_candidate seed i mod STARK_ORDER
  /\ 1 <= felt_val key < STARK_ORDER.
Proof.
  intros Hs. assert (~ grind_rejected seed i) as Hnr by (rewrite <- grind_step_None, Hs; done).
  revert Hs. unfold grind_step. fold (grind_candidate seed i).
  destruct (Z.leb_spec GRIND_LIMIT (grind_candidate seed i)); [done|].
  destruct (Z.eqb_spec (grind_candidate seed i mod STARK_ORDER) 0) as [|Hn0]; [done|]. intros [= <-].
  pose proof (Z.mod_pos_bound (grind_candidate seed i) STARK_ORDER ltac:(done)) as Hb.
  assert (STARK_ORDER < felt_prime /\ felt_prime < 256 ^ Z.of_nat 32) as [Hp1 Hp2] by done.
  rewrite from_bytes_be_val by (apply length_be_bytes || apply be_bytes_ok).
  rewrite be_value_be_bytes.
  rewrite (Z.mod_small (grind_candidate seed i mod STARK_ORDER) (256 ^ _)), (Z.mod_small _ felt_prime) by lia.
  split_and!; done || lia.
Qed.

Lemma grind_loop_spec seed l r :
  grind_loop seed l = r ->
  (exists l1 i l2 key, l = l1 ++ i :: l2 /\ r = Ok key /\ Forall (grind_rejected seed) l1
     /\ grind_step seed i = Some key)
  \/ (r = Err (CryptoError "Failed to grind key after 256 iterations") /\ Forall (grind_rejected seed) l).
Proof.
  intros <-. induction l as [|i l IH]; cbn [grind_loop]; [by right|].
  destruct (grind_step seed i) as [key|] eqn:Hs; [left; exists [], i, l, key; split_and!; [reflexivity..|constructor|exact Hs]|].
  apply grind_step_None in Hs. destruct IH as [(l1 & j & l2 & key & -> & -> & Hr & Hk)|[-> Hr]].
  - left. exists (i :: l1), j, l2, key. split_and!; [done..| |done]. by constructor.
  - right. split; [done|]. by constructor.
Qed.

Lemma grind_key_range seed key : grind_key seed = Ok key -> 1 <= felt_val key < STARK_ORDER.
Proof.
  intros [(l1 & i & l2 & k & _ & [= ->] & _ & Hs)|[Hr _]]%grind_loop_spec; [|discriminate Hr].
  by destruct (grind_step_Some _ _ _ Hs) as (_ & _ & ?).
Qed.
End grind.

(** ** Derivation functions *)
Section derivation_lemmas.
Context `{HashFnsLaws, Secp256k1Laws, Bip39, StarkLaws}.

(** No step of the derivation panics. *)
Lemma hmac_no_panic D N key message : is_panic (hmac D N key message) = false.
Proof. unfold hmac. by destruct (_ || _). Qed.

Lemma child_scalar_no_panic il parent : is_panic (child_scalar il parent) = false.
Proof. unfold child_scalar. destruct (negb _); [done|]. cbn. by destruct (secp_is_zero _). Qed.

Lemma bind_no_panic {E A B} (m : outcome E A) (f : A -> outcome E B) :
  is_panic m = false -> (forall a, is_panic (f a) = false) -> is_panic (mbind f m) = false.
Proof. destruct m; cbn; auto. Qed.

Lemma derive_child_no_panic key chain index : is_panic (derive_child key chain index) = false.
Proof.
  unfold derive_child. apply bind_no_panic.
  - destruct (negb _); [apply hmac_no_panic|]. apply bind_no_panic; [by destruct (secp_compressed_pubkey key)|].
    intros pk. apply hmac_no_panic.
  - intros output. unfold split_key_and_chain. apply bind_no_panic; [apply child_scalar_no_panic|done].
Qed.

Lemma derive_path_no_panic path : forall key chain, is_panic (derive_path key chain path) = false.
Proof.
  induction path as [|i path IH]; intros key chain; [done|].
  change (i :: path) with ([i] ++ path). rewrite derive_path_app. apply bind_no_panic.
  - cbn. apply bind_no_panic; [apply derive_child_no_panic|]. by intros [].
  - intros [k c]. apply IH.
Qed.

Lemma grind_key_no_panic seed : is_panic (grind_key seed) = false.
Proof. by destruct (grind_loop_spec seed (seqZ 0 256) (grind_key seed) eq_refl) as [(? & ? & ? & ? & _ & -> & _)|[-> _]]. Qed.

Lemma require_no_panic v field : is_panic (require_unhardened_component v field) = false.
Proof. unfold require_unhardened_component. by destruct (negb _). Qed.

Lemma seed_no_panic phrase passphrase : is_panic (mnemonic_to_seed phrase passphrase) = false.
Proof. unfold mnemonic_to_seed, parse_mnemonic. by destruct (mnemonic_from_str phrase). Qed.

Lemma master_no_panic seed : is_panic (derive_master_key seed) = false.
Proof. apply bind_no_panic; [apply hmac_no_panic|done]. Qed.
End derivation_lemmas.

#[export] Hint Resolve bind_no_panic derive_path_no_panic grind_key_no_panic require_no_panic
  seed_no_panic master_no_panic : no_panic.

(** Reads off the bounds of the components that passed the guard. *)
Ltac inv_unhardened :=
  repeat match goal with
  | Hr : require_unhardened_component _ _ = Ok _ |- _ => apply require_unhardened_Ok in Hr; [|done]
  end.

(** ** Properties *)

(** C36: Every key derived from a mnemonic is a usable private key: Starknet, Tongo and legacy
    Argent keys lie in [1, n) of the Stark curve, Nostr keys are 32 bytes in [1, n) of
    secp256k1, and only unhardened components are accepted. *)
Theorem derived_keys_valid `{HashFnsLaws, Secp256k1Laws, Bip39, StarkLaws} mnemonic index account coin passphrase :
  0 <= index < 2 ^ 32 -> 0 <= account < 2 ^ 32 -> 0 <= coin < 2 ^ 32 ->
  (forall k, derive_private_key_with_coin_type mnemonic index account coin passphrase = Ok k ->
     index < 2 ^ 31 /\ account < 2 ^ 31 /\ coin < 2 ^ 31 /\ 1 <= felt_val k < STARK_ORDER)
  /\ (forall k, derive_argent_legacy_private_key mnemonic index account = Ok k ->
     index < 2 ^ 31 /\ account < 2 ^ 31 /\ 1 <= felt_val k < STARK_ORDER)
  /\ (forall k, derive_nostr_private_key mnemonic index account passphrase = Ok k ->
     index < 2 ^ 31 /\ account < 2 ^ 31 /\ secp_key_ok k).
Proof.
  intros Hi Ha Hc. split_and!; intros k.
  - unfold derive_private_key_with_coin_type. intros Hd. inv_ok. inv_unhardened.
    match goal with Hg : grind_key _ = Ok _ |- _ => apply grind_key_range in Hg end. tauto.
  - unfold derive_argent_legacy_private_key, derive_stark_from_eth_key. intros Hd. inv_ok. inv_unhardened.
    match goal with Hg : grind_key _ = Ok _ |- _ => apply grind_key_range in Hg end. tauto.
  - unfold derive_nostr_private_key. intros Hd. inv_ok. inv_unhardened.
    split_and!; try done. by eapply derive_from_seed_ok; [|eassumption..].
Qed.

(** Every derivation ends with a key or an error, never a panic. *)
Theorem derivation_never_panics `{HashFnsLaws, Secp256k1Laws, Bip39, StarkLaws} mnemonic index account coin passphrase :
  is_panic (derive_private_key_with_coin_type mnemonic index account coin passphrase) = false
  /\ is_panic (derive_argent_legacy_private_key mnemonic index account) = false
  /\ is_panic (derive_nostr_private_key mnemonic index account passphrase) = false.
Proof.
  unfold derive_private_key_with_coin_type, derive_argent_legacy_private_key, derive_stark_from_eth_key,
    derive_nostr_private_key. split_and!; auto 20 with no_panic.
Qed.

(** A path component with the hardened bit set is refused, and accepted coin types,
    accounts and indices never alias: they derive along the same BIP-32 path only when they are
    equal. *)
Theorem derivation_paths_separate mnemonic passphrase `{HashFns, Secp256k1, Bip39, StarkTypes}
    (c1 a1 i1 c2 a2 i2 : Z) :
  0 <= c1 < 2 ^ 32 -> 0 <= a1 < 2 ^ 32 -> 0 <= i1 < 2 ^ 32 ->
  0 <= c2 < 2 ^ 32 -> 0 <= a2 < 2 ^ 32 -> 0 <= i2 < 2 ^ 32 ->
  (2 ^ 31 <= c1 \/ 2 ^ 31 <= a1 \/ 2 ^ 31 <= i1 ->
   derive_private_key_with_coin_type mnemonic i1 a1 c1 passphrase
   = Err (InvalidDerivationPath "{field} {value} has the BIP-32 hardened bit set (must be < 2^31)"))
  /\ (c1 < 2 ^ 31 -> a1 < 2 ^ 31 -> i1 < 2 ^ 31 ->
      derive_private_key_with_coin_type mnemonic i1 a1 c1 passphrase
      = (seed ← mnemonic_to_seed mnemonic (default [] passphrase);
         master ← derive_master_key seed;
         derived ← derive_path master.1 master.2 (bip44_path c1 a1 i1);
         grind_key derived.1)
      /\ (c2 < 2 ^ 31 -> a2 < 2 ^ 31 -> i2 < 2 ^ 31 ->
          bip44_path c1 a1 i1 = bip44_path c2 a2 i2 <-> (c1, a1, i1) = (c2, a2, i2))).
Proof.
  intros Hc1 Ha1 Hi1 Hc2 Ha2 Hi2. unfold derive_private_key_with_coin_type. split.
  - intros Hbad.
    destruct (require_unhardened_cases i1 "index" Hi1) as [[-> ?]|[-> ?]]; [|done].
    destruct (require_unhardened_cases a1 "account_index" Ha1) as [[-> ?]|[-> ?]]; [|done].
    destruct (require_unhardened_cases c1 "coin_type" Hc1) as [[-> ?]|[-> ?]]; [lia|done].
  - intros Hc Ha Hi. rewrite (proj2 (require_unhardened_Ok i1 _ tt Hi1) Hi),
      (proj2 (require_unhardened_Ok a1 _ tt Ha1) Ha), (proj2 (require_unhardened_Ok c1 _ tt Hc1) Hc).
    split; [done|].
    intros Hc' Ha' Hi'. split; [|by intros [= -> -> ->]].
    intros (-> & -> & ->)%bip44_path_inj; done || lia.
Qed.

(** C37: Grinding ends within 256 hashes: it returns the first digest below the rejection bound
    with a non-zero residue, reduced modulo the curve order, and fails exactly when every
    digest is rejected. *)
Theorem grind_key_correct `{HashFnsLaws, StarkLaws} seed :
  (exists i key, 0 <= i < 256 /\ grind_key seed = Ok key
     /\ (forall j, 0 <= j < i -> grind_rejected seed j)
     /\ grind_candidate seed i < GRIND_LIMIT
     /\ felt_val key = grind_candidate seed i mod STARK_ORDER /\ 1 <= felt_val key < STARK_ORDER)
  \/ (grind_key seed = Err (CryptoError "Failed to grind key after 256 iterations")
      /\ forall j, 0 <= j < 256 -> grind_rejected seed j).
Proof.
  destruct (grind_loop_spec seed (seqZ 0 256) (grind_key seed) eq_refl)
    as [(l1 & i & l2 & key & Hl & Hk & Hr & Hs)|[Hk Hr]].
  - left. apply grind_step_Some in Hs as (Hacc & Hval & Hrange).
    destruct (seqZ_split 0 256 l1 i l2 Hl) as [Hi Hl1].
    exists i, key. split; [lia|]. split; [exact Hk|]. split; [|split; [|split; assumption]].
    + intros j Hj. rewrite Forall_forall in Hr. apply Hr. rewrite Hl1. apply elem_of_seqZ. lia.
    + unfold grind_rejected in Hacc. destruct (Z.lt_ge_cases (grind_candidate seed i) GRIND_LIMIT); tauto.
  - right. split; [done|]. intros j Hj. rewrite Forall_forall in Hr. apply Hr. apply elem_of_seqZ. lia.
Qed.

(** HKDF expansion over the crate's own HMAC is RFC 5869: the first L bytes of T(1), T(2),
    ..., and more than 8160 bytes are refused. *)
Theorem hkdf_expand_rfc5869 `{HashFnsLaws} L prk info :
  length prk = 32%nat ->
  hkdf_sha256_expand L prk info
  = (if (255 * SHA256_LEN <? L)%nat then Err (CryptoError "HKDF-SHA256 output is limited to 8160 bytes")
     else Ok (take L (rfc5869_blocks prk info 1 255)))
  /\ ((L <= 255 * SHA256_LEN)%nat -> length (take L (rfc5869_blocks prk info 1 255)) = L).
Proof.
  intros Hprk. split.
  - unfold hkdf_sha256_expand. destruct (Nat.ltb_spec (255 * SHA256_LEN) L) as [|Hle]; [done|].
    cbn [reject_if mbind outcome_bind]. change (seqZ 1 255) with (seqZ (Z.of_nat 1) (Z.of_nat 255)).
    rewrite seqZ_of_seq. apply hkdf_chunks_eq; [done|unfold SHA256_LEN in Hle; lia|by left].
  - intros Hle. rewrite length_take, length_rfc5869_blocks. unfold SHA256_LEN in Hle. lia.
Qed.

(** ** Witnesses *)
#[local] Instance model_hashes : HashFns :=
  {| sha256 m := be_bytes 32 (be_value m mod 251 + 3);
     sha512 m := be_bytes 32 (be_value m mod 241 + 1) ++ be_bytes 32 (be_value m mod 239) |}.

#[local] Instance model_hashes_laws : HashFnsLaws.
Proof.
  constructor; intros m; cbn [sha256 sha512 model_hashes]; rewrite ?length_app, ?length_be_bytes; try done.
  - apply be_bytes_ok.
  - apply Forall_app. split; apply be_bytes_ok.
Qed.

#[local] Instance model_secp : Secp256k1 :=
  {| secp_compressed_pubkey key :=
       if (1 <=? be_value key) && (be_value key <? SECP_ORDER) then Some (2 :: key) else None;
     secp_pubkey_x key := Some key;
     SecpScalar := Z;
     secp_reduce z := z;
     secp_add s t := s + t;
     secp_is_zero s := s mod SECP_ORDER =? 0;
     secp_to_bytes s := be_bytes 32 (s mod SECP_ORDER) |}.

Lemma model_secp_val (s : Z) : secp_val (s : SecpScalar) = s mod SECP_ORDER.
Proof.
  unfold secp_val. cbn [secp_to_bytes model_secp]. rewrite be_value_be_bytes. apply Z.mod_small.
  pose proof (Z.mod_pos_bound s SECP_ORDER ltac:(done)).
  assert (SECP_ORDER < 256 ^ Z.of_nat 32) by done. lia.
Qed.

#[local] Instance model_secp_laws : Secp256k1Laws.
Proof.
  constructor.
  - intros key _ _. cbn. destruct (Z.leb_spec 1 (be_value key)), (Z.ltb_spec (be_value key) SECP_ORDER); cbn;
      split; try (by intros [? ?]); try lia; eauto.
  - intros s. apply length_be_bytes.
  - intros s. apply be_bytes_ok.
  - intros z _. apply model_secp_val.
  - intros s t. rewrite !model_secp_val. cbn. by rewrite <- Z.add_mod.
  - intros s. rewrite model_secp_val. cbn. apply Z.eqb_eq.
Qed.

#[local] Instance model_bip39 : Bip39 :=
  {| Mnemonic := list Z; mnemonic_from_str s := if (length s =? 0)%nat then None else Some s;
     mnemonic_seed m p := be_bytes 64 (be_value (m ++ p)) |}.

Lemma derived_keys_valid_witness :
  exists k, derive_private_key_with_coin_type [1; 2] 7 0 STARKNET_COIN_TYPE None = Ok k
    /\ 1 <= felt_val k < STARK_ORDER.
Proof.
  destruct (is_ok_exists (derive_private_key_with_coin_type [1; 2] 7 0 STARKNET_COIN_TYPE None)) as [k Hk];
    [vm_compute; reflexivity|].
  exists k. split; [exact Hk|].
  destruct (derived_keys_valid [1; 2] 7 0 STARKNET_COIN_TYPE None) as [Hr _];
    [unfold STARKNET_COIN_TYPE; lia..|].
  exact (proj2 (proj2 (proj2 (Hr k Hk)))).
Defined.

Lemma derivation_paths_separate_witness :
  derive_private_key_with_coin_type [1; 2] 7 0x80000000 STARKNET_COIN_TYPE None
  = Err (InvalidDerivationPath "{field} {value} has the BIP-32 hardened bit set (must be < 2^31)").
Proof.
  apply (derivation_paths_separate [1; 2] None STARKNET_COIN_TYPE 0x80000000 7 0 0 0);
    unfold STARKNET_COIN_TYPE; lia.
Defined.

Lemma hkdf_expand_rfc5869_witness :
  hkdf_sha256_expand 33 (replicate 32 1) [5]
  = Ok (take 33 (rfc5869_blocks (replicate 32 1) [5] 1 255)).
Proof. apply (hkdf_expand_rfc5869 33 (replicate 32 1) [5]). reflexivity. Defined.

Lemma grind_key_correct_witness :
  exists key, grind_key (replicate 32 9) = Ok key /\ 1 <= felt_val key < STARK_ORDER.
Proof.
  destruct (grind_key_correct (replicate 32 9)) as [(i & key & _ & Hk & _ & _ & _ & Hr)|[Hk _]].
  - exists key. split; [exact Hk|exact Hr].
  - exfalso. assert (is_ok (grind_key (replicate 32 9)) = true) as Hok by (vm_compute; reflexivity).
    rewrite Hk in Hok. discriminate Hok.
Defined.
