(* ===== verification/StarkSigning.v ===== *)
(** * Stark keys and signatures (crates/kms/src/stark_signing.rs)

    Key validation, public keys, the public-key test used by deployment
    inspection, and the deterministic signing loop.  The curve library's
    signing primitives are the parameter [StarkCrypto]. *)

From stdpp Require Import base option list numbers strings.
From Stdlib Require Import ZArith Lia Zdiv.
From S2P Require Import Prelude StarkLib Primality StarkModel Types Scalar Curve TxHash.

#[local] Open Scope Z_scope.

Inductive SignError := InvalidMessageHash | InvalidK.

(** [starknet_crypto] and [Felt::sqrt].  [get_public_key] unwraps an affine
    conversion, so [None] is a panic. *)
Class StarkCrypto `{StarkTypes} : Type := {
  get_public_key : Felt -> option Felt;
  rfc6979_generate_k : Felt -> Felt -> option Felt -> Felt;
  ecdsa_sign : Felt -> Felt -> Felt -> SignError + (Felt * Felt);
  felt_sqrt : Felt -> option Felt }.

(** The public key is the x coordinate of the key's multiple of the generator; [sqrt]
    returns a square root, of every square. *)
Class StarkCryptoLaws `{StarkCrypto} : Prop := {
  get_public_key_spec k g :
    proj_from_affine G_X G_Y = Some g ->
    get_public_key k = option_map aff_x (proj_to_affine (felt_val k • g));
  felt_sqrt_sound f s : felt_sqrt f = Some s -> (felt_val s * felt_val s) mod felt_prime = felt_val f;
  felt_sqrt_complete f y : (y * y) mod felt_prime = felt_val f -> is_Some (felt_sqrt f) }.

(** The Stark curve is [y^2 = x^3 + x + beta]; [on_curve x] says that [x] is the coordinate
    of one of its points. *)
Definition curve_beta : Z := 0x06f21413efbe40de150e596d72f7a8c5609ad26c15c915c1f4cdfcb99cee9e89.
Definition on_curve (x : Z) : Prop :=
  exists y, (y * y) mod felt_prime = (x * x * x + x + curve_beta) mod felt_prime.

Section stark_signing.
Context `{StarkCrypto, !FeltExtras}.

Definition STARK_CURVE_ORDER : Z := 0x0800000000000010ffffffffffffffffb781126dcae7b2321e66a241adc64d2f.

Definition STARK_BETA : Felt :=
  felt_of_Z 0x6f21413efbe40de150e596d72f7a8c5609ad26c15c915c1f4cdfcb99cee9e89.

Definition is_stark_public_key (x : Felt) : bool :=
  let y_squared := felt_add (felt_add (felt_mul (felt_mul x x) x) x) STARK_BETA in
  bool_decide (is_Some (felt_sqrt y_squared)).

Record StarkSignature := { ss_public_key : Felt; ss_r : Felt; ss_s : Felt }.

Definition validate_stark_private_key (private_key : Felt) : Result unit :=
  let order := felt_of_Z STARK_CURVE_ORDER in
  reject_if (bool_decide (private_key = felt_of_Z 0) || (felt_val order <=? felt_val private_key))
    (CryptoError "stark private key must be in [1, curve_order)").

Definition stark_public_key (private_key : Felt) : Result Felt :=
  _ ← validate_stark_private_key private_key;
  expect (get_public_key private_key).

(** The retry loop; [fuel] bounds the number of passes, and [None] says that it
    ran out. *)
Fixpoint sign_loop (fuel : nat) (private_key hash : Felt) (seed : option Felt) : option (Result StarkSignature) :=
  match fuel with
  | O => None
  | S fuel =>
      let k := rfc6979_generate_k hash private_key seed in
      match ecdsa_sign private_key hash k with
      | inr (r, s) =>
          Some (public_key ← expect (get_public_key private_key);
                Ok {| ss_public_key := public_key; ss_r := r; ss_s := s |})
      | inl InvalidMessageHash => Some (Err (CryptoError "stark signing message hash is out of range"))
      | inl InvalidK =>
          sign_loop fuel private_key hash (Some (felt_add (default (felt_of_Z 0) seed) (felt_of_Z 1)))
      end
  end.

Definition sign_stark_hash (fuel : nat) (private_key hash : Felt) : option (Result StarkSignature) :=
  match validate_stark_private_key private_key with
  | Ok _ => sign_loop fuel private_key hash None
  | Err e => Some (Err e)
  | Panic => Some Panic
  end.

(** The seed of pass [i]: none, then 1, 2, ... *)
Fixpoint pass_seed (i : nat) : option Felt :=
  match i with
  | O => None
  | S i => Some (felt_add (default (felt_of_Z 0) (pass_seed i)) (felt_of_Z 1))
  end.

(** What pass [i] of the loop gets from the library. *)
Definition pass (private_key hash : Felt) (i : nat) : SignError + (Felt * Felt) :=
  ecdsa_sign private_key hash (rfc6979_generate_k hash private_key (pass_seed i)).
End stark_signing.

Section stark_signing_lemmas.
Context `{StarkLaws, !StarkCrypto, !StarkCryptoLaws, !FeltExtras}.

Lemma felt_zero_iff (f : Felt) : f = felt_of_Z 0 <-> felt_val f = 0.
Proof.
  split; [intros ->; by rewrite felt_of_Z_val by lia|]. intros Hf. apply felt_val_inj.
  by rewrite Hf, felt_of_Z_val by lia.
Qed.

Lemma validate_stark_private_key_Ok k u :
  validate_stark_private_key k = Ok u <-> 1 <= felt_val k < CurveOrder.
Proof.
  unfold validate_stark_private_key. rewrite reject_if_Ok, orb_false_iff, bool_decide_eq_false, felt_zero_iff.
  rewrite felt_of_Z_val, Z.leb_gt by (unfold STARK_CURVE_ORDER; lia).
  change (STARK_CURVE_ORDER mod felt_prime) with CurveOrder. pose proof (felt_val_range k). lia.
Qed.

Lemma get_public_key_valid k :
  1 <= felt_val k < CurveOrder ->
  exists g a, proj_from_affine G_X G_Y = Some g /\ proj_to_affine (felt_val k • g) = Some a
    /\ get_public_key k = Some (aff_x a).
Proof.
  intros Hk. destruct generator_valid as [a0 Ha0].
  destruct (from_affine_valid G_X G_Y a0 Ha0) as (g & Hg & _).
  destruct (proj_to_affine (felt_val k • g)) as [a|] eqn:Ha.
  - exists g, a. split_and!; [done..|]. by rewrite (get_public_key_spec k g Hg), Ha.
  - apply to_affine_infinity in Ha. apply (generator_order g (felt_val k) Hg) in Ha.
    rewrite Z.mod_small in Ha by lia. lia.
Qed.

Lemma sign_loop_pass fuel k hash i :
  sign_loop (S fuel) k hash (pass_seed i)
  = match pass k hash i with
    | inr (r, s) => Some (public_key ← expect (get_public_key k);
                          Ok {| ss_public_key := public_key; ss_r := r; ss_s := s |})
    | inl InvalidMessageHash => Some (Err (CryptoError "stark signing message hash is out of range"))
    | inl InvalidK => sign_loop fuel k hash (pass_seed (S i))
    end.
Proof. reflexivity. Qed.

(** The passes before [n] all ask for a retry. *)
Lemma sign_loop_skip k hash n : forall i fuel,
  (forall j, (j < n)%nat -> pass k hash (i + j) = inl InvalidK) ->
  sign_loop (n + fuel) k hash (pass_seed i) = sign_loop fuel k hash (pass_seed (i + n)).
Proof.
  induction n as [|n IH]; intros i fuel Hskip; [by rewrite Nat.add_0_r|].
  cbn [Nat.add]. rewrite sign_loop_pass. pose proof (Hskip O ltac:(lia)) as H0'. rewrite Nat.add_0_r in H0'.
  rewrite H0', (IH (S i) fuel), Nat.add_succ_r; [done|].
  intros j Hj. rewrite Nat.add_succ_l, <- Nat.add_succ_r. apply Hskip. lia.
Qed.

(** The public-key test is membership of the curve. *)
Lemma is_stark_public_key_spec `{!FeltExtrasLaws} x : is_stark_public_key x = true <-> on_curve (felt_val x).
Proof.
  unfold is_stark_public_key. rewrite bool_decide_eq_true. set (f := felt_add _ _).
  assert (felt_val f = (felt_val x * felt_val x * felt_val x + felt_val x + curve_beta) mod felt_prime) as Hf.
  { unfold f, STARK_BETA. rewrite !felt_add_val, !felt_mul_val, felt_of_Z_val by lia.
    change (0x6f21413efbe40de150e596d72f7a8c5609ad26c15c915c1f4cdfcb99cee9e89 mod felt_prime) with curve_beta.
    rewrite Zplus_mod_idemp_l, <- Z.add_assoc, Zplus_mod_idemp_l.
    by rewrite <- Zplus_mod_idemp_l, Zmult_mod_idemp_l, Zplus_mod_idemp_l, Z.add_assoc. }
  unfold on_curve. rewrite <- Hf. split.
  - intros [s Hs]. exists (felt_val s). by apply felt_sqrt_sound.
  - intros [y Hy]. by eapply felt_sqrt_complete.
Qed.
End stark_signing_lemmas.

(** [beta] is not a square, so zero is no coordinate of the curve. *)
Lemma on_curve_nonzero x : on_curve x -> x mod felt_prime <> 0.
Proof.
  intros [y Hy] Hx. apply (euler_not_square felt_prime curve_beta y felt_prime_prime).
  - reflexivity.
  - vm_compute. discriminate.
  - vm_compute. discriminate.
  - rewrite Hy, <- Zplus_mod_idemp_l, <- (Zplus_mod_idemp_r x), Hx, Z.add_0_r.
    by rewrite <- Zmult_mod_idemp_r, Hx, Z.mul_0_r.
Qed.

(** ** Properties *)

(** A key in [1, n) has the x coordinate of its multiple of the generator as its
    public key; any other key is refused, so the library's unwrap never fires. *)
Theorem stark_public_key_correct `{StarkLaws, !StarkCrypto, !StarkCryptoLaws} k :
  (1 <= felt_val k < CurveOrder ->
   exists g a, proj_from_affine G_X G_Y = Some g /\ proj_to_affine (felt_val k • g) = Some a
     /\ stark_public_key k = Ok (aff_x a))
  /\ (~ 1 <= felt_val k < CurveOrder ->
      stark_public_key k = Err (CryptoError "stark private key must be in [1, curve_order)")).
Proof.
  unfold stark_public_key. split.
  - intros Hk. destruct (get_public_key_valid k Hk) as (g & a & Hg & Ha & Hpk).
    exists g, a. split_and!; [done..|].
    by rewrite (proj2 (validate_stark_private_key_Ok k tt) Hk), Hpk.
  - intros Hk. destruct (validate_stark_private_key k) as [u| |] eqn:Hv.
    + by apply validate_stark_private_key_Ok in Hv.
    + unfold validate_stark_private_key, reject_if in Hv. by destruct (_ || _); [injection Hv as <-|].
    + unfold validate_stark_private_key, reject_if in Hv. by destruct (_ || _).
Qed.

(** For a valid key the signing loop stops at the first pass whose nonce is accepted and
    returns its signature with the public key, or the range error of the message, and never
    panics. *)
Theorem sign_stark_hash_correct `{StarkLaws, !StarkCrypto, !StarkCryptoLaws} k hash n fuel :
  1 <= felt_val k < CurveOrder ->
  (forall i, (i < n)%nat -> pass k hash i = inl InvalidK) -> pass k hash n <> inl InvalidK -> (n < fuel)%nat ->
  match pass k hash n with
  | inr (r, s) =>
      exists pk, stark_public_key k = Ok pk
        /\ sign_stark_hash fuel k hash = Some (Ok {| ss_public_key := pk; ss_r := r; ss_s := s |})
  | inl _ => sign_stark_hash fuel k hash = Some (Err (CryptoError "stark signing message hash is out of range"))
  end.
Proof.
  intros Hk Hskip Hn Hfuel. unfold sign_stark_hash, stark_public_key.
  rewrite (proj2 (validate_stark_private_key_Ok k tt) Hk).
  change (@None Felt) with (pass_seed 0). replace fuel with (n + S (fuel - n - 1))%nat by lia.
  rewrite sign_loop_skip, Nat.add_0_l, sign_loop_pass by done.
  destruct (get_public_key_valid k Hk) as (g & a & Hg & Ha & ->).
  destruct (pass k hash n) as [[]|[r s]]; [done|done|]. by exists (aff_x a).
Qed.

(** ** Witnesses *)

(** A square root modulo the field's prime, by search. *)
Definition root_below (f : Z) (n : N) : option Z :=
  N.peano_rect (fun _ => option Z) None
    (fun k found => match found with
                    | Some y => Some y
                    | None => if (Z.of_N k * Z.of_N k) mod felt_prime =? f then Some (Z.of_N k) else None
                    end) n.

Lemma root_below_succ f n :
  root_below f (N.succ n) = match root_below f n with
    | Some y => Some y
    | None => if (Z.of_N n * Z.of_N n) mod felt_prime =? f then Some (Z.of_N n) else None end.
Proof. unfold root_below. by rewrite N.peano_rect_succ. Qed.

Lemma root_below_spec f n :
  (forall y, root_below f n = Some y -> 0 <= y < Z.of_N n /\ (y * y) mod felt_prime = f)
  /\ (forall y, 0 <= y < Z.of_N n -> (y * y) mod felt_prime = f -> is_Some (root_below f n)).
Proof.
  induction n as [|n [IHs IHc]] using N.peano_ind; [split; [done|lia]|]. rewrite root_below_succ. split.
  - intros y. destruct (root_below f n) as [z|]; [intros [= <-]; destruct (IHs z eq_refl); lia|].
    destruct (Z.eqb_spec ((Z.of_N n * Z.of_N n) mod felt_prime) f); [|done]. intros [= <-]. split; [lia|done].
  - intros y Hy Hf. destruct (root_below f n) as [z|] eqn:Hr; [by eexists|].
    destruct (Z.eqb_spec ((Z.of_N n * Z.of_N n) mod felt_prime) f) as [|Hne]; [by eexists|].
    destruct (decide (y = Z.of_N n)) as [->|]; [done|]. destruct (IHc y) as [z Hz]; [lia|done|]. discriminate Hz.
Qed.

Definition sqrt_upto (n : N) (f : @Felt model_types) : option (@Felt model_types) :=
  option_map (mk : Z -> @Felt model_types) (root_below (mval f) n).

Lemma sqrt_upto_sound n f s :
  Z.of_N n = felt_prime -> sqrt_upto n f = Some s -> (mval s * mval s) mod felt_prime = mval f.
Proof.
  intros Hn Hs. unfold sqrt_upto in Hs. destruct (root_below (mval f) n) as [y|] eqn:Hy; [|discriminate Hs].
  apply (inj Some) in Hs as <-. apply root_below_spec in Hy as [Hr Hy]. rewrite Hn in Hr. by rewrite mval_mk_small.
Qed.

Lemma sqrt_upto_complete n f y :
  Z.of_N n = felt_prime -> (y * y) mod felt_prime = mval f -> is_Some (sqrt_upto n f).
Proof.
  intros Hn Hy. unfold sqrt_upto. destruct (proj2 (root_below_spec (mval f) n) (y mod felt_prime)) as [z ->].
  - rewrite Hn. by apply Z.mod_pos_bound.
  - by rewrite <- Zmult_mod.
  - by eexists.
Qed.

(** The bound of the search, opaque because the search is not meant to be run. *)
Lemma search_bound : { n : N | Z.of_N n = felt_prime }.
Proof. exists (Z.to_N felt_prime). vm_compute. reflexivity. Qed.

Definition model_sqrt (f : @Felt model_types) : option (@Felt model_types) := sqrt_upto (proj1_sig search_bound) f.

#[local] Instance model_stark_crypto : @StarkCrypto model_types :=
  {| get_public_key k :=
       match proj_from_affine G_X G_Y with
       | Some g => option_map aff_x (proj_to_affine (felt_val k • g))
       | None => None
       end;
     rfc6979_generate_k hash key seed := default (felt_of_Z 0) seed;
     ecdsa_sign key hash k := if decide (k = felt_of_Z 0) then inl InvalidK else inr (k, felt_add key hash);
     felt_sqrt := model_sqrt |}.

#[local] Instance model_stark_crypto_laws : @StarkCryptoLaws model_types model_stark_crypto.
Proof.
  constructor.
  - intros k g Hg. cbn [get_public_key model_stark_crypto]. by rewrite Hg.
  - intros f s. rewrite !model_felt_val. exact (sqrt_upto_sound _ f s (proj2_sig search_bound)).
  - intros f y. rewrite model_felt_val. exact (sqrt_upto_complete _ f y (proj2_sig search_bound)).
Qed.

Lemma stark_public_key_correct_witness :
  @stark_public_key model_types model_stark_crypto (mk 0)
  = Err (CryptoError "stark private key must be in [1, curve_order)").
Proof.
  apply (proj2 (@stark_public_key_correct model_types model_laws model_stark_crypto _ (mk 0))).
  rewrite model_felt_val. intros [Hz _]. vm_compute in Hz. by apply Hz.
Defined.

(** A first pass that fails and a second that signs. *)
Lemma sign_stark_hash_correct_witness :
  exists pk, @sign_stark_hash model_types model_stark_crypto 2 (mk 5) (mk 9)
  = Some (Ok {| ss_public_key := pk; ss_r := mk 1; ss_s := mk 14 |}).
Proof.
  destruct (@sign_stark_hash_correct model_types model_laws model_stark_crypto _ (mk 5) (mk 9) 1 2)
    as (pk & _ & Hs).
  - rewrite model_felt_val. vm_compute. split; [discriminate|reflexivity].
  - intros [|i] Hi; [vm_compute; reflexivity|lia].
  - vm_compute. discriminate.
  - lia.
  - exists pk. exact Hs.
Defined.
