(* ===== verification/NostrSigning.v ===== *)
(** * Nostr signing

    crates/kms/src/nostr_signing.rs: deterministic BIP-340 signatures over
    secp256k1.  The [k256::schnorr] key and signature are the interface
    [Schnorr]; [SchnorrLaws] states BIP-340: which secrets are keys, and that a
    signature verifies under the signer's key. *)

From stdpp Require Import base option list numbers strings.
From Stdlib Require Import ZArith Lia.
From S2P Require Import Prelude StarkLib Types Derivation.

#[local] Open Scope string_scope.
#[local] Open Scope list_scope.
#[local] Open Scope Z_scope.

(** [k256::schnorr::SigningKey] and [VerifyingKey::verify_raw]. *)
Class Schnorr : Type := {
  SchnorrKey : Type;
  schnorr_from_slice : list Z -> option SchnorrKey;
  schnorr_verifying_key : SchnorrKey -> list Z;
  schnorr_sign_raw : SchnorrKey -> list Z -> list Z -> option (list Z);
  schnorr_verify_raw : list Z -> list Z -> list Z -> bool }.

Class SchnorrLaws `{Schnorr} : Prop := {
  schnorr_key_valid key :
    length key = 32%nat -> Forall byte_ok key ->
    is_Some (schnorr_from_slice key) <-> 1 <= be_value key < SECP_ORDER;
  schnorr_verifying_key_bytes k : length (schnorr_verifying_key k) = 32%nat /\ Forall byte_ok (schnorr_verifying_key k);
  schnorr_signature_bytes k m aux sig :
    schnorr_sign_raw k m aux = Some sig -> length sig = 64%nat /\ Forall byte_ok sig;
  schnorr_verifies k m aux sig :
    schnorr_sign_raw k m aux = Some sig -> schnorr_verify_raw (schnorr_verifying_key k) m sig = true }.

Section nostr.
Context `{Schnorr}.

Record NostrSignature : Type := { ns_public_key : list Z; ns_signature : list Z }.

Definition parse_signing_key (private_key : list Z) : Result SchnorrKey :=
  ok_or (schnorr_from_slice private_key) (InvalidPrivateKey "Invalid secp256k1 key: {error}").

Definition nostr_public_key (private_key : list Z) : Result (list Z) :=
  signing_key ← parse_signing_key private_key;
  Ok (schnorr_verifying_key signing_key).

Definition sign_nostr_event_id_with_aux_rand (private_key event_id aux_rand : list Z) : Result NostrSignature :=
  signing_key ← parse_signing_key private_key;
  signature ← ok_or (schnorr_sign_raw signing_key event_id aux_rand) (CryptoError "nostr signing failed: {error}");
  Ok {| ns_public_key := schnorr_verifying_key signing_key; ns_signature := signature |}.

Definition sign_nostr_event_id (private_key event_id : list Z) : Result NostrSignature :=
  sign_nostr_event_id_with_aux_rand private_key event_id (replicate 32 0).

Definition sign_nostr_message (private_key message : list Z) : Result NostrSignature :=
  signing_key ← parse_signing_key private_key;
  signature ← ok_or (schnorr_sign_raw signing_key message (replicate 32 0))
    (CryptoError "nostr signing failed: {error}");
  Ok {| ns_public_key := schnorr_verifying_key signing_key; ns_signature := signature |}.

Lemma sign_nostr_message_total private_key message : sign_nostr_message private_key message <> Panic.
Proof.
  unfold sign_nostr_message, parse_signing_key. destruct (schnorr_from_slice private_key); [|done].
  cbn [ok_or mbind outcome_bind]. by destruct (schnorr_sign_raw _ _ _).
Qed.

(** An event id is signed as the raw message of its bytes. *)
Lemma sign_event_is_message private_key event_id :
  sign_nostr_event_id private_key event_id = sign_nostr_message private_key event_id.
Proof. reflexivity. Qed.

Lemma sign_nostr_message_Ok `{!SchnorrLaws} private_key message s :
  sign_nostr_message private_key message = Ok s ->
  nostr_public_key private_key = Ok (ns_public_key s)
  /\ schnorr_verify_raw (ns_public_key s) message (ns_signature s) = true
  /\ length (ns_public_key s) = 32%nat /\ length (ns_signature s) = 64%nat
  /\ Forall byte_ok (ns_public_key s) /\ Forall byte_ok (ns_signature s).
Proof.
  unfold sign_nostr_message, nostr_public_key. destruct (parse_signing_key private_key) as [k|e|]; try done.
  cbn [mbind outcome_bind]. destruct (schnorr_sign_raw k message _) as [sig|] eqn:Hs; [|done].
  intros [= <-]. cbn [ns_public_key ns_signature].
  destruct (schnorr_verifying_key_bytes k) as [Hl Hb], (schnorr_signature_bytes _ _ _ _ Hs) as [Hl' Hb'].
  split_and!; try assumption; [reflexivity|]. exact (schnorr_verifies _ _ _ _ Hs).
Qed.
End nostr.

(** Nostr signing rejects, before signing, exactly the secrets that are not
    secp256k1 scalars; a returned signature carries the public key of the secret
    and verifies under it; and event ids are signed like raw messages. *)
Theorem nostr_signing_correct `{SchnorrLaws} private_key message :
  length private_key = 32%nat -> Forall byte_ok private_key ->
  (~ 1 <= be_value private_key < SECP_ORDER ->
   sign_nostr_message private_key message = Err (InvalidPrivateKey "Invalid secp256k1 key: {error}"))
  /\ (forall s, sign_nostr_message private_key message = Ok s ->
      1 <= be_value private_key < SECP_ORDER
      /\ nostr_public_key private_key = Ok (ns_public_key s)
      /\ schnorr_verify_raw (ns_public_key s) message (ns_signature s) = true)
  /\ sign_nostr_event_id private_key message = sign_nostr_message private_key message.
Proof.
  intros Hl Hb. pose proof (schnorr_key_valid private_key Hl Hb) as Hv. split_and!; [| |reflexivity].
  - intros Hn. unfold sign_nostr_message, parse_signing_key.
    destruct (schnorr_from_slice private_key) as [k|] eqn:Hk; [|reflexivity]. destruct Hn. apply Hv. by exists k.
  - intros s Hs. destruct (sign_nostr_message_Ok private_key message s Hs) as (Hp & Hver & _).
    split; [|split; [exact Hp|exact Hver]]. apply Hv. unfold nostr_public_key, parse_signing_key in Hp.
    by destruct (schnorr_from_slice private_key) as [k|].
Qed.

(** ** Witness *)

(** A signature scheme that satisfies the laws: the secret in range is the key,
    and signatures are constant. *)
Definition model_schnorr_key (key : list Z) : option (list Z) :=
  if (length key =? 32)%nat && forallb (fun b => (0 <=? b) && (b <? 256)) key
     && (1 <=? be_value key) && (be_value key <? SECP_ORDER)
  then Some key else None.

#[local] Instance model_schnorr : Schnorr := {|
  SchnorrKey := list Z;
  schnorr_from_slice := model_schnorr_key;
  schnorr_verifying_key _ := replicate 32 1;
  schnorr_sign_raw _ _ _ := Some (replicate 64 2);
  schnorr_verify_raw pk _ sig := bool_decide (pk = replicate 32 1 /\ sig = replicate 64 2) |}.

#[local] Instance model_schnorr_laws : SchnorrLaws.
Proof.
  split.
  - intros key Hl Hb. cbn [schnorr_from_slice model_schnorr]. unfold model_schnorr_key.
    rewrite (proj2 (Nat.eqb_eq _ _) Hl).
    assert (forallb (fun b => (0 <=? b) && (b <? 256)) key = true) as ->.
    { apply forallb_forall. intros b Hin%list_elem_of_In. rewrite Forall_forall in Hb.
      specialize (Hb b Hin). unfold byte_ok in Hb. apply andb_true_intro. split; lia. }
    cbn [andb]. split.
    + intros [k Hk]. destruct (Z.leb_spec 1 (be_value key)), (Z.ltb_spec (be_value key) SECP_ORDER); done.
    + intros [Hlo Hhi]. rewrite (proj2 (Z.leb_le _ _) Hlo), (proj2 (Z.ltb_lt _ _) Hhi). by eexists.
  - intros k. split; [reflexivity|]. apply Forall_replicate. unfold byte_ok; lia.
  - intros k m aux sig Hs. apply (inj Some) in Hs as <-. split; [reflexivity|]. apply Forall_replicate. unfold byte_ok; lia.
  - intros k m aux sig Hs. apply (inj Some) in Hs as <-. by apply bool_decide_eq_true_2.
Qed.

Lemma nostr_signing_correct_witness :
  let key := replicate 31 0 ++ [3] in
  exists s, sign_nostr_message key [1; 2; 3] = Ok s
    /\ nostr_public_key key = Ok (ns_public_key s).
Proof.
  exists {| ns_public_key := replicate 32 1; ns_signature := replicate 64 2 |}.
  assert (sign_nostr_message (replicate 31 0 ++ [3]) [1; 2; 3]
    = Ok {| ns_public_key := replicate 32 1; ns_signature := replicate 64 2 |}) as Hs by (vm_compute; reflexivity).
  split; [exact Hs|].
  refine (proj1 (proj2 (proj1 (proj2 (nostr_signing_correct (replicate 31 0 ++ [3]) [1; 2; 3] _ _)) _ Hs))).
  - reflexivity.
  - apply Forall_app. split; [apply Forall_replicate; unfold byte_ok; lia|]. constructor; [unfold byte_ok; lia|constructor].
Defined.
