(* ===== verification/Nip44.v ===== *)
(** * NIP-44 encryption

    crates/kms/src/nostr_nip44.rs: version 2 of Nostr's authenticated encryption,
    over the crate's own HMAC and HKDF ([Derivation]).

    The ciphers and encodings are third-party code behind interfaces: [Ecdh]
    (k256's Diffie-Hellman), [ChaCha] (chacha20's keystream) and [Base64].  Text is
    its UTF-8 bytes.  Indexing out of range and slicing past the end are [Panic],
    so that the proofs show they do not happen. *)

From stdpp Require Import base option list numbers strings.
From Stdlib Require Import ZArith Lia.
From S2P Require Import Prelude Types Text Derivation NostrSigning.

#[local] Open Scope string_scope.
#[local] Open Scope list_scope.
#[local] Open Scope Z_scope.

(** ** The libraries *)

(** [k256::SecretKey], [k256::PublicKey] and their Diffie-Hellman, whose result is
    the x coordinate of the shared point. *)
Class Ecdh : Type := {
  EcdhSecret : Type; EcdhPublic : Type;
  secret_from_slice : list Z -> option EcdhSecret;
  public_from_sec1_bytes : list Z -> option EcdhPublic;
  diffie_hellman : EcdhSecret -> EcdhPublic -> list Z }.

(** Schnorr public keys are x coordinates: lifted to the even point they agree,
    because a point and its negation have multiples with equal x coordinates. *)
Class EcdhLaws `{Schnorr, Ecdh} : Prop := {
  ecdh_secret key k : schnorr_from_slice key = Some k -> is_Some (secret_from_slice key);
  ecdh_public k : is_Some (public_from_sec1_bytes (2 :: schnorr_verifying_key k));
  ecdh_length s p : length (diffie_hellman s p) = 32%nat;
  ecdh_agree key1 key2 k1 k2 s1 s2 p1 p2 :
    schnorr_from_slice key1 = Some k1 -> schnorr_from_slice key2 = Some k2 ->
    secret_from_slice key1 = Some s1 -> secret_from_slice key2 = Some s2 ->
    public_from_sec1_bytes (2 :: schnorr_verifying_key k1) = Some p1 ->
    public_from_sec1_bytes (2 :: schnorr_verifying_key k2) = Some p2 ->
    diffie_hellman s1 p2 = diffie_hellman s2 p1 }.

(** [ChaCha20::apply_keystream]: exclusive or with a keystream. *)
Class ChaCha : Type := { apply_keystream : list Z -> list Z -> list Z -> list Z }.
Class ChaChaLaws `{ChaCha} : Prop := {
  keystream_length key iv data : length (apply_keystream key iv data) = length data;
  keystream_ok key iv data : Forall byte_ok data -> Forall byte_ok (apply_keystream key iv data);
  keystream_twice key iv data :
    Forall byte_ok data -> apply_keystream key iv (apply_keystream key iv data) = data }.

(** Standard base64 with padding. *)
Class Base64 : Type := { base64_encode : list Z -> list Z; base64_decode : list Z -> option (list Z) }.
Class Base64Laws `{Base64} : Prop := {
  base64_decode_encode bs : Forall byte_ok bs -> base64_decode (base64_encode bs) = Some bs;
  base64_decode_ok text bs : base64_decode text = Some bs -> Forall byte_ok bs;
  base64_encode_length bs : length (base64_encode bs) = (4 * ((length bs + 2) / 3))%nat;
  (* the alphabet lies between the plus sign and the lower-case z, without the backslash *)
  base64_encode_alphabet bs : Forall (fun c => 43 <= c <= 122 /\ c <> 92) (base64_encode bs) }.

(** ** Padding *)
Definition VERSION : Z := 2.
Definition MIN_PAYLOAD_BYTES : Z := 99.
Definition MAX_PAYLOAD_BYTES : Z := 65603.
Definition MAX_PLAINTEXT_BYTES : Z := 65535.

Definition zlen {A} (l : list A) : Z := Z.of_nat (length l).

Definition valid_plaintext (plaintext : list Z) : bool :=
  negb (zlen plaintext =? 0) && (zlen plaintext <=? MAX_PLAINTEXT_BYTES).

(** [usize::next_power_of_two] of a positive number. *)
Definition next_power_of_two (n : Z) : Z := 2 ^ Z.log2_up n.

Definition padded_length (length : Z) : Z :=
  if length <=? 32 then 32
  else
    let next_power := next_power_of_two length in
    let chunk := if next_power <=? 256 then 32 else next_power / 8 in
    chunk * ((length - 1) / chunk + 1).

(** A zeroed buffer with the length and the text copied into it; the copy panics
    when the text does not fit. *)
Definition padded (plaintext : list Z) : Result (list Z) :=
  _ ← reject_if (negb (valid_plaintext plaintext)) (SerializationError "NIP-44 plaintext must be 1-65535 bytes");
  if padded_length (zlen plaintext) + 2 <? zlen plaintext + 2 then Panic
  else Ok (be_bytes 2 (zlen plaintext mod 2 ^ 16) ++ plaintext
           ++ replicate (Z.to_nat (padded_length (zlen plaintext) - zlen plaintext)) 0).

(** [slice.try_into()] to an array of [n] bytes. *)
Definition to_array (n : nat) (l : list Z) (e : KmsError) : Result (list Z) :=
  if (length l =? n)%nat then Ok l else Err e.

(** [l[from..to]]. *)
Definition slice (from to : nat) (l : list Z) : Result (list Z) :=
  if (from <=? to)%nat && (to <=? length l)%nat then Ok (take (to - from) (drop from l)) else Panic.

Section nip44.
Context `{HashFns, Schnorr, !Ecdh, !ChaCha, !Base64}.

(** ** Keys *)
Definition conversation_key (private_key peer_public_key : list Z) : Result (list Z) :=
  secret ← ok_or (secret_from_slice private_key) (InvalidPrivateKey "{error}");
  let compressed := 2 :: peer_public_key in
  public ← ok_or (public_from_sec1_bytes compressed) (InvalidPublicKey "{error}");
  let shared := diffie_hellman secret public in
  hmac Sha256 32 (string_bytes "nip44-v2") [shared].

Definition message_keys (conversation_key nonce : list Z) : Result (list Z) :=
  hkdf_sha256_expand 76 conversation_key nonce.

Definition cipher_key (keys : list Z) : Result (list Z) :=
  key ← slice 0 32 keys; to_array 32 key (CryptoError "Invalid NIP-44 cipher key").
Definition cipher_iv (keys : list Z) : Result (list Z) :=
  iv ← slice 32 44 keys; to_array 12 iv (CryptoError "Invalid NIP-44 cipher nonce").
Definition mac_key (keys : list Z) : Result (list Z) := slice 44 (length keys) keys.

(** ** Encryption *)

(** The payload before its encoding. *)
Definition encrypt_payload (private_key peer_public_key plaintext nonce : list Z) : Result (list Z) :=
  conversation ← conversation_key private_key peer_public_key;
  keys ← message_keys conversation nonce;
  ciphertext ← padded plaintext;
  key ← cipher_key keys;
  iv ← cipher_iv keys;
  let ciphertext := apply_keystream key iv ciphertext in
  mac ← mac_key keys;
  tag ← hmac Sha256 32 mac [nonce; ciphertext];
  Ok ([VERSION] ++ nonce ++ ciphertext ++ tag).

Definition encrypt_with_nonce (private_key peer_public_key plaintext nonce : list Z) : Result (list Z) :=
  payload ← encrypt_payload private_key peer_public_key plaintext nonce;
  Ok (base64_encode payload).

(** The nonce is drawn from the operating system. *)
Definition encrypt (private_key peer_public_key plaintext : list Z) (entropy : option (list Z)) : Result (list Z) :=
  nonce ← ok_or entropy (CryptoError "NIP-44 entropy unavailable: {error}");
  encrypt_with_nonce private_key peer_public_key plaintext nonce.

(** ** Decryption *)
Definition in_bounds (lo hi n : Z) : bool := (lo <=? n) && (n <=? hi).

(** What the decrypted buffer holds. *)
Definition unpad (ciphertext : list Z) : Result (list Z) :=
  length ← (if (2 <=? length ciphertext)%nat then Ok (be_value (take 2 ciphertext))
            else Err (DeserializationError "Invalid NIP-44 padding"));
  _ ← reject_if ((length =? 0) || (MAX_PLAINTEXT_BYTES <? length)
        || negb (zlen ciphertext =? padded_length length + 2)
        || (if zlen ciphertext <? length + 2 then true
            else existsb (fun byte => negb (byte =? 0)) (drop (Z.to_nat (length + 2)) ciphertext)))
        (DeserializationError "Invalid NIP-44 padding");
  text ← slice 2 (Z.to_nat (length + 2)) ciphertext;
  if utf8_valid text then Ok text else Err (DeserializationError "Invalid NIP-44 UTF-8").

(** Opening a decoded payload. *)
Definition decrypt_payload (private_key peer_public_key decoded : list Z) : Result (list Z) :=
  _ ← reject_if (negb (in_bounds MIN_PAYLOAD_BYTES MAX_PAYLOAD_BYTES (zlen decoded))
                 || bool_decide (head decoded <> Some VERSION)) (DeserializationError "Invalid NIP-44 payload");
  nonce ← slice 1 33 decoded;
  nonce ← to_array 32 nonce (DeserializationError "Invalid NIP-44 nonce");
  let tag_at := (length decoded - 32)%nat in
  ciphertext ← slice 33 tag_at decoded;
  conversation ← conversation_key private_key peer_public_key;
  keys ← message_keys conversation nonce;
  mac ← mac_key keys;
  tag ← hmac Sha256 32 mac [nonce; ciphertext];
  _ ← reject_if (bool_decide (tag <> drop tag_at decoded)) (CryptoError "NIP-44 authentication failed");
  key ← cipher_key keys;
  iv ← cipher_iv keys;
  unpad (apply_keystream key iv ciphertext).

Definition decrypt (private_key peer_public_key payload : list Z) : Result (list Z) :=
  _ ← reject_if (negb (in_bounds 132 87472 (zlen payload)) || bool_decide (head payload = Some 35))
        (DeserializationError "Invalid NIP-44 payload size");
  decoded ← ok_or (base64_decode payload) (DeserializationError "{error}");
  decrypt_payload private_key peer_public_key decoded.
End nip44.

(** ** Padding is exact *)
Lemma next_power_of_two_spec n : 1 <= n -> exists k, next_power_of_two n = 2 ^ k /\ 0 <= k /\ n <= 2 ^ k /\ (1 < n -> 2 ^ (k - 1) < n).
Proof.
  intros Hn. exists (Z.log2_up n). unfold next_power_of_two. pose proof (Z.log2_up_nonneg n).
  destruct (Z.le_gt_cases n 1) as [Hle|Hgt].
  - replace n with 1 by lia. cbn. lia.
  - destruct (Z.log2_up_spec n Hgt) as [Hlo Hhi]. replace (Z.pred (Z.log2_up n)) with (Z.log2_up n - 1) in Hlo by lia. lia.
Qed.

(** Rounding up to a multiple of [chunk] stays below every multiple that is large
    enough. *)
Lemma round_up_bounds n chunk q :
  0 < chunk -> 0 < n -> n <= chunk * q -> n <= chunk * ((n - 1) / chunk + 1) <= chunk * q.
Proof.
  intros Hc Hn Hq. pose proof (Z.div_mod (n - 1) chunk ltac:(lia)) as Hdm.
  pose proof (Z.mod_pos_bound (n - 1) chunk Hc) as Hmod. split; [nia|].
  assert ((n - 1) / chunk < q) by (apply Z.div_lt_upper_bound; lia). nia.
Qed.

Lemma padded_length_bounds n :
  1 <= n <= MAX_PLAINTEXT_BYTES -> n <= padded_length n <= 65536 /\ 32 <= padded_length n.
Proof.
  unfold MAX_PLAINTEXT_BYTES, padded_length. intros [Hlo Hhi]. destruct (Z.leb_spec n 32) as [H32|H32]; [lia|].
  destruct (next_power_of_two_spec n Hlo) as (k & -> & Hk & Hn & Hmin). specialize (Hmin ltac:(lia)).
  assert (k - 1 < 16) as Hk16 by (apply (Z.pow_lt_mono_r_iff 2); [lia|lia|]; change (2 ^ 16) with 65536; lia).
  assert (5 < k) as Hk5 by (apply (Z.pow_lt_mono_r_iff 2); [lia|lia|]; change (2 ^ 5) with 32; lia).
  assert (2 ^ k <= 65536) as Hmax by (change 65536 with (2 ^ 16); apply Z.pow_le_mono_r; lia).
  assert (2 ^ k = 32 * 2 ^ (k - 5)) as H5 by (change 32 with (2 ^ 5); rewrite <- Z.pow_add_r by lia; f_equal; lia).
  assert (2 ^ k = 8 * 2 ^ (k - 3)) as H3 by (change 8 with (2 ^ 3); rewrite <- Z.pow_add_r by lia; f_equal; lia).
  assert (0 < 2 ^ (k - 3)) by (apply Z.pow_pos_nonneg; lia).
  cbv zeta. destruct (Z.leb_spec (2 ^ k) 256) as [H256|H256].
  - pose proof (round_up_bounds n 32 (2 ^ (k - 5)) ltac:(lia) ltac:(lia) ltac:(lia)). lia.
  - replace (2 ^ k / 8) with (2 ^ (k - 3)) by (rewrite H3, Z.mul_comm, Z.div_mul by lia; reflexivity).
    pose proof (round_up_bounds n (2 ^ (k - 3)) 8 ltac:(lia) ltac:(lia) ltac:(lia)). lia.
Qed.

Lemma valid_plaintext_spec p : valid_plaintext p = true <-> 1 <= zlen p <= MAX_PLAINTEXT_BYTES.
Proof.
  unfold valid_plaintext, zlen. rewrite andb_true_iff, negb_true_iff, Z.eqb_neq, Z.leb_le. lia.
Qed.

(** The padding of a text of admissible length. *)
Definition padding (p : list Z) : list Z :=
  be_bytes 2 (zlen p) ++ p ++ replicate (Z.to_nat (padded_length (zlen p) - zlen p)) 0.

Lemma padded_Ok p : valid_plaintext p = true -> padded p = Ok (padding p).
Proof.
  intros Hv. unfold padded. rewrite Hv. apply valid_plaintext_spec in Hv.
  pose proof (padded_length_bounds (zlen p) Hv). cbn [negb reject_if mbind outcome_bind].
  rewrite (proj2 (Z.ltb_ge _ _)) by lia. unfold MAX_PLAINTEXT_BYTES in Hv.
  rewrite Z.mod_small by (change (2 ^ 16) with 65536; lia). done.
Qed.

Lemma length_padding p : valid_plaintext p = true -> zlen (padding p) = padded_length (zlen p) + 2.
Proof.
  intros Hv%valid_plaintext_spec. pose proof (padded_length_bounds (zlen p) Hv).
  unfold padding, zlen in *. rewrite !length_app, length_be_bytes, length_replicate. lia.
Qed.

Lemma padding_ok p : Forall byte_ok p -> Forall byte_ok (padding p).
Proof.
  intros Hp. unfold padding. rewrite !Forall_app. split_and!; [apply be_bytes_ok|done|].
  apply Forall_replicate. unfold byte_ok. lia.
Qed.

Lemma slice_app (l1 l2 l3 : list Z) : slice (length l1) (length l1 + length l2) (l1 ++ l2 ++ l3) = Ok l2.
Proof.
  unfold slice. rewrite !length_app. rewrite !(proj2 (Nat.leb_le _ _)) by lia. cbn [andb].
  rewrite drop_app_length. replace (length l1 + length l2 - length l1)%nat with (length l2) by lia.
  by rewrite take_app_length.
Qed.

Lemma existsb_zeros l : existsb (fun byte => negb (byte =? 0)) l = false <-> l = replicate (length l) 0.
Proof.
  induction l as [|a l IH]; cbn [existsb length replicate]; [done|]. rewrite orb_false_iff, negb_false_iff, Z.eqb_eq, IH.
  split; [intros [-> Hl]; by f_equal|]. intros [= -> Hl]. done.
Qed.

(** Removing the padding gives back a text exactly when the buffer is its
    padding. *)
Lemma unpad_padding p : valid_plaintext p = true -> utf8_valid p = true -> unpad (padding p) = Ok p.
Proof.
  intros Hv Hu. pose proof (length_padding p Hv) as Hlen. pose proof Hv as Hv'. apply valid_plaintext_spec in Hv'.
  pose proof (padded_length_bounds (zlen p) Hv') as Hb. unfold MAX_PLAINTEXT_BYTES in *. unfold unpad.
  rewrite (proj2 (Nat.leb_le _ _)) by (unfold zlen in *; lia). cbn [mbind outcome_bind].
  assert (be_value (take 2 (padding p)) = zlen p) as ->.
  { unfold padding. rewrite take_app_length' by (by rewrite length_be_bytes). rewrite be_value_be_bytes.
    apply Z.mod_small. change (256 ^ Z.of_nat 2) with 65536. lia. }
  rewrite Hlen, Z.eqb_refl. rewrite (proj2 (Z.eqb_neq _ _)) by lia.
  rewrite !(proj2 (Z.ltb_ge _ _)) by (unfold MAX_PLAINTEXT_BYTES; lia). cbn [orb negb].
  rewrite (proj2 (existsb_zeros _)).
  2:{ unfold padding. rewrite app_assoc, drop_app_length'
        by (rewrite length_app, length_be_bytes; unfold zlen; lia). by rewrite length_replicate. }
  cbn [reject_if mbind outcome_bind].
  replace (Z.to_nat (zlen p + 2)) with (length (be_bytes 2 (zlen p)) + length p)%nat
    by (rewrite length_be_bytes; unfold zlen; lia).
  change (slice 2) with (slice (length (be_bytes 2 (zlen p)))). unfold padding. rewrite slice_app.
  cbn [mbind outcome_bind]. by rewrite Hu.
Qed.

Lemma unpad_Ok c p :
  Forall byte_ok c -> unpad c = Ok p -> c = padding p /\ valid_plaintext p = true /\ utf8_valid p = true.
Proof.
  intros Hc. unfold unpad. destruct (Nat.leb_spec 2 (length c)) as [H2|]; [|done]. cbn [mbind outcome_bind].
  set (n := be_value (take 2 c)). destruct (_ || _) eqn:Hg; [done|]. cbn [reject_if mbind outcome_bind].
  apply orb_false_iff in Hg as [(Hg%orb_false_iff & Hlen%negb_false_iff%Z.eqb_eq)%orb_false_iff Hpad].
  destruct Hg as [Hn0%Z.eqb_neq Hmax%Z.ltb_ge].
  assert (0 <= n) as Hn by (apply be_value_bound; by apply Forall_take).
  destruct (Z.ltb_spec (zlen c) (n + 2)) as [|Hfit]; [done|]. apply existsb_zeros in Hpad. unfold slice.
  rewrite !(proj2 (Nat.leb_le _ _)) by (unfold zlen in *; lia). cbn [andb mbind outcome_bind].
  set (text := take _ _). destruct (utf8_valid text) eqn:Hu; [|done]. intros [= <-].
  assert (zlen text = n) as Htext by (unfold text, zlen in *; rewrite length_take, length_drop; lia).
  split_and!; [|apply valid_plaintext_spec; lia|done]. unfold padding. rewrite Htext.
  replace (Z.to_nat (padded_length n - n)) with (length (drop (Z.to_nat (n + 2)) c))
    by (rewrite length_drop; unfold zlen in *; lia).
  rewrite <- Hpad. unfold n. rewrite <- (take_drop 2 c) at 1. f_equal.
  - symmetry. replace 2%nat with (length (take 2 c)) at 1 by (rewrite length_take; lia).
    apply be_bytes_be_value. by apply Forall_take.
  - unfold text. rewrite <- (take_drop (Z.to_nat (n + 2) - 2) (drop 2 c)) at 1. f_equal. rewrite drop_drop. f_equal. lia.
Qed.

(** ** The cipher *)
Section nip44_lemmas.
Context `{HashFnsLaws, Schnorr, !SchnorrLaws, !Ecdh, !EcdhLaws, !ChaCha, !ChaChaLaws, !Base64, !Base64Laws}.

Definition keys_of (conversation nonce : list Z) : list Z := take 76 (rfc5869_blocks conversation nonce 1 255).

(** The payload of a text under a conversation key. *)
Definition sealed (conversation p nonce : list Z) : list Z :=
  let keys := keys_of conversation nonce in
  let c := apply_keystream (take 32 keys) (take 12 (drop 32 keys)) (padding p) in
  [VERSION] ++ nonce ++ c ++ rfc2104 Sha256 (drop 44 keys) (nonce ++ c).

Lemma rfc2104_length key m : length (rfc2104 Sha256 key m) = 32%nat.
Proof. unfold rfc2104. cbn. apply sha256_length. Qed.

Lemma conversation_key_length sk peer c : conversation_key sk peer = Ok c -> length c = 32%nat.
Proof.
  unfold conversation_key. destruct (secret_from_slice sk) as [e|]; [|done]. cbn [ok_or mbind outcome_bind].
  destruct (public_from_sec1_bytes (2 :: peer)) as [e0|]; [|done]. cbn [ok_or mbind outcome_bind].
  rewrite hmac_sha256 by (cbn; lia). intros Hok.
  assert (rfc2104 Sha256 (string_bytes "nip44-v2") (concat [diffie_hellman e e0]) = c) as <- by congruence.
  apply rfc2104_length.
Qed.

Lemma conversation_key_total sk peer : conversation_key sk peer <> Panic.
Proof.
  unfold conversation_key. destruct (secret_from_slice sk); [|done]. cbn [ok_or mbind outcome_bind].
  destruct (public_from_sec1_bytes (2 :: peer)); [|done]. cbn [ok_or mbind outcome_bind].
  by rewrite hmac_sha256 by (cbn; lia).
Qed.

(** Both ends of a conversation compute the same key. *)
Lemma conversation_key_agrees sk1 sk2 x1 x2 :
  nostr_public_key sk1 = Ok x1 -> nostr_public_key sk2 = Ok x2 ->
  exists c, conversation_key sk1 x2 = Ok c /\ conversation_key sk2 x1 = Ok c.
Proof.
  unfold nostr_public_key, parse_signing_key.
  destruct (schnorr_from_slice sk1) as [k1|] eqn:Hk1; [|done]. destruct (schnorr_from_slice sk2) as [k2|] eqn:Hk2; [|done].
  intros [= <-] [= <-]. destruct (ecdh_secret _ _ Hk1) as [s1 Hs1], (ecdh_secret _ _ Hk2) as [s2 Hs2].
  destruct (ecdh_public k1) as [p1 Hp1], (ecdh_public k2) as [p2 Hp2]. unfold conversation_key.
  rewrite Hs1, Hs2, Hp1, Hp2. cbn [ok_or mbind outcome_bind].
  rewrite (ecdh_agree _ _ _ _ _ _ _ _ Hk1 Hk2 Hs1 Hs2 Hp1 Hp2), hmac_sha256 by (cbn; lia). eauto.
Qed.

Lemma message_keys_eq c nonce :
  length c = 32%nat -> message_keys c nonce = Ok (keys_of c nonce) /\ length (keys_of c nonce) = 76%nat.
Proof.
  intros Hc. destruct (hkdf_expand_rfc5869 76 c nonce Hc) as [Hrun Hlen].
  split; [exact Hrun|]. apply Hlen. unfold SHA256_LEN. lia.
Qed.

Lemma key_parts keys :
  length keys = 76%nat ->
  cipher_key keys = Ok (take 32 keys) /\ cipher_iv keys = Ok (take 12 (drop 32 keys)) /\ mac_key keys = Ok (drop 44 keys).
Proof.
  intros Hk. unfold cipher_key, cipher_iv, mac_key, slice, to_array. rewrite Hk. cbn [Nat.leb andb mbind outcome_bind Nat.sub].
  rewrite drop_0, !length_take, !length_drop, Hk. cbn [Nat.sub Nat.min Nat.eqb].
  split_and!; [done..|]. rewrite take_ge; [done|]. rewrite length_drop, Hk. done.
Qed.

Lemma mac_eq keys parts :
  length keys = 76%nat -> hmac Sha256 32 (drop 44 keys) parts = Ok (rfc2104 Sha256 (drop 44 keys) (concat parts)).
Proof. intros Hk. apply hmac_sha256. rewrite length_drop. lia. Qed.

Lemma encrypt_payload_eq sk peer c p nonce :
  conversation_key sk peer = Ok c -> valid_plaintext p = true ->
  encrypt_payload sk peer p nonce = Ok (sealed c p nonce).
Proof.
  intros Hc Hv. unfold encrypt_payload. rewrite Hc. cbn [mbind outcome_bind].
  destruct (message_keys_eq c nonce (conversation_key_length _ _ _ Hc)) as [-> Hk]. cbn [mbind outcome_bind].
  rewrite padded_Ok by done. destruct (key_parts _ Hk) as (-> & -> & ->). cbn [mbind outcome_bind].
  rewrite mac_eq by done. cbn [concat mbind outcome_bind]. by rewrite app_nil_r.
Qed.

(** What [decrypt_payload] does with a payload that is cut the right way. *)
Lemma decrypt_payload_parts sk peer nonce ct tag :
  length nonce = 32%nat -> length tag = 32%nat ->
  MIN_PAYLOAD_BYTES <= 65 + zlen ct <= MAX_PAYLOAD_BYTES ->
  decrypt_payload sk peer ([VERSION] ++ nonce ++ ct ++ tag)
  = (c ← conversation_key sk peer;
     _ ← reject_if (bool_decide (rfc2104 Sha256 (drop 44 (keys_of c nonce)) (nonce ++ ct) <> tag))
           (CryptoError "NIP-44 authentication failed");
     unpad (apply_keystream (take 32 (keys_of c nonce)) (take 12 (drop 32 (keys_of c nonce))) ct)).
Proof.
  intros Hn Ht Hb. unfold decrypt_payload.
  assert (length ([VERSION] ++ nonce ++ ct ++ tag) = (65 + length ct)%nat) as Hlen
    by (rewrite !length_app, Hn, Ht; cbn; lia).
  unfold in_bounds. replace (zlen ([VERSION] ++ nonce ++ ct ++ tag)) with (65 + zlen ct) by (unfold zlen; rewrite Hlen; lia).
  rewrite !(proj2 (Z.leb_le _ _)) by lia. cbn [andb negb orb app head].
  rewrite bool_decide_eq_false_2 by (intros Hx; by apply Hx). cbn [reject_if mbind outcome_bind].
  change (VERSION :: nonce ++ ct ++ tag) with ([VERSION] ++ nonce ++ ct ++ tag). rewrite Hlen.
  assert (slice 1 33 ([VERSION] ++ nonce ++ ct ++ tag) = Ok nonce) as ->.
  { rewrite <- (slice_app [VERSION] nonce (ct ++ tag)). cbn [length]. by rewrite Hn. }
  cbn [mbind outcome_bind]. unfold to_array. rewrite Hn, Nat.eqb_refl. cbn [mbind outcome_bind].
  assert (slice 33 (65 + length ct - 32) ([VERSION] ++ nonce ++ ct ++ tag) = Ok ct) as ->.
  { rewrite <- (slice_app ([VERSION] ++ nonce) ct tag), <- app_assoc, length_app, Hn. cbn [length]. f_equal; lia. }
  cbn [mbind outcome_bind].
  replace (drop (65 + length ct - 32) ([VERSION] ++ nonce ++ ct ++ tag)) with tag
    by (rewrite !app_assoc, drop_app_length'; [done|rewrite !length_app, Hn; cbn; lia]).
  destruct (conversation_key sk peer) as [c|e|] eqn:Hc; [|done..]. cbn [mbind outcome_bind].
  destruct (message_keys_eq c nonce (conversation_key_length _ _ _ Hc)) as [-> Hk]. cbn [mbind outcome_bind].
  destruct (key_parts _ Hk) as (-> & -> & ->). cbn [mbind outcome_bind]. rewrite mac_eq by done. cbn [concat mbind outcome_bind].
  by rewrite app_nil_r.
Qed.

Lemma sealed_cipher_length key iv p :
  valid_plaintext p = true ->
  MIN_PAYLOAD_BYTES <= 65 + zlen (apply_keystream key iv (padding p)) <= MAX_PAYLOAD_BYTES.
Proof.
  intros Hv. pose proof (length_padding p Hv) as Hl. apply valid_plaintext_spec, padded_length_bounds in Hv.
  unfold zlen in *. rewrite keystream_length. unfold MIN_PAYLOAD_BYTES, MAX_PAYLOAD_BYTES. lia.
Qed.

Lemma decrypt_sealed sk peer c p nonce :
  conversation_key sk peer = Ok c -> valid_plaintext p = true -> utf8_valid p = true -> Forall byte_ok p ->
  length nonce = 32%nat -> decrypt_payload sk peer (sealed c p nonce) = Ok p.
Proof.
  intros Hc Hv Hu Hp Hn. unfold sealed. cbv zeta.
  rewrite decrypt_payload_parts by (first [done|apply rfc2104_length|by apply sealed_cipher_length]).
  rewrite Hc. cbn [mbind outcome_bind]. rewrite bool_decide_eq_false_2 by (intros Hx; by apply Hx).
  cbn [reject_if mbind outcome_bind]. rewrite keystream_twice by (by apply padding_ok). by apply unpad_padding.
Qed.

(** A payload cut at its nonce and its tag. *)
Lemma payload_cut (d : list Z) v :
  head d = Some v -> MIN_PAYLOAD_BYTES <= zlen d ->
  exists nonce ct tag, d = [v] ++ nonce ++ ct ++ tag /\ length nonce = 32%nat /\ length tag = 32%nat
    /\ zlen d = 65 + zlen ct.
Proof.
  unfold MIN_PAYLOAD_BYTES, zlen. destruct d as [|v' d]; [done|]. cbn [head length]. intros [= ->] Hl.
  exists (take 32 d), (take (length d - 64) (drop 32 d)), (drop (length d - 32) d).
  split_and!.
  - cbn [app]. f_equal. rewrite <- (take_drop 32 d) at 1. f_equal.
    rewrite <- (take_drop (length d - 64) (drop 32 d)) at 1. f_equal. rewrite drop_drop. f_equal. lia.
  - rewrite length_take. lia.
  - rewrite length_drop. lia.
  - rewrite length_take, length_drop. lia.
Qed.

Lemma decrypt_payload_Ok sk peer d p :
  Forall byte_ok d -> decrypt_payload sk peer d = Ok p ->
  exists c nonce, conversation_key sk peer = Ok c /\ length nonce = 32%nat /\ d = sealed c p nonce
    /\ valid_plaintext p = true /\ utf8_valid p = true.
Proof.
  intros Hd Hrun. pose proof Hrun as Hguard. unfold decrypt_payload in Hguard.
  destruct (_ || _) eqn:Hg in Hguard; [done|]. clear Hguard.
  apply orb_false_iff in Hg as [Hb%negb_false_iff Hv%bool_decide_eq_false].
  unfold in_bounds in Hb. apply andb_true_iff in Hb as [Hlo%Z.leb_le Hhi%Z.leb_le]. apply dec_stable in Hv.
  destruct (payload_cut d VERSION Hv Hlo) as (nonce & ct & tag & -> & Hn & Ht & Hlen).
  rewrite decrypt_payload_parts in Hrun by (done || lia).
  destruct (conversation_key sk peer) as [c|e|]; [|done..]. cbn [mbind outcome_bind] in Hrun.
  destruct (bool_decide _) eqn:Htag in Hrun; [done|]. apply bool_decide_eq_false, dec_stable in Htag.
  cbn [reject_if mbind outcome_bind] in Hrun. rewrite !Forall_app in Hd. destruct Hd as (_ & _ & Hct & _).
  apply unpad_Ok in Hrun as (Hpad & Hval & Hu); [|by apply keystream_ok].
  exists c, nonce. split_and!; [done..| |done|done]. unfold sealed. cbv zeta. rewrite <- Hpad, keystream_twice by done.
  by rewrite Htag.
Qed.

Lemma sealed_ok c p nonce : Forall byte_ok p -> Forall byte_ok nonce -> Forall byte_ok (sealed c p nonce).
Proof.
  intros Hp Hn. unfold sealed. cbv zeta. rewrite !Forall_app. split_and!; [|done|by apply keystream_ok, padding_ok|].
  - constructor; [|constructor]. unfold byte_ok, VERSION. lia.
  - unfold rfc2104. cbv zeta. apply sha256_ok.
Qed.
End nip44_lemmas.

(** ** Properties *)
Section nip44_total.
Context `{HashFnsLaws, Schnorr, !SchnorrLaws, !Ecdh, !EcdhLaws, !ChaCha, !ChaChaLaws, !Base64, !Base64Laws}.

Lemma unpad_total c : Forall byte_ok c -> unpad c <> Panic.
Proof.
  intros Hc. unfold unpad. destruct (Nat.leb_spec 2 (length c)) as [Htwo|]; [|done]. cbn [mbind outcome_bind].
  destruct (be_value_bound (take 2 c)) as [Hn _]; [by apply Forall_take|]. set (n := be_value (take 2 c)) in *.
  destruct (_ || _) eqn:Hg; [done|]. cbn [reject_if mbind outcome_bind].
  apply orb_false_iff in Hg as [_ Hfit]. destruct (Z.ltb_spec (zlen c) (n + 2)) as [|Hle]; [done|]. unfold slice.
  rewrite !(proj2 (Nat.leb_le _ _)) by (unfold zlen in *; lia). cbn [andb mbind outcome_bind]. by destruct (utf8_valid _).
Qed.

Lemma decrypt_total sk peer payload : decrypt sk peer payload <> Panic.
Proof.
  unfold decrypt. destruct (_ || _); [done|]. cbn [reject_if mbind outcome_bind].
  destruct (base64_decode payload) as [d|] eqn:Hd; [|done]. cbn [ok_or mbind outcome_bind]. apply base64_decode_ok in Hd.
  destruct (in_bounds MIN_PAYLOAD_BYTES MAX_PAYLOAD_BYTES (zlen d)) eqn:Hb.
  2:{ unfold decrypt_payload. by rewrite Hb. }
  destruct (decide (head d = Some VERSION)) as [Hv|Hv].
  2:{ unfold decrypt_payload. by rewrite Hb, bool_decide_eq_true_2 by done. }
  unfold in_bounds in Hb. apply andb_true_iff in Hb as [Hlo%Z.leb_le Hhi%Z.leb_le].
  destruct (payload_cut d VERSION Hv Hlo) as (nonce & ct & tag & -> & Hn & Ht & Hlen).
  rewrite decrypt_payload_parts by (done || lia). pose proof (conversation_key_total sk peer).
  destruct (conversation_key sk peer) as [c|e|]; [|done..]. cbn [mbind outcome_bind].
  destruct (bool_decide _); [done|]. cbn [reject_if mbind outcome_bind].
  rewrite !Forall_app in Hd. destruct Hd as (_ & _ & Hct & _). by apply unpad_total, keystream_ok.
Qed.

Lemma sealed_length c p nonce :
  valid_plaintext p = true -> length nonce = 32%nat -> MIN_PAYLOAD_BYTES <= zlen (sealed c p nonce) <= MAX_PAYLOAD_BYTES.
Proof.
  intros Hv Hn. unfold sealed. cbv zeta. set (ct := apply_keystream _ _ _).
  pose proof (sealed_cipher_length (take 32 (keys_of c nonce)) (take 12 (drop 32 (keys_of c nonce))) p Hv) as Hb.
  change (apply_keystream _ _ _) with ct in Hb. unfold zlen in *. rewrite !length_app, rfc2104_length, Hn. cbn [length]. lia.
Qed.

Lemma decrypt_encoded sk peer c p nonce :
  valid_plaintext p = true -> length nonce = 32%nat -> Forall byte_ok p -> Forall byte_ok nonce ->
  decrypt sk peer (base64_encode (sealed c p nonce)) = decrypt_payload sk peer (sealed c p nonce).
Proof.
  intros Hv Hn Hp Hnonce. pose proof (sealed_length c p nonce Hv Hn) as Hb. unfold decrypt, in_bounds.
  set (bytes := sealed c p nonce) in *. unfold MIN_PAYLOAD_BYTES, MAX_PAYLOAD_BYTES in Hb.
  assert (132 <= zlen (base64_encode bytes) <= 87472) as Hlen.
  { unfold zlen in *. rewrite base64_encode_length.
    pose proof (Nat.div_mod_eq (length bytes + 2) 3). pose proof (Nat.mod_upper_bound (length bytes + 2) 3). lia. }
  rewrite !(proj2 (Z.leb_le _ _)) by lia. cbn [andb negb orb]. rewrite bool_decide_eq_false_2.
  2:{ pose proof (base64_encode_alphabet bytes) as Ha. intros [l Hl]%head_Some. rewrite Hl, Forall_cons in Ha. lia. }
  cbn [reject_if mbind outcome_bind]. rewrite base64_decode_encode by (by apply sealed_ok). done.
Qed.

(** What one end encrypts the other decrypts. *)
Lemma encrypt_decrypt sk1 sk2 x1 x2 p nonce :
  nostr_public_key sk1 = Ok x1 -> nostr_public_key sk2 = Ok x2 ->
  Forall byte_ok p -> utf8_valid p = true -> Forall byte_ok nonce -> length nonce = 32%nat ->
  if valid_plaintext p
  then exists payload, encrypt_with_nonce sk1 x2 p nonce = Ok payload /\ decrypt sk2 x1 payload = Ok p
    /\ Forall byte_ok payload
  else encrypt_with_nonce sk1 x2 p nonce = Err (SerializationError "NIP-44 plaintext must be 1-65535 bytes").
Proof.
  intros Hx1 Hx2 Hp Hu Hnonce Hn. destruct (conversation_key_agrees sk1 sk2 x1 x2 Hx1 Hx2) as (c & Hc1 & Hc2).
  unfold encrypt_with_nonce. destruct (valid_plaintext p) eqn:Hv.
  - rewrite (encrypt_payload_eq sk1 x2 c p nonce Hc1 Hv). cbn [mbind outcome_bind]. eexists. split; [reflexivity|]. split.
    + rewrite decrypt_encoded by done. by apply decrypt_sealed.
    + eapply Forall_impl; [apply base64_encode_alphabet|]. intros b Hb. cbn beta in Hb. unfold byte_ok. lia.
  - unfold encrypt_payload. rewrite Hc1. cbn [mbind outcome_bind].
    destruct (message_keys_eq c nonce (conversation_key_length _ _ _ Hc1)) as [-> _]. cbn [mbind outcome_bind].
    unfold padded. by rewrite Hv.
Qed.

(** C19: A NIP-44 payload of one to 65535 bytes of text decrypts under the peer's key to the
    text, any other text is refused; decryption never panics, and what it accepts is the
    encryption of the returned text under the nonce it carries. *)
Theorem nip44_correct sk1 sk2 x1 x2 :
  nostr_public_key sk1 = Ok x1 -> nostr_public_key sk2 = Ok x2 ->
  (forall p nonce, Forall byte_ok p -> utf8_valid p = true -> Forall byte_ok nonce -> length nonce = 32%nat ->
     if valid_plaintext p
     then exists payload, encrypt_with_nonce sk1 x2 p nonce = Ok payload /\ decrypt sk2 x1 payload = Ok p
     else encrypt_with_nonce sk1 x2 p nonce = Err (SerializationError "NIP-44 plaintext must be 1-65535 bytes"))
  /\ (forall payload, decrypt sk2 x1 payload <> Panic
      /\ forall p, decrypt sk2 x1 payload = Ok p ->
         exists nonce bytes, base64_decode payload = Some bytes /\ encrypt_payload sk1 x2 p nonce = Ok bytes).
Proof.
  intros Hx1 Hx2. destruct (conversation_key_agrees sk1 sk2 x1 x2 Hx1 Hx2) as (c & Hc1 & Hc2). split.
  - intros p nonce Hp Hu Hnonce Hn. pose proof (encrypt_decrypt sk1 sk2 x1 x2 p nonce Hx1 Hx2 Hp Hu Hnonce Hn) as Hrt.
    destruct (valid_plaintext p); [|exact Hrt]. destruct Hrt as (payload & He & Hd & _). by exists payload.
  - intros payload. split; [apply decrypt_total|]. intros p. unfold decrypt. destruct (_ || _); [done|].
    cbn [reject_if mbind outcome_bind]. destruct (base64_decode payload) as [d|] eqn:Hd; [|done].
    cbn [ok_or mbind outcome_bind]. intros Hrun. apply base64_decode_ok in Hd as Hok.
    destruct (decrypt_payload_Ok sk2 x1 d p Hok Hrun) as (c' & nonce & Hc' & Hn & -> & Hv & _).
    replace c' with c by congruence. eexists nonce, _. split; [reflexivity|]. by apply encrypt_payload_eq.
Qed.
End nip44_total.

(** ** Witness *)
#[local] Existing Instance model_hashes.
#[local] Existing Instance model_hashes_laws.
#[local] Existing Instance model_schnorr.
#[local] Existing Instance model_schnorr_laws.

(** A shared secret that depends on neither key, and a keystream of one byte. *)
#[local] Instance model_ecdh : Ecdh :=
  {| EcdhSecret := list Z; EcdhPublic := list Z; secret_from_slice := model_schnorr_key;
     public_from_sec1_bytes bs := Some bs; diffie_hellman _ _ := replicate 32 7 |}.
#[local] Instance model_ecdh_laws : EcdhLaws.
Proof. split; [by eexists|by eexists|reflexivity|reflexivity]. Qed.

#[local] Instance model_chacha : ChaCha :=
  {| apply_keystream key _ data := map (fun byte => Z.lxor byte (hd 0 key mod 256)) data |}.
Lemma lxor_byte a k : byte_ok a -> byte_ok (Z.lxor a (k mod 256)).
Proof.
  unfold byte_ok. intros Ha. pose proof (Z.mod_pos_bound k 256 ltac:(lia)) as Hk. set (m := k mod 256) in *.
  assert (0 <= Z.lxor a m) as Hpos by (apply Z.lxor_nonneg; lia). split; [exact Hpos|].
  destruct (decide (Z.lxor a m = 0)) as [->|Hne]; [lia|]. apply (Z.log2_lt_pow2 _ 8); [lia|].
  pose proof (Z.log2_lxor a m ltac:(lia) ltac:(lia)) as Hl.
  assert (forall x, 0 <= x < 256 -> Z.log2 x < 8) as Hx.
  { intros x Hx. destruct (decide (x = 0)) as [->|]; [done|]. apply Z.log2_lt_pow2; [lia|exact (proj2 Hx)]. }
  pose proof (Hx a Ha). pose proof (Hx m Hk). lia.
Qed.
#[local] Instance model_chacha_laws : ChaChaLaws.
Proof.
  split; cbn [apply_keystream model_chacha]; intros key iv data.
  - apply length_map.
  - intros Hd. apply Forall_map. eapply Forall_impl; [exact Hd|]. intros a. apply lxor_byte.
  - intros Hd. rewrite map_map. rewrite <- (map_id data) at 2. apply map_ext. intros a.
    by rewrite Z.lxor_assoc, Z.lxor_nilpotent, Z.lxor_0_r.
Qed.

(** Base64 with the digits as the 64 codes from 43 on, without 92, and 122 as the padding. *)
Definition code64 (d : Z) : Z := if d <? 49 then 43 + d else 44 + d.
Definition uncode64 (c : Z) : Z := if c <? 92 then c - 43 else c - 44.
Definition digits64 (v : Z) (shifts : list Z) : list Z := map (fun s => code64 (v / 2 ^ s mod 64)) shifts.
Fixpoint model_encode (l : list Z) : list Z :=
  match l with
  | a :: b :: c :: l => digits64 (a * 2 ^ 16 + b * 2 ^ 8 + c) [18; 12; 6; 0] ++ model_encode l
  | [a; b] => digits64 (a * 2 ^ 16 + b * 2 ^ 8) [18; 12; 6] ++ [122]
  | [a] => digits64 (a * 2 ^ 16) [18; 12] ++ [122; 122]
  | [] => []
  end.
Definition octets (v : Z) (shifts : list Z) : list Z := map (fun s => v / 2 ^ s mod 256) shifts.
Fixpoint model_decode (l : list Z) : option (list Z) :=
  match l with
  | w :: x :: y :: z :: l =>
      let v := uncode64 w * 2 ^ 18 + uncode64 x * 2 ^ 12 in
      if y =? 122 then Some (octets v [16])
      else if z =? 122 then Some (octets (v + uncode64 y * 2 ^ 6) [16; 8])
      else rest ← model_decode l; Some (octets (v + uncode64 y * 2 ^ 6 + uncode64 z) [16; 8; 0] ++ rest)
  | [] => Some []
  | _ => None
  end.
#[local] Instance model_base64 : Base64 := {| base64_encode := model_encode; base64_decode := model_decode |}.

(** Induction three bytes at a time. *)
Lemma list_ind3 {A} (P : list A -> Prop) :
  P [] -> (forall a, P [a]) -> (forall a b, P [a; b]) -> (forall a b c l, P l -> P (a :: b :: c :: l)) -> forall l, P l.
Proof.
  intros H0 H1 H2 H3. fix IH 1. intros [|a [|b [|c l]]]; [exact H0|apply H1|apply H2|]. apply H3, IH.
Qed.

Lemma octets_ok v shifts : Forall byte_ok (octets v shifts).
Proof. apply Forall_map, Forall_true. intros s. apply Z.mod_pos_bound. lia. Qed.

(** Recomposing a triple from its base-64 digits. *)
Lemma digits64_value v : 0 <= v < 2 ^ 24 ->
  v / 2 ^ 18 mod 64 * 2 ^ 18 + v / 2 ^ 12 mod 64 * 2 ^ 12 + v / 2 ^ 6 mod 64 * 2 ^ 6 + v / 2 ^ 0 mod 64 = v.
Proof. intros Hv. cbn [Z.pow Z.pow_pos Pos.iter Z.mul Pos.mul]. Z.div_mod_to_equations. lia. Qed.

Lemma octets_value a b c : byte_ok a -> byte_ok b -> byte_ok c ->
  octets (a * 2 ^ 16 + b * 2 ^ 8 + c) [16; 8; 0] = [a; b; c].
Proof.
  unfold byte_ok, octets. intros Ha Hb Hc. cbn [map]. cbn [Z.pow Z.pow_pos Pos.iter Z.mul Pos.mul].
  repeat f_equal; Z.div_mod_to_equations; lia.
Qed.

Lemma code64_range x : 43 <= code64 (x mod 64) <= 107 /\ code64 (x mod 64) <> 92.
Proof. unfold code64. pose proof (Z.mod_pos_bound x 64 ltac:(lia)). destruct (Z.ltb_spec (x mod 64) 49); lia. Qed.

Lemma digit64_code x : (code64 (x mod 64) =? 122) = false.
Proof. apply Z.eqb_neq. pose proof (code64_range x). lia. Qed.

Lemma digit64_minus x : uncode64 (code64 (x mod 64)) = x mod 64.
Proof.
  unfold code64, uncode64. pose proof (Z.mod_pos_bound x 64 ltac:(lia)).
  destruct (Z.ltb_spec (x mod 64) 49), (Z.ltb_spec (43 + x mod 64) 92), (Z.ltb_spec (44 + x mod 64) 92); lia.
Qed.

Lemma model_decode_encode bs : Forall byte_ok bs -> model_decode (model_encode bs) = Some bs.
Proof.
  induction bs as [|a|a b|a b c l IH] using list_ind3; rewrite ?Forall_cons; intros Hok; [done|..];
    cbn [model_encode digits64 map app model_decode].
  - destruct Hok as [Ha _]. rewrite Z.eqb_refl, !digit64_minus. f_equal.
    change [a] with (take 1 [a; 0; 0]). rewrite <- (octets_value a 0 0) by (done || unfold byte_ok; lia).
    unfold octets. cbn [map take]. unfold byte_ok in Ha.
    replace (a * 2 ^ 16 + 0 * 2 ^ 8 + 0) with (a * 2 ^ 16) by lia. set (v := a * 2 ^ 16) in *.
    replace (v / 2 ^ 18 mod 64 * 2 ^ 18 + v / 2 ^ 12 mod 64 * 2 ^ 12) with v; [done|].
    unfold v. cbn [Z.pow Z.pow_pos Pos.iter Z.mul Pos.mul]. Z.div_mod_to_equations. lia.
  - destruct Hok as (Ha & Hb & _). rewrite digit64_code, Z.eqb_refl, !digit64_minus. f_equal.
    change [a; b] with (take 2 [a; b; 0]). rewrite <- (octets_value a b 0) by (done || unfold byte_ok; lia).
    unfold octets. cbn [map take]. unfold byte_ok in Ha, Hb.
    replace (a * 2 ^ 16 + b * 2 ^ 8 + 0) with (a * 2 ^ 16 + b * 2 ^ 8) by lia.
    set (v := a * 2 ^ 16 + b * 2 ^ 8) in *.
    replace (v / 2 ^ 18 mod 64 * 2 ^ 18 + v / 2 ^ 12 mod 64 * 2 ^ 12 + v / 2 ^ 6 mod 64 * 2 ^ 6) with v; [done|].
    rewrite <- (digits64_value v) at 1 by lia. assert (v / 2 ^ 0 mod 64 = 0) as ->; [|lia].
    unfold v. cbn [Z.pow Z.pow_pos Pos.iter Z.mul Pos.mul]. Z.div_mod_to_equations. lia.
  - destruct Hok as (Ha & Hb & Hc & Hl). rewrite !digit64_code, !digit64_minus, (IH Hl). cbn [mbind option_bind]. f_equal.
    unfold byte_ok in *. rewrite digits64_value by lia. by rewrite octets_value.
Qed.

#[local] Instance model_base64_laws : Base64Laws.
Proof.
  split; cbn [base64_encode base64_decode model_base64].
  - apply model_decode_encode.
  - assert (forall n text bs, (length text <= n)%nat -> model_decode text = Some bs -> Forall byte_ok bs) as Hind;
      [|intros text bs; by apply (Hind (length text))].
    induction n as [|n IH]; intros [|w [|x [|y [|z l]]]] bs Hn; cbn [model_decode length] in *; try done || lia.
    1,2: intros [= <-]; constructor.
    destruct (y =? 122); [intros Hs; apply (inj Some) in Hs as <-; apply octets_ok|].
    destruct (z =? 122); [intros Hs; apply (inj Some) in Hs as <-; apply octets_ok|].
    destruct (model_decode l) as [rest|] eqn:Hl; [|done]. intros Hs. apply (inj Some) in Hs as <-.
    apply Forall_app. split; [apply octets_ok|]. eapply IH; [|exact Hl]. lia.
  - intros bs. induction bs as [|a|a b|a b c l IH] using list_ind3; [reflexivity..|].
    cbn [model_encode length]. rewrite length_app, IH. cbn [digits64 map length].
    replace (S (S (S (length l))) + 2)%nat with (length l + 2 + 1 * 3)%nat by lia. rewrite Nat.div_add by lia. lia.
  - assert (forall v shifts, Forall (fun c => 43 <= c <= 122 /\ c <> 92) (digits64 v shifts)) as Hd.
    { intros v shifts. apply Forall_map, Forall_true. intros s. pose proof (code64_range (v / 2 ^ s)). lia. }
    intros bs. induction bs as [|a|a b|a b c l IH] using list_ind3; cbn [model_encode]; [constructor|..];
      apply Forall_app; (split; [apply Hd|]); [..|exact IH]; repeat constructor; lia.
Qed.

Lemma nip44_correct_witness :
  let key := replicate 31 0 ++ [3] in let peer := replicate 31 0 ++ [5] in
  exists payload, encrypt_with_nonce key (replicate 32 1) (string_bytes "hi") (replicate 32 9) = Ok payload
    /\ decrypt peer (replicate 32 1) payload = Ok (string_bytes "hi").
Proof.
  assert (nostr_public_key (replicate 31 0 ++ [3]) = Ok (replicate 32 1)) as Hx1 by (vm_compute; reflexivity).
  assert (nostr_public_key (replicate 31 0 ++ [5]) = Ok (replicate 32 1)) as Hx2 by (vm_compute; reflexivity).
  apply (proj1 (nip44_correct _ _ _ _ Hx1 Hx2) (string_bytes "hi") (replicate 32 9)).
  - cbn. unfold byte_ok. repeat constructor; lia.
  - reflexivity.
  - apply Forall_replicate. unfold byte_ok. lia.
  - reflexivity.
Defined.
