(* ===== verification/Qsb.v ===== *)
(** * Vault secrets for Quantum Safe Bitcoin (crates/kms/src/qsb_hors.rs, key.rs and
    transaction.rs)

    Vault and request validation, the keyed secrets, commitments and disclosures, and the
    strict parser of the transaction a disclosure is bound to.  SHA-2 is [HashFns], BIP-39
    [Bip39], RIPEMD-160 the parameter [Ripemd].

    The reader is the bytes still to be read, so that its field [at] is the length of the
    transaction less that of the rest.  A loop over a count is given fuel; running out of it
    is a [Panic], which [validate_tx_total] excludes.  Wiping is not modelled. *)

From stdpp Require Import base option list numbers strings.
From Stdlib Require Import ZArith Lia Zdiv.
From S2P Require Import Prelude StarkLib Types Text Derivation.

#[local] Open Scope string_scope.
#[local] Open Scope list_scope.
#[local] Open Scope Z_scope.

Class Ripemd : Type := { ripemd160 : list Z -> list Z }.

Definition QSB_SECRET_LEN : nat := 20.
Definition QSB_SECRETS_PER_ROUND : nat := 150.
Definition QSB_ROUND0_REVEALS : nat := 8.
Definition QSB_ROUND1_REVEALS : nat := 7.
Definition QSB_MAX_TRANSACTION_SIZE : Z := 50000.
Definition REVEAL_TAG : list Z := string_bytes "QSB-HORS-v1/reveal".
Definition NET_TEST : Z := 1.
Definition MAX_VAULT_INDEX : Z := 0x7fffffff.
Definition PROFILE : list Z := string_bytes "QSB-HORS-v1".
Definition SLIP21_LABEL : list Z := string_bytes "QSB-HORS".
Definition ROOT_TAG : list Z := string_bytes "QSB-HORS-v1/root".

(** ** Transactions (transaction.rs) *)
Definition MAX_MONEY : Z := 21000000 * 100000000.
Definition MAX_STANDARD_TX_WEIGHT : Z := 400000.
Definition WITNESS_SCALE_FACTOR : Z := 4.
Definition MAX_SCRIPT_SIZE : Z := 10000.
Definition SCRIPT_SIG_LENGTH_GROWTH : Z := 3 - 1.
Definition MAX_P2WPKH_WITNESS : Z := 1 + (1 + 73) + (1 + 33).
Definition SEGWIT_MARKER_AND_FLAG : Z := 2.
Definition MAX_UNLOCKING_WEIGHT_PER_INPUT : Z :=
  WITNESS_SCALE_FACTOR * (MAX_SCRIPT_SIZE + SCRIPT_SIG_LENGTH_GROWTH) + MAX_P2WPKH_WITNESS.

Definition tx_malformed (reason : string) : KmsError := DeserializationError ("QSB transaction: " +:+ reason).

(** [Reader::take], [Reader::array] and [Reader::compact_size]. *)
Definition rd_take (len : Z) (r : list Z) : Result (list Z * list Z) :=
  if len <=? Z.of_nat (length r) then Ok (take (Z.to_nat len) r, drop (Z.to_nat len) r)
  else Err (tx_malformed "truncated {field} at byte {}").

Definition rd_array (n : Z) (r : list Z) : Result (list Z * list Z) :=
  '(taken, r) ← rd_take n r;
  if Z.of_nat (length taken) =? n then Ok (taken, r) else Panic.

Definition le_value (bytes : list Z) : Z := be_value (rev bytes).

(** The arms of [compact_size] with a value of [n] bytes, which is at least [minimum]. *)
Definition compact_wide (n minimum : Z) (r : list Z) : Result (Z * list Z) :=
  '(bytes, r) ← rd_array n r;
  _ ← reject_if (le_value bytes <? minimum) (tx_malformed "non-canonical {field} encoding at byte {start}");
  Ok (le_value bytes, r).

Definition compact_size (r : list Z) : Result (Z * list Z) :=
  '(first, r) ← rd_array 1 r;
  match first with
  | small :: _ =>
      if small =? 0xfd then compact_wide 2 0xfd r
      else if small =? 0xfe then compact_wide 4 0x10000 r
      else if small =? 0xff then compact_wide 8 0x100000000 r
      else Ok (small, r)
  | [] => Panic
  end.

Definition is_null_outpoint (outpoint : list Z) : bool :=
  bool_decide (take 32 outpoint = replicate 32 0) && bool_decide (drop 32 outpoint = replicate 4 0xff).

(** The loop of [inputs] with [n] inputs to go. *)
Fixpoint inputs_loop (fuel : nat) (n : Z) (outpoints : list (list Z)) (r : list Z) : Result (list Z) :=
  if n <=? 0 then Ok r
  else
    match fuel with
    | O => Panic
    | S fuel =>
        '(outpoint, r) ← rd_array 36 r;
        _ ← reject_if (is_null_outpoint outpoint) (tx_malformed "input {input} spends the null outpoint");
        _ ← reject_if (bool_decide (outpoint ∈ outpoints)) (tx_malformed "input {input} repeats an outpoint");
        '(script_len, r) ← compact_size r;
        _ ← reject_if (negb (script_len =? 0))
              (tx_malformed "input {input} has a non-empty scriptSig; T requires every scriptSig empty");
        '(_, r) ← rd_take 4 r;
        inputs_loop fuel (n - 1) (outpoint :: outpoints) r
    end.

Definition inputs (fuel : nat) (r : list Z) : Result (Z * list Z) :=
  '(count, r) ← compact_size r;
  r ← inputs_loop fuel count [] r;
  Ok (count, r).

(** The loop of [outputs] with [n] outputs to go. *)
Fixpoint outputs_loop (fuel : nat) (n total : Z) (r : list Z) : Result (list Z) :=
  if n <=? 0 then Ok r
  else
    match fuel with
    | O => Panic
    | S fuel =>
        '(bytes, r) ← rd_array 8 r;
        let value := le_value bytes in
        _ ← reject_if (MAX_MONEY <? value) (tx_malformed "output {output} value exceeds MAX_MONEY");
        total ← (if total + value <=? u64_MAX then Ok (total + value) else Panic);
        _ ← reject_if (MAX_MONEY <? total) (tx_malformed "output values total more than MAX_MONEY");
        '(script_len, r) ← compact_size r;
        '(_, r) ← rd_take script_len r;
        outputs_loop fuel (n - 1) total r
    end.

Definition outputs (fuel : nat) (r : list Z) : Result (list Z) :=
  '(count, r) ← compact_size r;
  _ ← reject_if (count =? 0) (tx_malformed "no outputs");
  outputs_loop fuel count 0 r.

(** [usize::try_from] and the checked operations, at the width of [usize]. *)
Definition checked_usize (usize_MAX z : Z) : option Z := if z <=? usize_MAX then Some z else None.

Definition unlocking_budget (usize_MAX len input_count : Z) : Result unit :=
  let worst :=
    count ← checked_usize usize_MAX input_count;
    unlocking ← checked_usize usize_MAX (count * MAX_UNLOCKING_WEIGHT_PER_INPUT);
    unlocking ← checked_usize usize_MAX (unlocking + SEGWIT_MARKER_AND_FLAG);
    checked_usize usize_MAX (unlocking + WITNESS_SCALE_FACTOR * len) in
  let no_room := tx_malformed "T leaves no room for its inputs' unlocking data" in
  match worst with
  | Some weight => if weight <=? MAX_STANDARD_TX_WEIGHT then Ok tt else Err no_room
  | None => Err no_room
  end.

(** [transaction::validate]. *)
Definition validate_tx (usize_MAX : Z) (bytes : list Z) : Result unit :=
  let len := Z.of_nat (length bytes) in
  _ ← reject_if (QSB_MAX_TRANSACTION_SIZE <? len) (tx_malformed "{} bytes exceeds the {MAX_TRANSACTION_SIZE}-byte limit");
  let fuel := S (length bytes) in
  '(_, r) ← rd_take 4 bytes;
  _ ← reject_if (bool_decide (head r = Some 0x00))
        (tx_malformed "segwit marker or empty input list; T must be legacy-serialized with at least one input");
  '(input_count, r) ← inputs fuel r;
  r ← outputs fuel r;
  '(_, r) ← rd_take 4 r;
  _ ← reject_if (negb (Nat.eqb (length r) 0)) (tx_malformed "{} trailing bytes after locktime");
  unlocking_budget usize_MAX len input_count.

(** ** Vaults and requests (qsb_hors.rs) *)
Definition invalid_parameter (message : string) : KmsError := InvalidDerivationPath message.

Record QsbVault := mk_QsbVault { vault_net : Z; vault_index : Z }.

Definition QsbVault_new (net index : Z) : Result QsbVault :=
  _ ← reject_if (NET_TEST <? net) (invalid_parameter "QSB namespace 0x{net:02x} must be 0x00 (mainnet) or 0x01 (test)");
  _ ← reject_if (MAX_VAULT_INDEX <? index) (invalid_parameter "QSB vault index {index} must be below 2^31");
  Ok (mk_QsbVault net index).

Record QsbRevealIndices := mk_QsbRevealIndices { reveal_round0 : list Z; reveal_round1 : list Z }.

(** The loop of [reveal_round]; [before] is [indices[..position]]. *)
Fixpoint reveal_loop (before indices : list Z) : Result unit :=
  match indices with
  | [] => Ok tt
  | index :: rest =>
      _ ← reject_if (Z.of_nat QSB_SECRETS_PER_ROUND <=? index)
            (invalid_parameter "QSB round {round} index {index} is outside [0, 149]");
      _ ← reject_if (bool_decide (index ∈ before)) (invalid_parameter "QSB round {round} repeats index {index}");
      reveal_loop (before ++ [index]) rest
  end.

Definition reveal_round (N : nat) (indices : list Z) : Result (list Z) :=
  _ ← reject_if (negb (length indices =? N)%nat)
        (invalid_parameter "QSB round {round} needs exactly {N} indices, got {}");
  _ ← reveal_loop [] indices;
  Ok indices.

Definition QsbRevealIndices_new (round0 round1 : list Z) : Result QsbRevealIndices :=
  round0 ← reveal_round QSB_ROUND0_REVEALS round0;
  round1 ← reveal_round QSB_ROUND1_REVEALS round1;
  Ok (mk_QsbRevealIndices round0 round1).

(** [QsbRevealIndices::secrets]. *)
Definition reveal_secrets (indices : QsbRevealIndices) : list (Z * Z) :=
  map (pair 0) (reveal_round0 indices) ++ map (pair 1) (reveal_round1 indices).

Record QsbCommitments := mk_QsbCommitments {
  commitments_round0 : list (list Z); commitments_round1 : list (list Z); commitments_root : list Z }.
Record QsbRevealDigest := mk_QsbRevealDigest { rd_binding : list Z; rd_digest : list Z }.

(** ** The keyed secrets (key.rs) *)
Section qsb_key.
Context `{HashFns} `{Ripemd} `{Bip39}.

Definition slip21_child_key (seed label : list Z) : Result (list Z) :=
  master ← hmac Sha512 64 (string_bytes "Symmetric key seed") [seed];
  node ← hmac Sha512 64 (take 32 master) [[0x00]; label];
  Ok (take_output 32 (drop 32 node)).

Definition qsb_from_seed (seed : list Z) : Result (list Z) := slip21_child_key seed SLIP21_LABEL.

Definition qsb_from_mnemonic (mnemonic : list Z) (passphrase : option (list Z)) : Result (list Z) :=
  seed ← mnemonic_to_seed mnemonic (default [] passphrase);
  qsb_from_seed seed.

Definition secret_message (vault : QsbVault) (round index : Z) : list Z :=
  PROFILE ++ [0x00] ++ [vault_net vault] ++ be_bytes 4 (vault_index vault) ++ [round] ++ be_bytes 2 index.

Definition qsb_secret (key : list Z) (vault : QsbVault) (round index : Z) : Result (list Z) :=
  mac ← hmac Sha256 32 key [secret_message vault round index];
  Ok (take_output QSB_SECRET_LEN mac).

Definition hash160 (data : list Z) : list Z := ripemd160 (sha256 data).

Definition round_commitments (key : list Z) (vault : QsbVault) (round : Z) : Result (list (list Z)) :=
  collect (map (fun index => secret ← qsb_secret key vault round index; Ok (hash160 secret))
             (seqZ 0 (Z.of_nat QSB_SECRETS_PER_ROUND))).

Definition qsb_commitments (key : list Z) (vault : QsbVault) : Result QsbCommitments :=
  round0 ← round_commitments key vault 0;
  round1 ← round_commitments key vault 1;
  Ok (mk_QsbCommitments round0 round1 (sha256 (fold_left (fun state commitment => state ++ commitment) (round0 ++ round1) ROOT_TAG))).

Definition qsb_preimages (key : list Z) (vault : QsbVault) (indices : QsbRevealIndices) : Result (list (list Z)) :=
  collect (map (fun '(round, index) => qsb_secret key vault round index) (reveal_secrets indices)).

Definition derive_qsb_commitments (mnemonic : list Z) (vault : QsbVault) (passphrase : option (list Z)) : Result QsbCommitments :=
  key ← qsb_from_mnemonic mnemonic passphrase;
  qsb_commitments key vault.

Definition reveal_qsb_preimages (mnemonic : list Z) (vault : QsbVault) (indices : QsbRevealIndices)
    (passphrase : option (list Z)) : Result (list (list Z)) :=
  key ← qsb_from_mnemonic mnemonic passphrase;
  qsb_preimages key vault indices.

(** The digest's input is written index by index, then the binding. *)
Definition reveal_input (indices : QsbRevealIndices) (binding : list Z) : list Z :=
  fold_left (fun state '(_, index) => state ++ be_bytes 2 index) (reveal_secrets indices) REVEAL_TAG ++ binding.
Definition reveal_digest (indices : QsbRevealIndices) (binding : list Z) : list Z := sha256 (reveal_input indices binding).

Definition qsb_reveal_digest (usize_MAX : Z) (transaction : list Z) (indices : QsbRevealIndices) : Result QsbRevealDigest :=
  _ ← validate_tx usize_MAX transaction;
  let binding := sha256 transaction in
  Ok (mk_QsbRevealDigest binding (reveal_digest indices binding)).
End qsb_key.

(** ** The transactions that are accepted *)
Definition le_bytes (n : nat) (z : Z) : list Z := rev (be_bytes n z).

(** The canonical encoding of a count or length. *)
Definition compact_bytes (n : Z) : list Z :=
  if n <? 0xfd then [n]
  else if n <? 0x10000 then 0xfd :: le_bytes 2 n
  else if n <? 0x100000000 then 0xfe :: le_bytes 4 n
  else 0xff :: le_bytes 8 n.

Record TxIn := { in_outpoint : list Z; in_sequence : list Z }.
Record TxOut := { out_value : Z; out_script : list Z }.
Record LegacyTx := { tx_version : list Z; tx_ins : list TxIn; tx_outs : list TxOut; tx_locktime : list Z }.

Definition zlength {A} (l : list A) : Z := Z.of_nat (length l).

Definition in_bytes (i : TxIn) : list Z := in_outpoint i ++ [0] ++ in_sequence i.
Definition out_bytes (o : TxOut) : list Z :=
  le_bytes 8 (out_value o) ++ compact_bytes (zlength (out_script o)) ++ out_script o.

(** The legacy serialisation with empty scriptSigs. *)
Definition tx_bytes (t : LegacyTx) : list Z :=
  tx_version t
  ++ compact_bytes (zlength (tx_ins t)) ++ concat (map in_bytes (tx_ins t))
  ++ compact_bytes (zlength (tx_outs t)) ++ concat (map out_bytes (tx_outs t))
  ++ tx_locktime t.

Definition in_ok (i : TxIn) : Prop :=
  length (in_outpoint i) = 36%nat /\ length (in_sequence i) = 4%nat /\ is_null_outpoint (in_outpoint i) = false.
Definition out_ok (o : TxOut) : Prop := 0 <= out_value o /\ zlength (out_script o) <= u64_MAX.
Definition out_total (os : list TxOut) : Z := fold_right (fun o n => out_value o + n) 0 os.

(** Bitcoin's context-free rules, the size limit and the budget for unlocking data. *)
Definition tx_ok (t : LegacyTx) : Prop :=
  length (tx_version t) = 4%nat /\ length (tx_locktime t) = 4%nat
  /\ tx_ins t <> [] /\ Forall in_ok (tx_ins t) /\ NoDup (map in_outpoint (tx_ins t))
  /\ tx_outs t <> [] /\ Forall out_ok (tx_outs t) /\ out_total (tx_outs t) <= MAX_MONEY
  /\ zlength (tx_bytes t) <= QSB_MAX_TRANSACTION_SIZE
  /\ 4 * zlength (tx_bytes t) + 2 + zlength (tx_ins t) * 40117 <= 400000.

(** ** Reading what was written *)

Lemma length_le_bytes n z : length (le_bytes n z) = n.
Proof. unfold le_bytes. by rewrite length_rev, length_be_bytes. Qed.

Lemma le_value_le_bytes n z : 0 <= z < 256 ^ Z.of_nat n -> le_value (le_bytes n z) = z.
Proof. intros Hz. unfold le_value, le_bytes. rewrite rev_involutive, be_value_be_bytes. by apply Z.mod_small. Qed.

Lemma Forall_rev_bytes bs : Forall byte_ok bs -> Forall byte_ok (rev bs).
Proof. intros Hb. apply List.Forall_forall. intros b Hin. apply in_rev in Hin. by eapply List.Forall_forall in Hb. Qed.

Lemma le_bytes_le_value bs : Forall byte_ok bs -> le_bytes (length bs) (le_value bs) = bs.
Proof.
  intros Hb. unfold le_bytes, le_value. rewrite <- (length_rev bs), be_bytes_be_value by by apply Forall_rev_bytes.
  apply rev_involutive.
Qed.

Lemma le_value_bound bs : Forall byte_ok bs -> 0 <= le_value bs < 256 ^ Z.of_nat (length bs).
Proof. intros Hb. rewrite <- (length_rev bs). by apply be_value_bound, Forall_rev_bytes. Qed.

Lemma rd_take_inv len r a r' : 0 <= len -> rd_take len r = Ok (a, r') -> r = a ++ r' /\ zlength a = len.
Proof.
  intros Hlen. unfold rd_take, zlength. destruct (Z.leb_spec len (Z.of_nat (length r))); [|done].
  intros [= <- <-]. rewrite take_drop, length_take. split; [done|lia].
Qed.

Lemma rd_take_app len a r : zlength a = len -> rd_take len (a ++ r) = Ok (a, r).
Proof.
  unfold rd_take, zlength. intros <-. rewrite length_app, (proj2 (Z.leb_le _ _)) by lia.
  by rewrite Nat2Z.id, take_app_length, drop_app_length.
Qed.

Lemma rd_take_total len r : rd_take len r <> Panic.
Proof. unfold rd_take. by case_match. Qed.

Lemma rd_array_take n r : 0 <= n -> rd_array n r = rd_take n r.
Proof.
  intros Hn. unfold rd_array, rd_take. destruct (Z.leb_spec n (Z.of_nat (length r))); [|done].
  cbn [mbind outcome_bind]. rewrite length_take, (proj2 (Z.eqb_eq _ _)) by lia. done.
Qed.

Lemma rd_byte b r : rd_array 1 (b :: r) = Ok ([b], r).
Proof. rewrite rd_array_take by done. by apply (rd_take_app 1 [b] r). Qed.

Lemma compact_wide_inv (n : nat) minimum r v r' :
  compact_wide (Z.of_nat n) minimum r = Ok (v, r') -> Forall byte_ok r ->
  r = le_bytes n v ++ r' /\ minimum <= v < 256 ^ Z.of_nat n.
Proof.
  unfold compact_wide. rewrite rd_array_take by lia. intros Hok Hb. destruct (rd_take _ _) as [[bytes r1]| |] eqn:Ht; [|done..].
  cbn [mbind outcome_bind] in Hok. destruct (Z.ltb_spec (le_value bytes) minimum); [done|]. injection Hok as <- <-.
  apply rd_take_inv in Ht as [-> Hlen]; [|lia]. apply Forall_app in Hb as [Hb _].
  assert (length bytes = n) as <- by (unfold zlength in Hlen; lia).
  rewrite le_bytes_le_value by done. split; [done|]. pose proof (le_value_bound bytes Hb). lia.
Qed.

Lemma compact_wide_app (n : nat) minimum v r :
  0 <= v < 256 ^ Z.of_nat n -> minimum <= v -> compact_wide (Z.of_nat n) minimum (le_bytes n v ++ r) = Ok (v, r).
Proof.
  intros Hv Hm. unfold compact_wide. rewrite rd_array_take, rd_take_app by (lia || unfold zlength; by rewrite length_le_bytes).
  cbn [mbind outcome_bind]. rewrite le_value_le_bytes, (proj2 (Z.ltb_ge _ _)) by done. done.
Qed.

Lemma compact_wide_total n minimum r : 0 <= n -> compact_wide n minimum r <> Panic.
Proof.
  intros Hn. unfold compact_wide. rewrite rd_array_take by done. pose proof (rd_take_total n r).
  destruct (rd_take n r) as [[??]| |]; [|done..].
  cbn [mbind outcome_bind]. by destruct (_ <? _).
Qed.

Lemma compact_size_inv r n r' :
  compact_size r = Ok (n, r') -> Forall byte_ok r -> r = compact_bytes n ++ r' /\ 0 <= n <= u64_MAX.
Proof.
  unfold compact_size. rewrite rd_array_take by done. destruct (rd_take 1 r) as [[first r1]| |] eqn:Ht; [|done..].
  apply rd_take_inv in Ht as [-> Hlen]; [|done]. destruct first as [|b [|? ?]]; unfold zlength in Hlen; cbn in Hlen; try lia.
  cbn [mbind outcome_bind app]. intros Hok Hb. apply Forall_cons in Hb as [Hb Hr]. unfold compact_bytes, u64_MAX.
  destruct (Z.eqb_spec b 253) as [->|]; [|destruct (Z.eqb_spec b 254) as [->|]; [|destruct (Z.eqb_spec b 255) as [->|]]].
  1: apply (compact_wide_inv 2) in Hok as [-> Hv]; [|done]; change (256 ^ Z.of_nat 2) with 0x10000 in Hv.
  2: apply (compact_wide_inv 4) in Hok as [-> Hv]; [|done]; change (256 ^ Z.of_nat 4) with 0x100000000 in Hv.
  3: apply (compact_wide_inv 8) in Hok as [-> Hv]; [|done]; change (256 ^ Z.of_nat 8) with (2 ^ 64) in Hv.
  4: injection Hok as <- <-; unfold byte_ok in Hb; rewrite (proj2 (Z.ltb_lt _ _)) by lia; split; [done|lia].
  all: split; [|lia]; repeat match goal with |- context [?v <? ?m] => destruct (Z.ltb_spec v m); try lia end; done.
Qed.

Lemma compact_size_app n r : 0 <= n <= u64_MAX -> compact_size (compact_bytes n ++ r) = Ok (n, r).
Proof.
  unfold u64_MAX. intros Hn. unfold compact_size, compact_bytes.
  destruct (Z.ltb_spec n 0xfd); [|destruct (Z.ltb_spec n 0x10000); [|destruct (Z.ltb_spec n 0x100000000)]];
    cbn [app]; rewrite rd_byte; cbn [mbind outcome_bind].
  - by rewrite !(proj2 (Z.eqb_neq _ _)) by lia.
  - apply (compact_wide_app 2); cbn; lia.
  - apply (compact_wide_app 4); cbn; lia.
  - apply (compact_wide_app 8); cbn; lia.
Qed.

Lemma compact_size_total r : compact_size r <> Panic.
Proof.
  unfold compact_size. rewrite rd_array_take by done. destruct (rd_take 1 r) as [[first r1]| |] eqn:Ht; [|done|].
  - apply rd_take_inv in Ht as [_ Hlen]; [|done]. destruct first as [|b ?]; [done|].
    cbn [mbind outcome_bind]. repeat (destruct (b =? _); [by apply compact_wide_total|]). done.
  - by apply rd_take_total in Ht.
Qed.

Lemma rd_take_shrinks len r a r' : rd_take len r = Ok (a, r') -> (length r' + Z.to_nat len <= length r)%nat.
Proof. unfold rd_take. destruct (Z.leb_spec len (Z.of_nat (length r))); [|done]. intros [= _ <-]. rewrite length_drop. lia. Qed.

Lemma compact_wide_shrinks n minimum r v r' : 0 <= n -> compact_wide n minimum r = Ok (v, r') -> (length r' <= length r)%nat.
Proof.
  intros Hn. unfold compact_wide. rewrite rd_array_take by done. intros Hok. inv_ok. destruct a as [bytes r1]. inv_ok.
  apply rd_take_shrinks in H. lia.
Qed.

Lemma compact_size_shrinks r n r' : compact_size r = Ok (n, r') -> (length r' < length r)%nat.
Proof.
  unfold compact_size. rewrite rd_array_take by done. intros Hok. inv_ok. destruct a as [first r1].
  apply rd_take_shrinks in H. cbn in H. destruct first as [|b ?]; [done|].
  repeat (destruct (b =? _); [apply compact_wide_shrinks in Hok; lia|]). inv_ok. lia.
Qed.

(** ** The loops *)
Definition in_fresh (outpoints : list (list Z)) (ins : list TxIn) : Prop :=
  Forall in_ok ins /\ NoDup (map in_outpoint ins) /\ Forall (fun i => (in_outpoint i ∉ outpoints)) ins.

Lemma in_fresh_cons outpoints i ins :
  in_fresh outpoints (i :: ins) <->
  in_ok i /\ (in_outpoint i ∉ outpoints) /\ in_fresh (in_outpoint i :: outpoints) ins.
Proof.
  unfold in_fresh. cbn [map]. rewrite !Forall_cons, NoDup_cons. setoid_rewrite not_elem_of_cons.
  rewrite (Forall_and (fun j => in_outpoint j <> in_outpoint i)).
  assert (Forall (fun j => in_outpoint j <> in_outpoint i) ins <-> in_outpoint i ∉ map in_outpoint ins) as ->; [|tauto].
  rewrite Forall_forall, list_elem_of_fmap. split.
  - intros Hne (j & Heq & Hj). by eapply Hne.
  - intros Hni j Hj Heq. apply Hni. eauto.
Qed.

Lemma inputs_loop_inv fuel n outpoints r r' :
  0 <= n -> inputs_loop fuel n outpoints r = Ok r' -> Forall byte_ok r ->
  exists ins, zlength ins = n /\ in_fresh outpoints ins /\ r = concat (map in_bytes ins) ++ r'.
Proof.
  revert n outpoints r; induction fuel as [|fuel IH]; intros n outpoints r Hn; cbn [inputs_loop];
    (destruct (Z.leb_spec n 0); [intros [= <-] _; exists []; split; [unfold zlength; cbn; lia|by repeat split; constructor]|]); [done|].
  intros Hok Hb. rewrite rd_array_take in Hok by done. inv_ok. destruct a as [op r1]. inv_ok. destruct a1 as [slen r2]. inv_ok.
  destruct a2 as [seq r3]. apply rd_take_inv in H0 as [-> Hop]; [|done]. apply Forall_app in Hb as [_ Hb].
  apply compact_size_inv in H3 as [-> _]; [|done]. apply Forall_app in Hb as [_ Hb].
  apply negb_false_iff, Z.eqb_eq in H4 as ->. apply rd_take_inv in H5 as [-> Hseq]; [|done]. apply Forall_app in Hb as [_ Hb].
  destruct (IH (n - 1) (op :: outpoints) r3) as (ins & Hlen & Hins & ->); [lia|done|done|].
  exists ({| in_outpoint := op; in_sequence := seq |} :: ins). split; [unfold zlength in *; cbn; lia|]. split.
  - apply in_fresh_cons. cbn. unfold zlength in *. split; [split; [cbn; lia|split; [cbn; lia|done]]|].
    split; [by apply bool_decide_eq_false in H2|done].
  - cbn [map concat]. unfold in_bytes. cbn. by rewrite <- !app_assoc.
Qed.

Lemma inputs_loop_app fuel outpoints ins r :
  (length ins <= fuel)%nat -> in_fresh outpoints ins ->
  inputs_loop fuel (zlength ins) outpoints (concat (map in_bytes ins) ++ r) = Ok r.
Proof.
  revert outpoints fuel; induction ins as [|i ins IH]; intros outpoints fuel Hfuel Hins.
  { by destruct fuel. }
  destruct fuel as [|fuel]; [cbn in Hfuel; lia|]. apply in_fresh_cons in Hins as ((Hop & Hseq & Hnull) & Hnew & Hins).
  cbn [inputs_loop map concat]. rewrite (proj2 (Z.leb_gt _ _)) by (unfold zlength; cbn; lia).
  unfold in_bytes at 1. rewrite <- !app_assoc, rd_array_take, rd_take_app by (done || unfold zlength; by rewrite Hop).
  cbn [mbind outcome_bind]. rewrite Hnull, bool_decide_eq_false_2 by done. cbn [reject_if mbind outcome_bind].
  change [0] with (compact_bytes 0). rewrite compact_size_app by done. cbn [mbind outcome_bind Z.eqb negb reject_if].
  rewrite rd_take_app by (unfold zlength; by rewrite Hseq). cbn [mbind outcome_bind].
  replace (zlength (i :: ins) - 1) with (zlength ins) by (unfold zlength; cbn; lia).
  apply IH; [cbn in Hfuel; lia|done].
Qed.

Lemma inputs_loop_total fuel n outpoints r : (length r < fuel)%nat -> inputs_loop fuel n outpoints r <> Panic.
Proof.
  revert n outpoints r; induction fuel as [|fuel IH]; intros n outpoints r Hfuel; [lia|]. cbn [inputs_loop].
  destruct (n <=? 0); [done|]. rewrite rd_array_take by done.
  destruct (rd_take 36 r) as [[op r1]| |] eqn:Hop; [|done|by apply rd_take_total in Hop]. cbn [mbind outcome_bind].
  destruct (is_null_outpoint op); [done|]. case_bool_decide; [done|]. cbn [reject_if mbind outcome_bind].
  destruct (compact_size r1) as [[slen r2]| |] eqn:Hc; [|done|by apply compact_size_total in Hc]. cbn [mbind outcome_bind].
  destruct (slen =? 0); [|done]. cbn [negb reject_if mbind outcome_bind].
  destruct (rd_take 4 r2) as [[seq r3]| |] eqn:Hs; [|done|by apply rd_take_total in Hs]. cbn [mbind outcome_bind].
  apply IH. pose proof (rd_take_shrinks _ _ _ _ Hop). pose proof (compact_size_shrinks _ _ _ Hc).
  pose proof (rd_take_shrinks _ _ _ _ Hs). lia.
Qed.

Lemma inputs_loop_shrinks fuel n outpoints r r' : inputs_loop fuel n outpoints r = Ok r' -> (length r' <= length r)%nat.
Proof.
  revert n outpoints r; induction fuel as [|fuel IH]; intros n outpoints r; cbn [inputs_loop];
    (destruct (n <=? 0); [by intros [= <-]|]); [done|].
  rewrite rd_array_take by done. intros Hok. inv_ok. destruct a as [op r1]. inv_ok. destruct a1 as [slen r2]. inv_ok.
  destruct a2 as [seq r3]. apply IH in Hok. apply rd_take_shrinks in H, H4. apply compact_size_shrinks in H2. lia.
Qed.

Lemma outputs_loop_inv fuel n total r r' :
  0 <= n -> 0 <= total -> outputs_loop fuel n total r = Ok r' -> Forall byte_ok r ->
  exists outs, zlength outs = n /\ Forall out_ok outs /\ (outs <> [] -> total + out_total outs <= MAX_MONEY)
    /\ r = concat (map out_bytes outs) ++ r'.
Proof.
  revert n total r; induction fuel as [|fuel IH]; intros n total r Hn Ht; cbn [outputs_loop];
    (destruct (Z.leb_spec n 0);
      [intros [= <-] _; exists []; split; [unfold zlength; cbn; lia|split; [constructor|by split]]|]); [done|].
  intros Hok Hb. rewrite rd_array_take in Hok by done. inv_ok. destruct a as [vb r1]. inv_ok.
  destruct (Z.leb_spec (total + le_value vb) u64_MAX); [|done]. inv_ok. match goal with H : compact_size _ = Ok ?p |- _ => destruct p as [slen r2] end. inv_ok. match goal with H : rd_take slen _ = Ok ?p |- _ => destruct p as [script r3] end.
  apply rd_take_inv in H0 as [-> Hvb]; [|done]. apply Forall_app in Hb as [Hvok Hb].
  apply compact_size_inv in H4 as [-> Hslen]; [|done]. apply Forall_app in Hb as [_ Hb].
  apply rd_take_inv in H2 as [-> Hscript]; [|lia]. apply Forall_app in Hb as [_ Hb].
  pose proof (le_value_bound vb Hvok). apply Z.ltb_ge in H1, H3.
  destruct (IH (n - 1) (total + le_value vb) r3) as (outs & Hlen & Hout & Htot & ->); [lia..|done|done|].
  exists ({| out_value := le_value vb; out_script := script |} :: outs). split; [unfold zlength in *; cbn; lia|].
  split; [constructor; [split; cbn; lia|done]|]. split.
  - intros _. cbn [out_total fold_right]. fold (out_total outs). cbn [out_value].
    destruct outs; [cbn; lia|]. specialize (Htot ltac:(done)). lia.
  - cbn [map concat]. unfold out_bytes. cbn [out_value out_script]. rewrite Hscript.
    replace 8%nat with (length vb) by (unfold zlength in Hvb; lia). rewrite le_bytes_le_value by done. by rewrite <- !app_assoc.
Qed.

Lemma out_total_nonneg outs : Forall out_ok outs -> 0 <= out_total outs.
Proof. induction 1 as [|o outs [Ho _] _ IH]; [done|]. cbn [out_total fold_right]. fold (out_total outs). lia. Qed.

Lemma outputs_loop_app fuel total outs r :
  (length outs <= fuel)%nat -> 0 <= total -> Forall out_ok outs -> total + out_total outs <= MAX_MONEY ->
  outputs_loop fuel (zlength outs) total (concat (map out_bytes outs) ++ r) = Ok r.
Proof.
  revert total fuel; induction outs as [|o outs IH]; intros total fuel Hfuel Ht Hout Htot.
  { by destruct fuel. }
  destruct fuel as [|fuel]; [cbn in Hfuel; lia|]. apply Forall_cons in Hout as [[Hv Hs] Hout].
  cbn [out_total fold_right] in Htot. fold (out_total outs) in Htot. pose proof (out_total_nonneg outs Hout).
  assert (MAX_MONEY < u64_MAX) as Hmm by done. unfold u64_MAX in Hmm.
  cbn [outputs_loop map concat]. rewrite (proj2 (Z.leb_gt _ _)) by (unfold zlength; cbn; lia).
  unfold out_bytes at 1. rewrite <- !app_assoc, rd_array_take, rd_take_app by (done || unfold zlength; by rewrite length_le_bytes).
  cbn [mbind outcome_bind]. rewrite le_value_le_bytes by (change (256 ^ Z.of_nat 8) with (2 ^ 64); lia).
  rewrite (proj2 (Z.ltb_ge MAX_MONEY _)) by lia. cbn [reject_if mbind outcome_bind].
  rewrite (proj2 (Z.leb_le _ _)) by (unfold u64_MAX; lia). cbn [mbind outcome_bind].
  rewrite (proj2 (Z.ltb_ge MAX_MONEY _)) by lia. cbn [reject_if mbind outcome_bind].
  rewrite compact_size_app by (unfold zlength in *; lia). cbn [mbind outcome_bind].
  rewrite rd_take_app by done. cbn [mbind outcome_bind].
  replace (zlength (o :: outs) - 1) with (zlength outs) by (unfold zlength; cbn; lia).
  apply IH; [cbn in Hfuel; lia|lia|done|lia].
Qed.

Lemma outputs_loop_total fuel n total r :
  (length r < fuel)%nat -> total <= MAX_MONEY -> outputs_loop fuel n total r <> Panic.
Proof.
  revert n total r; induction fuel as [|fuel IH]; intros n total r Hfuel Ht; [lia|]. cbn [outputs_loop].
  destruct (n <=? 0); [done|]. rewrite rd_array_take by done.
  destruct (rd_take 8 r) as [[vb r1]| |] eqn:Hvb; [|done|by apply rd_take_total in Hvb]. cbn [mbind outcome_bind].
  destruct (Z.ltb_spec MAX_MONEY (le_value vb)); [done|]. cbn [reject_if mbind outcome_bind].
  assert (2 * MAX_MONEY < u64_MAX) as Hmm by done. rewrite (proj2 (Z.leb_le _ _)) by lia. cbn [mbind outcome_bind].
  destruct (Z.ltb_spec MAX_MONEY (total + le_value vb)); [done|]. cbn [reject_if mbind outcome_bind].
  destruct (compact_size r1) as [[slen r2]| |] eqn:Hc; [|done|by apply compact_size_total in Hc]. cbn [mbind outcome_bind].
  destruct (rd_take slen r2) as [[script r3]| |] eqn:Hs; [|done|by apply rd_take_total in Hs]. cbn [mbind outcome_bind].
  apply rd_take_shrinks in Hvb, Hs. apply compact_size_shrinks in Hc. apply IH; lia.
Qed.

(** ** The validator *)
Lemma compact_bytes_head n r : 0 <= n -> head (compact_bytes n ++ r) = Some 0 <-> n = 0.
Proof.
  intros Hn. unfold compact_bytes.
  repeat match goal with |- context [?v <? ?m] => destruct (Z.ltb_spec v m) end; cbn; (split; [intros [=]; lia|]); try lia.
  by intros ->.
Qed.

Lemma unlocking_budget_spec usize_MAX len count :
  2 ^ 32 - 1 <= usize_MAX -> 0 <= len -> 0 <= count ->
  unlocking_budget usize_MAX len count <> Panic
  /\ (unlocking_budget usize_MAX len count = Ok tt <-> 4 * len + 2 + count * 40117 <= 400000).
Proof.
  intros Hu Hlen Hcount. unfold unlocking_budget, checked_usize.
  change MAX_UNLOCKING_WEIGHT_PER_INPUT with 40117. change SEGWIT_MARKER_AND_FLAG with 2.
  change WITNESS_SCALE_FACTOR with 4. change MAX_STANDARD_TX_WEIGHT with 400000.
  repeat (match goal with |- context [?v <=? ?m] => destruct (Z.leb_spec v m) end; cbn [mbind option_bind]);
    (split; [done|]); (split; [intros ?; try done; lia|intros ?; first [done|lia]]).
Qed.

Lemma validate_tx_total usize_MAX bytes : validate_tx usize_MAX bytes <> Panic.
Proof.
  unfold validate_tx. destruct (_ <? Z.of_nat (length bytes)); [done|]. cbn [reject_if mbind outcome_bind].
  destruct (rd_take 4 bytes) as [[v r]| |] eqn:Hv; [|done|by apply rd_take_total in Hv]. cbn [mbind outcome_bind].
  case_bool_decide; [done|]. cbn [reject_if mbind outcome_bind]. unfold inputs.
  destruct (compact_size r) as [[count r1]| |] eqn:Hc; [|done|by apply compact_size_total in Hc]. cbn [mbind outcome_bind].
  apply rd_take_shrinks in Hv. apply compact_size_shrinks in Hc.
  destruct (inputs_loop _ count [] r1) as [r2| |] eqn:Hi; [|done|by apply inputs_loop_total in Hi; [|lia]].
  cbn [mbind outcome_bind]. apply inputs_loop_shrinks in Hi. unfold outputs.
  destruct (compact_size r2) as [[ocount r3]| |] eqn:Hc2; [|done|by apply compact_size_total in Hc2]. cbn [mbind outcome_bind].
  destruct (ocount =? 0); [done|]. cbn [reject_if mbind outcome_bind]. apply compact_size_shrinks in Hc2.
  destruct (outputs_loop _ ocount 0 r3) as [r4| |] eqn:Ho; [|done|by apply outputs_loop_total in Ho; [|lia|done]].
  cbn [mbind outcome_bind]. destruct (rd_take 4 r4) as [[l r5]| |] eqn:Hl; [|done|by apply rd_take_total in Hl].
  cbn [mbind outcome_bind]. destruct (length r5 =? 0)%nat; [|done]. cbn [negb reject_if mbind outcome_bind].
  unfold unlocking_budget. by repeat case_match.
Qed.

Lemma length_concat_map {A} (f : A -> list Z) l : (forall a, f a <> []) -> (length l <= length (concat (map f l)))%nat.
Proof.
  intros Hf. induction l as [|a l IH]; [done|]. cbn [map concat length]. rewrite length_app.
  destruct (f a) eqn:Ha; [by apply Hf in Ha|]. cbn. lia.
Qed.

Lemma tx_counts_bounded t : zlength (tx_ins t) <= zlength (tx_bytes t) /\ zlength (tx_outs t) <= zlength (tx_bytes t).
Proof.
  assert (forall i, in_bytes i <> []) as Hi by (intros i Hi%(f_equal length); unfold in_bytes in Hi; rewrite !length_app in Hi; cbn in Hi; lia).
  assert (forall o, out_bytes o <> []) as Ho.
  { intros o Ho%(f_equal length). unfold out_bytes in Ho. rewrite !length_app, length_le_bytes in Ho. cbn in Ho. lia. }
  pose proof (length_concat_map in_bytes (tx_ins t) Hi). pose proof (length_concat_map out_bytes (tx_outs t) Ho).
  unfold zlength, tx_bytes. rewrite !length_app. lia.
Qed.

Lemma inputs_inv fuel r count r' :
  inputs fuel r = Ok (count, r') -> Forall byte_ok r ->
  exists ins, zlength ins = count /\ in_fresh [] ins /\ 0 <= count
    /\ r = compact_bytes count ++ concat (map in_bytes ins) ++ r'.
Proof.
  unfold inputs. destruct (compact_size r) as [[c r1]| |] eqn:Hc; [|done..]. cbn [mbind outcome_bind].
  destruct (inputs_loop _ _ _ _) as [r2| |] eqn:Hi; [|done..]. cbn [mbind outcome_bind]. intros [= <- <-] Hb.
  apply compact_size_inv in Hc as [-> Hn]; [|done]. apply Forall_app in Hb as [_ Hb].
  apply inputs_loop_inv in Hi as (ins & Hlen & Hins & ->); [|lia|done]. exists ins. repeat split; by try lia || apply Hins.
Qed.

Lemma outputs_inv fuel r r' :
  outputs fuel r = Ok r' -> Forall byte_ok r ->
  exists outs, outs <> [] /\ Forall out_ok outs /\ out_total outs <= MAX_MONEY
    /\ r = compact_bytes (zlength outs) ++ concat (map out_bytes outs) ++ r'.
Proof.
  unfold outputs. destruct (compact_size r) as [[c r1]| |] eqn:Hc; [|done..]. cbn [mbind outcome_bind].
  destruct (Z.eqb_spec c 0) as [|H]; [done|]. cbn [reject_if mbind outcome_bind]. intros Hok Hb. apply compact_size_inv in Hc as [-> Hn]; [|done]. apply Forall_app in Hb as [_ Hb].
  apply outputs_loop_inv in Hok as (outs & Hlen & Hout & Htot & ->); [|lia..|done]. exists outs. subst c.
  assert (outs <> []) as Hne by (intros ->; by apply H). eauto.
Qed.

(** Every transaction that is accepted is the serialisation of a valid one. *)
Lemma validate_tx_sound usize_MAX bytes :
  2 ^ 32 - 1 <= usize_MAX -> Forall byte_ok bytes -> validate_tx usize_MAX bytes = Ok tt ->
  exists t, tx_ok t /\ tx_bytes t = bytes.
Proof.
  intros Hu Hb. unfold validate_tx. set (len := Z.of_nat (length bytes)).
  destruct (Z.ltb_spec QSB_MAX_TRANSACTION_SIZE len) as [|Hsize]; [done|]. cbn [reject_if mbind outcome_bind].
  destruct (rd_take 4 bytes) as [[v r]| |] eqn:Hv; [|done..]. cbn [mbind outcome_bind].
  case_bool_decide as Hhead; [done|]. cbn [reject_if mbind outcome_bind].
  apply rd_take_inv in Hv as [Hbytes Hv]; [|done]. rewrite Hbytes in Hb. apply Forall_app in Hb as [_ Hb].
  destruct (inputs _ r) as [[count r1]| |] eqn:Hi; [|done..]. cbn [mbind outcome_bind].
  apply inputs_inv in Hi as (ins & Hn & (Hin & Hnd & _) & Hcount & Hr); [|done].
  rewrite Hr in Hb. do 2 apply Forall_app in Hb as [_ Hb].
  destruct (outputs _ r1) as [r2| |] eqn:Ho; [|done..]. cbn [mbind outcome_bind].
  apply outputs_inv in Ho as (outs & Hone & Hout & Htot & Hr1); [|done].
  destruct (rd_take 4 r2) as [[l r3]| |] eqn:Hl; [|done..]. cbn [mbind outcome_bind].
  apply rd_take_inv in Hl as [Hr2 Hl]; [|done]. destruct (Nat.eqb_spec (length r3) 0) as [Hr3|]; [|done].
  apply nil_length_inv in Hr3 as ->. cbn [negb reject_if mbind outcome_bind].
  intros Hbud%unlocking_budget_spec; [|done|lia|done].
  assert (ins <> []) as Hine by (intros ->; apply Hhead; rewrite Hr; by apply compact_bytes_head).
  exists {| tx_version := v; tx_ins := ins; tx_outs := outs; tx_locktime := l |}.
  assert (tx_bytes {| tx_version := v; tx_ins := ins; tx_outs := outs; tx_locktime := l |} = bytes) as Heq.
  { unfold tx_bytes. cbn [tx_version tx_ins tx_outs tx_locktime]. rewrite Hbytes, Hr, Hr1, Hr2, Hn, app_nil_r. done. }
  split; [|done]. unfold tx_ok. rewrite Heq. cbn [tx_version tx_ins tx_outs tx_locktime].
  unfold zlength in *. repeat split; try done; lia.
Qed.

(** Every valid one is accepted. *)
Lemma validate_tx_complete usize_MAX t :
  2 ^ 32 - 1 <= usize_MAX -> tx_ok t -> validate_tx usize_MAX (tx_bytes t) = Ok tt.
Proof.
  intros Hu (Hv & Hl & Hine & Hin & Hnd & Hone & Hout & Htot & Hsize & Hbud). unfold validate_tx.
  fold (zlength (tx_bytes t)). rewrite (proj2 (Z.ltb_ge _ _)) by done. cbn [reject_if mbind outcome_bind].
  set (fuel := S (length (tx_bytes t))). set (len := zlength (tx_bytes t)) in *.
  assert (Z.of_nat fuel = len + 1) as Hfuel by (subst fuel len; unfold zlength; lia).
  assert (zlength (tx_ins t) <= len /\ zlength (tx_outs t) <= len) as [Hni Hno] by apply tx_counts_bounded.
  unfold tx_bytes. rewrite rd_take_app by (unfold zlength; by rewrite Hv). cbn [mbind outcome_bind].
  rewrite bool_decide_eq_false_2.
  2: { rewrite compact_bytes_head by (unfold zlength; lia). destruct (tx_ins t); [done|unfold zlength; cbn; lia]. }
  cbn [reject_if mbind outcome_bind]. change QSB_MAX_TRANSACTION_SIZE with 50000 in Hsize.
  unfold inputs. rewrite compact_size_app by (unfold u64_MAX, zlength in *; lia). cbn [mbind outcome_bind].
  rewrite inputs_loop_app; [|unfold zlength in Hni; lia|].
  2: { repeat split; [done|done|]. apply Forall_forall. intros. apply not_elem_of_nil. }
  cbn [mbind outcome_bind]. unfold outputs. rewrite compact_size_app by (unfold u64_MAX, zlength in *; lia).
  cbn [mbind outcome_bind]. rewrite (proj2 (Z.eqb_neq _ _)) by (destruct (tx_outs t); [done|unfold zlength; cbn; lia]).
  cbn [reject_if mbind outcome_bind]. rewrite outputs_loop_app by (done || unfold zlength in Hno; lia).
  cbn [mbind outcome_bind]. rewrite <- (app_nil_r (tx_locktime t)), rd_take_app by (unfold zlength; by rewrite Hl).
  cbn [mbind outcome_bind length Nat.eqb negb reject_if]. apply unlocking_budget_spec; unfold zlength in *; lia.
Qed.

Lemma compact_bytes_inj n m r r' :
  0 <= n <= u64_MAX -> 0 <= m <= u64_MAX -> compact_bytes n ++ r = compact_bytes m ++ r' -> n = m /\ r = r'.
Proof. intros Hn Hm Heq. pose proof (compact_size_app n r Hn) as H1. rewrite Heq, compact_size_app in H1 by done. by injection H1. Qed.

Lemma ins_inj xs js r r' :
  length xs = length js -> Forall in_ok xs -> Forall in_ok js ->
  concat (map in_bytes xs) ++ r = concat (map in_bytes js) ++ r' -> xs = js /\ r = r'.
Proof.
  revert js; induction xs as [|[o s] xs IH]; intros [|[o' s'] js] Hlen Hi Hj; try done.
  apply Forall_cons in Hi as [(Ho & Hs & _) Hi]. apply Forall_cons in Hj as [(Ho' & Hs' & _) Hj]. cbn in *.
  unfold in_bytes. cbn [in_outpoint in_sequence]. rewrite <- !app_assoc. cbn [app].
  intros [-> [= Heq]]%app_inj_1; [|lia]. apply app_inj_1 in Heq as [-> Heq]; [|lia].
  apply IH in Heq as [-> ->]; [done|lia|done|done].
Qed.

Lemma le_bytes_inj n a b : 0 <= a < 256 ^ Z.of_nat n -> 0 <= b < 256 ^ Z.of_nat n -> le_bytes n a = le_bytes n b -> a = b.
Proof. intros Ha Hb Heq. by rewrite <- (le_value_le_bytes n a Ha), Heq, le_value_le_bytes. Qed.

Lemma outs_inj os ps r r' :
  length os = length ps -> Forall out_ok os -> Forall out_ok ps -> out_total os <= MAX_MONEY -> out_total ps <= MAX_MONEY ->
  concat (map out_bytes os) ++ r = concat (map out_bytes ps) ++ r' -> os = ps /\ r = r'.
Proof.
  revert ps; induction os as [|[v s] os IH]; intros [|[v' s'] ps] Hlen Ho Hp Ht Ht'; try done.
  apply Forall_cons in Ho as [(Hv & Hs) Ho]. apply Forall_cons in Hp as [(Hv' & Hs') Hp].
  pose proof (out_total_nonneg os Ho). pose proof (out_total_nonneg ps Hp).
  cbn in Hv, Hv', Hs, Hs'. cbn [out_total fold_right] in Ht, Ht'. fold (out_total os) in Ht. fold (out_total ps) in Ht'.
  cbn [out_value] in Ht, Ht'. assert (MAX_MONEY < 256 ^ Z.of_nat 8) as Hmm by done.
  cbn [map concat]. unfold out_bytes at 1 3. cbn [out_value out_script]. rewrite <- !app_assoc.
  intros [Hveq Heq]%app_inj_1; [|by rewrite !length_le_bytes]. apply le_bytes_inj in Hveq as ->; [|lia..].
  apply compact_bytes_inj in Heq as [Hn Heq]; [|unfold zlength in *; lia..].
  apply app_inj_1 in Heq as [-> Heq]; [|unfold zlength in Hn; lia].
  apply IH in Heq as [-> ->]; [done|cbn in Hlen; lia|done|done|lia|lia].
Qed.

Lemma tx_bytes_inj t t' : tx_ok t -> tx_ok t' -> tx_bytes t = tx_bytes t' -> t = t'.
Proof.
  intros (Hv & Hl & _ & Hin & _ & _ & Hout & Htot & Hsize & _) (Hv' & Hl' & _ & Hin' & _ & _ & Hout' & Htot' & Hsize' & _).
  pose proof (tx_counts_bounded t) as [Hci Hco]. pose proof (tx_counts_bounded t') as [Hci' Hco'].
  destruct t as [v ins outs l], t' as [v' ins' outs' l']. cbn [tx_version tx_ins tx_outs tx_locktime] in *.
  change QSB_MAX_TRANSACTION_SIZE with 50000 in *. intros Heq. unfold tx_bytes in Heq. cbn [tx_version tx_ins tx_outs tx_locktime] in Heq.
  apply app_inj_1 in Heq as [-> Heq]; [|lia]. unfold zlength in *.
  apply compact_bytes_inj in Heq as [Hn Heq]; [|unfold u64_MAX; lia..].
  apply ins_inj in Heq as [-> Heq]; [|lia|done|done]. apply compact_bytes_inj in Heq as [Hm Heq]; [|unfold u64_MAX; lia..].
  apply outs_inj in Heq as [-> Heq]; [|lia|done..]. by subst.
Qed.

(** C24: The strict parser of the transaction a disclosure is bound to never panics and accepts
    exactly the canonical legacy serialisations, with empty scriptSigs, of transactions that
    satisfy the context-free rules and leave room for the unlocking data; an accepted input
    encodes one transaction only. *)
Theorem qsb_transaction_exact usize_MAX bytes :
  2 ^ 32 - 1 <= usize_MAX -> Forall byte_ok bytes ->
  validate_tx usize_MAX bytes <> Panic
  /\ (validate_tx usize_MAX bytes = Ok tt <-> exists t, tx_ok t /\ tx_bytes t = bytes)
  /\ (forall t t', tx_ok t -> tx_ok t' -> tx_bytes t = bytes -> tx_bytes t' = bytes -> t = t').
Proof.
  intros Hu Hb. split; [apply validate_tx_total|]. split.
  - split; [by apply validate_tx_sound|]. intros (t & Ht & <-). by apply validate_tx_complete.
  - intros t t' Ht Ht' Heq Heq'. apply tx_bytes_inj; [done..|congruence].
Qed.

Lemma qsb_transaction_exact_witness :
  let bytes := [2; 0; 0; 0; 2] ++ replicate 36 7 ++ [0; 0; 0; 0; 0] ++ replicate 36 9 ++ [0; 0; 0; 0; 0]
               ++ [1; 136; 19; 0; 0; 0; 0; 0; 0; 253; 44; 1] ++ replicate 300 81 ++ [0; 0; 0; 0] in
  validate_tx u64_MAX bytes = Ok tt /\ exists t', tx_ok t' /\ tx_bytes t' = bytes.
Proof.
  intros bytes. assert (validate_tx u64_MAX bytes = Ok tt) as Hok by (vm_compute; reflexivity).
  split; [exact Hok|]. apply (qsb_transaction_exact u64_MAX bytes); [done| |exact Hok].
  apply (bool_decide_unpack (Forall (fun b => 0 <= b < 256) bytes)). vm_compute. exact I.
Defined.

(** ** Requests *)
Definition reveals_ok (N : nat) (indices : list Z) : Prop :=
  length indices = N /\ NoDup indices /\ Forall (fun i => i < 150) indices.

Lemma reveal_loop_Ok before indices :
  NoDup before ->
  reveal_loop before indices = Ok tt <-> NoDup (before ++ indices) /\ Forall (fun i => i < 150) indices.
Proof.
  revert before; induction indices as [|i rest IH]; intros before Hnd; cbn [reveal_loop].
  { rewrite app_nil_r. by split; [split|]. }
  change (Z.of_nat QSB_SECRETS_PER_ROUND) with 150. destruct (Z.leb_spec 150 i) as [Hi|Hi]; cbn [reject_if mbind outcome_bind].
  { split; [done|]. intros [_ [? _]%Forall_cons]. lia. }
  case_bool_decide as Hin; cbn [reject_if mbind outcome_bind].
  { split; [done|]. intros [Hd _]. apply NoDup_app in Hd as (_ & Hd & _). apply Hd in Hin. by contradict Hin; left. }
  rewrite IH, <- app_assoc, Forall_cons; [tauto|]. apply NoDup_app. split; [done|].
  split; [|apply NoDup_singleton]. intros j Hj ->%list_elem_of_singleton. done.
Qed.

Lemma reveal_round_Ok N indices r : reveal_round N indices = Ok r <-> r = indices /\ reveals_ok N indices.
Proof.
  unfold reveal_round, reveals_ok. destruct (Nat.eqb_spec (length indices) N) as [Hlen|Hlen]; cbn [negb reject_if mbind outcome_bind].
  - pose proof (reveal_loop_Ok [] indices (NoDup_nil_2)) as Hl. cbn [app] in Hl.
    destruct (reveal_loop [] indices) as [[]| |]; cbn [mbind outcome_bind].
    + split; [intros [= <-]; split; [done|split; [done|by apply Hl]]|by intros [-> _]].
    + split; [done|]. intros (_ & _ & Hr). by apply Hl in Hr.
    + split; [done|]. intros (_ & _ & Hr). by apply Hl in Hr.
  - split; [done|]. by intros (_ & ? & _).
Qed.

Lemma QsbRevealIndices_new_Ok r0 r1 indices :
  QsbRevealIndices_new r0 r1 = Ok indices <->
  indices = mk_QsbRevealIndices r0 r1 /\ reveals_ok 8 r0 /\ reveals_ok 7 r1.
Proof.
  unfold QsbRevealIndices_new, QSB_ROUND0_REVEALS, QSB_ROUND1_REVEALS. split.
  - intros (a & [-> Ha]%reveal_round_Ok & Hok)%bind_Ok. apply bind_Ok in Hok as (b & [-> Hb]%reveal_round_Ok & Hok).
    by injection Hok as <-.
  - intros (-> & H0 & H1). rewrite (proj2 (reveal_round_Ok 8 r0 r0) (conj eq_refl H0)). cbn [mbind outcome_bind].
    by rewrite (proj2 (reveal_round_Ok 7 r1 r1) (conj eq_refl H1)).
Qed.

Lemma reveal_secrets_range r0 r1 indices round index :
  QsbRevealIndices_new r0 r1 = Ok indices -> Forall (fun i => 0 <= i) (r0 ++ r1) ->
  (round, index) ∈ reveal_secrets indices -> (round = 0 \/ round = 1) /\ 0 <= index < 150.
Proof.
  intros (-> & (_ & _ & H0) & (_ & _ & H1))%QsbRevealIndices_new_Ok [Hn0 Hn1]%Forall_app. unfold reveal_secrets. cbn.
  rewrite elem_of_app, !list_elem_of_fmap. rewrite !Forall_forall in *.
  intros [(i & [= -> ->] & Hi)|(i & [= -> ->] & Hi)]; naive_solver.
Qed.

(** ** Secrets, commitments and disclosures *)
Section qsb_lemmas.
Context `{HashFnsLaws} `{Ripemd} `{Bip39}.

(** The secret of SLIP-0021 and of the profile. *)
Definition slip21 (seed : list Z) : list Z :=
  drop 32 (rfc2104 Sha512 (take 32 (rfc2104 Sha512 (string_bytes "Symmetric key seed") seed)) (0 :: SLIP21_LABEL)).
Definition hors_secret (key : list Z) (vault : QsbVault) (round index : Z) : list Z :=
  take 20 (rfc2104 Sha256 key (secret_message vault round index)).

Lemma length_rfc2104_512 key text : length (rfc2104 Sha512 key text) = 64%nat.
Proof. unfold rfc2104. cbn. apply sha512_length. Qed.

Lemma qsb_from_seed_eq seed : qsb_from_seed seed = Ok (slip21 seed) /\ length (slip21 seed) = 32%nat.
Proof.
  assert (length (slip21 seed) = 32%nat) as Hlen by (unfold slip21; by rewrite length_drop, length_rfc2104_512). split; [|done].
  unfold qsb_from_seed, slip21_child_key. rewrite hmac_sha512 by (cbn; lia). cbn [mbind outcome_bind].
  rewrite hmac_sha512 by (rewrite length_take; lia). cbn [mbind outcome_bind concat app]. rewrite !app_nil_r.
  unfold take_output. rewrite take_ge; [done|]. by rewrite length_drop, length_rfc2104_512.
Qed.

Lemma qsb_secret_eq key vault round index : length key = 32%nat -> qsb_secret key vault round index = Ok (hors_secret key vault round index).
Proof.
  intros Hk. unfold qsb_secret. rewrite hmac_sha256 by lia. cbn [mbind outcome_bind concat]. by rewrite app_nil_r.
Qed.

Lemma collect_map_Ok {E A B} (f : A -> outcome E B) (g : A -> B) l :
  (forall a, a ∈ l -> f a = Ok (g a)) -> collect (map f l) = Ok (map g l).
Proof.
  induction l as [|a l IH]; intros Hf; [done|]. cbn [map collect]. rewrite (Hf a) by left. cbn [mbind outcome_bind].
  by rewrite IH by (intros; apply Hf; by right).
Qed.

Lemma round_commitments_eq key vault round :
  length key = 32%nat ->
  round_commitments key vault round = Ok (map (fun i => hash160 (hors_secret key vault round i)) (seqZ 0 150)).
Proof. intros Hk. apply collect_map_Ok. intros i _. by rewrite qsb_secret_eq. Qed.

Lemma qsb_preimages_eq key vault indices :
  length key = 32%nat ->
  qsb_preimages key vault indices = Ok (map (fun '(round, i) => hors_secret key vault round i) (reveal_secrets indices)).
Proof. intros Hk. apply collect_map_Ok. intros [round i] _. by apply qsb_secret_eq. Qed.

Lemma fold_append {A} (f : A -> list Z) l acc : fold_left (fun state a => state ++ f a) l acc = acc ++ concat (map f l).
Proof. revert acc; induction l as [|a l IH]; intros acc; cbn; [by rewrite app_nil_r|]. by rewrite IH, <- app_assoc. Qed.

Lemma secret_message_inj v v' round round' i i' :
  0 <= vault_index v < 2 ^ 32 -> 0 <= vault_index v' < 2 ^ 32 -> 0 <= i < 2 ^ 16 -> 0 <= i' < 2 ^ 16 ->
  secret_message v round i = secret_message v' round' i' -> v = v' /\ round = round' /\ i = i'.
Proof.
  intros Hv Hv' Hi Hi'. unfold secret_message. destruct v as [net ix], v' as [net' ix']. cbn [vault_net vault_index] in *.
  intros Heq%app_inv_head%app_inv_head. apply app_inj_1 in Heq as [[= ->] Heq]; [|done].
  apply app_inj_1 in Heq as [Hix Heq]; [|by rewrite !length_be_bytes].
  apply app_inj_1 in Heq as [[= ->] Heq]; [|done]. apply (f_equal be_value) in Hix, Heq. rewrite !be_value_be_bytes in Hix, Heq.
  change (256 ^ Z.of_nat 4) with (2 ^ 32) in Hix. change (256 ^ Z.of_nat 2) with (2 ^ 16) in Heq.
  rewrite !Z.mod_small in Hix, Heq by done. by subst.
Qed.

Lemma reveal_input_eq indices binding :
  reveal_input indices binding
  = REVEAL_TAG ++ concat (map (be_bytes 2) (reveal_round0 indices ++ reveal_round1 indices)) ++ binding.
Proof.
  unfold reveal_input, reveal_secrets.
  assert (forall l acc, fold_left (fun state '(_, index) => state ++ be_bytes 2 index) l acc
    = fold_left (fun state p => state ++ be_bytes 2 (snd (p : Z * Z))) l acc) as Hf.
  { induction l as [|[a b] l IH]; intros acc; cbn; [done|]. apply IH. }
  rewrite Hf, (fold_append (fun p => be_bytes 2 (snd p))), <- app_assoc. do 2 f_equal.
  by rewrite !map_app, !map_map.
Qed.

Lemma be_bytes_concat_inj l l' r r' :
  length l = length l' -> Forall (fun i => 0 <= i < 2 ^ 16) l -> Forall (fun i => 0 <= i < 2 ^ 16) l' ->
  concat (map (be_bytes 2) l) ++ r = concat (map (be_bytes 2) l') ++ r' -> l = l' /\ r = r'.
Proof.
  revert l'; induction l as [|i l IH]; intros [|j l'] Hlen Hl Hl'; try done. cbn [map concat]. rewrite <- !app_assoc.
  apply Forall_cons in Hl as [Hi Hl]. apply Forall_cons in Hl' as [Hj Hl'].
  intros [Hij Heq]%app_inj_1; [|by rewrite !length_be_bytes]. apply (f_equal be_value) in Hij. rewrite !be_value_be_bytes in Hij.
  change (256 ^ Z.of_nat 2) with (2 ^ 16) in Hij. rewrite !Z.mod_small in Hij by done. subst j.
  apply IH in Heq as [-> ->]; [done|cbn in Hlen; lia|done|done].
Qed.
End qsb_lemmas.

Lemma vault_index_range net v vault : QsbVault_new net v = Ok vault -> 0 <= v -> 0 <= vault_index vault < 2 ^ 32.
Proof.
  unfold QsbVault_new. intros Hok Hv. inv_ok. cbn. match goal with H : (MAX_VAULT_INDEX <? _) = false |- _ => apply Z.ltb_ge in H end.
  unfold MAX_VAULT_INDEX in *. lia.
Qed.

(** A request's indices: [QsbRevealIndices::new] on arrays of [u16]. *)
Definition u16s (l : list Z) : Prop := Forall (fun i => 0 <= i < 2 ^ 16) l.

Lemma commitment_at `{HashFns} `{Ripemd} key vault round i :
  0 <= i < 150 -> map (fun i => hash160 (hors_secret key vault round i)) (seqZ 0 150) !! Z.to_nat i
    = Some (hash160 (hors_secret key vault round i)).
Proof.
  intros Hi. rewrite list_lookup_fmap. rewrite lookup_seqZ_lt by lia.
  by replace (0 + Z.of_nat (Z.to_nat i)) with i by lia.
Qed.

Lemma length_hors_secret `{HashFnsLaws} key vault round i : length (hors_secret key vault round i) = 20%nat.
Proof. unfold hors_secret, rfc2104. cbn. rewrite length_take, sha256_length. lia. Qed.

Lemma reveals_match `{HashFnsLaws} `{Ripemd} seed vault r0 r1 :
  reveals_ok 8 r0 -> reveals_ok 7 r1 -> u16s (r0 ++ r1) ->
  exists c preimages,
    (key ← qsb_from_seed seed; qsb_commitments key vault) = Ok c
    /\ (key ← qsb_from_seed seed; qsb_preimages key vault (mk_QsbRevealIndices r0 r1)) = Ok preimages
    /\ length (commitments_round0 c) = 150%nat /\ length (commitments_round1 c) = 150%nat
    /\ commitments_root c = sha256 (ROOT_TAG ++ concat (commitments_round0 c) ++ concat (commitments_round1 c))
    /\ length preimages = 15%nat
    /\ (forall j i, r0 !! j = Some i -> exists s, preimages !! j = Some s /\ length s = 20%nat
          /\ commitments_round0 c !! Z.to_nat i = Some (hash160 s))
    /\ (forall j i, r1 !! j = Some i -> exists s, preimages !! (8 + j)%nat = Some s /\ length s = 20%nat
          /\ commitments_round1 c !! Z.to_nat i = Some (hash160 s)).
Proof.
  intros (Hl0 & _ & Hr0) (Hl1 & _ & Hr1) [Hu0 Hu1]%Forall_app. destruct (qsb_from_seed_eq seed) as [-> Hk].
  cbn [mbind outcome_bind]. set (key := slip21 seed) in *. unfold qsb_commitments. rewrite !round_commitments_eq by done.
  cbn [mbind outcome_bind]. rewrite qsb_preimages_eq by done. eexists _, _. do 2 (split; [reflexivity|]).
  cbn [commitments_round0 commitments_round1 commitments_root]. unfold reveal_secrets. cbn [reveal_round0 reveal_round1].
  rewrite Forall_forall in Hr0, Hr1, Hu0, Hu1.
  split; [done|]. split; [done|]. split; [by rewrite (fold_append (fun c => c)), map_id, concat_app|].
  rewrite map_app, !map_map. split; [rewrite length_app, !length_map; lia|]. split.
  - intros j i Hj. eexists. rewrite lookup_app_l by (rewrite length_map; by eapply lookup_lt_Some).
    rewrite list_lookup_fmap, Hj. split; [reflexivity|]. apply list_elem_of_lookup_2 in Hj.
    split; [apply length_hors_secret|]. apply commitment_at. split; [by apply Hu0|by apply Hr0].
  - intros j i Hj. eexists. rewrite lookup_app_r by (rewrite length_map; lia). rewrite length_map, Hl0.
    replace (8 + j - 8)%nat with j by lia.
    rewrite list_lookup_fmap, Hj. split; [reflexivity|]. apply list_elem_of_lookup_2 in Hj.
    split; [apply length_hors_secret|]. apply commitment_at. split; [by apply Hu1|by apply Hr1].
Qed.

(** C25: A request names eight and seven distinct indices below 150; under a valid phrase the
    commitments and the disclosure both succeed and each preimage hashes to the commitment at
    its round and index; distinct vaults, rounds or indices have distinct messages; an invalid
    phrase reveals nothing. *)
Theorem qsb_reveal_correct `{HashFnsLaws} `{Ripemd} `{Bip39} mnemonic passphrase net v r0 r1 vault indices :
  QsbVault_new net v = Ok vault -> QsbRevealIndices_new r0 r1 = Ok indices -> 0 <= v -> u16s (r0 ++ r1) ->
  (reveals_ok 8 r0 /\ reveals_ok 7 r1)
  /\ match mnemonic_from_str mnemonic with
     | None => exists e, derive_qsb_commitments mnemonic vault passphrase = Err (InvalidMnemonic e)
                 /\ reveal_qsb_preimages mnemonic vault indices passphrase = Err (InvalidMnemonic e)
     | Some m => exists c preimages,
         derive_qsb_commitments mnemonic vault passphrase = Ok c
         /\ reveal_qsb_preimages mnemonic vault indices passphrase = Ok preimages
         /\ length (commitments_round0 c) = 150%nat /\ length (commitments_round1 c) = 150%nat
         /\ commitments_root c = sha256 (ROOT_TAG ++ concat (commitments_round0 c) ++ concat (commitments_round1 c))
         /\ length preimages = 15%nat
         /\ (forall j i, r0 !! j = Some i -> exists s, preimages !! j = Some s /\ length s = 20%nat
               /\ commitments_round0 c !! Z.to_nat i = Some (hash160 s))
         /\ (forall j i, r1 !! j = Some i -> exists s, preimages !! (8 + j)%nat = Some s /\ length s = 20%nat
               /\ commitments_round1 c !! Z.to_nat i = Some (hash160 s))
     end
  /\ (forall net' v' vault' round round' i i',
        QsbVault_new net' v' = Ok vault' -> 0 <= v' -> 0 <= i < 150 -> 0 <= i' < 150 ->
        secret_message vault round i = secret_message vault' round' i' -> vault = vault' /\ round = round' /\ i = i').
Proof.
  intros Hvault Hind Hv Hu. pose proof (proj1 (QsbRevealIndices_new_Ok _ _ _) Hind) as (-> & Hr0 & Hr1).
  split; [done|]. split; [|].
  - unfold derive_qsb_commitments, reveal_qsb_preimages, qsb_from_mnemonic, mnemonic_to_seed, parse_mnemonic.
    destruct (mnemonic_from_str mnemonic) as [m|]; cbn [ok_or mbind outcome_bind]; [|eauto].
    by apply reveals_match.
  - intros net' v' vault' round round' i i' Hvault' Hv' Hi Hi'.
    apply secret_message_inj; try lia; by eapply vault_index_range.
Qed.

(** A digest names one request: two accepted requests with the same digest are for the same
    transaction and the same indices in the same order, or SHA-256 collides. *)
Theorem reveal_digest_binding `{HashFnsLaws} usize_MAX t t' r0 r1 r0' r1' indices indices' d d' :
  QsbRevealIndices_new r0 r1 = Ok indices -> QsbRevealIndices_new r0' r1' = Ok indices' ->
  u16s (r0 ++ r1) -> u16s (r0' ++ r1') ->
  qsb_reveal_digest usize_MAX t indices = Ok d -> qsb_reveal_digest usize_MAX t' indices' = Ok d' ->
  rd_digest d = rd_digest d' ->
  (t = t' /\ indices = indices') \/ exists x y, x <> y /\ sha256 x = sha256 y.
Proof.
  intros (-> & (Hl0 & _) & (Hl1 & _))%QsbRevealIndices_new_Ok (-> & (Hl0' & _) & (Hl1' & _))%QsbRevealIndices_new_Ok Hu Hu'.
  unfold qsb_reveal_digest. intros Hd Hd' Heq. inv_ok. cbn [rd_digest] in Heq. unfold reveal_digest in Heq.
  match type of Heq with sha256 ?x = sha256 ?y => destruct (decide (x = y)) as [Hxy|]; [|eauto] end.
  rewrite !reveal_input_eq in Hxy. cbn [reveal_round0 reveal_round1] in Hxy. apply app_inv_head in Hxy.
  apply be_bytes_concat_inj in Hxy as [Hr Ht]; [|rewrite !length_app; lia|done|done].
  apply app_inj_1 in Hr as [-> ->]; [|lia]. destruct (decide (t = t')) as [->|]; eauto.
Qed.

(** ** Witness *)
#[local] Existing Instance model_hashes.
#[local] Existing Instance model_hashes_laws.
#[local] Existing Instance model_bip39.
#[local] Instance model_ripemd : Ripemd := {| ripemd160 m := drop 12 m |}.

Lemma qsb_reveal_correct_witness :
  exists vault indices c preimages s,
    QsbVault_new 1 7 = Ok vault
    /\ QsbRevealIndices_new [3; 1; 4; 149; 5; 9; 2; 6] [0; 1; 2; 3; 4; 5; 149] = Ok indices
    /\ derive_qsb_commitments [97; 98] vault None = Ok c
    /\ reveal_qsb_preimages [97; 98] vault indices None = Ok preimages
    /\ preimages !! 14%nat = Some s /\ commitments_round1 c !! 149%nat = Some (hash160 s).
Proof.
  assert (QsbVault_new 1 7 = Ok (mk_QsbVault 1 7)) as Hv by reflexivity.
  assert (QsbRevealIndices_new [3; 1; 4; 149; 5; 9; 2; 6] [0; 1; 2; 3; 4; 5; 149]
    = Ok (mk_QsbRevealIndices [3; 1; 4; 149; 5; 9; 2; 6] [0; 1; 2; 3; 4; 5; 149])) as Hi by (vm_compute; reflexivity).
  destruct (qsb_reveal_correct [97; 98] None _ _ _ _ _ _ Hv Hi) as (_ & Hm & _); [done|repeat constructor; done|].
  destruct Hm as (c & preimages & Hc & Hp & _ & _ & _ & _ & _ & Hr1).
  destruct (Hr1 6%nat 149 eq_refl) as (s & Hs & _ & Hcs).
  exists (mk_QsbVault 1 7), (mk_QsbRevealIndices [3; 1; 4; 149; 5; 9; 2; 6] [0; 1; 2; 3; 4; 5; 149]), c, preimages, s.
  exact (conj Hv (conj Hi (conj Hc (conj Hp (conj Hs Hcs))))).
Defined.
