(* ===== verification/AccountClass.v ===== *)
(** * Account classes

    crates/kms/src/account_class.rs and account_class/: salt policies, the
    OpenZeppelin manifest, the Argent, Argent Cairo 0 and Braavos presets, and
    the registry of known classes.  A hexadecimal literal is written as the
    number it denotes, except in the manifest, whose text the code parses at run
    time with the library's [Felt::from_hex] ([FeltFromHex]). *)

From stdpp Require Import base option list numbers strings.
From Stdlib Require Import ZArith Lia Ascii.
From S2P Require Import Prelude StarkLib Types Scalar Serialization TxHash Text Domain Primitives.

#[local] Open Scope Z_scope.
#[local] Open Scope string_scope.
#[local] Open Scope list_scope.

(** ** Salt policies and the account-class trait *)
Section trait.
Context `{FeltExtras}.

Inductive SaltPolicy := SaltPublicKey | SaltZero | SaltExplicit (salt : Felt).

Definition salt_resolve (policy : SaltPolicy) (public_key : Felt) : Felt :=
  match policy with
  | SaltPublicKey => public_key
  | SaltZero => felt_of_Z 0
  | SaltExplicit salt => salt
  end.

(** [trait AccountClass], as a record of its required methods. *)
Record AccountClass := { ac_class_hash : Felt; ac_constructor_calldata : Felt -> list Felt }.

(** The provided method. *)
Definition calculate_address (c : AccountClass) (public_key : Felt) (salt_policy : SaltPolicy) : Result Felt :=
  let salt := salt_resolve salt_policy public_key in
  let calldata := ac_constructor_calldata c public_key in
  calculate_contract_address salt (ac_class_hash c) calldata (felt_of_Z 0).
End trait.

(** ** The OpenZeppelin manifest *)
Record OzAccountManifestNetwork := { declared_class_hash : list Z }.
Record OzAccountManifestSource := { oz_docs : string; oz_source_package : string }.
Record OzAccountManifestVersion := {
  oz_source : OzAccountManifestSource; oz_networks : list (string * OzAccountManifestNetwork) }.
Record OzAccountManifest := {
  oz_latest_version : string; oz_package : string; oz_contract_name : string;
  oz_versions : list (string * OzAccountManifestVersion) }.

(** oz_account_class_manifest.json, embedded in the crate.  The maps are
    [BTreeMap]s: lists in key order. *)
Definition oz_class_text : list Z :=
  px ++ hex_print 64 0x01d1777db36cdd06dd62cfde77b1b6ae06412af95d57a13dc40ac77b8a702381.

Definition OZ_ACCOUNT_CLASS_MANIFEST : OzAccountManifest :=
  {| oz_latest_version := "3.0.0"; oz_package := "openzeppelin_presets";
     oz_contract_name := "AccountUpgradeable";
     oz_versions :=
       [("3.0.0",
         {| oz_source :=
              {| oz_docs := "https://docs.openzeppelin.com/contracts-cairo/3.x/api/account#AccountUpgradeable";
                 oz_source_package := "https://scarbs.xyz/packages/openzeppelin_presets" |};
            oz_networks := [("SN_MAIN", {| declared_class_hash := oz_class_text |});
                            ("SN_SEPOLIA", {| declared_class_hash := oz_class_text |})] |})] |}.

(** The parse of the embedded text, cached after the first call. *)
Definition oz_account_manifest : Result OzAccountManifest := Ok OZ_ACCOUNT_CLASS_MANIFEST.

(** [BTreeMap::get]. *)
Fixpoint map_get {A} (key : string) (l : list (string * A)) : option A :=
  match l with
  | [] => None
  | (k, a) :: l => if decide (k = key) then Some a else map_get key l
  end.

Definition chain_name (c : ChainId) : string :=
  match c with Mainnet => "SN_MAIN" | Sepolia => "SN_SEPOLIA" end.

Section open_zeppelin.
Context `{FeltExtras, !FeltFromHex}.

Definition parse_class_hash (text : list Z) : Result Felt :=
  v ← ok_or (felt_from_hex text) (InvalidClassHash "{e}"); Ok (felt_of_Z v).

(** The body of the loops: push the class unless its hash is already there. *)
Definition push_oz_class (version : string) (entry : OzAccountManifestVersion)
    (classes : list (string * string * Felt)) (network : OzAccountManifestNetwork)
    : Result (list (string * string * Felt)) :=
  class_hash ← parse_class_hash (declared_class_hash network);
  if existsb (fun '(_, _, known) => bool_decide (known = class_hash)) classes then Ok classes
  else Ok (classes ++ [(version, oz_docs (oz_source entry), class_hash)]).

Definition oz_manifest_classes : Result (list (string * string * Felt)) :=
  manifest ← oz_account_manifest;
  foldM (fun classes '(version, entry) =>
           foldM (push_oz_class version entry) classes (map snd (oz_networks entry)))
        [] (oz_versions manifest).

Inductive OzAccountClassSource :=
  | OzManifest (chain_id : ChainId) (package_name package_version contract_name docs_url package_url : string)
  | OzCustom.

Record OzAccountClassConfig := { ozc_class_hash : Felt; ozc_source : OzAccountClassSource }.

Definition oz_from_manifest (chain_id : ChainId) (version : string) : Result OzAccountClassConfig :=
  manifest ← oz_account_manifest;
  version_entry ← ok_or (map_get version (oz_versions manifest))
    (InvalidClassHash "No OpenZeppelin account manifest entry for version {version}");
  network_entry ← ok_or (map_get (chain_name chain_id) (oz_networks version_entry))
    (InvalidClassHash "No OpenZeppelin account manifest entry for chain {} version {version}");
  class_hash ← parse_class_hash (declared_class_hash network_entry);
  Ok {| ozc_class_hash := class_hash;
        ozc_source := OzManifest chain_id (oz_package manifest) version (oz_contract_name manifest)
                        (oz_docs (oz_source version_entry)) (oz_source_package (oz_source version_entry)) |}.

Definition oz_latest (chain_id : ChainId) : Result OzAccountClassConfig :=
  manifest ← oz_account_manifest;
  oz_from_manifest chain_id (oz_latest_version manifest).

Definition oz_custom (class_hash : Felt) : OzAccountClassConfig :=
  {| ozc_class_hash := class_hash; ozc_source := OzCustom |}.

Record OpenZeppelinAccount := { oz_class_config : OzAccountClassConfig }.

Definition oz_account_class (a : OpenZeppelinAccount) : AccountClass :=
  {| ac_class_hash := ozc_class_hash (oz_class_config a); ac_constructor_calldata pk := [pk] |}.

Definition oz_from_class_hash (class_hash : Felt) : OpenZeppelinAccount :=
  {| oz_class_config := oz_custom class_hash |}.

Definition oz_account_latest (chain_id : ChainId) : Result OpenZeppelinAccount :=
  config ← oz_latest chain_id; Ok {| oz_class_config := config |}.

Definition oz_account_from_manifest (chain_id : ChainId) (version : string) : Result OpenZeppelinAccount :=
  config ← oz_from_manifest chain_id version; Ok {| oz_class_config := config |}.

Record OzDeploymentDescriptor := {
  ozd_address : Felt; ozd_class_hash : Felt; ozd_salt : Felt; ozd_constructor_calldata : list Felt;
  ozd_deployer_address : Felt }.

Definition normalized_address_hex (d : OzDeploymentDescriptor) : list Z :=
  px ++ hex_print 64 (felt_val (ozd_address d)).

Definition deployment_descriptor (a : OpenZeppelinAccount) (public_key : Felt) (salt_policy : SaltPolicy)
    : Result OzDeploymentDescriptor :=
  let c := oz_account_class a in
  let salt := salt_resolve salt_policy public_key in
  let constructor_calldata := ac_constructor_calldata c public_key in
  let deployer_address := felt_of_Z 0 in
  address ← calculate_contract_address salt (ac_class_hash c) constructor_calldata deployer_address;
  Ok {| ozd_address := address; ozd_class_hash := ac_class_hash c; ozd_salt := salt;
        ozd_constructor_calldata := constructor_calldata; ozd_deployer_address := deployer_address |}.
End open_zeppelin.

(** ** Argent *)
Inductive ArgentConstructorLayout := OwnerGuardianFelts | SignerWithOptionalGuardian.

#[export] Instance ArgentConstructorLayout_eq_dec : EqDecision ArgentConstructorLayout.
Proof. solve_decision. Defined.

Section argent.
Context `{FeltExtras}.

Definition constructor_calldata (layout : ArgentConstructorLayout) (public_key : Felt) : list Felt :=
  match layout with
  | OwnerGuardianFelts => [public_key; felt_of_Z 0]
  | SignerWithOptionalGuardian => [felt_of_Z 0; public_key] ++ serialize_cairo_none
  end.

Definition constructor_calldata_with_guardian (layout : ArgentConstructorLayout) (public_key guardian : Felt)
    : list Felt :=
  if decide (guardian = felt_of_Z 0) then constructor_calldata layout public_key
  else match layout with
       | OwnerGuardianFelts => [public_key; guardian]
       | SignerWithOptionalGuardian => [felt_of_Z 0; public_key; felt_of_Z 0; felt_of_Z 0; guardian]
       end.

Record ArgentAccount := { argent_class_hash : Felt; argent_layout_of : ArgentConstructorLayout }.

Definition argent_CLASS_HASH : Felt :=
  felt_of_Z 0x036078334509b514626504edc9fb252328d1a240e4e948bef8d0c08dff45927f.
Definition argent_CLASS_HASH_V050 : Felt :=
  felt_of_Z 0x073414441639dcd11d1846f287650a00c60c416b9d3ba45d31c651672125b2c2.
Definition argent_CLASS_HASH_V031 : Felt :=
  felt_of_Z 0x029927c8af6bccf3f6fda035981e765a7bdbf18a2dc0d630494f8758aa908e2b.
Definition argent_CLASS_HASH_V030 : Felt :=
  felt_of_Z 0x01a736d6ed154502257f02b1ccdf4d9d1089f80811cd6acad48e6b6a9d1f2003.

Definition argent_known_classes : list (Felt * string * ArgentConstructorLayout) :=
  [(argent_CLASS_HASH_V050, "v0.5.0", SignerWithOptionalGuardian);
   (argent_CLASS_HASH, "v0.4.0", SignerWithOptionalGuardian);
   (argent_CLASS_HASH_V031, "v0.3.1", OwnerGuardianFelts);
   (argent_CLASS_HASH_V030, "v0.3.0", OwnerGuardianFelts)].

Definition argent_known_class_hashes : list Felt := map (fun '(h, _, _) => h) argent_known_classes.

Definition layout_for_class_hash (class_hash : Felt) : option ArgentConstructorLayout :=
  option_map (fun '(_, _, layout) => layout)
    (List.find (fun '(known, _, _) => bool_decide (known = class_hash)) argent_known_classes).

Definition argent_with_class_hash_and_layout (class_hash : Felt) (layout : ArgentConstructorLayout)
    : ArgentAccount :=
  {| argent_class_hash := class_hash; argent_layout_of := layout |}.

Definition argent_new : ArgentAccount :=
  argent_with_class_hash_and_layout argent_CLASS_HASH SignerWithOptionalGuardian.

Definition argent_try_with_class_hash (class_hash : Felt) : Result ArgentAccount :=
  layout ← ok_or (layout_for_class_hash class_hash)
    (InvalidClassHash "unknown Argent class hash {class_hash:#x}: no known constructor layout");
  Ok (argent_with_class_hash_and_layout class_hash layout).

Definition argent_calculate_address_with_guardian (a : ArgentAccount) (public_key guardian : Felt) : Result Felt :=
  let calldata := constructor_calldata_with_guardian (argent_layout_of a) public_key guardian in
  calculate_contract_address public_key (argent_class_hash a) calldata (felt_of_Z 0).

Definition argent_account_class (a : ArgentAccount) : AccountClass :=
  {| ac_class_hash := argent_class_hash a; ac_constructor_calldata := constructor_calldata (argent_layout_of a) |}.
End argent.

(** ** Constructor shapes *)
Inductive ConstructorShape :=
  ShapePublicKey | ShapeArgentOwnerGuardianFelts | ShapeArgentSignerWithOptionalGuardian | ShapeArgentCairo0Proxy.

Definition argent_layout (s : ConstructorShape) : option ArgentConstructorLayout :=
  match s with
  | ShapeArgentOwnerGuardianFelts => Some OwnerGuardianFelts
  | ShapeArgentSignerWithOptionalGuardian => Some SignerWithOptionalGuardian
  | ShapePublicKey | ShapeArgentCairo0Proxy => None
  end.

(** [From<ArgentConstructorLayout> for ConstructorShape]. *)
Definition shape_of_layout (l : ArgentConstructorLayout) : ConstructorShape :=
  match l with
  | OwnerGuardianFelts => ShapeArgentOwnerGuardianFelts
  | SignerWithOptionalGuardian => ShapeArgentSignerWithOptionalGuardian
  end.

(** ** Registry entries *)
Inductive AccountFamily := FamilyOpenZeppelin | FamilyArgent | FamilyBraavos.
Inductive ClassRole := Deployment | Implementation | ProxyTarget.

#[export] Instance AccountFamily_eq_dec : EqDecision AccountFamily.
Proof. solve_decision. Defined.
#[export] Instance ClassRole_eq_dec : EqDecision ClassRole.
Proof. solve_decision. Defined.

Definition DEPLOYMENT_AND_IMPLEMENTATION : list ClassRole := [Deployment; Implementation].
Definition DEPLOYMENT_ONLY : list ClassRole := [Deployment].
Definition IMPLEMENTATION_ONLY : list ClassRole := [Implementation].
Definition PROXY_TARGET_ONLY : list ClassRole := [ProxyTarget].

Definition ARGENT_DEPLOYMENTS_SOURCE : string :=
  "https://github.com/argentlabs/argent-contracts-starknet/blob/main/deployments/account.txt".
Definition ARGENT_X_CONSTANTS_SOURCE : string :=
  "https://github.com/argentlabs/argent-x/blob/develop/packages/extension/src/shared/account/starknet.constants.ts".

Section registry_types.
Context `{StarkTypes}.

Record KnownAccountClass := {
  kc_family : AccountFamily; kc_class_hash : Felt; kc_version : string; kc_label : string;
  kc_roles : list ClassRole; kc_constructor : option ConstructorShape; kc_source : string }.

Definition is_deployment_class (c : KnownAccountClass) : bool := bool_decide (Deployment ∈ kc_roles c).
Definition is_implementation_class (c : KnownAccountClass) : bool := bool_decide (Implementation ∈ kc_roles c).
Definition is_proxy_target (c : KnownAccountClass) : bool := bool_decide (ProxyTarget ∈ kc_roles c).
End registry_types.

(** ** Argent Cairo 0 *)
Section cairo0.
Context `{FeltExtras}.

Definition PROXY_CLASS_HASH : Felt :=
  felt_of_Z 0x025ec026985a3bf9d0cc1fe17326b245dfdc3ff89b8fde106542a3ea56c5a918.
Definition IMPL_CLASS_HASH_V024 : Felt :=
  felt_of_Z 0x033434ad846cdd5f23eb73ff09fe6fddd568284a0fb7d1be20ee482f044dabe2.
Definition IMPL_CLASS_HASH_V023 : Felt :=
  felt_of_Z 0x01a7820094feaf82d53f53f214b81292d717e7bb9a92bb2488092cd306f3993f.
Definition IMPL_CLASS_HASH_V022 : Felt :=
  felt_of_Z 0x03e327de1c40540b98d05cbcb13552008e36f0ec8d61d46956d2f9752c294328.
Definition IMPL_CLASS_HASH_V021 : Felt :=
  felt_of_Z 0x07e28fb0161d10d1cf7fe1f13e7ca57bce062731a3bd04494dfd2d0412699727.
Definition INITIALIZE_SELECTOR : Felt :=
  felt_of_Z 0x79dc0da7c54b95f10aa182ad0a46400db63156920adb65eca2654c0945a463.

Definition known_implementations : list (Felt * string) :=
  [(IMPL_CLASS_HASH_V024, "0.2.4"); (IMPL_CLASS_HASH_V023, "0.2.3");
   (IMPL_CLASS_HASH_V022, "0.2.2"); (IMPL_CLASS_HASH_V021, "0.2.1")].

Definition is_known_implementation (class_hash : Felt) : bool :=
  existsb (fun '(known, _) => bool_decide (known = class_hash)) known_implementations.

Definition cairo0_calldata_with_guardian (implementation public_key guardian : Felt) : list Felt :=
  [implementation; INITIALIZE_SELECTOR; felt_of_Z 2; public_key; guardian].

Definition cairo0_calldata (implementation public_key : Felt) : list Felt :=
  cairo0_calldata_with_guardian implementation public_key (felt_of_Z 0).

Definition cairo0_known_classes : list KnownAccountClass :=
  {| kc_family := FamilyArgent; kc_class_hash := PROXY_CLASS_HASH; kc_version := "proxy";
     kc_label := "Argent Cairo 0 proxy"; kc_roles := DEPLOYMENT_AND_IMPLEMENTATION;
     kc_constructor := Some ShapeArgentCairo0Proxy; kc_source := ARGENT_X_CONSTANTS_SOURCE |}
  :: map (fun '(class_hash, version) =>
       {| kc_family := FamilyArgent; kc_class_hash := class_hash; kc_version := version;
          kc_label := String.append "Argent Cairo 0 account v" (String.append version " (behind the proxy)");
          kc_roles := PROXY_TARGET_ONLY; kc_constructor := None; kc_source := ARGENT_X_CONSTANTS_SOURCE |})
     known_implementations.
End cairo0.

(** ** Braavos *)
Definition README_V100 : string := "https://github.com/myBraavos/braavos-account-cairo/blob/v1.0.0/README.md".
Definition README_V110 : string := "https://github.com/myBraavos/braavos-account-cairo/blob/v1.1.0/README.md".
Definition README_V120 : string := "https://github.com/myBraavos/braavos-account-cairo/blob/v1.2.0/README.md".

Section braavos.
Context `{FeltExtras}.

Record BraavosAccount := { braavos_class_hash : Felt }.

Definition braavos_CLASS_HASH : Felt :=
  felt_of_Z 0x03d16c7a9a60b0593bd202f660a28c5d76e0403601d9ccc7e4fa253b6a70c201.
Definition BASE_CLASS_HASH_V100 : Felt :=
  felt_of_Z 0x013bfe114fb1cf405bfc3a7f8dbe2d91db146c17521d40dcf57e16d6b59fa8e6.
Definition LEGACY_CLASS_HASH : Felt :=
  felt_of_Z 0x00816dd0297efc55dc1e7559020a3a825e81ef734b558f03c83325d4da7e6253.
Definition ACCOUNT_CLASS_HASH_V110 : Felt :=
  felt_of_Z 0x02c8c7e6fbcfb3e8e15a46648e8914c6aa1fc506fc1e7fb3d1e19630716174bc.
Definition ACCOUNT_CLASS_HASH_V120 : Felt :=
  felt_of_Z 0x03957f9f5a1cbfe918cedc2015c85200ca51a5f7506ecb6de98a5207b759bf8a.

Definition braavos_class (hash : Felt) (version label : string) (roles : list ClassRole)
    (constructor : option ConstructorShape) (source : string) : KnownAccountClass :=
  {| kc_family := FamilyBraavos; kc_class_hash := hash; kc_version := version; kc_label := label;
     kc_roles := roles; kc_constructor := constructor; kc_source := source |}.

Definition braavos_known_classes : list KnownAccountClass :=
  [braavos_class braavos_CLASS_HASH "1.1.0" "Braavos Base Account v1.1.0 and later" DEPLOYMENT_ONLY
     (Some ShapePublicKey) README_V120;
   braavos_class BASE_CLASS_HASH_V100 "1.0.0" "Braavos Base Account v1.0.0" DEPLOYMENT_ONLY
     (Some ShapePublicKey) README_V100;
   braavos_class ACCOUNT_CLASS_HASH_V120 "1.2.0" "Braavos Account v1.2.0" IMPLEMENTATION_ONLY None README_V120;
   braavos_class ACCOUNT_CLASS_HASH_V110 "1.1.0" "Braavos Account v1.1.0" IMPLEMENTATION_ONLY None README_V110;
   braavos_class LEGACY_CLASS_HASH "1.0.0" "Braavos Account v1.0.0" IMPLEMENTATION_ONLY None README_V100].

Definition class_hashes_with_role (role : ClassRole) : list Felt :=
  map kc_class_hash (List.filter (fun c => bool_decide (role ∈ kc_roles c)) braavos_known_classes).

Definition deployment_class_hashes : list Felt := class_hashes_with_role Deployment.
Definition implementation_class_hashes : list Felt := class_hashes_with_role Implementation.

Definition is_implementation_class_hash (class_hash : Felt) : bool :=
  bool_decide (class_hash ∈ implementation_class_hashes).

Definition braavos_with_class_hash (class_hash : Felt) : BraavosAccount :=
  {| braavos_class_hash := class_hash |}.

Definition braavos_new : BraavosAccount := braavos_with_class_hash braavos_CLASS_HASH.

Definition braavos_try_with_class_hash (class_hash : Felt) : Result BraavosAccount :=
  if bool_decide (class_hash ∈ deployment_class_hashes) then Ok (braavos_with_class_hash class_hash)
  else if is_implementation_class_hash class_hash then
    Err (InvalidClassHash "{class_hash:#x} is a Braavos account implementation class; addresses are fixed by a base (deployment) class, derive from one of those instead")
  else
    Err (InvalidClassHash "unknown Braavos class hash {class_hash:#x}: not a known base (deployment) class").

Definition braavos_account_class (a : BraavosAccount) : AccountClass :=
  {| ac_class_hash := braavos_class_hash a; ac_constructor_calldata pk := [pk] |}.
End braavos.

(** ** The registry *)

(** [trim_start_matches('v')]. *)
Fixpoint trim_start_v (s : string) : string :=
  match s with
  | String "v"%char s => trim_start_v s
  | _ => s
  end.

Section registry.
Context `{FeltExtras, !FeltFromHex}.

Definition oz_class (entry : string * string * Felt) : KnownAccountClass :=
  let '(version, docs_url, class_hash) := entry in
  {| kc_family := FamilyOpenZeppelin; kc_class_hash := class_hash; kc_version := version;
     kc_label := String.append "OpenZeppelin AccountUpgradeable v" version;
     kc_roles := DEPLOYMENT_AND_IMPLEMENTATION; kc_constructor := Some ShapePublicKey; kc_source := docs_url |}.

(** [oz_manifest_classes().unwrap_or_default()]. *)
Definition oz_classes : list KnownAccountClass :=
  map oz_class (default [] (to_option oz_manifest_classes)).

Definition argent_cairo1_classes : list KnownAccountClass :=
  map (fun '(class_hash, version, layout) =>
    {| kc_family := FamilyArgent; kc_class_hash := class_hash; kc_version := trim_start_v version;
       kc_label := String.append "Argent Account " version; kc_roles := DEPLOYMENT_AND_IMPLEMENTATION;
       kc_constructor := Some (shape_of_layout layout); kc_source := ARGENT_DEPLOYMENTS_SOURCE |})
  argent_known_classes.

Definition known_account_classes : list KnownAccountClass :=
  oz_classes ++ argent_cairo1_classes ++ cairo0_known_classes ++ braavos_known_classes.

Definition lookup_account_class (class_hash : Felt) : option KnownAccountClass :=
  List.find (fun c => bool_decide (kc_class_hash c = class_hash)) known_account_classes.

Definition deployment_classes (family : AccountFamily) : list KnownAccountClass :=
  List.filter (fun c => bool_decide (kc_family c = family) && is_deployment_class c) known_account_classes.

Definition implementation_classes (family : AccountFamily) : list KnownAccountClass :=
  List.filter (fun c => bool_decide (kc_family c = family) && is_implementation_class c) known_account_classes.

Definition proxy_target_classes (family : AccountFamily) : list KnownAccountClass :=
  List.filter (fun c => bool_decide (kc_family c = family) && is_proxy_target c) known_account_classes.
End registry.

(** ** The registry's entries *)
Definition oz_class_value : Z := 0x01d1777db36cdd06dd62cfde77b1b6ae06412af95d57a13dc40ac77b8a702381.

(** The class hashes of the registry, in order. *)
Definition registry_values : list Z :=
  [oz_class_value;
   0x073414441639dcd11d1846f287650a00c60c416b9d3ba45d31c651672125b2c2;
   0x036078334509b514626504edc9fb252328d1a240e4e948bef8d0c08dff45927f;
   0x029927c8af6bccf3f6fda035981e765a7bdbf18a2dc0d630494f8758aa908e2b;
   0x01a736d6ed154502257f02b1ccdf4d9d1089f80811cd6acad48e6b6a9d1f2003;
   0x025ec026985a3bf9d0cc1fe17326b245dfdc3ff89b8fde106542a3ea56c5a918;
   0x033434ad846cdd5f23eb73ff09fe6fddd568284a0fb7d1be20ee482f044dabe2;
   0x01a7820094feaf82d53f53f214b81292d717e7bb9a92bb2488092cd306f3993f;
   0x03e327de1c40540b98d05cbcb13552008e36f0ec8d61d46956d2f9752c294328;
   0x07e28fb0161d10d1cf7fe1f13e7ca57bce062731a3bd04494dfd2d0412699727;
   0x03d16c7a9a60b0593bd202f660a28c5d76e0403601d9ccc7e4fa253b6a70c201;
   0x013bfe114fb1cf405bfc3a7f8dbe2d91db146c17521d40dcf57e16d6b59fa8e6;
   0x03957f9f5a1cbfe918cedc2015c85200ca51a5f7506ecb6de98a5207b759bf8a;
   0x02c8c7e6fbcfb3e8e15a46648e8914c6aa1fc506fc1e7fb3d1e19630716174bc;
   0x00816dd0297efc55dc1e7559020a3a825e81ef734b558f03c83325d4da7e6253].

Section registry_lemmas.
Context `{FeltExtrasLaws, !StarkLaws, !FeltFromHex}.

Lemma parse_oz_class : parse_class_hash oz_class_text = Ok (felt_of_Z oz_class_value).
Proof.
  unfold parse_class_hash, oz_class_text.
  by rewrite felt_from_hex_canonical by (unfold felt_prime; lia).
Qed.

Lemma oz_manifest_classes_eq :
  oz_manifest_classes
  = Ok [("3.0.0", "https://docs.openzeppelin.com/contracts-cairo/3.x/api/account#AccountUpgradeable",
         felt_of_Z oz_class_value)].
Proof.
  unfold oz_manifest_classes. cbn [oz_account_manifest mbind outcome_bind OZ_ACCOUNT_CLASS_MANIFEST oz_versions
    foldM oz_networks map snd push_oz_class declared_class_hash]. unfold push_oz_class. cbn [declared_class_hash].
  rewrite parse_oz_class. cbn [mbind outcome_bind existsb app oz_docs oz_source].
  by rewrite bool_decide_eq_true_2.
Qed.

Lemma oz_classes_eq :
  oz_classes = [oz_class ("3.0.0", "https://docs.openzeppelin.com/contracts-cairo/3.x/api/account#AccountUpgradeable",
                          felt_of_Z oz_class_value)].
Proof. unfold oz_classes. by rewrite oz_manifest_classes_eq. Qed.

Lemma registry_hashes : map kc_class_hash known_account_classes = map felt_of_Z registry_values.
Proof. unfold known_account_classes. rewrite oz_classes_eq. reflexivity. Qed.

Lemma registry_values_distinct : NoDup registry_values.
Proof. apply (bool_decide_unpack _). vm_compute. exact I. Qed.

Lemma registry_values_range : Forall (fun v => 0 <= v < felt_prime) registry_values.
Proof. unfold registry_values, felt_prime, oz_class_value. repeat constructor; lia. Qed.

Lemma registry_nodup : NoDup (map kc_class_hash known_account_classes).
Proof.
  rewrite registry_hashes. apply NoDup_fmap_2_strong; [|apply registry_values_distinct].
  pose proof registry_values_range as Hr. rewrite Forall_forall in Hr.
  intros x y Hx Hy. apply felt_of_Z_inj; auto.
Qed.

(** A class hash names at most one entry. *)
Lemma registry_unique c1 c2 :
  c1 ∈ known_account_classes -> c2 ∈ known_account_classes ->
  kc_class_hash c1 = kc_class_hash c2 -> c1 = c2.
Proof.
  intros [i Hi]%list_elem_of_lookup [j Hj]%list_elem_of_lookup Heq.
  assert (i = j) as ->; [|congruence].
  apply (NoDup_lookup _ i j (kc_class_hash c1) registry_nodup);
    change (map kc_class_hash known_account_classes) with (kc_class_hash <$> known_account_classes);
    rewrite list_lookup_fmap; [by rewrite Hi|by rewrite Hj, Heq].
Qed.

Lemma lookup_account_class_Some h c :
  lookup_account_class h = Some c <-> c ∈ known_account_classes /\ kc_class_hash c = h.
Proof.
  unfold lookup_account_class. split.
  - intros Hf. apply List.find_some in Hf as [Hin Hh]. split; [by apply list_elem_of_In|].
    by apply bool_decide_eq_true_1 in Hh.
  - intros [Hin Hh]. destruct (List.find _ known_account_classes) as [c'|] eqn:Hf.
    + apply List.find_some in Hf as [Hin' Hh']. apply bool_decide_eq_true_1 in Hh'.
      f_equal. apply registry_unique; [by apply list_elem_of_In|done|congruence].
    + apply (List.find_none _ _) with (x := c) in Hf; [|by apply list_elem_of_In].
      by apply bool_decide_eq_false_1 in Hf.
Qed.

(** Entries with the deployment role are those with a constructor shape, and
    the shape fits the family. *)
Lemma registry_shapes :
  Forall (fun c => (is_deployment_class c = true <-> is_Some (kc_constructor c))
    /\ (kc_family c = FamilyOpenZeppelin -> kc_constructor c = Some ShapePublicKey)
    /\ (kc_constructor c = Some ShapePublicKey -> kc_family c <> FamilyArgent)) known_account_classes.
Proof.
  unfold known_account_classes. rewrite oz_classes_eq.
  repeat (apply Forall_cons; split; [split_and!; cbn; try done;
    split; try done; first [by intros [? ?] | by eexists]|]). constructor.
Qed.
End registry_lemmas.
