(* ===== verification/Inspect.v ===== *)
(** * Deployment inspection

    crates/kms/src/account_class/argent_decode.rs (reading Argent constructor
    calldata back) and inspect.rs (whether a deployment's address is a function
    of a seed-derived key).  [usize] is 64 bits wide. *)

From stdpp Require Import base option list numbers strings.
From Stdlib Require Import ZArith Lia Ascii.
From S2P Require Import Prelude StarkLib StarkModel Types Scalar Serialization TxHash Text Domain Primitives StarkSigning AccountClass.

#[local] Open Scope Z_scope.

(** ** Decoding Argent constructors (argent_decode.rs) *)
Section decode.
Context `{FeltExtras}.

Inductive DecodedArgentConstructor :=
  | StarknetOwnerNoGuardian (owner : Felt)
  | StarknetOwnerWithGuardian (owner : Felt) (guardian : option Felt)
  | NonStarknetOwner (variant : Z).

Definition malformed (detail : string) : KmsError :=
  DeserializationError (String.append "Argent constructor calldata: " detail).

Definition decode_owner_guardian_felts (calldata : list Felt) : Result DecodedArgentConstructor :=
  match calldata with
  | [owner; guardian] =>
      if decide (owner = felt_of_Z 0) then Err (malformed "owner is zero")
      else if decide (guardian = felt_of_Z 0) then Ok (StarknetOwnerNoGuardian owner)
      else Ok (StarknetOwnerWithGuardian owner (Some guardian))
  | _ => Err (malformed "expected [owner, guardian], got {} felts")
  end.

Inductive Signer := SignerStarknet (key : Felt) | SignerOther (variant : Z).

Definition signer_variant (s : Signer) : Z :=
  match s with SignerStarknet _ => 0 | SignerOther variant => variant end.

Definition ETH_ADDRESS_BYTES : nat := 20.
Definition U128_BYTES : nat := 16.

Definition fits (felt : Felt) (bytes : nat) : bool :=
  forallb (fun byte => byte =? 0) (take (32 - bytes) (to_bytes_be felt)).

Definition is_nonzero_u256 (limbs : list Felt) : bool :=
  (length limbs =? 2)%nat && forallb (fun limb => fits limb U128_BYTES) limbs
  && existsb (fun limb => negb (bool_decide (limb = felt_of_Z 0))) limbs.

Definition small_usize (felt : Felt) : option Z :=
  let bytes := to_bytes_be felt in
  if existsb (fun byte => negb (byte =? 0)) (take 24 bytes) then None
  else Some (be_value (drop 24 bytes)).

Definition is_valid_webauthn (payload : list Felt) : bool :=
  match payload with
  | [] => false
  | origin_len :: rest =>
      match small_usize origin_len with
      | None => false
      | Some origin_len =>
          if negb (Z.of_nat (length rest) =? origin_len + 4) then false
          else
            let origin := take (Z.to_nat origin_len) rest in
            let keys := drop (Z.to_nat origin_len) rest in
            forallb (fun byte => fits byte 1) origin && is_nonzero_u256 (take 2 keys)
            && is_nonzero_u256 (drop 2 keys)
      end
  end.

(** The payload width of a signer variant. *)
Definition signer_width (variant : Z) (payload : list Felt) (what : string) : Result Z :=
  if (variant =? 0) || (variant =? 1) || (variant =? 3) then Ok 1
  else if variant =? 2 then Ok 2
  else if variant =? 4 then
    origin_len ← ok_or (match payload with [] => None | first :: _ => small_usize first end)
      (malformed (String.append what " webauthn origin length"));
    ok_or (if origin_len + 5 <=? u64_MAX then Some (origin_len + 5) else None)
      (malformed (String.append what " webauthn origin length"))
  else Err (malformed (String.append what " tag is not a Signer variant")).

(** [payload[0]]: the widths make the index valid. *)
Definition payload_first (payload : list Felt) : Felt := default (felt_of_Z 0) (head payload).

Definition signer_valid (variant : Z) (payload : list Felt) : bool :=
  if variant =? 0 then negb (bool_decide (payload_first payload = felt_of_Z 0))
  else if (variant =? 1) || (variant =? 3) then
    negb (bool_decide (payload_first payload = felt_of_Z 0)) && fits (payload_first payload) ETH_ADDRESS_BYTES
  else if variant =? 2 then is_nonzero_u256 payload
  else is_valid_webauthn payload.

Definition split_signer (tag : Felt) (payload : list Felt) (what : string) : Result (Signer * list Felt) :=
  variant ← ok_or (match small_usize tag with
                   | Some v => if v <=? u8_MAX then Some v else None
                   | None => None
                   end) (malformed (String.append what " tag is not a Signer variant"));
  width ← signer_width variant payload what;
  _ ← reject_if (Z.of_nat (length payload) <? width) (malformed (String.append what " payload is truncated"));
  let rest := drop (Z.to_nat width) payload in
  let payload := take (Z.to_nat width) payload in
  _ ← reject_if (negb (signer_valid variant payload)) (malformed (String.append what " payload is out of range"));
  Ok (if variant =? 0 then SignerStarknet (payload_first payload) else SignerOther variant, rest).

Definition split_optional_signer (calldata : list Felt) : Result (option Signer) :=
  '(tag, rest) ← ok_or (match calldata with [] => None | t :: r => Some (t, r) end)
    (malformed "guardian option is missing");
  '(guardian, rest) ←
    (if decide (tag = felt_of_Z 1) then Ok (None, rest)
     else if decide (tag = felt_of_Z 0) then
       '(tag, payload) ← ok_or (match rest with [] => None | t :: r => Some (t, r) end)
         (malformed "guardian signer is missing");
       '(signer, rest) ← split_signer tag payload "guardian";
       Ok (Some signer, rest)
     else Err (malformed "guardian option tag is not 0 or 1"));
  _ ← reject_if (negb (length rest =? 0)%nat) (malformed "trailing felts after the guardian");
  Ok guardian.

Definition decode_signer_with_optional_guardian (calldata : list Felt) : Result DecodedArgentConstructor :=
  '(owner_tag, rest) ← ok_or (match calldata with [] => None | t :: r => Some (t, r) end) (malformed "empty");
  '(owner, after_owner) ← split_signer owner_tag rest "owner";
  guardian ← split_optional_signer after_owner;
  match owner with
  | SignerOther _ => Ok (NonStarknetOwner (signer_variant owner))
  | SignerStarknet owner_key =>
      Ok (match guardian with
          | None => StarknetOwnerNoGuardian owner_key
          | Some (SignerStarknet key) => StarknetOwnerWithGuardian owner_key (Some key)
          | Some _ => StarknetOwnerWithGuardian owner_key None
          end)
  end.

Definition decode (layout : ArgentConstructorLayout) (calldata : list Felt) : Result DecodedArgentConstructor :=
  match layout with
  | OwnerGuardianFelts => decode_owner_guardian_felts calldata
  | SignerWithOptionalGuardian => decode_signer_with_optional_guardian calldata
  end.
End decode.

(** ** Inspection (inspect.rs) *)
Inductive NotDerivableReason :=
  Guardian | NonStarknetOwnerReason | SaltNotPublicKey | ImplementationClass | ProxyTargetClass
| UnknownProxyImplementation | UnexpectedConstructorCalldata.

Inductive Derivability := FromSeed | NotFromSeed (reason : NotDerivableReason) | UnknownClass.

Section inspect.
Context `{StarkCrypto, !FeltExtras, !FeltFromHex}.

Record DeploymentInspection := {
  di_address : Felt; di_class : option KnownAccountClass; di_owner_public_key : option Felt;
  di_guardian_public_key : option Felt; di_derivability : Derivability }.

Definition di_unknown_class (class : option KnownAccountClass) : DeploymentInspection :=
  {| di_address := felt_of_Z 0; di_class := class; di_owner_public_key := None;
     di_guardian_public_key := None; di_derivability := UnknownClass |}.

Definition di_not_from_seed (class : KnownAccountClass) (owner : option Felt) (reason : NotDerivableReason)
    : DeploymentInspection :=
  {| di_address := felt_of_Z 0; di_class := Some class; di_owner_public_key := owner;
     di_guardian_public_key := None; di_derivability := NotFromSeed reason |}.

Definition di_guarded (class : KnownAccountClass) (owner : Felt) (guardian : option Felt) : DeploymentInspection :=
  {| di_address := felt_of_Z 0; di_class := Some class; di_owner_public_key := Some owner;
     di_guardian_public_key := guardian; di_derivability := NotFromSeed Guardian |}.

Definition di_from_seed (class : KnownAccountClass) (owner : Felt) : DeploymentInspection :=
  {| di_address := felt_of_Z 0; di_class := Some class; di_owner_public_key := Some owner;
     di_guardian_public_key := None; di_derivability := FromSeed |}.

Definition malformed_owner (class : KnownAccountClass) (owner : Felt) : option DeploymentInspection :=
  if negb (is_stark_public_key owner)
  then Some (di_not_from_seed class None UnexpectedConstructorCalldata) else None.

Definition owner_salt_verdict (class : KnownAccountClass) (owner salt : Felt) : DeploymentInspection :=
  if decide (salt = owner) then di_from_seed class owner
  else di_not_from_seed class (Some owner) SaltNotPublicKey.

Definition inspect_public_key_constructor (class : KnownAccountClass) (salt : Felt) (calldata : list Felt)
    : DeploymentInspection :=
  match calldata with
  | [owner] =>
      if negb (is_stark_public_key owner) then di_not_from_seed class None UnexpectedConstructorCalldata
      else
        let zero_salt_allowed :=
          bool_decide (kc_family class = FamilyOpenZeppelin) && bool_decide (salt = felt_of_Z 0) in
        if bool_decide (salt = owner) || zero_salt_allowed then di_from_seed class owner
        else di_not_from_seed class (Some owner) SaltNotPublicKey
  | _ => di_not_from_seed class None UnexpectedConstructorCalldata
  end.

(** [shape.argent_layout().expect(..)] is a panic on the other shapes. *)
Definition inspect_argent_constructor (class : KnownAccountClass) (shape : ConstructorShape) (salt : Felt)
    (calldata : list Felt) : outcome Empty_set DeploymentInspection :=
  layout ← expect (argent_layout shape);
  Ok (match decode layout calldata with
      | Ok (NonStarknetOwner _) => di_not_from_seed class None NonStarknetOwnerReason
      | Ok (StarknetOwnerWithGuardian owner guardian) =>
          default (di_guarded class owner guardian) (malformed_owner class owner)
      | Ok (StarknetOwnerNoGuardian owner) =>
          default (owner_salt_verdict class owner salt) (malformed_owner class owner)
      | _ => di_not_from_seed class None UnexpectedConstructorCalldata
      end).

Definition inspect_argent_cairo0_proxy (class : KnownAccountClass) (salt : Felt) (calldata : list Felt)
    : DeploymentInspection :=
  match calldata with
  | [implementation; selector; arity; owner; guardian] =>
      if negb (bool_decide (selector = INITIALIZE_SELECTOR)) || negb (bool_decide (arity = felt_of_Z 2))
      then di_not_from_seed class None UnexpectedConstructorCalldata
      else match malformed_owner class owner with
           | Some inspection => inspection
           | None =>
               if negb (is_known_implementation implementation)
               then di_not_from_seed class (Some owner) UnknownProxyImplementation
               else if negb (bool_decide (guardian = felt_of_Z 0))
               then di_guarded class owner (Some guardian)
               else owner_salt_verdict class owner salt
           end
  | _ => di_not_from_seed class None UnexpectedConstructorCalldata
  end.

Definition classify (class_hash salt : Felt) (constructor_calldata : list Felt)
    : outcome Empty_set DeploymentInspection :=
  match lookup_account_class class_hash with
  | None => Ok (di_unknown_class None)
  | Some class =>
      match kc_constructor class with
      | None =>
          let reason := if is_proxy_target class then ProxyTargetClass else ImplementationClass in
          Ok (di_not_from_seed class None reason)
      | Some shape =>
          match shape with
          | ShapePublicKey => Ok (inspect_public_key_constructor class salt constructor_calldata)
          | ShapeArgentOwnerGuardianFelts | ShapeArgentSignerWithOptionalGuardian =>
              inspect_argent_constructor class shape salt constructor_calldata
          | ShapeArgentCairo0Proxy => Ok (inspect_argent_cairo0_proxy class salt constructor_calldata)
          end
      end
  end.

Definition inspect_deployment (class_hash salt : Felt) (constructor_calldata : list Felt)
    : outcome Empty_set DeploymentInspection :=
  inspection ← classify class_hash salt constructor_calldata;
  address ← expect (to_option (calculate_contract_address salt class_hash constructor_calldata (felt_of_Z 0)));
  Ok {| di_address := address; di_class := di_class inspection;
        di_owner_public_key := di_owner_public_key inspection;
        di_guardian_public_key := di_guardian_public_key inspection;
        di_derivability := di_derivability inspection |}.
End inspect.

(** ** Decoding lemmas *)
Section decode_lemmas.
Context `{FeltExtrasLaws, !StarkLaws}.
Implicit Types (f owner guardian : Felt) (l : list Felt).

Lemma be_value_zero (bs : list Z) :
  Forall byte_ok bs -> be_value bs = 0 <-> existsb (fun byte => negb (byte =? 0)) bs = false.
Proof.
  induction 1 as [|b bs Hb Hbs IH]; [done|]. cbn [existsb]. rewrite be_value_cons, orb_false_iff, <- IH.
  rewrite negb_false_iff, Z.eqb_eq. pose proof (be_value_bound bs Hbs) as Hv. unfold byte_ok in Hb.
  assert (0 < 256 ^ Z.of_nat (length bs)) by (apply Z.pow_pos_nonneg; lia). split; nia.
Qed.

Lemma small_usize_Some f v : small_usize f = Some v <-> felt_val f = v /\ felt_val f < 2 ^ 64.
Proof.
  unfold small_usize, felt_val. pose proof (to_bytes_be_ok f) as Hok. pose proof (to_bytes_be_length f) as Hlen.
  set (bs := to_bytes_be f) in *. rewrite <- (take_drop 24 bs) at 3 4.
  assert (length (drop 24 bs) = 8%nat) as Hd by (rewrite length_drop, Hlen; done).
  rewrite be_value_app, Hd. change (256 ^ Z.of_nat 8) with (2 ^ 64).
  assert (Forall byte_ok (take 24 bs)) as Ht by by apply Forall_take.
  assert (Forall byte_ok (drop 24 bs)) as Hdr by by apply Forall_drop.
  pose proof (be_value_bound _ Ht). pose proof (be_value_bound _ Hdr) as Hdb. rewrite Hd in Hdb.
  change (256 ^ Z.of_nat 8) with (2 ^ 64) in Hdb.
  destruct (existsb _ _) eqn:He.
  - split; [done|]. intros [_ Hlt]. assert (be_value (take 24 bs) = 0) as Hz by lia.
    apply be_value_zero in Hz; [congruence|done].
  - apply be_value_zero in He; [|done]. rewrite He. split; [intros [= <-]; lia|].
    intros [<- _]. by rewrite Z.mul_0_l, Z.add_0_l.
Qed.

Lemma felt_zero_val : felt_val (felt_of_Z 0) = 0.
Proof. by apply felt_of_Z_small. Qed.

Lemma small_usize_zero : small_usize (felt_of_Z 0) = Some 0.
Proof. apply small_usize_Some. by rewrite felt_zero_val. Qed.

Lemma felt_one_not_zero : felt_of_Z 1 <> felt_of_Z 0.
Proof. intros Heq. by apply felt_of_Z_inj in Heq. Qed.

(** Tag 0 with a non-zero key is a Starknet signer, and nothing else is. *)
Lemma split_signer_starknet key rest what :
  key <> felt_of_Z 0 -> split_signer (felt_of_Z 0) (key :: rest) what = Ok (SignerStarknet key, rest).
Proof.
  intros Hk. unfold split_signer. rewrite small_usize_zero. change (0 <=? u8_MAX) with true.
  cbn [ok_or mbind outcome_bind]. change (signer_width 0 (key :: rest) what) with (@Ok KmsError Z 1).
  cbn [mbind outcome_bind]. rewrite (proj2 (Z.ltb_ge (Z.of_nat (length (key :: rest))) 1)) by (cbn [length]; lia).
  unfold signer_valid, payload_first. cbn. by rewrite bool_decide_eq_false_2.
Qed.

Lemma split_signer_inv tag payload what key rest :
  split_signer tag payload what = Ok (SignerStarknet key, rest) ->
  tag = felt_of_Z 0 /\ payload = key :: rest /\ key <> felt_of_Z 0.
Proof.
  unfold split_signer. intros (variant & Hv & Hs)%bind_Ok. apply ok_or_Ok in Hv.
  destruct (small_usize tag) as [v|] eqn:Htag; [|done]. destruct (v <=? u8_MAX); [|done].
  injection Hv as ->. apply bind_Ok in Hs as (width & Hw & Hs). apply bind_Ok in Hs as (u & Hlen & Hs).
  apply bind_Ok in Hs as (u' & Hval & Hs). apply reject_if_Ok, Z.ltb_ge in Hlen.
  apply reject_if_Ok, negb_false_iff in Hval.
  destruct (Z.eqb_spec variant 0) as [->|]; [|by injection Hs].
  cbn in Hw. injection Hw as <-. destruct payload as [|x payload]; [cbn in Hlen; lia|].
  change (Z.to_nat 1) with 1%nat in *. unfold signer_valid, payload_first in Hval. cbn in Hs, Hval.
  rewrite drop_0 in Hs. injection Hs as <- <-. apply negb_true_iff, bool_decide_eq_false_1 in Hval.
  apply small_usize_Some in Htag as [Htag _]. split; [|done].
  apply felt_val_inj. by rewrite Htag, felt_zero_val.
Qed.

Lemma split_optional_signer_none l : split_optional_signer l = Ok None <-> l = serialize_cairo_none.
Proof.
  unfold split_optional_signer, serialize_cairo_none. split.
  - intros ([tag rest] & Ht & Hs)%bind_Ok. apply ok_or_Ok in Ht. destruct l as [|t r]; [done|].
    injection Ht as -> ->. apply bind_Ok in Hs as ([g rest'] & Hg & Hs). apply bind_Ok in Hs as (u & Hr & Hs).
    injection Hs as ->. apply reject_if_Ok, negb_false_iff, Nat.eqb_eq in Hr.
    destruct rest' as [|? ?]; [|done]. destruct (decide (tag = felt_of_Z 1)) as [->|].
    + by injection Hg as ->.
    + destruct (decide (tag = felt_of_Z 0)); [|done]. apply bind_Ok in Hg as ([t' p] & _ & Hg).
      apply bind_Ok in Hg as ([sg rr] & _ & Hg). discriminate Hg.
  - intros ->. cbn. by rewrite decide_True.
Qed.

Lemma split_optional_signer_some l key :
  split_optional_signer l = Ok (Some (SignerStarknet key))
  <-> l = [felt_of_Z 0; felt_of_Z 0; key] /\ key <> felt_of_Z 0.
Proof.
  unfold split_optional_signer. split.
  - intros ([tag rest] & Ht & Hs)%bind_Ok. apply ok_or_Ok in Ht. destruct l as [|t r]; [done|].
    injection Ht as -> ->. apply bind_Ok in Hs as ([g rest'] & Hg & Hs). apply bind_Ok in Hs as (u & Hr & Hs).
    injection Hs as ->. apply reject_if_Ok, negb_false_iff, Nat.eqb_eq in Hr.
    destruct rest' as [|? ?]; [|done]. destruct (decide (tag = felt_of_Z 1)) as [->|]; [by injection Hg|].
    destruct (decide (tag = felt_of_Z 0)) as [->|]; [|done].
    apply bind_Ok in Hg as ([t' p] & Ht' & Hg). apply ok_or_Ok in Ht'.
    destruct rest as [|t'' p']; [done|]. injection Ht' as -> ->.
    apply bind_Ok in Hg as ([sg rr] & Hsg & Hg). injection Hg as -> ->.
    apply split_signer_inv in Hsg as (-> & -> & Hk). done.
  - intros [-> Hk]. cbn [ok_or mbind outcome_bind]. rewrite decide_False by (intros E; by apply felt_one_not_zero).
    rewrite decide_True by done. cbn [ok_or mbind outcome_bind].
    rewrite split_signer_starknet by done. done.
Qed.

(** The decoder inverts the two builders, and accepts nothing else as theirs. *)
Lemma decode_no_guardian layout cd owner :
  decode layout cd = Ok (StarknetOwnerNoGuardian owner)
  <-> owner <> felt_of_Z 0 /\ cd = constructor_calldata layout owner.
Proof.
  destruct layout; cbn [decode constructor_calldata].
  - unfold decode_owner_guardian_felts. split.
    + destruct cd as [|o [|g [|]]]; try done. destruct (decide (o = felt_of_Z 0)); [done|].
      destruct (decide (g = felt_of_Z 0)) as [->|]; [|done]. by intros [= ->].
    + intros [Ho ->]. by rewrite decide_False, decide_True.
  - unfold decode_signer_with_optional_guardian. split.
    + intros ([tag rest] & Ht & Hs)%bind_Ok. apply ok_or_Ok in Ht. destruct cd as [|t r]; [done|].
      injection Ht as -> ->. apply bind_Ok in Hs as ([sg after] & Hsg & Hs). apply bind_Ok in Hs as (g & Hg & Hs).
      destruct sg as [key|v]; [|done]. destruct g as [[]|]; try done. injection Hs as ->.
      apply split_signer_inv in Hsg as (-> & -> & Hk). apply split_optional_signer_none in Hg as ->. done.
    + intros [Ho ->]. cbn [app ok_or mbind outcome_bind]. rewrite split_signer_starknet by done.
      cbn [mbind outcome_bind]. by rewrite (proj2 (split_optional_signer_none _) eq_refl).
Qed.

Lemma decode_guardian layout cd owner guardian :
  decode layout cd = Ok (StarknetOwnerWithGuardian owner (Some guardian))
  <-> owner <> felt_of_Z 0 /\ guardian <> felt_of_Z 0
      /\ cd = constructor_calldata_with_guardian layout owner guardian.
Proof.
  unfold constructor_calldata_with_guardian. destruct layout; cbn [decode].
  - unfold decode_owner_guardian_felts. split.
    + destruct cd as [|o [|g [|]]]; try done. destruct (decide (o = felt_of_Z 0)); [done|].
      destruct (decide (g = felt_of_Z 0)) as [->|Hg]; [done|]. intros [= -> ->]. by rewrite decide_False.
    + intros (Ho & Hg & ->). by rewrite !decide_False.
  - unfold decode_signer_with_optional_guardian. split.
    + intros ([tag rest] & Ht & Hs)%bind_Ok. apply ok_or_Ok in Ht. destruct cd as [|t r]; [done|].
      injection Ht as -> ->. apply bind_Ok in Hs as ([sg after] & Hsg & Hs). apply bind_Ok in Hs as (g & Hg & Hs).
      destruct sg as [key|v]; [|done]. destruct g as [[gk|]|]; try done. injection Hs as -> ->.
      apply split_signer_inv in Hsg as (-> & -> & Hk). apply split_optional_signer_some in Hg as [-> Hgk].
      by rewrite decide_False.
    + intros (Ho & Hg & ->). rewrite decide_False by done. cbn [app ok_or mbind outcome_bind].
      rewrite split_signer_starknet by done. cbn [mbind outcome_bind].
      by rewrite (proj2 (split_optional_signer_some _ guardian)).
Qed.
End decode_lemmas.

(** ** What a seed reproduces

    The calldata and salt that discovery uses for a key, by constructor shape. *)
Definition seed_deployment `{FeltExtras} (class : KnownAccountClass) (salt : Felt) (cd : list Felt)
    (owner : Felt) : Prop :=
  match kc_constructor class with
  | Some ShapePublicKey =>
      cd = [owner] /\ (salt = owner \/ kc_family class = FamilyOpenZeppelin /\ salt = felt_of_Z 0)
  | Some ShapeArgentOwnerGuardianFelts =>
      owner <> felt_of_Z 0 /\ cd = constructor_calldata OwnerGuardianFelts owner /\ salt = owner
  | Some ShapeArgentSignerWithOptionalGuardian =>
      owner <> felt_of_Z 0 /\ cd = constructor_calldata SignerWithOptionalGuardian owner /\ salt = owner
  | Some ShapeArgentCairo0Proxy =>
      exists implementation, is_known_implementation implementation = true
        /\ cd = cairo0_calldata implementation owner /\ salt = owner
  | None => False
  end.

(** The inspection says "from the seed of [owner]". *)
Definition says_from_seed `{StarkTypes} (i : DeploymentInspection) (owner : Felt) : Prop :=
  di_derivability i = FromSeed /\ di_owner_public_key i = Some owner.

(** What holds of every classification of a known class. *)
Definition classification_ok `{StarkCrypto, !FeltExtras} (class : KnownAccountClass) (salt : Felt)
    (cd : list Felt) (i : DeploymentInspection) : Prop :=
  di_class i = Some class /\ di_derivability i <> UnknownClass
  /\ (forall owner, di_owner_public_key i = Some owner -> is_stark_public_key owner = true)
  /\ (forall owner, says_from_seed i owner <-> is_stark_public_key owner = true /\ seed_deployment class salt cd owner).

Section inspect_lemmas.
Context `{FeltExtrasLaws, !StarkLaws, !StarkCrypto, !FeltFromHex}.
Implicit Types (class : KnownAccountClass) (cd : list Felt) (salt owner : Felt).

Lemma not_from_seed_ok class salt cd o reason :
  (forall owner, o = Some owner -> is_stark_public_key owner = true) ->
  (forall owner, is_stark_public_key owner = true -> ~ seed_deployment class salt cd owner) ->
  classification_ok class salt cd (di_not_from_seed class o reason).
Proof.
  intros Ho Hno. split_and!; [done|done|done|]. intros owner. split; [by intros [? _]|].
  intros [Hk Hs]. by destruct (Hno owner Hk).
Qed.

Lemma guarded_ok class salt cd o g :
  is_stark_public_key o = true ->
  (forall owner, is_stark_public_key owner = true -> ~ seed_deployment class salt cd owner) ->
  classification_ok class salt cd (di_guarded class o g).
Proof.
  intros Ho Hno. split_and!; [done|done|by intros ? [= <-]|]. intros owner. split; [by intros [? _]|].
  intros [Hk Hs]. by destruct (Hno owner Hk).
Qed.

Lemma from_seed_ok class salt cd o :
  is_stark_public_key o = true -> seed_deployment class salt cd o ->
  (forall owner, seed_deployment class salt cd owner -> owner = o) ->
  classification_ok class salt cd (di_from_seed class o).
Proof.
  intros Ho Hs Huniq. split_and!; [done|done|by intros ? [= <-]|]. intros owner. split.
  - by intros [_ [= <-]].
  - intros [_ ->%Huniq]. done.
Qed.

Lemma inspect_public_key_ok class salt cd :
  kc_constructor class = Some ShapePublicKey ->
  classification_ok class salt cd (inspect_public_key_constructor class salt cd).
Proof.
  intros Hc. unfold inspect_public_key_constructor.
  destruct cd as [|o [|? ?]]; try (apply not_from_seed_ok; [done|unfold seed_deployment; rewrite Hc; by intros ? _ [? _]]).
  destruct (is_stark_public_key o) eqn:Ho; cbn [negb].
  2: { apply not_from_seed_ok; [done|]. unfold seed_deployment. rewrite Hc. intros owner Hk [[= ->] _]. congruence. }
  destruct (bool_decide (salt = o) || _) eqn:Hb.
  - apply from_seed_ok; [done|unfold seed_deployment; rewrite Hc; split; [done|]
                        |unfold seed_deployment; rewrite Hc; by intros owner [[= ->] _]].
    apply orb_true_iff in Hb as [Hb%bool_decide_eq_true_1|[Hf%bool_decide_eq_true_1 Hz%bool_decide_eq_true_1]%andb_prop]; auto.
  - apply not_from_seed_ok; [by intros ? [= <-]|]. unfold seed_deployment. rewrite Hc. intros owner _ [[= ->] Hs].
    apply orb_false_iff in Hb as [Hb%bool_decide_eq_false_1 Hz]. destruct Hs as [->|[Hf ->]]; [done|].
    by rewrite !bool_decide_eq_true_2 in Hz.
Qed.

Lemma constructor_calldata_inj layout o1 o2 :
  constructor_calldata layout o1 = constructor_calldata layout o2 -> o1 = o2.
Proof. destruct layout; by intros [= ->]. Qed.

(** The two Argent Cairo 1 shapes. *)
Definition argent_shape (layout : ArgentConstructorLayout) : ConstructorShape := shape_of_layout layout.

Lemma seed_deployment_argent class salt cd owner layout :
  kc_constructor class = Some (argent_shape layout) ->
  seed_deployment class salt cd owner
  <-> decode layout cd = Ok (StarknetOwnerNoGuardian owner) /\ salt = owner.
Proof.
  intros Hc. rewrite decode_no_guardian. unfold seed_deployment. rewrite Hc. destruct layout; cbn; tauto.
Qed.

Lemma inspect_argent_ok class salt cd layout :
  kc_constructor class = Some (argent_shape layout) ->
  exists i, inspect_argent_constructor class (argent_shape layout) salt cd = Ok i /\ classification_ok class salt cd i.
Proof.
  intros Hc. unfold inspect_argent_constructor.
  assert (argent_layout (argent_shape layout) = Some layout) as -> by by destruct layout.
  cbn [expect mbind outcome_bind]. eexists. split; [done|].
  pose proof (fun owner => seed_deployment_argent class salt cd owner layout Hc) as Hseed.
  destruct (decode layout cd) as [[o|o g|v]|e|] eqn:Hd.
  all: unfold malformed_owner; try (destruct (is_stark_public_key o) eqn:Ho; cbn [negb from_option id]).
  all: try (apply not_from_seed_ok; [done|]; intros owner ? [Hs _]%Hseed; congruence).
  - unfold owner_salt_verdict. destruct (decide (salt = o)) as [->|Hne].
    + apply from_seed_ok; [done|by apply Hseed|]. intros owner [Hs _]%Hseed. congruence.
    + apply not_from_seed_ok; [by intros ? [= <-]|]. intros owner _ [Hs ->]%Hseed. congruence.
  - apply guarded_ok; [done|]. intros owner _ [Hs _]%Hseed. congruence.
Qed.

Lemma inspect_cairo0_ok class salt cd :
  kc_constructor class = Some ShapeArgentCairo0Proxy ->
  classification_ok class salt cd (inspect_argent_cairo0_proxy class salt cd).
Proof.
  intros Hc.
  assert (forall owner, seed_deployment class salt cd owner <->
    exists impl, is_known_implementation impl = true /\ cd = cairo0_calldata impl owner /\ salt = owner) as Hseed
    by (intros owner; unfold seed_deployment; by rewrite Hc).
  unfold inspect_argent_cairo0_proxy.
  destruct cd as [|impl [|selector [|arity [|o [|g [|]]]]]];
    try (apply not_from_seed_ok; [done|]; by intros owner _ (? & _ & ? & _)%Hseed).
  destruct (negb (bool_decide (selector = INITIALIZE_SELECTOR)) || _) eqn:Hb.
  { apply not_from_seed_ok; [done|]. intros owner _ (im & _ & [= -> -> -> -> ->] & _)%Hseed.
    by rewrite !bool_decide_eq_true_2 in Hb. }
  unfold malformed_owner. destruct (is_stark_public_key o) eqn:Ho; cbn [negb].
  2: { apply not_from_seed_ok; [done|]. intros owner Hk (im & _ & [= -> _ _ -> _] & _)%Hseed. congruence. }
  destruct (is_known_implementation impl) eqn:Hi; cbn [negb].
  2: { apply not_from_seed_ok; [by intros ? [= <-]|].
       intros owner _ (im & Him & [= -> _ _ -> _] & _)%Hseed. congruence. }
  destruct (bool_decide_reflect (g = felt_of_Z 0)) as [->|Hg]; cbn [negb].
  2: { apply guarded_ok; [done|]. by intros owner _ (im & _ & [= _ _ _ _ ->] & _)%Hseed. }
  apply orb_false_iff in Hb as [Hsel Har]. apply negb_false_iff, bool_decide_eq_true_1 in Hsel, Har.
  unfold owner_salt_verdict. destruct (decide (salt = o)) as [->|Hne].
  - apply from_seed_ok; [done| |by intros owner (im & _ & [= _ _ _ ->] & _)%Hseed].
    apply Hseed. exists impl. subst. done.
  - apply not_from_seed_ok; [by intros ? [= <-]|]. intros owner _ (im & _ & [= _ _ _ ->] & ->)%Hseed. done.
Qed.

Lemma classify_ok class_hash salt cd :
  (lookup_account_class class_hash = None /\ classify class_hash salt cd = Ok (di_unknown_class None))
  \/ (exists class i, lookup_account_class class_hash = Some class
      /\ classify class_hash salt cd = Ok i /\ classification_ok class salt cd i).
Proof.
  unfold classify. destruct (lookup_account_class class_hash) as [class|]; [right; exists class|by left].
  destruct (kc_constructor class) as [[]|] eqn:Hc.
  - eexists. split_and!; [done..|by apply inspect_public_key_ok].
  - destruct (inspect_argent_ok class salt cd OwnerGuardianFelts Hc) as (i & Hi & Hok). eauto.
  - destruct (inspect_argent_ok class salt cd SignerWithOptionalGuardian Hc) as (i & Hi & Hok). eauto.
  - eexists. split_and!; [done..|by apply inspect_cairo0_ok].
  - eexists. split_and!; [done..|]. apply not_from_seed_ok; [done|].
    intros owner _. unfold seed_deployment. rewrite Hc. intros [].
Qed.
End inspect_lemmas.

Lemma lookup_argent_v040 `{FeltExtrasLaws, !StarkLaws, !FeltFromHex} :
  exists class, lookup_account_class argent_CLASS_HASH = Some class
    /\ kc_constructor class = Some ShapeArgentSignerWithOptionalGuardian.
Proof.
  eexists. split; [apply lookup_account_class_Some; split|].
  - unfold known_account_classes. rewrite !elem_of_app. right. left.
    unfold argent_cairo1_classes. cbn [map argent_known_classes]. right. left.
  - reflexivity.
  - reflexivity.
Qed.

Lemma inspect_spec `{FeltExtrasLaws, !StarkLaws, !StarkCrypto, !FeltFromHex} class_hash salt cd :
  exists i, inspect_deployment class_hash salt cd = Ok i
    /\ calculate_contract_address salt class_hash cd (felt_of_Z 0) = Ok (di_address i)
    /\ di_class i = lookup_account_class class_hash
    /\ (di_derivability i = UnknownClass <-> lookup_account_class class_hash = None)
    /\ (forall owner, di_owner_public_key i = Some owner -> is_stark_public_key owner = true)
    /\ (forall owner, says_from_seed i owner <->
          exists class, lookup_account_class class_hash = Some class
            /\ is_stark_public_key owner = true /\ seed_deployment class salt cd owner).
Proof.
  unfold inspect_deployment. rewrite calculate_contract_address_eq.
  destruct (classify_ok class_hash salt cd) as [[Hl ->]|(class & i & Hl & -> & Hcl & Hk & Hown & Hseed)];
    cbn [to_option expect mbind outcome_bind]; eexists; rewrite Hl; (split; [done|]); cbn.
  - split_and!; [done..|]. intros owner. split; [by intros [? _]|by intros (? & ? & _)].
  - split_and!; [done..|split; [by intros E%Hk|done]|done|].
    intros owner. split.
    + intros Hs. exists class. by destruct (proj1 (Hseed owner) Hs).
    + intros (c & [= <-] & Hpk & Hs). by apply Hseed.
Qed.

(** ** Properties *)

(** C33: Inspecting a deployment never panics and reports the address its fields fix; it says a
    deployment comes from a seed exactly when its class is in the registry and its calldata and
    salt are the ones discovery uses for that owner key, and every owner it names can be a
    Stark public key. *)
Theorem inspect_deployment_correct `{FeltExtrasLaws, !StarkLaws, !StarkCrypto, !FeltFromHex} class_hash salt cd :
  exists i, inspect_deployment class_hash salt cd = Ok i
    /\ calculate_contract_address salt class_hash cd (felt_of_Z 0) = Ok (di_address i)
    /\ di_class i = lookup_account_class class_hash
    /\ (di_derivability i = UnknownClass <-> lookup_account_class class_hash = None)
    /\ (forall owner, di_owner_public_key i = Some owner -> is_stark_public_key owner = true)
    /\ (forall owner, says_from_seed i owner <->
          exists class, lookup_account_class class_hash = Some class
            /\ is_stark_public_key owner = true /\ seed_deployment class salt cd owner).
Proof. apply inspect_spec. Qed.

(** Decoding an Argent constructor inverts both builders, and accepts as an owner
    with or without a Starknet guardian nothing but what they build. *)
Theorem argent_decode_exact `{FeltExtrasLaws, !StarkLaws} layout cd owner guardian :
  (decode layout cd = Ok (StarknetOwnerNoGuardian owner)
   <-> owner <> felt_of_Z 0 /\ cd = constructor_calldata layout owner)
  /\ (decode layout cd = Ok (StarknetOwnerWithGuardian owner (Some guardian))
      <-> owner <> felt_of_Z 0 /\ guardian <> felt_of_Z 0
          /\ cd = constructor_calldata_with_guardian layout owner guardian).
Proof. split; [apply decode_no_guardian|apply decode_guardian]. Qed.

(** ** Witnesses *)
#[local] Existing Instance model_extras.
#[local] Existing Instance model_extras_laws.
#[local] Existing Instance model_stark_crypto.
#[local] Existing Instance model_stark_crypto_laws.
#[local] Existing Instance model_felt_from_hex.

(** The generator's coordinate, which is on the curve. *)
Definition wit_owner : @Felt model_types := mk GXv.
Definition wit_guardian : @Felt model_types := mk 7.

Lemma wit_owner_on_curve : is_stark_public_key wit_owner = true.
Proof. apply is_stark_public_key_spec. exists GYv. rewrite model_felt_val. vm_compute. reflexivity. Qed.

(** An Argent v0.4.0 account salted with its owner key is found from a seed. *)
Lemma inspect_deployment_correct_witness :
  exists i, inspect_deployment argent_CLASS_HASH wit_owner (constructor_calldata SignerWithOptionalGuardian wit_owner) = Ok i
    /\ says_from_seed i wit_owner.
Proof.
  destruct (@inspect_deployment_correct model_types model_extras model_extras_laws model_laws model_stark_crypto
              model_felt_from_hex argent_CLASS_HASH wit_owner
              (constructor_calldata SignerWithOptionalGuardian wit_owner)) as (i & Hi & _ & _ & _ & _ & Hs).
  exists i. split; [exact Hi|]. apply Hs.
  destruct lookup_argent_v040 as (class & Hl & Hc). exists class. split; [exact Hl|].
  split; [exact wit_owner_on_curve|]. unfold seed_deployment. rewrite Hc. split; [|split; reflexivity]. intros Heq. apply (f_equal mval) in Heq. vm_compute in Heq. discriminate Heq.
Defined.

Lemma argent_decode_exact_witness :
  decode SignerWithOptionalGuardian (constructor_calldata_with_guardian SignerWithOptionalGuardian wit_owner wit_guardian)
  = Ok (StarknetOwnerWithGuardian wit_owner (Some wit_guardian)).
Proof.
  apply (@argent_decode_exact model_types model_extras model_extras_laws model_laws SignerWithOptionalGuardian
           (constructor_calldata_with_guardian SignerWithOptionalGuardian wit_owner wit_guardian) wit_owner wit_guardian).
  split_and!; [| |reflexivity]; intros Heq; apply (f_equal mval) in Heq; vm_compute in Heq; discriminate Heq.
Defined.
