(* ===== verification/Discovery.v ===== *)
(** * Account discovery

    crates/kms/src/discovery/: the candidate accounts of a mnemonic
    (generate.rs) and their types (types.rs).  It composes key derivation
    ([Derivation]), public keys ([StarkSigning]), the class registry
    ([AccountClass]) and addresses ([TxHash]); [Inspect] is its converse. *)

From stdpp Require Import base option list numbers strings.
From Stdlib Require Import ZArith Lia Ascii.
From S2P Require Import Prelude StarkLib StarkModel Types Scalar Serialization TxHash Text Domain Primitives Derivation StarkSigning AccountClass Inspect.

#[local] Open Scope Z_scope.

(** ** Types (types.rs) *)
Inductive WalletType := WBraavos | WArgent | WArgentLegacy | WArgentCairo0 | WOpenZeppelin.
Inductive DerivationType := Direct | ArgentLegacy.

(** Strings are UTF-8 bytes. *)
Record CandidateAccount := {
  ca_wallet_type : WalletType; ca_class_hash : list Z; ca_address : list Z; ca_public_key : list Z;
  ca_private_key : list Z; ca_derivation_index : Z; ca_derivation_path : list Z; ca_class_version : list Z }.

Record DerivedKeypair := {
  dk_derivation_type : DerivationType; dk_public_key : list Z; dk_private_key : list Z;
  dk_derivation_index : Z; dk_derivation_path : list Z }.

Definition require_private_key (private_key : list Z) : Result (list Z) :=
  _ ← reject_if (length private_key =? 0)%nat
    (InvalidPrivateKey "candidate has no private key material (deserialized from public-only JSON?)");
  Ok private_key.

Definition verify_key_binding `{StarkCrypto, !FeltFromHex} (private_key public_key : list Z) : Result unit :=
  private_key ← require_private_key private_key;
  private ← ok_or (felt_from_hex private_key) (InvalidPrivateKey "invalid private key hex: {e}");
  expected_public ← ok_or (felt_from_hex public_key) (InvalidPublicKey "invalid public key hex: {e}");
  derived_public ← stark_public_key (felt_of_Z private);
  reject_if (negb (bool_decide (derived_public = felt_of_Z expected_public)))
    (InvalidPrivateKey "private key does not derive the candidate's public key").

Definition expose_private_key (c : CandidateAccount) : Result (list Z) := require_private_key (ca_private_key c).

(** A field of the JSON object that [Serialize] writes. *)
Inductive FieldValue := FWallet (w : WalletType) | FText (t : list Z) | FNumber (n : Z).

Definition candidate_serialize (c : CandidateAccount) : list (string * FieldValue) :=
  [("walletType", FWallet (ca_wallet_type c)); ("classHash", FText (ca_class_hash c));
   ("address", FText (ca_address c)); ("publicKey", FText (ca_public_key c));
   ("derivationIndex", FNumber (ca_derivation_index c)); ("derivationPath", FText (ca_derivation_path c));
   ("classVersion", FText (ca_class_version c))].

(** The fields of [CandidateAccountWithSecrets]. *)
Definition with_secrets (c : CandidateAccount) : Result (list (string * FieldValue)) :=
  private_key ← require_private_key (ca_private_key c);
  Ok [("walletType", FWallet (ca_wallet_type c)); ("classHash", FText (ca_class_hash c));
      ("address", FText (ca_address c)); ("publicKey", FText (ca_public_key c));
      ("privateKey", FText private_key);
      ("derivationIndex", FNumber (ca_derivation_index c)); ("derivationPath", FText (ca_derivation_path c));
      ("classVersion", FText (ca_class_version c))].

(** ** Generation (generate.rs) *)
Definition MAX_DISCOVERY_INDEX : Z := 1024.

(** How many hexadecimal digits [{:x}] prints. *)
Definition hex_len (v : Z) : nat := S (Z.to_nat (Z.log2 v / 4)).

(** [format!("{:#x}", f)]. *)
Definition felt_hex `{StarkTypes} (f : Felt) : list Z := px ++ hex_print (hex_len (felt_val f)) (felt_val f).

Definition validate_discovery_inputs `{Bip39} (mnemonic : list Z) (max_index : Z) : Result unit :=
  _ ← reject_if (MAX_DISCOVERY_INDEX <? max_index)
    (InvalidDerivationPath "max_index {max_index} exceeds the discovery limit of {MAX_DISCOVERY_INDEX}");
  validate_mnemonic mnemonic.

Definition direct_path_text (index : Z) : list Z := string_bytes "m/44'/9004'/0'/0/" ++ print_u128 index.
Definition legacy_path_text (index : Z) : list Z :=
  string_bytes "m/44'/60'/0'/0/0 -> m/44'/9004'/0'/0/" ++ print_u128 index.

(** [sort_by_key] with a boolean key: stable, [false] first. *)
Definition sort_by_bool {A} (key : A -> bool) (l : list A) : list A :=
  List.filter (fun a => negb (key a)) l ++ List.filter key l.

Section generate.
Context `{HashFns, Secp256k1, Bip39, StarkCrypto, !FeltExtras, !FeltFromHex}.

(** The body of the keypair loop, for one index. *)
Definition keypairs_at (mnemonic : list Z) (keypairs : list DerivedKeypair) (index : Z)
    : Result (list DerivedKeypair) :=
  direct_pk ← derive_private_key_with_coin_type mnemonic index 0 STARKNET_COIN_TYPE None;
  direct_pubk ← stark_public_key direct_pk;
  let keypairs := keypairs ++
    [{| dk_derivation_type := Direct; dk_public_key := felt_hex direct_pubk;
        dk_private_key := felt_hex direct_pk; dk_derivation_index := index;
        dk_derivation_path := direct_path_text index |}] in
  legacy_pk ← derive_argent_legacy_private_key mnemonic index 0;
  legacy_pubk ← stark_public_key legacy_pk;
  Ok (keypairs ++
    [{| dk_derivation_type := ArgentLegacy; dk_public_key := felt_hex legacy_pubk;
        dk_private_key := felt_hex legacy_pk; dk_derivation_index := index;
        dk_derivation_path := legacy_path_text index |}]).

Definition derive_discovery_keypairs (mnemonic : list Z) (max_index : Z) : Result (list DerivedKeypair) :=
  _ ← validate_discovery_inputs mnemonic max_index;
  foldM (keypairs_at mnemonic) [] (seqZ 0 max_index).

Record DerivedKey := { key_private : Felt; key_public : Felt; key_index : Z; key_path : list Z }.

Definition candidate (key : DerivedKey) (wallet_type : WalletType) (class_hash address : Felt)
    (class_version : list Z) : CandidateAccount :=
  {| ca_wallet_type := wallet_type; ca_class_hash := felt_hex class_hash; ca_address := felt_hex address;
     ca_public_key := felt_hex (key_public key); ca_private_key := felt_hex (key_private key);
     ca_derivation_index := key_index key; ca_derivation_path := key_path key;
     ca_class_version := class_version |}.

Record DiscoveryClasses := {
  dc_braavos : list KnownAccountClass; dc_open_zeppelin : list KnownAccountClass;
  dc_argent : list (Felt * string * ArgentConstructorLayout); dc_argent_cairo0 : list (Felt * string) }.

Definition discovery_classes_load : DiscoveryClasses :=
  let default_argent := argent_class_hash argent_new in
  {| dc_braavos := deployment_classes FamilyBraavos;
     dc_open_zeppelin := deployment_classes FamilyOpenZeppelin;
     dc_argent := sort_by_bool (fun '(class_hash, _, _) => negb (bool_decide (class_hash = default_argent)))
                    argent_known_classes;
     dc_argent_cairo0 := known_implementations |}.

Definition push_braavos_candidates (classes : DiscoveryClasses) (key : DerivedKey) (out : list CandidateAccount)
    : Result (list CandidateAccount) :=
  foldM (fun out class =>
    address ← calculate_address (braavos_account_class (braavos_with_class_hash (kc_class_hash class)))
                (key_public key) SaltPublicKey;
    Ok (out ++ [candidate key WBraavos (kc_class_hash class) address
                  (string_bytes "base v" ++ string_bytes (kc_version class))]))
  out (dc_braavos classes).

Definition push_argent_cairo1_candidates (classes : DiscoveryClasses) (wallet_type : WalletType)
    (key : DerivedKey) (out : list CandidateAccount) : Result (list CandidateAccount) :=
  foldM (fun out '(class_hash, version, layout) =>
    address ← calculate_address (argent_account_class (argent_with_class_hash_and_layout class_hash layout))
                (key_public key) SaltPublicKey;
    Ok (out ++ [candidate key wallet_type class_hash address (string_bytes version)]))
  out (dc_argent classes).

Definition push_oz_candidates (classes : DiscoveryClasses) (key : DerivedKey) (out : list CandidateAccount)
    : Result (list CandidateAccount) :=
  foldM (fun out class =>
    let account := oz_account_class (oz_from_class_hash (kc_class_hash class)) in
    foldM (fun out '(salt_policy, label) =>
      address ← calculate_address account (key_public key) salt_policy;
      Ok (out ++ [candidate key WOpenZeppelin (kc_class_hash class) address label]))
    out [(SaltPublicKey, string_bytes "v" ++ string_bytes (kc_version class) ++ string_bytes " salt-pubkey");
         (SaltZero, string_bytes "v" ++ string_bytes (kc_version class))])
  out (dc_open_zeppelin classes).

Definition push_argent_cairo0_candidates (classes : DiscoveryClasses) (key : DerivedKey)
    (out : list CandidateAccount) : Result (list CandidateAccount) :=
  let proxy := PROXY_CLASS_HASH in
  foldM (fun out '(implementation, version) =>
    let calldata := cairo0_calldata implementation (key_public key) in
    address ← calculate_contract_address (key_public key) proxy calldata (felt_of_Z 0);
    Ok (out ++ [candidate key WArgentCairo0 proxy address (string_bytes "proxy+v" ++ string_bytes version)]))
  out (dc_argent_cairo0 classes).

(** The body of the candidate loop, for one index. *)
Definition candidates_at (mnemonic : list Z) (classes : DiscoveryClasses) (candidates : list CandidateAccount)
    (index : Z) : Result (list CandidateAccount) :=
  direct_pk ← derive_private_key_with_coin_type mnemonic index 0 STARKNET_COIN_TYPE None;
  direct_pubk ← stark_public_key direct_pk;
  let direct := {| key_private := direct_pk; key_public := direct_pubk; key_index := index;
                   key_path := direct_path_text index |} in
  candidates ← push_braavos_candidates classes direct candidates;
  candidates ← push_argent_cairo1_candidates classes WArgent direct candidates;
  candidates ← push_oz_candidates classes direct candidates;
  legacy_pk ← derive_argent_legacy_private_key mnemonic index 0;
  legacy_pubk ← stark_public_key legacy_pk;
  let legacy := {| key_private := legacy_pk; key_public := legacy_pubk; key_index := index;
                   key_path := legacy_path_text index |} in
  candidates ← push_argent_cairo1_candidates classes WArgentLegacy legacy candidates;
  push_argent_cairo0_candidates classes legacy candidates.

Definition generate_candidates (mnemonic : list Z) (max_index : Z) : Result (list CandidateAccount) :=
  _ ← validate_discovery_inputs mnemonic max_index;
  let classes := discovery_classes_load in
  foldM (candidates_at mnemonic classes) [] (seqZ 0 max_index).
End generate.

(** ** Loops that append *)
Lemma foldM_push {E A X} (step : list X -> A -> outcome E (list X)) (g : A -> list X) l : forall out,
  (forall out a, step out a = Ok (out ++ g a)) -> foldM step out l = Ok (out ++ concat (map g l)).
Proof.
  induction l as [|a l IH]; intros out Hstep; cbn [foldM map concat]; [by rewrite app_nil_r|].
  rewrite Hstep. cbn [mbind outcome_bind]. by rewrite IH, app_assoc.
Qed.

Lemma foldM_push1 {E A X} (step : list X -> A -> outcome E (list X)) (g : A -> X) l out :
  (forall out a, step out a = Ok (out ++ [g a])) -> foldM step out l = Ok (out ++ map g l).
Proof.
  intros Hstep. rewrite (foldM_push step (fun a => [g a])) by done.
  do 2 f_equal. clear. induction l as [|a l IH]; [done|]. cbn. by rewrite IH.
Qed.

Lemma foldM_blocks {E A X} (step : list X -> A -> outcome E (list X)) (B : A -> list X -> Prop) l : forall out r,
  (forall out a r, step out a = Ok r -> exists b, r = out ++ b /\ B a b) ->
  foldM step out l = Ok r -> exists bs, Forall2 B l bs /\ r = out ++ concat bs.
Proof.
  induction l as [|a l IH]; intros out r Hstep Hf; cbn [foldM] in Hf.
  { injection Hf as <-. exists []. split; [constructor|]. by rewrite app_nil_r. }
  apply bind_Ok in Hf as (out' & Ha & Hf). apply Hstep in Ha as (b & -> & Hb).
  apply IH in Hf as (bs & Hbs & ->); [|done]. exists (b :: bs). split; [by constructor|].
  cbn. by rewrite app_assoc.
Qed.

Lemma elem_of_sort_by_bool {A} (key : A -> bool) l a : a ∈ sort_by_bool key l <-> a ∈ l.
Proof.
  unfold sort_by_bool. rewrite elem_of_app, !list_elem_of_In, !List.filter_In.
  destruct (key a); cbn; split; tauto || (intros; auto).
Qed.

(** ** What one key contributes *)
Section blocks.
Context `{StarkTypes, !FeltExtras, !FeltFromHex}.

(** The address a class, salt and calldata fix. *)
Definition seed_address (salt class_hash : Felt) (cd : list Felt) : Felt :=
  normalize_address (hash_elements (address_array salt class_hash cd (felt_of_Z 0))).

Definition braavos_block (key : DerivedKey) : list CandidateAccount :=
  map (fun class => candidate key WBraavos (kc_class_hash class)
         (seed_address (key_public key) (kc_class_hash class) [key_public key])
         (string_bytes "base v" ++ string_bytes (kc_version class)))
    (deployment_classes FamilyBraavos).

Definition argent_block (wallet_type : WalletType) (key : DerivedKey) : list CandidateAccount :=
  map (fun '(class_hash, version, layout) => candidate key wallet_type class_hash
         (seed_address (key_public key) class_hash (constructor_calldata layout (key_public key)))
         (string_bytes version))
    (dc_argent discovery_classes_load).

Definition oz_block (key : DerivedKey) : list CandidateAccount :=
  concat (map (fun class =>
    [candidate key WOpenZeppelin (kc_class_hash class)
       (seed_address (key_public key) (kc_class_hash class) [key_public key])
       (string_bytes "v" ++ string_bytes (kc_version class) ++ string_bytes " salt-pubkey");
     candidate key WOpenZeppelin (kc_class_hash class)
       (seed_address (felt_of_Z 0) (kc_class_hash class) [key_public key])
       (string_bytes "v" ++ string_bytes (kc_version class))])
    (deployment_classes FamilyOpenZeppelin)).

Definition cairo0_block (key : DerivedKey) : list CandidateAccount :=
  map (fun '(implementation, version) => candidate key WArgentCairo0 PROXY_CLASS_HASH
         (seed_address (key_public key) PROXY_CLASS_HASH (cairo0_calldata implementation (key_public key)))
         (string_bytes "proxy+v" ++ string_bytes version))
    known_implementations.

Definition direct_block (key : DerivedKey) : list CandidateAccount :=
  braavos_block key ++ argent_block WArgent key ++ oz_block key.

Definition legacy_block (key : DerivedKey) : list CandidateAccount :=
  argent_block WArgentLegacy key ++ cairo0_block key.

Lemma push_braavos_eq key out :
  push_braavos_candidates discovery_classes_load key out = Ok (out ++ braavos_block key).
Proof. by apply foldM_push1. Qed.

Lemma push_argent_eq wallet_type key out :
  push_argent_cairo1_candidates discovery_classes_load wallet_type key out
  = Ok (out ++ argent_block wallet_type key).
Proof. apply foldM_push1. by intros ? [[] ?]. Qed.

Lemma push_oz_eq key out :
  push_oz_candidates discovery_classes_load key out = Ok (out ++ oz_block key).
Proof. apply foldM_push. intros out' class. cbn. by rewrite <- app_assoc. Qed.

Lemma push_cairo0_eq key out :
  push_argent_cairo0_candidates discovery_classes_load key out = Ok (out ++ cairo0_block key).
Proof. apply foldM_push1. by intros ? []. Qed.
End blocks.

(** ** Registry entries and candidates *)
Section candidates.
Context `{FeltExtrasLaws, !StarkLaws, !FeltFromHex}.
Implicit Types (class : KnownAccountClass) (key : DerivedKey) (salt : Felt) (cd : list Felt).

(** Argent entries and the table of Argent classes are the same classes. *)
Lemma registry_argent :
  Forall (fun c => (forall layout, kc_constructor c = Some (shape_of_layout layout) ->
                      exists v, (kc_class_hash c, v, layout) ∈ argent_known_classes)
    /\ (kc_constructor c = Some ShapeArgentCairo0Proxy -> kc_class_hash c = PROXY_CLASS_HASH))
    known_account_classes.
Proof.
  unfold known_account_classes. rewrite oz_classes_eq.
  repeat (apply Forall_cons; split; [split; [intros [] Heq; try discriminate Heq|intros Heq; try discriminate Heq]|]);
    try constructor; try reflexivity; eexists; unfold argent_known_classes; cbn [kc_class_hash];
    rewrite ?elem_of_cons; tauto || eauto 10.
Qed.

(** A deployment that [key] reproduces is among [cs]. *)
Definition found_in key class salt cd (cs : list CandidateAccount) : Prop :=
  exists wallet_type label,
    candidate key wallet_type (kc_class_hash class) (seed_address salt (kc_class_hash class) cd) label ∈ cs.

Lemma argent_block_complete wallet_type key class cd layout :
  class ∈ known_account_classes -> kc_constructor class = Some (shape_of_layout layout) ->
  cd = constructor_calldata layout (key_public key) ->
  found_in key class (key_public key) cd (argent_block wallet_type key).
Proof.
  intros Hin Hc ->. pose proof registry_argent as Hr. rewrite Forall_forall in Hr.
  destruct (proj1 (Hr class Hin) layout Hc) as [v Hv]. exists wallet_type, (string_bytes v).
  unfold argent_block. apply list_elem_of_fmap. exists (kc_class_hash class, v, layout). split; [done|].
  by apply elem_of_sort_by_bool.
Qed.

Lemma deployment_class_of class :
  class ∈ known_account_classes -> is_Some (kc_constructor class) ->
  class ∈ deployment_classes (kc_family class).
Proof.
  intros Hin Hc. pose proof registry_shapes as Hr. rewrite Forall_forall in Hr.
  apply Hr in Hin as Hs. destruct Hs as [Hs _]. apply Hs in Hc.
  apply list_elem_of_In, List.filter_In. split; [by apply list_elem_of_In|].
  by rewrite bool_decide_eq_true_2, Hc.
Qed.

Lemma direct_block_complete key class salt cd :
  class ∈ known_account_classes -> kc_constructor class <> Some ShapeArgentCairo0Proxy ->
  seed_deployment class salt cd (key_public key) -> found_in key class salt cd (direct_block key).
Proof.
  intros Hin Hno Hs. unfold direct_block, found_in. setoid_rewrite elem_of_app. setoid_rewrite elem_of_app.
  unfold seed_deployment in Hs. destruct (kc_constructor class) as [[]|] eqn:Hc; [| | |done|done].
  - destruct Hs as [-> Hsalt]. pose proof (deployment_class_of class Hin ltac:(by rewrite Hc)) as Hdep.
    pose proof registry_shapes as Hr. rewrite Forall_forall in Hr.
    destruct (Hr class Hin) as (_ & _ & Hfam). specialize (Hfam Hc).
    destruct (kc_family class) eqn:Hf; [|done|].
    + exists WOpenZeppelin. destruct Hsalt as [->|[_ ->]]; eexists; do 2 right; unfold oz_block;
        rewrite <- flat_map_concat_map; apply list_elem_of_In, in_flat_map; exists class;
        (split; [by apply list_elem_of_In|]); cbn; auto.
    + destruct Hsalt as [->|[? _]]; [|done]. exists WBraavos. eexists. left.
      apply list_elem_of_fmap. by exists class.
  - destruct Hs as (_ & -> & ->).
    destruct (argent_block_complete WArgent key class _ OwnerGuardianFelts Hin Hc eq_refl) as (w & lb & Hl).
    exists w, lb. auto.
  - destruct Hs as (_ & -> & ->).
    destruct (argent_block_complete WArgent key class _ SignerWithOptionalGuardian Hin Hc eq_refl) as (w & lb & Hl).
    exists w, lb. auto.
Qed.

(** Conversely, a candidate stands for a deployment that [key] reproduces. *)
Definition stands_for key (c : CandidateAccount) : Prop :=
  exists class salt cd wallet_type label, class ∈ known_account_classes
    /\ seed_deployment class salt cd (key_public key)
    /\ c = candidate key wallet_type (kc_class_hash class) (seed_address salt (kc_class_hash class) cd) label.

Lemma registry_public_key :
  Forall (fun c => kc_family c <> FamilyArgent -> is_deployment_class c = true ->
    kc_constructor c = Some ShapePublicKey) known_account_classes.
Proof.
  unfold known_account_classes. rewrite oz_classes_eq.
  repeat (apply Forall_cons; split; [intros Hf Hd; first [reflexivity|by destruct Hf|discriminate Hd]|]). constructor.
Qed.

Lemma deployment_classes_inv family class :
  class ∈ deployment_classes family ->
  class ∈ known_account_classes /\ kc_family class = family
  /\ (family <> FamilyArgent -> kc_constructor class = Some ShapePublicKey).
Proof.
  unfold deployment_classes. intros Hin%list_elem_of_In. apply List.filter_In in Hin as [Hin Hf].
  apply andb_prop in Hf as [Hf%bool_decide_eq_true_1 Hd]. apply list_elem_of_In in Hin.
  pose proof registry_public_key as Hr. rewrite Forall_forall in Hr. subst family. auto.
Qed.

Lemma argent_block_sound wallet_type key c :
  key_public key <> felt_of_Z 0 -> c ∈ argent_block wallet_type key -> stands_for key c.
Proof.
  intros Hk. unfold argent_block. intros ([[h v] layout] & -> & Hin)%list_elem_of_fmap.
  apply elem_of_sort_by_bool in Hin.
  assert (exists class, class ∈ known_account_classes /\ kc_class_hash class = h
            /\ kc_constructor class = Some (shape_of_layout layout)) as (class & Hc & <- & Hs).
  { eexists. split; [|split].
    - unfold known_account_classes. rewrite !elem_of_app. right. left. unfold argent_cairo1_classes.
      apply list_elem_of_fmap. exists (h, v, layout). split; [reflexivity|done].
    - reflexivity.
    - reflexivity. }
  exists class, (key_public key), (constructor_calldata layout (key_public key)), wallet_type, (string_bytes v).
  split_and!; [done| |done]. unfold seed_deployment. rewrite Hs. by destruct layout.
Qed.

Lemma direct_block_sound key c :
  key_public key <> felt_of_Z 0 -> c ∈ direct_block key -> stands_for key c.
Proof.
  intros Hk. unfold direct_block. rewrite !elem_of_app. intros [Hb|[Ha|Ho]].
  - apply list_elem_of_fmap in Hb as (class & -> & (Hin & Hf & Hc)%deployment_classes_inv).
    exists class, (key_public key), [key_public key]. do 2 eexists. split_and!; [done| |done].
    unfold seed_deployment. rewrite Hc by done. auto.
  - by eapply argent_block_sound.
  - unfold oz_block in Ho. rewrite <- flat_map_concat_map in Ho. apply list_elem_of_In, in_flat_map in Ho as (class & Hin & Ho).
    apply list_elem_of_In, deployment_classes_inv in Hin as (Hin & Hf & Hc).
    destruct Ho as [<-|[<-|[]]]; exists class; do 4 eexists; (split_and!; [done| |done]);
      unfold seed_deployment; rewrite Hc by done; auto.
Qed.

Lemma legacy_block_sound key c :
  key_public key <> felt_of_Z 0 -> c ∈ legacy_block key -> stands_for key c.
Proof.
  intros Hk. unfold legacy_block. rewrite elem_of_app. intros [Ha|Hc0]; [by eapply argent_block_sound|].
  apply list_elem_of_fmap in Hc0 as ([impl v] & -> & Hin).
  assert (exists class, class ∈ known_account_classes /\ kc_class_hash class = PROXY_CLASS_HASH
            /\ kc_constructor class = Some ShapeArgentCairo0Proxy) as (class & Hc & <- & Hs).
  { eexists. split; [|split].
    - unfold known_account_classes. rewrite !elem_of_app. right. right. left. left.
    - reflexivity.
    - reflexivity. }
  exists class, (key_public key), (cairo0_calldata impl (key_public key)). do 2 eexists. split_and!; [done| |done].
  unfold seed_deployment. rewrite Hs. exists impl. split; [|done].
  unfold is_known_implementation. apply existsb_exists. exists (impl, v).
  split; [by apply list_elem_of_In|by apply bool_decide_eq_true_2].
Qed.

Lemma legacy_block_complete key class salt cd :
  class ∈ known_account_classes -> kc_constructor class <> Some ShapePublicKey ->
  seed_deployment class salt cd (key_public key) -> found_in key class salt cd (legacy_block key).
Proof.
  intros Hin Hno Hs. unfold legacy_block, found_in. setoid_rewrite elem_of_app.
  unfold seed_deployment in Hs. destruct (kc_constructor class) as [[]|] eqn:Hc; [done| | | |done].
  - destruct Hs as (_ & -> & ->).
    destruct (argent_block_complete WArgentLegacy key class _ OwnerGuardianFelts Hin Hc eq_refl) as (w & lb & Hl).
    exists w, lb. auto.
  - destruct Hs as (_ & -> & ->).
    destruct (argent_block_complete WArgentLegacy key class _ SignerWithOptionalGuardian Hin Hc eq_refl) as (w & lb & Hl).
    exists w, lb. auto.
  - destruct Hs as (impl & Hi & -> & ->). pose proof registry_argent as Hr. rewrite Forall_forall in Hr.
    rewrite (proj2 (Hr class Hin) Hc). exists WArgentCairo0.
    unfold is_known_implementation in Hi. apply existsb_exists in Hi as ([known v] & Hk & Heq).
    apply bool_decide_eq_true_1 in Heq as ->. eexists. right.
    apply list_elem_of_fmap. exists (impl, v). split; [done|]. by apply list_elem_of_In.
Qed.
End candidates.

(** ** Inspection in the registry's terms *)
Section inspection.
Context `{FeltExtrasLaws, !StarkLaws, !StarkCrypto, !FeltFromHex}.

Lemma inspect_facts class_hash salt cd insp class :
  inspect_deployment class_hash salt cd = Ok insp -> di_class insp = Some class ->
  class_hash = kc_class_hash class /\ class ∈ known_account_classes
  /\ di_address insp = seed_address salt (kc_class_hash class) cd
  /\ forall owner, says_from_seed insp owner -> seed_deployment class salt cd owner.
Proof.
  intros Hi Hc. destruct (inspect_spec class_hash salt cd) as (i & Hi' & Ha & Hcl & _ & _ & Hs).
  rewrite Hi in Hi'. apply (inj Ok) in Hi' as <-. rewrite Hc in Hcl. symmetry in Hcl.
  pose proof Hcl as Hl. apply lookup_account_class_Some in Hl as [Hin <-]. split_and!; [done..| |].
  - rewrite calculate_contract_address_eq in Ha. by injection Ha.
  - intros owner (class' & Hl' & _ & Hd)%Hs. rewrite Hcl in Hl'. by injection Hl' as <-.
Qed.

Lemma inspect_says class salt cd owner :
  class ∈ known_account_classes -> seed_deployment class salt cd owner -> is_stark_public_key owner = true ->
  exists insp, inspect_deployment (kc_class_hash class) salt cd = Ok insp /\ says_from_seed insp owner
    /\ di_address insp = seed_address salt (kc_class_hash class) cd.
Proof.
  intros Hin Hd Hk. destruct (inspect_spec (kc_class_hash class) salt cd) as (i & Hi & Ha & _ & _ & _ & Hs).
  exists i. split_and!; [done| |].
  - apply Hs. exists class. split_and!; [by apply lookup_account_class_Some|done..].
  - rewrite calculate_contract_address_eq in Ha. by injection Ha.
Qed.
End inspection.

(** ** The scan *)
Section scan.
Context `{HashFns, Secp256k1, Bip39, FeltExtrasLaws, !StarkLaws, !StarkCrypto, !FeltFromHex}.

(** The two keys of an index: directly derived, and through the Ethereum key. *)
Definition index_keys (mnemonic : list Z) (i : Z) (direct legacy : DerivedKey) : Prop :=
  derive_private_key_with_coin_type mnemonic i 0 STARKNET_COIN_TYPE None = Ok (key_private direct)
  /\ stark_public_key (key_private direct) = Ok (key_public direct)
  /\ key_index direct = i /\ key_path direct = direct_path_text i
  /\ derive_argent_legacy_private_key mnemonic i 0 = Ok (key_private legacy)
  /\ stark_public_key (key_private legacy) = Ok (key_public legacy)
  /\ key_index legacy = i /\ key_path legacy = legacy_path_text i.

Lemma index_keys_unique m i d1 l1 d2 l2 : index_keys m i d1 l1 -> index_keys m i d2 l2 -> d1 = d2 /\ l1 = l2.
Proof.
  intros (Ha1 & Ha2 & Ha3 & Ha4 & Ha5 & Ha6 & Ha7 & Ha8) (Hb1 & Hb2 & Hb3 & Hb4 & Hb5 & Hb6 & Hb7 & Hb8).
  destruct d1 as [s1 p1 i1 t1], d2 as [s2 p2 i2 t2], l1 as [s3 p3 i3 t3], l2 as [s4 p4 i4 t4]; cbn in *.
  rewrite Ha1 in Hb1. injection Hb1 as <-. rewrite Ha2 in Hb2. injection Hb2 as <-.
  rewrite Ha5 in Hb5. injection Hb5 as <-. rewrite Ha6 in Hb6. injection Hb6 as <-. split; congruence.
Qed.

Lemma candidates_at_inv m out i r :
  candidates_at m discovery_classes_load out i = Ok r ->
  exists b, r = out ++ b /\ exists d l, index_keys m i d l /\ b = direct_block d ++ legacy_block l.
Proof.
  unfold candidates_at. intros (dsk & Hdsk & Hc)%bind_Ok. apply bind_Ok in Hc as (dpk & Hdpk & Hc). cbn zeta in Hc.
  rewrite push_braavos_eq in Hc. cbn [mbind outcome_bind] in Hc.
  rewrite push_argent_eq in Hc. cbn [mbind outcome_bind] in Hc.
  rewrite push_oz_eq in Hc. cbn [mbind outcome_bind] in Hc.
  apply bind_Ok in Hc as (lsk & Hlsk & Hc). apply bind_Ok in Hc as (lpk & Hlpk & Hc). cbn zeta in Hc.
  rewrite push_argent_eq in Hc. cbn [mbind outcome_bind] in Hc. rewrite push_cairo0_eq in Hc.
  apply (inj Ok) in Hc as <-. rewrite <- !app_assoc. eexists. split; [reflexivity|].
  do 2 eexists. split; [|unfold direct_block, legacy_block; rewrite <- !app_assoc; reflexivity].
  unfold index_keys. cbn. done.
Qed.

Lemma generate_inv m max_index cands :
  generate_candidates m max_index = Ok cands ->
  max_index <= MAX_DISCOVERY_INDEX
  /\ exists bs, Forall2 (fun i b => exists d l, index_keys m i d l /\ b = direct_block d ++ legacy_block l)
                  (seqZ 0 max_index) bs /\ cands = concat bs.
Proof.
  unfold generate_candidates. intros (u & Hv & Hg)%bind_Ok. unfold validate_discovery_inputs in Hv.
  apply bind_Ok in Hv as (u' & Hb & _). apply reject_if_Ok, Z.ltb_ge in Hb. split; [done|].
  apply (foldM_blocks _ _ _ _ _ (candidates_at_inv m)) in Hg as (bs & Hbs & ->). by exists bs.
Qed.

(** Membership in the scan, by index. *)
Lemma generate_elem m max_index cands c :
  generate_candidates m max_index = Ok cands ->
  c ∈ cands <-> exists i d l, 0 <= i < max_index /\ index_keys m i d l /\ c ∈ direct_block d ++ legacy_block l.
Proof.
  intros (_ & bs & Hbs & ->)%generate_inv. rewrite list_elem_of_In, in_concat. split.
  - intros (b & Hb & Hc). apply list_elem_of_In, list_elem_of_lookup in Hb as [n Hb].
    destruct (Forall2_lookup_r _ _ _ _ _ Hbs Hb) as (i & Hi & d & l & Hk & ->).
    exists i, d, l. apply lookup_seqZ in Hi as [-> Hn]. split_and!; [lia..|done|by apply list_elem_of_In].
  - intros (i & d & l & Hi & Hk & Hc). destruct (lookup_lt_is_Some_2 (seqZ 0 max_index) (Z.to_nat i)) as [j Hj].
    { rewrite length_seqZ. lia. }
    destruct (Forall2_lookup_l _ _ _ _ _ Hbs Hj) as (b & Hb & d' & l' & Hk' & ->).
    apply lookup_seqZ in Hj as [-> _]. rewrite Z2Nat.id, Z.add_0_l in Hk' by lia.
    destruct (index_keys_unique _ _ _ _ _ _ Hk Hk') as [<- <-].
    exists (direct_block d ++ legacy_block l). split; [|by apply list_elem_of_In].
    apply list_elem_of_In. by eapply list_elem_of_lookup_2.
Qed.

Lemma hex_len_bound v : 0 <= v -> v < 16 ^ Z.of_nat (hex_len v).
Proof.
  intros Hv. unfold hex_len. rewrite Nat2Z.inj_succ, Z2Nat.id by (apply Z.div_pos; [apply Z.log2_nonneg|lia]).
  change 16 with (2 ^ 4). rewrite <- Z.pow_mul_r by (pose proof (Z.log2_nonneg v); pose proof (Z.div_pos (Z.log2 v) 4); lia).
  destruct (Z.eq_dec v 0) as [->|Hn]; [done|].
  pose proof (Z.log2_spec v ltac:(lia)) as [_ Hl]. eapply Z.lt_le_trans; [exact Hl|].
  apply Z.pow_le_mono_r; [lia|]. pose proof (Z.mod_pos_bound (Z.log2 v) 4 ltac:(lia)).
  pose proof (Z.div_mod (Z.log2 v) 4 ltac:(lia)). lia.
Qed.

Lemma felt_hex_read f : felt_from_hex (felt_hex f) = Some (felt_val f).
Proof.
  unfold felt_hex. pose proof (felt_val_range f) as Hf. apply felt_from_hex_digits; [|done|apply hex_len_bound; lia].
  unfold hex_len. split; [lia|]. assert (Z.log2 (felt_val f) <= 252).
  { change 252 with (Z.log2 (2 ^ 252)). apply Z.log2_le_mono. unfold felt_prime in Hf. lia. }
  assert (Z.log2 (felt_val f) / 4 <= 63) by (apply Z.div_le_upper_bound; lia). lia.
Qed.

(** The keys of the scan: one direct and one legacy key per index. *)
Definition scanned (m : list Z) (max_index : Z) (sk : Felt) : Prop :=
  exists i, 0 <= i < max_index
    /\ (derive_private_key_with_coin_type m i 0 STARKNET_COIN_TYPE None = Ok sk
        \/ derive_argent_legacy_private_key m i 0 = Ok sk).

(** A public key that is a coordinate of the curve passes the public-key test and is not zero. *)
Lemma scanned_key_valid `{!StarkCryptoLaws} sk pk :
  stark_public_key sk = Ok pk -> (forall x, get_public_key sk = Some x -> on_curve (felt_val x)) ->
  is_stark_public_key pk = true /\ pk <> felt_of_Z 0.
Proof.
  intros (u & _ & Hk%expect_Ok)%bind_Ok Hc. apply Hc in Hk. split; [by apply is_stark_public_key_spec|].
  intros Hz%felt_zero_iff. apply on_curve_nonzero in Hk. apply Hk. by rewrite Hz.
Qed.

(** A candidate's two keys belong together. *)
Lemma candidate_keys_bound key :
  stark_public_key (key_private key) = Ok (key_public key) ->
  verify_key_binding (felt_hex (key_private key)) (felt_hex (key_public key)) = Ok tt.
Proof.
  intros Hk. unfold verify_key_binding, require_private_key.
  change (length (felt_hex (key_private key)) =? 0)%nat with false. cbn [reject_if mbind outcome_bind].
  rewrite felt_hex_read. cbn [ok_or mbind outcome_bind]. rewrite felt_hex_read. cbn [ok_or mbind outcome_bind].
  assert (forall f : Felt, felt_of_Z (felt_val f) = f) as Hid.
  { intros f. apply felt_val_inj. apply felt_of_Z_small. apply felt_val_range. }
  rewrite !Hid, Hk. cbn [mbind outcome_bind]. by rewrite bool_decide_eq_true_2.
Qed.
End scan.

(** ** Properties *)

(** C34: A deployment that inspection calls derivable from a seed is among the candidates
    discovery generates, with its address, class hash and private key: under the directly
    derived key unless it is a Cairo 0 proxy, under the legacy key when it is an Argent class. *)
Theorem discovery_complete `{HashFns, Secp256k1, Bip39, FeltExtrasLaws, !StarkLaws, !StarkCrypto, !FeltFromHex}
    m max_index cands i d l class_hash salt cd insp class :
  generate_candidates m max_index = Ok cands -> 0 <= i < max_index -> index_keys m i d l ->
  inspect_deployment class_hash salt cd = Ok insp -> di_class insp = Some class ->
  (says_from_seed insp (key_public d) -> kc_constructor class <> Some ShapeArgentCairo0Proxy ->
   exists c, c ∈ cands /\ ca_address c = felt_hex (di_address insp) /\ ca_class_hash c = felt_hex class_hash
     /\ ca_private_key c = felt_hex (key_private d))
  /\ (says_from_seed insp (key_public l) -> kc_family class = FamilyArgent ->
      exists c, c ∈ cands /\ ca_address c = felt_hex (di_address insp) /\ ca_class_hash c = felt_hex class_hash
        /\ ca_private_key c = felt_hex (key_private l)).
Proof.
  intros Hg Hi Hk Hinsp Hclass.
  destruct (inspect_facts class_hash salt cd insp class Hinsp Hclass) as (Hl & Hin & Haddr & Hseed).
  split; intros Hs Hc; apply Hseed in Hs.
  - destruct (direct_block_complete d class salt cd Hin Hc Hs) as (w & lb & Hc'). eexists.
    split; [apply (generate_elem _ _ _ _ Hg); exists i, d, l; split_and!; [lia..|done|apply elem_of_app; left; exact Hc']|].
    by rewrite Haddr, Hl.
  - assert (kc_constructor class <> Some ShapePublicKey) as Hc1.
    { pose proof registry_shapes as Hr. rewrite Forall_forall in Hr. destruct (Hr class Hin) as (_ & _ & Hf).
      intros Hx. by apply Hf. }
    destruct (legacy_block_complete l class salt cd Hin Hc1 Hs) as (w & lb & Hc'). eexists.
    split; [apply (generate_elem _ _ _ _ Hg); exists i, d, l; split_and!; [lia..|done|apply elem_of_app; right; exact Hc']|].
    by rewrite Haddr, Hl.
Qed.

(** C35: When the library's public key of each key of the scan is the x coordinate of a point
    of the Stark curve, every candidate discovery returns stands for a deployment that
    inspection calls derivable from a key of the scan, carries that key and its public key
    consistently, and the scan never exceeds its index limit. *)
Theorem discovery_sound `{HashFns, Secp256k1, Bip39, FeltExtrasLaws, !StarkLaws, !StarkCrypto, !StarkCryptoLaws, !FeltFromHex}
    m max_index cands c :
  (forall sk x, scanned m max_index sk -> get_public_key sk = Some x -> on_curve (felt_val x)) ->
  generate_candidates m max_index = Ok cands -> c ∈ cands ->
  max_index <= MAX_DISCOVERY_INDEX
  /\ verify_key_binding (ca_private_key c) (ca_public_key c) = Ok tt
  /\ exists i d l key class_hash salt cd insp,
       0 <= i < max_index /\ index_keys m i d l /\ (key = d \/ key = l)
       /\ inspect_deployment class_hash salt cd = Ok insp /\ says_from_seed insp (key_public key)
       /\ ca_address c = felt_hex (di_address insp) /\ ca_class_hash c = felt_hex class_hash
       /\ ca_private_key c = felt_hex (key_private key).
Proof.
  intros Hpk Hg Hc. split; [by destruct (generate_inv _ _ _ Hg)|].
  apply (generate_elem _ _ _ _ Hg) in Hc as (i & d & l & Hi & Hk & Hc).
  assert (exists key, (key = d \/ key = l) /\ stark_public_key (key_private key) = Ok (key_public key)
            /\ is_stark_public_key (key_public key) = true /\ stands_for key c) as (key & Hkey & Hkk & Hv & Hst).
  { destruct Hk as (Hdd & Hd & _ & _ & Hdl & Hl & _). apply elem_of_app in Hc as [Hc|Hc].
    - destruct (scanned_key_valid _ _ Hd (fun x => Hpk _ x (ex_intro _ i (conj Hi (or_introl Hdd))))) as [Hv Hn].
      exists d. split_and!; [by left|done..|]. by apply direct_block_sound.
    - destruct (scanned_key_valid _ _ Hl (fun x => Hpk _ x (ex_intro _ i (conj Hi (or_intror Hdl))))) as [Hv Hn].
      exists l. split_and!; [by right|done..|]. by apply legacy_block_sound. }
  destruct Hst as (class & salt & cd & w & lb & Hin & Hs & ->). split; [by apply candidate_keys_bound|].
  destruct (inspect_says class salt cd (key_public key) Hin Hs Hv) as (insp & Hinsp & Hsay & Ha).
  exists i, d, l, key, (kc_class_hash class), salt, cd, insp. by rewrite Ha.
Qed.

(** ** Witnesses *)
#[local] Existing Instance model_extras.
#[local] Existing Instance model_extras_laws.
#[local] Existing Instance model_stark_crypto.
#[local] Existing Instance model_stark_crypto_laws.
#[local] Existing Instance model_felt_from_hex.
#[local] Existing Instance model_hashes.
#[local] Existing Instance model_secp.
#[local] Existing Instance model_bip39.

(** A phrase whose two keys at index 0 are coordinates of the curve. *)
Definition wit_phrase : list Z := [1; 4].
Definition wit_direct_x : Z := 0x23602f0f19a856f7f00e200dc279695b91388ee6bf7822a2b45fa92b5eaa30d.
Definition wit_direct_y : Z := 0x235e2be5138ae7684d7d3db22a070da911c16ede0c00345cec00a01961cd296.
Definition wit_legacy_x : Z := 0x4064c4673258f21d84a135ac11d3f29f33acafce2f2d1863679b1e24c748cb.
Definition wit_legacy_y : Z := 0x17c9a96874fb6d7b2e6e1cc30e77721c518fe21ec466a84349f9673d77abd6.

(** [check] holds of what [sk] returns, and of the option [f] makes of it. *)
Definition checked {A B} (f : A -> option B) (check : B -> bool) (r : Result A) : bool :=
  match r with
  | Ok a => match f a with Some b => check b | None => true end
  | _ => true
  end.

Lemma checked_Ok {A B} (f : A -> option B) check r a b :
  checked f check r = true -> r = Ok a -> f a = Some b -> check b = true.
Proof. intros Hc -> Hb. unfold checked in Hc. by rewrite Hb in Hc. Qed.

Lemma on_curve_of (pk : @Felt model_types) x y :
  (mval pk =? x) = true -> (y * y) mod felt_prime = (x * x * x + x + curve_beta) mod felt_prime ->
  on_curve (felt_val pk).
Proof. intros Hx%Z.eqb_eq Hy. rewrite model_felt_val, Hx. by exists y. Qed.

Definition public_key_is (x : Z) : Result (@Felt model_types) -> bool :=
  checked get_public_key (fun pk => mval pk =? x).

Lemma wit_direct_key :
  public_key_is wit_direct_x (derive_private_key_with_coin_type wit_phrase 0 0 STARKNET_COIN_TYPE None) = true.
Proof. vm_compute. reflexivity. Qed.
Lemma wit_legacy_key : public_key_is wit_legacy_x (derive_argent_legacy_private_key wit_phrase 0 0) = true.
Proof. vm_compute. reflexivity. Qed.
Lemma wit_direct_curve :
  (wit_direct_y * wit_direct_y) mod felt_prime
  = (wit_direct_x * wit_direct_x * wit_direct_x + wit_direct_x + curve_beta) mod felt_prime.
Proof. vm_compute. reflexivity. Qed.
Lemma wit_legacy_curve :
  (wit_legacy_y * wit_legacy_y) mod felt_prime
  = (wit_legacy_x * wit_legacy_x * wit_legacy_x + wit_legacy_x + curve_beta) mod felt_prime.
Proof. vm_compute. reflexivity. Qed.

Lemma wit_scanned_on_curve (sk x : @Felt model_types) :
  scanned wit_phrase 1 sk -> get_public_key sk = Some x -> on_curve (felt_val x).
Proof.
  intros (i & Hi & Hd) Hk. assert (i = 0) as -> by lia. destruct Hd as [Hd|Hd].
  - exact (on_curve_of x _ _ (checked_Ok _ _ _ _ _ wit_direct_key Hd Hk) wit_direct_curve).
  - exact (on_curve_of x _ _ (checked_Ok _ _ _ _ _ wit_legacy_key Hd Hk) wit_legacy_curve).
Qed.

Lemma wit_scan : exists cands, generate_candidates wit_phrase 1 = Ok cands.
Proof. apply is_ok_exists. vm_compute. reflexivity. Qed.

Lemma discovery_complete_witness :
  exists cands c, generate_candidates wit_phrase 1 = Ok cands /\ c ∈ cands /\ ca_class_hash c = @felt_hex model_types argent_CLASS_HASH.
Proof.
  destruct wit_scan as [cands Hg].
  destruct (generate_inv wit_phrase 1 cands Hg) as (_ & bs & Hbs & _).
  change (seqZ 0 1) with [0] in Hbs. apply Forall2_cons_inv_l in Hbs as (b & bs' & (d & l & Hk & _) & _ & _).
  destruct lookup_argent_v040 as (class & Hl & Hc).
  set (cd := constructor_calldata SignerWithOptionalGuardian (key_public d)).
  destruct (inspect_spec argent_CLASS_HASH (key_public d) cd) as (insp & Hi & _ & Hcl & _ & _ & Hs).
  rewrite Hl in Hcl.
  destruct (proj1 (discovery_complete wit_phrase 1 cands 0 d l argent_CLASS_HASH (key_public d) cd insp class
                     Hg ltac:(lia) Hk Hi Hcl)) as (c & Hin & _ & Hh & _).
  - apply Hs. exists class. destruct Hk as (Hd & Hpk & _).
    destruct (scanned_key_valid _ _ Hpk (fun x => wit_scanned_on_curve _ x (ex_intro _ 0 (conj (conj (Z.le_refl 0) Z.lt_0_1) (or_introl Hd)))))
      as [Hv Hn].
    split; [exact Hl|]. split; [exact Hv|]. unfold seed_deployment. rewrite Hc. split; [exact Hn|split; reflexivity].
  - rewrite Hc. discriminate.
  - exists cands, c. split; [exact Hg|]. split; [exact Hin|exact Hh].
Defined.

Lemma discovery_sound_witness :
  exists cands, generate_candidates wit_phrase 1 = Ok cands
    /\ Forall (fun c => verify_key_binding (ca_private_key c) (ca_public_key c) = Ok tt) cands.
Proof.
  destruct wit_scan as [cands Hg]. exists cands. split; [exact Hg|].
  apply Forall_forall. intros c Hc.
  exact (proj1 (proj2 (discovery_sound wit_phrase 1 cands c wit_scanned_on_curve Hg Hc))).
Defined.
