(* ===== verification/Strk20.v ===== *)
(** * STRK20 viewing keys (crates/kms/src/strk20.rs)

    The unscoped derivation, and the derivation scoped to a chain and a pool with its
    hardware-signer halves.  Keccak-256 is the parameter [Keccak] and
    [starknet_crypto::verify] the parameter [StarkVerify]. *)

From stdpp Require Import base option list numbers strings.
From Stdlib Require Import ZArith Lia Zdiv.
From S2P Require Import Prelude StarkLib StarkModel Types Scalar Curve Hash TxHash Text Primitives StarkSigning Discovery.

#[local] Open Scope string_scope.
#[local] Open Scope list_scope.
#[local] Open Scope Z_scope.

Class Keccak : Type := { keccak256 : list Z -> list Z }.
Class KeccakLaws `{Keccak} : Prop := {
  keccak256_length data : length (keccak256 data) = 32%nat;
  keccak256_bytes data : Forall byte_ok (keccak256 data) }.

(** [verify] of a public key, a hash, [r] and [s]; [None] is an error. *)
Class StarkVerify `{StarkTypes} : Type := { stark_verify : Felt -> Felt -> Felt -> Felt -> option bool }.

(** [BigUint::to_bytes_be]. *)
Definition biguint_to_bytes_be (z : Z) : list Z := be_bytes (S (Z.to_nat (Z.log2 z / 8))) z.

Section strk20.
Context `{StarkTypes, !FeltExtras, !Keccak, !FeltFromHex}.

Definition STRK20_VIEWING_KEY_DOMAIN : list Z := string_bytes "pharaoh.strk20.viewing_key.v1".

(** [CURVE_ORDER_HEX], read by [curve_order]. *)
Definition CURVE_ORDER_HEX : list Z := string_bytes "0800000000000010ffffffffffffffffb781126dcae7b2321e66a241adc64d2f".
Definition curve_order : Z := hex_value CURVE_ORDER_HEX.

Definition strk20_keccak (data : list Z) : Felt :=
  from_bytes_be_slice match keccak256 data with b :: bytes => Z.land b 3 :: bytes | [] => [] end.

Definition derive_strk20_viewing_key (private_key : Felt) : Felt :=
  let domain := strk20_keccak STRK20_VIEWING_KEY_DOMAIN in
  let material := pedersen_hash domain private_key in
  let max_viewing_key := Z.shiftr curve_order 1 in
  let material := be_value (to_bytes_be material) in
  let viewing_key := material mod max_viewing_key + 1 in
  from_bytes_be_slice (biguint_to_bytes_be viewing_key).

Definition canonical_scope (value : list Z) : Result (list Z) :=
  felt ← ok_or (felt_from_hex value) (CryptoError "STRK20 {label} must be canonical hex");
  let felt := felt_of_Z felt in
  let canonical := felt_hex felt in
  _ ← reject_if (bool_decide (felt = felt_of_Z 0) || bool_decide (value <> canonical))
        (CryptoError "STRK20 {label} must be canonical non-zero hex");
  Ok canonical.

(** The text ["<chain_id>:<pool_address>"]. *)
Definition scope_text (chain_id pool_address : list Z) : list Z := chain_id ++ [58] ++ pool_address.

Definition strk20_viewing_key_message_hash (chain_id pool_address : list Z) : Result Felt :=
  chain_id ← canonical_scope chain_id;
  pool_address ← canonical_scope pool_address;
  Ok (strk20_keccak (scope_text chain_id pool_address)).

(** The debug assertion holds at every call: [reduced] is a residue. *)
Definition fold_lower_half (reduced order : Z) : Z :=
  let half_order := Z.shiftr order 1 in
  let folded := if reduced <? half_order then reduced else order - reduced in
  if (folded =? 0) || (half_order <=? folded) then 1 else folded.

Definition fold_strk20_viewing_key `{!StarkVerify} (public_key message_hash r s : Felt) : Result Felt :=
  valid ← ok_or (stark_verify public_key message_hash r s) (CryptoError "invalid STRK20 signature: {error}");
  _ ← reject_if (negb valid) (CryptoError "STRK20 signature does not match the public key and message");
  let order := curve_order in
  let material := poseidon_hash_many [r; s] in
  let reduced := be_value (to_bytes_be material) mod order in
  Ok (from_bytes_be_slice (biguint_to_bytes_be (fold_lower_half reduced order))).

(** [fuel] bounds the passes of the signing loop, as in [sign_stark_hash]. *)
Definition derive_scoped_strk20_viewing_key `{!StarkVerify, !StarkCrypto} (fuel : nat) (private_key : Felt)
    (chain_id pool_address : list Z) : option (Result Felt) :=
  match strk20_viewing_key_message_hash chain_id pool_address with
  | Err e => Some (Err e)
  | Panic => Some Panic
  | Ok message_hash =>
      signed ← sign_stark_hash fuel private_key message_hash;
      Some (signature ← signed;
            fold_strk20_viewing_key (ss_public_key signature) message_hash (ss_r signature) (ss_s signature))
  end.
End strk20.

(** ** Ranges *)
Section ranges.
Context `{FeltExtrasLaws, !StarkLaws, !Keccak, !FeltFromHex}.

Definition half_order : Z := CurveOrder / 2.

Lemma curve_order_val : curve_order = CurveOrder.
Proof. vm_compute. reflexivity. Qed.

Lemma half_order_val : Z.shiftr curve_order 1 = half_order.
Proof. vm_compute. reflexivity. Qed.

Lemma biguint_felt_val z : 0 <= z <= half_order -> felt_val (from_bytes_be_slice (biguint_to_bytes_be z)) = z.
Proof.
  intros Hz. assert (z < 2 ^ 252) as Hz252 by (assert (half_order < 2 ^ 252) by (vm_compute; reflexivity); lia).
  assert (0 <= Z.log2 z < 252) as Hlog.
  { split; [apply Z.log2_nonneg|]. destruct (Z.eq_dec z 0) as [->|]; [done|]. apply Z.log2_lt_pow2; lia. }
  pose proof (Z.div_pos (Z.log2 z) 8) as Hd0. assert (Z.log2 z / 8 < 32) as Hd by (apply Z.div_lt_upper_bound; lia).
  unfold biguint_to_bytes_be. rewrite from_bytes_be_slice_val.
  - rewrite be_value_be_bytes, (Z.mod_small z (256 ^ _)).
    + apply Z.mod_small. assert (half_order < felt_prime) by (vm_compute; reflexivity). lia.
    + split; [lia|]. rewrite Nat2Z.inj_succ, Z2Nat.id by lia. change 256 with (2 ^ 8). rewrite <- Z.pow_mul_r by lia.
      destruct (Z.eq_dec z 0) as [->|]; [done|]. apply Z.log2_lt_pow2; [lia|].
      pose proof (Z.mul_succ_div_gt (Z.log2 z) 8). lia.
  - rewrite length_be_bytes. lia.
  - apply be_bytes_ok.
Qed.

Lemma fold_lower_half_range reduced :
  0 <= reduced < CurveOrder ->
  1 <= fold_lower_half reduced CurveOrder < half_order
  /\ (fold_lower_half reduced CurveOrder = reduced \/ fold_lower_half reduced CurveOrder = CurveOrder - reduced
      \/ (fold_lower_half reduced CurveOrder = 1 /\ (reduced = 0 \/ reduced = half_order \/ reduced = half_order + 1))).
Proof.
  intros Hr. unfold fold_lower_half.
  assert (Z.shiftr CurveOrder 1 = half_order) as -> by (vm_compute; reflexivity).
  assert (CurveOrder = 2 * half_order + 1) as Hodd by (vm_compute; reflexivity).
  assert (2 < half_order) as Hh by (vm_compute; reflexivity).
  destruct (Z.ltb_spec reduced half_order).
  - destruct (Z.eqb_spec reduced 0), (Z.leb_spec half_order reduced); cbn [orb]; lia.
  - destruct (Z.eqb_spec (CurveOrder - reduced) 0), (Z.leb_spec half_order (CurveOrder - reduced)); cbn [orb]; lia.
Qed.

Lemma derive_strk20_val k :
  felt_val (derive_strk20_viewing_key k) =
  felt_val (pedersen_hash (strk20_keccak STRK20_VIEWING_KEY_DOMAIN) k) mod half_order + 1.
Proof.
  unfold derive_strk20_viewing_key. cbv zeta. rewrite half_order_val. apply biguint_felt_val.
  assert (0 < half_order) as Hh by (vm_compute; reflexivity).
  pose proof (Z.mod_pos_bound (felt_val (pedersen_hash (strk20_keccak STRK20_VIEWING_KEY_DOMAIN) k)) half_order Hh). unfold felt_val in *. lia.
Qed.

(** A non-zero field element in its shortest lower-case form. *)
Definition scope_ok (value : list Z) : Prop := exists f, f <> felt_of_Z 0 /\ value = felt_hex f.

Lemma canonical_scope_Ok value c : canonical_scope value = Ok c <-> c = value /\ scope_ok value.
Proof.
  unfold canonical_scope, reject_if, scope_ok. split.
  - destruct (felt_from_hex value) as [v|]; [|done]. cbn [ok_or mbind outcome_bind].
    destruct (bool_decide_reflect (felt_of_Z v = felt_of_Z 0)); [done|].
    destruct (bool_decide_reflect (value <> felt_hex (felt_of_Z v))) as [|Heq]; [done|]. cbn [orb mbind outcome_bind].
    apply dec_stable in Heq. intros [= <-]. split; [done|]. by exists (felt_of_Z v).
  - intros [-> (f & Hf & ->)]. rewrite felt_hex_read. cbn [ok_or mbind outcome_bind].
    assert (felt_of_Z (felt_val f) = f) as -> by (apply felt_val_inj; rewrite felt_of_Z_small; [done|apply felt_val_range]).
    rewrite bool_decide_eq_false_2 by done. rewrite bool_decide_eq_false_2 by auto. done.
Qed.

Lemma scope_no_colon value : scope_ok value -> 58 ∉ value.
Proof.
  intros (f & _ & ->). unfold felt_hex. rewrite elem_of_app. intros [Hp|Hd].
  - unfold px in Hp. by repeat (apply elem_of_cons in Hp as [?|Hp]; [lia|]); apply elem_of_nil in Hp.
  - destruct (hex_print_spec (hex_len (felt_val f)) (felt_val f)) as (Hh & _); [apply felt_val_range|].
    unfold hexdigits in Hh. rewrite Forall_forall in Hh. specialize (Hh 58 Hd). vm_compute in Hh. discriminate Hh.
Qed.

Lemma scope_text_inj c1 p1 c2 p2 :
  58 ∉ c1 -> 58 ∉ c2 -> scope_text c1 p1 = scope_text c2 p2 -> c1 = c2 /\ p1 = p2.
Proof.
  unfold scope_text. revert c2; induction c1 as [|x c1 IH]; intros [|y c2] Hn1 Hn2; cbn [app].
  - by intros [= ->].
  - intros [= <- _]. destruct Hn2. by left.
  - intros [= -> _]. destruct Hn1. by left.
  - rewrite not_elem_of_cons in Hn1, Hn2. intros [= -> Heq]. destruct (IH c2) as [-> ->]; [apply Hn1|apply Hn2|exact Heq|done].
Qed.

Lemma fold_strk20_Ok `{!StarkVerify} pk h r s v :
  fold_strk20_viewing_key pk h r s = Ok v <->
  stark_verify pk h r s = Some true
  /\ v = from_bytes_be_slice (biguint_to_bytes_be (fold_lower_half (felt_val (poseidon_hash_many [r; s]) mod CurveOrder) CurveOrder)).
Proof.
  unfold fold_strk20_viewing_key, reject_if. rewrite curve_order_val.
  destruct (stark_verify pk h r s) as [[]|]; cbn [ok_or negb mbind outcome_bind].
  - split; [intros [= <-]; done|by intros [_ ->]].
  - split; [done|by intros [? _]].
  - split; [done|by intros [? _]].
Qed.

Lemma fold_strk20_range `{!StarkVerify} pk h r s v : fold_strk20_viewing_key pk h r s = Ok v -> 1 <= felt_val v < half_order.
Proof.
  intros [_ ->]%fold_strk20_Ok.
  assert (0 < CurveOrder) as Ho by (vm_compute; reflexivity).
  pose proof (fold_lower_half_range _ (Z.mod_pos_bound (felt_val (poseidon_hash_many [r; s])) CurveOrder Ho)) as [Hr _].
  rewrite biguint_felt_val; lia.
Qed.

Lemma message_hash_Ok c p h :
  strk20_viewing_key_message_hash c p = Ok h <-> scope_ok c /\ scope_ok p /\ h = strk20_keccak (scope_text c p).
Proof.
  unfold strk20_viewing_key_message_hash. split.
  - destruct (canonical_scope c) as [c'|e|] eqn:Hc; [|done..]. apply canonical_scope_Ok in Hc as [-> Hc].
    destruct (canonical_scope p) as [p'|e|] eqn:Hp; [|done..]. apply canonical_scope_Ok in Hp as [-> Hp]. by intros [= <-].
  - intros (Hc & Hp & ->). rewrite (proj2 (canonical_scope_Ok c c)) by done. cbn [mbind outcome_bind].
    by rewrite (proj2 (canonical_scope_Ok p p)) by done.
Qed.
End ranges.

(** STRK20 viewing keys: the unscoped one lies in [1, floor(n/2)] and reaches the upper end;
    a scoped one is given only for a signature that verifies, lies in [1, floor(n/2)) and is
    the residue of the signature's hash or its negation unless neither is in range; it needs
    canonical non-zero scopes, and no other pair of scopes has the same signed text. *)
Theorem viewing_keys_in_range `{FeltExtrasLaws, !StarkLaws, !Keccak, !FeltFromHex, !StarkVerify, !StarkCrypto} :
  (forall k, 1 <= felt_val (derive_strk20_viewing_key k) <= half_order
     /\ (felt_val (derive_strk20_viewing_key k) = half_order <->
         felt_val (pedersen_hash (strk20_keccak STRK20_VIEWING_KEY_DOMAIN) k) mod half_order = half_order - 1))
  /\ (forall pk h r s v, fold_strk20_viewing_key pk h r s = Ok v ->
       stark_verify pk h r s = Some true /\ 1 <= felt_val v < half_order
       /\ let m := felt_val (poseidon_hash_many [r; s]) mod CurveOrder in
          felt_val v = m \/ felt_val v = CurveOrder - m
          \/ (felt_val v = 1 /\ (m = 0 \/ m = half_order \/ m = half_order + 1)))
  /\ (forall fuel k c p v, derive_scoped_strk20_viewing_key fuel k c p = Some (Ok v) ->
       1 <= felt_val k < CurveOrder /\ 1 <= felt_val v < half_order /\ scope_ok c /\ scope_ok p
       /\ forall c' p' h', strk20_viewing_key_message_hash c' p' = Ok h' ->
            scope_text c' p' = scope_text c p -> c' = c /\ p' = p).
Proof.
  assert (0 < half_order) as Hh by (vm_compute; reflexivity). assert (0 < CurveOrder) as Ho by (vm_compute; reflexivity).
  split; [|split].
  - intros k. rewrite derive_strk20_val.
    pose proof (Z.mod_pos_bound (felt_val (pedersen_hash (strk20_keccak STRK20_VIEWING_KEY_DOMAIN) k)) half_order Hh). lia.
  - intros pk h r s v Hf. pose proof (fold_strk20_range _ _ _ _ _ Hf) as Hr. apply fold_strk20_Ok in Hf as [Hver ->].
    split; [done|]. split; [done|]. cbv zeta.
    pose proof (fold_lower_half_range _ (Z.mod_pos_bound (felt_val (poseidon_hash_many [r; s])) CurveOrder Ho)) as [Hb Hc].
    rewrite biguint_felt_val by lia. exact Hc.
  - intros fuel k c p v. unfold derive_scoped_strk20_viewing_key.
    destruct (strk20_viewing_key_message_hash c p) as [h|e|] eqn:Hm; [|done..]. apply message_hash_Ok in Hm as (Hc & Hp & ->).
    unfold sign_stark_hash. destruct (validate_stark_private_key k) as [u|e|] eqn:Hk; [|done..].
    apply validate_stark_private_key_Ok in Hk.
    destruct (sign_loop _ _ _ _) as [[sig|e|]|]; [|done..]. cbn [mbind option_bind outcome_bind]. intros [= Hf].
    apply fold_strk20_range in Hf. split_and!; [lia..|done|done|].
    intros c' p' h' (Hc' & _ & _)%message_hash_Ok. by apply scope_text_inj; apply scope_no_colon.
Qed.

(** ** Witness *)
#[local] Existing Instance model_extras.
#[local] Existing Instance model_extras_laws.
#[local] Existing Instance model_felt_from_hex.
#[local] Existing Instance model_stark_crypto.
#[local] Instance demo_keccak : Keccak := {| keccak256 data := be_bytes 32 (be_value data) |}.
#[local] Instance demo_verify : @StarkVerify model_types := {| stark_verify _ _ _ _ := Some true |}.

Lemma viewing_keys_in_range_witness :
  (1 <= felt_val (derive_strk20_viewing_key (mk 5 : @Felt model_types)) <= half_order)
  /\ exists v, derive_scoped_strk20_viewing_key 3 (mk 5 : @Felt model_types) (string_bytes "0x1") (string_bytes "0x2") = Some (Ok v)
     /\ 1 <= felt_val v < half_order.
Proof.
  pose proof (viewing_keys_in_range (H := model_types)) as (Hu & _ & Hs). split; [apply Hu|].
  assert (exists v, derive_scoped_strk20_viewing_key 3 (mk 5 : @Felt model_types) (string_bytes "0x1") (string_bytes "0x2") = Some (Ok v))
    as [v Hv] by (eexists; vm_compute; reflexivity).
  exists v. split; [exact Hv|]. apply Hs in Hv as (_ & Hr & _). exact Hr.
Defined.
