(* ===== verification/Requests.v ===== *)
(** * Gateway requests

    crates/domain/src/account.rs, signing.rs and the deploy types of runtime.rs:
    the requests of the account and signing flows with their validation, and
    the conversions of primitives.rs between the newtypes they carry and field
    elements or bytes.

    The [hex] crate is third-party: [HexCodec] says that decoding accepts
    exactly the even runs of hexadecimal digits and inverts encoding. *)

From stdpp Require Import base option list numbers strings.
From Stdlib Require Import ZArith Lia Ascii.
From S2P Require Import Prelude StarkLib Types Scalar Text Domain Primitives.

#[local] Open Scope string_scope.
#[local] Open Scope list_scope.
#[local] Open Scope Z_scope.

(** ** Text and bytes *)
Definition bytes_string (l : list Z) : string :=
  String.string_of_list_ascii (map (fun c => Ascii.ascii_of_N (Z.to_N c)) l).

Lemma string_bytes_string l : Forall byte_ok l -> string_bytes (bytes_string l) = l.
Proof.
  unfold string_bytes, bytes_string. rewrite String.list_ascii_of_string_of_list_ascii, map_map.
  induction 1 as [|c l Hc _ IH]; [done|]. cbn [map]. rewrite IH. f_equal.
  unfold byte_ok in Hc. rewrite Ascii.N_ascii_embedding by lia. lia.
Qed.

Lemma bytes_string_bytes s : bytes_string (string_bytes s) = s.
Proof.
  unfold string_bytes, bytes_string. rewrite map_map.
  rewrite <- (String.string_of_list_ascii_of_string s) at 2. f_equal.
  induction (String.list_ascii_of_string s) as [|c l IH]; [done|]. cbn [map].
  rewrite IH. f_equal. rewrite N2Z.id. apply Ascii.ascii_N_embedding.
Qed.

Lemma hexdigits_bytes l : hexdigits l -> Forall byte_ok l.
Proof. intros Hl. eapply Forall_impl; [exact Hl|]. intros c Hc%is_hexdigit_spec. unfold byte_ok. lia. Qed.

(** ** Identifiers *)
Record SecretRef : Type := mk_SecretRef { secret_ref_str : string }.
Record HexBytes : Type := mk_HexBytes { hex_bytes_str : string }.

Section felt_hex_conversions.
Context `{StarkTypes, !FeltFromHex}.

(** [FeltHex::from_felt]. *)
Definition felt_hex_from_felt (value : Felt) : FeltHex :=
  mk_FeltHex (bytes_string (px ++ hex_print 64 (felt_val value))).

(** [FeltHex::to_felt], which panics on text that is not a field element. *)
Definition felt_hex_to_felt {E} (h : FeltHex) : outcome E Felt :=
  match felt_from_hex (string_bytes (felt_hex_str h)) with
  | Some v => Ok (felt_of_Z v)
  | None => Panic
  end.

(** What the constructors of [FeltHex] establish. *)
Definition felt_hex_ok (h : FeltHex) : Prop := exists f, h = felt_hex_from_felt f.
End felt_hex_conversions.

Section felt_hex_lemmas.
Context `{StarkLaws, !FeltFromHex}.

Lemma from_felt_bytes (f : Felt) :
  string_bytes (felt_hex_str (felt_hex_from_felt f)) = px ++ hex_print 64 (felt_val f).
Proof.
  pose proof (felt_val_range f). cbn [felt_hex_from_felt felt_hex_str]. apply string_bytes_string.
  apply Forall_app. split; [by repeat constructor|].
  destruct (hex_print_spec 64 (felt_val f)) as (Hd & _); [lia|]. by apply hexdigits_bytes.
Qed.

Lemma to_from_felt {E} (f : Felt) : felt_hex_to_felt (E := E) (felt_hex_from_felt f) = Ok f.
Proof.
  unfold felt_hex_to_felt. rewrite from_felt_bytes, felt_from_hex_canonical by apply felt_val_range.
  f_equal. apply felt_val_inj. pose proof (felt_val_range f). rewrite felt_of_Z_val, Z.mod_small by lia. done.
Qed.

Lemma from_felt_inj (f1 f2 : Felt) : felt_hex_from_felt f1 = felt_hex_from_felt f2 -> f1 = f2.
Proof.
  intros Heq. pose proof (to_from_felt (E := unit) f1) as Hread. rewrite Heq, to_from_felt in Hread. congruence.
Qed.

(** What [FeltHex::parse] accepts is the text of a field element. *)
Lemma felt_hex_parse_ok s h : felt_hex_parse s = Ok h -> felt_hex_ok (mk_FeltHex (bytes_string h)).
Proof.
  intros (ds & _ & _ & _ & Hv & ->)%felt_hex_parse_inv. exists (felt_of_Z (hex_value ds)).
  unfold felt_hex_from_felt. rewrite felt_of_Z_val, Z.mod_small by lia. done.
Qed.
End felt_hex_lemmas.

(** ** Hexadecimal bytes *)
Class HexCodec : Type := {
  hex_encode : list Z -> string;
  hex_decode : string -> option (list Z);
  hex_decode_encode bs : Forall byte_ok bs -> hex_decode (hex_encode bs) = Some bs;
  hex_encode_digits bs : Forall byte_ok bs ->
    hexdigits (string_bytes (hex_encode bs)) /\ length (string_bytes (hex_encode bs)) = (2 * length bs)%nat;
  hex_decode_digits s :
    hexdigits (string_bytes s) -> (length (string_bytes s) mod 2 = 0)%nat ->
    exists bs, hex_decode s = Some bs /\ Forall byte_ok bs /\ (2 * length bs = length (string_bytes s))%nat }.

Section hex_bytes.
Context `{HexCodec}.

(** [HexBytes::from_bytes]. *)
Definition hex_bytes_from_bytes (bytes : list Z) : HexBytes := mk_HexBytes (hex_encode bytes).

(** [HexBytes::to_vec], which panics on text that is not hexadecimal. *)
Definition hex_bytes_to_vec {E} (h : HexBytes) : outcome E (list Z) :=
  match hex_decode (hex_bytes_str h) with Some bytes => Ok bytes | None => Panic end.

(** [HexBytes::to_array::<N>]. *)
Definition hex_bytes_to_array (n : nat) (h : HexBytes) : outcome DomainError (list Z) :=
  bytes ← hex_bytes_to_vec h;
  if (length bytes =? n)%nat then Ok bytes
  else Err (InvalidHexBytes "expected exactly {N} bytes, got {}").

(** What the constructors of [HexBytes] establish. *)
Definition hex_bytes_ok (h : HexBytes) : Prop :=
  hexdigits (string_bytes (hex_bytes_str h)) /\ (length (string_bytes (hex_bytes_str h)) mod 2 = 0)%nat.

Lemma hex_bytes_to_vec_ok {E} h : hex_bytes_ok h ->
  exists bytes, hex_bytes_to_vec (E := E) h = Ok bytes /\ Forall byte_ok bytes.
Proof.
  intros [Hd He]. destruct (hex_decode_digits _ Hd He) as (bs & Hbs & Hok & _).
  exists bs. unfold hex_bytes_to_vec. by rewrite Hbs.
Qed.

Lemma hex_bytes_to_array_total n h : hex_bytes_ok h -> hex_bytes_to_array n h <> Panic.
Proof.
  intros (bytes & Hb & _)%(hex_bytes_to_vec_ok (E := DomainError)). unfold hex_bytes_to_array. rewrite Hb. cbn.
  by destruct (_ =? _)%nat.
Qed.

Lemma hex_bytes_parse_ok s h : hex_bytes_parse s = Ok h -> hex_bytes_ok (mk_HexBytes (bytes_string h)).
Proof.
  intros Hp. destruct (hex_bytes_parse_inv s h Hp) as (n & -> & Hn & Hev).
  destruct (hexdigits_lower n Hn) as [Hd _]. split; cbn [hex_bytes_str];
    rewrite string_bytes_string by (by apply hexdigits_bytes); [done|]. by rewrite length_map.
Qed.

Lemma hex_bytes_from_bytes_ok bs : Forall byte_ok bs -> hex_bytes_ok (hex_bytes_from_bytes bs).
Proof.
  intros [Hd Hl]%hex_encode_digits. split; [done|]. cbn [hex_bytes_from_bytes hex_bytes_str].
  rewrite Hl, Nat.mul_comm. apply Nat.Div0.mod_mul.
Qed.
End hex_bytes.

(** ** Account requests *)
Inductive SaltPolicySpec : Type := Spec_PublicKey | Spec_Zero | Spec_Explicit (salt : FeltHex).

Inductive AccountClassKind : Type := Kind_OpenZeppelin | Kind_Argent | Kind_Braavos.

#[export] Instance AccountClassKind_eq_dec : EqDecision AccountClassKind.
Proof. solve_decision. Defined.

Record AccountClassSpec : Type := mk_AccountClassSpec {
  spec_kind : AccountClassKind; spec_class_hash : option FeltHex; spec_source_label : option string;
  spec_allow_unlisted_class_hash : bool }.

Record DerivationRequest : Type := mk_DerivationRequest {
  dr_secret : SecretRef; dr_key_domain : KeyDomain; dr_chain_id : ChainId; dr_path : DerivationPath;
  dr_account_class : AccountClassSpec; dr_salt_policy : SaltPolicySpec }.

(** [DerivationRequest::validate]. *)
Definition derivation_request_validate (request : DerivationRequest) : outcome DomainError unit :=
  _ ← validate_for (dr_path request) (dr_key_domain request); Ok tt.

Record AccountDescriptor : Type := mk_AccountDescriptor {
  ad_address : FeltHex; ad_public_key : FeltHex; ad_class_hash : FeltHex; ad_salt : FeltHex;
  ad_constructor_calldata : list FeltHex; ad_deployer_address : FeltHex; ad_provenance : Provenance }.

Record CheckDeploymentResult : Type := mk_CheckDeploymentResult {
  cd_account : AccountDescriptor; cd_deployment : DeploymentState }.

Record DeployAccountRequest : Type := { da_derivation : DerivationRequest; da_mode : DeployMode }.

Record DeployAccountResult : Type := mk_DeployAccountResult {
  dar_account : AccountDescriptor; dar_deployment : DeploymentState; dar_already_deployed : bool }.

(** ** Sign requests *)
Inductive StarkSignDomain : Type := TransactionHash | TypedDataHash.
Inductive StarkKeyDomain : Type := SKD_StarknetAccount | SKD_TongoAccount.

(** [StarkKeyDomain::key_domain]. *)
Definition stark_key_domain (d : StarkKeyDomain) : KeyDomain :=
  match d with SKD_StarknetAccount => StarknetAccount | SKD_TongoAccount => TongoAccountDomain end.

Inductive RawMessagePayload : Type := Raw_Hex (bytes : HexBytes) | Raw_Utf8 (text : string).

Inductive SignRequest : Type :=
| SR_StarkHash (secret : SecretRef) (key_domain : StarkKeyDomain) (derivation_path : DerivationPath)
    (chain_id : ChainId) (domain : StarkSignDomain) (hash : FeltHex) (allow_raw_stark_hash : bool)
| SR_StarkRawMessage (secret : SecretRef) (key_domain : StarkKeyDomain) (derivation_path : DerivationPath)
    (message : FeltHex) (allow_raw_stark_hash : bool)
| SR_NostrEvent (secret : SecretRef) (derivation_path : DerivationPath) (event_id : HexBytes)
| SR_NostrRawMessage (secret : SecretRef) (derivation_path : DerivationPath) (payload : RawMessagePayload).

Inductive SignResult : Type :=
| StarkEcdsa (public_key signature_r signature_s : FeltHex)
| NostrBip340 (public_key signature : HexBytes).

(** [SignRequest::validate]. *)
Definition sign_request_validate `{HexCodec} (request : SignRequest) : outcome DomainError unit :=
  match request with
  | SR_StarkHash _ key_domain path _ _ _ allow =>
      _ ← validate_for path (stark_key_domain key_domain);
      reject_if (negb allow) (InvalidSignRequest
        "stark_hash signing requires allow_raw_stark_hash=true; prefer typed/structured sign paths")
  | SR_StarkRawMessage _ key_domain path _ allow =>
      _ ← validate_for path (stark_key_domain key_domain);
      reject_if (negb allow) (InvalidSignRequest
        "stark_raw_message signing requires allow_raw_stark_hash=true; prefer typed/structured sign paths")
  | SR_NostrEvent _ path event_id =>
      _ ← validate_for path NostrEvent;
      _ ← hex_bytes_to_array 32 event_id; Ok tt
  | SR_NostrRawMessage _ path payload =>
      _ ← validate_for path NostrEvent;
      match payload with
      | Raw_Hex bytes => _ ← hex_bytes_to_vec bytes; Ok tt
      | Raw_Utf8 _ => Ok tt
      end
  end.

(** [SignRequest::key_domain]. *)
Definition sign_request_key_domain (request : SignRequest) : KeyDomain :=
  match request with
  | SR_StarkHash _ key_domain _ _ _ _ _ | SR_StarkRawMessage _ key_domain _ _ _ => stark_key_domain key_domain
  | SR_NostrEvent _ _ _ | SR_NostrRawMessage _ _ _ => NostrEvent
  end.

(** [SignRequest::derivation_path]. *)
Definition sign_request_path (request : SignRequest) : DerivationPath :=
  match request with
  | SR_StarkHash _ _ path _ _ _ _ | SR_StarkRawMessage _ _ path _ _
  | SR_NostrEvent _ path _ | SR_NostrRawMessage _ path _ => path
  end.

(** [SignRequest::secret]. *)
Definition sign_request_secret (request : SignRequest) : SecretRef :=
  match request with
  | SR_StarkHash secret _ _ _ _ _ _ | SR_StarkRawMessage secret _ _ _ _
  | SR_NostrEvent secret _ _ | SR_NostrRawMessage secret _ _ => secret
  end.

(** [SignRequest::chain_id]. *)
Definition sign_request_chain_id (request : SignRequest) : option ChainId :=
  match request with
  | SR_StarkHash _ _ _ chain_id _ _ _ => Some chain_id
  | SR_StarkRawMessage _ _ _ _ _ | SR_NostrEvent _ _ _ | SR_NostrRawMessage _ _ _ => None
  end.

(** ** Validity of the newtypes a request carries *)
Definition option_felt_hex_ok `{StarkTypes} (h : option FeltHex) : Prop :=
  match h with Some h => felt_hex_ok h | None => True end.

Definition derivation_request_ok `{StarkTypes} (request : DerivationRequest) : Prop :=
  option_felt_hex_ok (spec_class_hash (dr_account_class request))
  /\ match dr_salt_policy request with Spec_Explicit salt => felt_hex_ok salt | _ => True end.

Definition sign_request_ok `{StarkTypes} (request : SignRequest) : Prop :=
  match request with
  | SR_StarkHash _ _ _ _ _ hash _ | SR_StarkRawMessage _ _ _ hash _ => felt_hex_ok hash
  | SR_NostrEvent _ _ event_id => hex_bytes_ok event_id
  | SR_NostrRawMessage _ _ (Raw_Hex bytes) => hex_bytes_ok bytes
  | SR_NostrRawMessage _ _ (Raw_Utf8 _) => True
  end.

Section validate.
Context `{HexCodec}.

Lemma validate_for_cases path domain :
  (coin_type path = expected_coin_type domain /\ validate_for path domain = Ok path)
  \/ (coin_type path <> expected_coin_type domain /\ exists e, validate_for path domain = Err e).
Proof.
  unfold validate_for. destruct (Z.eqb_spec (coin_type path) (expected_coin_type domain)); cbn [negb]; eauto.
Qed.

(** An accepted request derives on its own domain's coin type, opts in to raw
    hashes where it signs one, and names an event by 32 bytes. *)
Lemma sign_request_validate_Ok request u :
  sign_request_validate request = Ok u ->
  coin_type (sign_request_path request) = expected_coin_type (sign_request_key_domain request)
  /\ match request with
     | SR_StarkHash _ _ _ _ _ _ allow | SR_StarkRawMessage _ _ _ _ allow => allow = true
     | SR_NostrEvent _ _ event_id => exists id, hex_bytes_to_array 32 event_id = Ok id /\ length id = 32%nat
     | SR_NostrRawMessage _ _ _ => True
     end.
Proof.
  destruct request as [s d p c dom h allow|s d p h allow|s p ev|s p payload]; cbn -[hex_bytes_to_array].
  all: match goal with |- context [validate_for ?p ?d] =>
    destruct (validate_for_cases p d) as [[Hc ->]|[_ [e ->]]] end; cbn -[hex_bytes_to_array]; try done.
  - by destruct allow.
  - by destruct allow.
  - destruct (hex_bytes_to_array 32 ev) as [id|e|] eqn:Hid; try done. intros _. split; [done|].
    exists id. split; [done|]. revert Hid. unfold hex_bytes_to_array.
    destruct (hex_bytes_to_vec ev) as [bytes|e|]; try done. cbn. destruct (Nat.eqb_spec (length bytes) 32); [|done].
    by intros [= <-].
Qed.

Lemma sign_request_validate_total `{StarkTypes} request :
  sign_request_ok request -> sign_request_validate request <> Panic.
Proof.
  destruct request as [s d p c dom h allow|s d p h allow|s p ev|s p payload];
    cbn -[hex_bytes_to_array]; intros Hok.
  all: match goal with |- context [validate_for ?p ?d] =>
    destruct (validate_for_cases p d) as [[Hc ->]|[_ [e ->]]] end; cbn -[hex_bytes_to_array]; try done.
  - by destruct allow.
  - by destruct allow.
  - pose proof (hex_bytes_to_array_total 32 ev Hok). by destruct (hex_bytes_to_array 32 ev).
  - destruct payload as [bytes|]; [|done]. by destruct (hex_bytes_to_vec_ok (E := DomainError) bytes Hok) as (bs & -> & _).
Qed.
End validate.
