(* ===== verification/MentalPoker.v ===== *)
(** * Mental poker: data and zero-knowledge proofs

    crates/experimental/gaming-experimental/mental-poker/src: types.rs, utils.rs, error.rs and
    zkp.rs (Schnorr proofs of key ownership, Chaum-Pedersen proofs that two discrete logarithms
    are equal, and the batch verification of the latter).

    The curve, the scalars and SHA-256 are the interfaces of the other files; [FeltText] is the
    printing and parsing of field elements.  The draws of [random_felt] are arguments.  The
    error [MpCryptoError] carries the error whose text the source keeps. *)

From stdpp Require Import base option list numbers strings.
From Stdlib Require Import ZArith Lia Zdiv.
From S2P Require Import Prelude StarkLib Primality GroupTac StarkModel Types Scalar Curve Text Derivation Requests.

#[local] Open Scope string_scope.
#[local] Open Scope list_scope.
#[local] Open Scope Z_scope.

(** [format!("{:#x}", felt)] and [Felt::from_hex]. *)
Class FeltText `{StarkTypes} : Type := {
  felt_lower_hex : Felt -> string;
  felt_from_text : string -> option Felt }.
Class FeltTextLaws `{FeltText} : Prop := {
  felt_text_roundtrip f : felt_from_text (felt_lower_hex f) = Some f }.

(** ** Errors (error.rs) *)
Inductive MentalPokerError : Type :=
| ProofVerificationError (s : string)
| InvalidKeyOwnership
| InvalidMaskingProof
| InvalidRemaskingProof
| InvalidRevealProof
| InvalidShuffleProof
| InvalidCard
| CardNotFound
| InvalidParameters (s : string)
| MpSerializationError (s : string)
| InvalidPoint
| MpCryptoError (e : KmsError)
| InsufficientRevealTokens
| InvalidCardIndex (s : string)
| InvalidDeckConfig (s : string).

Abbreviation PResult := (outcome MentalPokerError).

(** [?] on a result of the other crates. *)
Definition lift_kms {A} (m : Result A) : PResult A :=
  match m with Ok a => Ok a | Err e => Err (MpCryptoError e) | Panic => Panic end.

Section poker_types.
Context `{StarkTypes}.

(** ** Types (types.rs) *)
Record Card : Type := mk_Card { card_point : Proj }.
Record MaskedCard : Type := mk_MaskedCard { c0 : Proj; c1 : Proj }.
Record RevealToken : Type := mk_RevealToken { token_point : Proj }.
Record PublicKey : Type := mk_PublicKey { pk_point : Proj }.
Record SecretKey : Type := mk_SecretKey { sk_scalar : Felt }.

Definition card_from_index (index : Z) : PResult Card :=
  point ← lift_kms (curve_mul_generator (felt_of_Z index)); Ok (mk_Card point).

Definition card_try_from_index (index : Z) : PResult Card :=
  _ ← reject_if (index =? 0) (InvalidCardIndex "card index 0 produces identity point which is invalid");
  point ← lift_kms (curve_mul_generator (felt_of_Z index)); Ok (mk_Card point).

(** [utils::negate_point]. *)
Definition negate_point (point : Proj) : PResult Proj :=
  if is_infinity point then Ok proj_identity
  else
    affine ← lift_kms (projective_to_affine point);
    ok_or (proj_from_affine (aff_x affine) (felt_neg (aff_y affine))) InvalidPoint.

Definition masked_add (self other : MaskedCard) : MaskedCard :=
  mk_MaskedCard (curve_add (c0 self) (c0 other)) (curve_add (c1 self) (c1 other)).
Definition masked_negate (self : MaskedCard) : PResult MaskedCard :=
  n0 ← negate_point (c0 self); n1 ← negate_point (c1 self); Ok (mk_MaskedCard n0 n1).

Definition token_zero : RevealToken := mk_RevealToken proj_identity.
Definition token_add (self other : RevealToken) : RevealToken :=
  mk_RevealToken (curve_add (token_point self) (token_point other)).

Definition pk_zero : PublicKey := mk_PublicKey proj_identity.
Definition pk_add (self other : PublicKey) : PublicKey := mk_PublicKey (curve_add (pk_point self) (pk_point other)).

Definition public_key (sk : SecretKey) : PResult PublicKey :=
  point ← lift_kms (curve_mul_generator (sk_scalar sk)); Ok (mk_PublicKey point).

Record PokerPoint : Type := mk_PokerPoint { pp_x : string; pp_y : string }.
Record KeyOwnershipProof : Type := mk_KeyOwnershipProof { ko_commitment : PokerPoint; ko_response : string; ko_challenge : string }.
Record DLEqualityProof : Type := mk_DLEqualityProof {
  dl_a1 : PokerPoint; dl_a2 : PokerPoint; dl_response : string; dl_challenge : string }.

Record CompactPoint : Type := mk_CompactPoint { cp_x : list Z; cp_y : list Z }.
Record CompactDLEqualityProof : Type := mk_CompactDLEqualityProof {
  cdl_a1 : CompactPoint; cdl_a2 : CompactPoint; cdl_response : list Z; cdl_challenge : list Z }.
Record CompactKeyOwnershipProof : Type := mk_CompactKeyOwnershipProof {
  cko_commitment : CompactPoint; cko_response : list Z; cko_challenge : list Z }.

Definition compact_from_projective (point : Proj) : PResult CompactPoint :=
  affine ← lift_kms (projective_to_affine point);
  Ok (mk_CompactPoint (to_bytes_be (aff_x affine)) (to_bytes_be (aff_y affine))).
Definition compact_to_projective (p : CompactPoint) : PResult Proj :=
  ok_or (proj_from_affine (from_bytes_be (cp_x p)) (from_bytes_be (cp_y p))) InvalidPoint.
Definition to_raw_bytes (p : CompactPoint) : list Z := cp_x p ++ cp_y p.
Definition from_raw_bytes (bytes : list Z) : CompactPoint := mk_CompactPoint (take 32 bytes) (drop 32 bytes).

Context `{!FeltText}.

Definition parse_felt (s : string) : PResult Felt := ok_or (felt_from_text s) (MpSerializationError "{e}").

Definition pp_from_projective (point : Proj) : PResult PokerPoint :=
  affine ← lift_kms (projective_to_affine point);
  Ok (mk_PokerPoint (felt_lower_hex (aff_x affine)) (felt_lower_hex (aff_y affine))).
Definition pp_to_projective (p : PokerPoint) : PResult Proj :=
  x ← parse_felt (pp_x p);
  y ← parse_felt (pp_y p);
  ok_or (proj_from_affine x y) InvalidPoint.
Definition pp_to_bytes (p : PokerPoint) : PResult CompactPoint :=
  x ← parse_felt (pp_x p);
  y ← parse_felt (pp_y p);
  Ok (mk_CompactPoint (to_bytes_be x) (to_bytes_be y)).
Definition pp_from_bytes (compact : CompactPoint) : PResult PokerPoint :=
  Ok (mk_PokerPoint (felt_lower_hex (from_bytes_be (cp_x compact))) (felt_lower_hex (from_bytes_be (cp_y compact)))).

(** [CompactScalar]: 32 bytes. *)
Definition scalar_from_hex (hex : string) : PResult (list Z) := felt ← parse_felt hex; Ok (to_bytes_be felt).
Definition scalar_to_hex (bytes : list Z) : string := felt_lower_hex (from_bytes_be bytes).

Definition compact_dl_from_proof (proof : DLEqualityProof) : PResult CompactDLEqualityProof :=
  a1 ← pp_to_bytes (dl_a1 proof);
  a2 ← pp_to_bytes (dl_a2 proof);
  response ← scalar_from_hex (dl_response proof);
  challenge ← scalar_from_hex (dl_challenge proof);
  Ok (mk_CompactDLEqualityProof a1 a2 response challenge).
Definition compact_dl_to_proof (p : CompactDLEqualityProof) : PResult DLEqualityProof :=
  a1 ← pp_from_bytes (cdl_a1 p);
  a2 ← pp_from_bytes (cdl_a2 p);
  Ok (mk_DLEqualityProof a1 a2 (scalar_to_hex (cdl_response p)) (scalar_to_hex (cdl_challenge p))).
Definition compact_ko_from_proof (proof : KeyOwnershipProof) : PResult CompactKeyOwnershipProof :=
  commitment ← pp_to_bytes (ko_commitment proof);
  response ← scalar_from_hex (ko_response proof);
  challenge ← scalar_from_hex (ko_challenge proof);
  Ok (mk_CompactKeyOwnershipProof commitment response challenge).
Definition compact_ko_to_proof (p : CompactKeyOwnershipProof) : PResult KeyOwnershipProof :=
  commitment ← pp_from_bytes (cko_commitment p);
  Ok (mk_KeyOwnershipProof commitment (scalar_to_hex (cko_response p)) (scalar_to_hex (cko_challenge p))).
End poker_types.

(** ** Proofs (zkp.rs) *)
Section zkp.
Context `{StarkTypes, !FeltText} `{HashFns}.

Definition zkp_compute_challenge (data : list Z) : Felt := from_bytes_be (0 :: take 31 (sha256 data)).

Definition affine_bytes (a : Aff) : list Z := to_bytes_be (aff_x a) ++ to_bytes_be (aff_y a).

(** [context || g || pk || a]. *)
Definition schnorr_input (context : list Z) (g pk a : Aff) : list Z :=
  context ++ affine_bytes g ++ affine_bytes pk ++ affine_bytes a.

Definition schnorr_prove (r : Felt) (pk : PublicKey) (sk : SecretKey) (context : list Z) : PResult KeyOwnershipProof :=
  g ← lift_kms generator;
  a ← lift_kms (curve_mul r (Some g));
  a_affine ← lift_kms (projective_to_affine a);
  pk_affine ← lift_kms (projective_to_affine (pk_point pk));
  g_affine ← lift_kms (projective_to_affine g);
  let c := zkp_compute_challenge (schnorr_input context g_affine pk_affine a_affine) in
  c_sk ← lift_kms (scalar_mul c (sk_scalar sk));
  s ← lift_kms (scalar_add r c_sk);
  commitment ← pp_from_projective a;
  Ok (mk_KeyOwnershipProof commitment (felt_lower_hex s) (felt_lower_hex c)).

Definition schnorr_verify (pk : PublicKey) (proof : KeyOwnershipProof) (context : list Z) : PResult bool :=
  g ← lift_kms generator;
  a ← pp_to_projective (ko_commitment proof);
  s ← parse_felt (ko_response proof);
  c ← parse_felt (ko_challenge proof);
  a_affine ← lift_kms (projective_to_affine a);
  pk_affine ← lift_kms (projective_to_affine (pk_point pk));
  g_affine ← lift_kms (projective_to_affine g);
  let c_computed := zkp_compute_challenge (schnorr_input context g_affine pk_affine a_affine) in
  if bool_decide (c <> c_computed) then Ok false
  else
    lhs ← lift_kms (curve_mul s (Some g));
    pk_c ← lift_kms (curve_mul c (Some (pk_point pk)));
    let rhs := curve_add a pk_c in
    lift_kms (affine_eq lhs rhs).

(** The challenge both sides compute; [compute_chaum_pedersen_challenge]. *)
Definition cp_challenge (g h y1 y2 a1 a2 : Proj) (context : list Z) : PResult Felt :=
  g_affine ← lift_kms (projective_to_affine g);
  h_affine ← lift_kms (projective_to_affine h);
  y1_affine ← lift_kms (projective_to_affine y1);
  y2_affine ← lift_kms (projective_to_affine y2);
  a1_affine ← lift_kms (projective_to_affine a1);
  a2_affine ← lift_kms (projective_to_affine a2);
  Ok (zkp_compute_challenge (context ++ affine_bytes g_affine ++ affine_bytes h_affine ++ affine_bytes y1_affine
        ++ affine_bytes y2_affine ++ affine_bytes a1_affine ++ affine_bytes a2_affine)).

Definition cp_prove (r : Felt) (g h y1 y2 : Proj) (x : Felt) (context : list Z) : PResult DLEqualityProof :=
  a1 ← lift_kms (curve_mul r (Some g));
  a2 ← lift_kms (curve_mul r (Some h));
  c ← cp_challenge g h y1 y2 a1 a2 context;
  c_x ← lift_kms (scalar_mul c x);
  s ← lift_kms (scalar_add r c_x);
  a1 ← pp_from_projective a1;
  a2 ← pp_from_projective a2;
  Ok (mk_DLEqualityProof a1 a2 (felt_lower_hex s) (felt_lower_hex c)).

Definition cp_verify (g h y1 y2 : Proj) (proof : DLEqualityProof) (context : list Z) : PResult bool :=
  a1 ← pp_to_projective (dl_a1 proof);
  a2 ← pp_to_projective (dl_a2 proof);
  s ← parse_felt (dl_response proof);
  c ← parse_felt (dl_challenge proof);
  c_computed ← cp_challenge g h y1 y2 a1 a2 context;
  if bool_decide (c <> c_computed) then Ok false
  else
    lhs1 ← lift_kms (curve_mul s (Some g));
    y1_c ← lift_kms (curve_mul c (Some y1));
    let rhs1 := curve_add a1 y1_c in
    first ← lift_kms (affine_eq lhs1 rhs1);
    if negb first then Ok false
    else
      lhs2 ← lift_kms (curve_mul s (Some h));
      y2_c ← lift_kms (curve_mul c (Some y2));
      let rhs2 := curve_add a2 y2_c in
      lift_kms (affine_eq lhs2 rhs2).

(** ** Batch verification *)
Record BatchInput : Type := mk_BatchInput {
  bi_g : Proj; bi_h : Proj; bi_y1 : Proj; bi_y2 : Proj; bi_proof : DLEqualityProof; bi_context : list Z }.

(** The bytes a point adds to the seed: none if it is at infinity. *)
Definition seed_point (p : Proj) : list Z :=
  match projective_to_affine p with Ok a => affine_bytes a | _ => [] end.

Definition generate_batch_weights (proofs : list BatchInput) : list Felt :=
  let seed := sha256 (fold_left (fun state b =>
    state ++ seed_point (bi_g b) ++ seed_point (bi_h b) ++ seed_point (bi_y1 b) ++ seed_point (bi_y2 b)
    ++ string_bytes (dl_response (bi_proof b)) ++ string_bytes (dl_challenge (bi_proof b)) ++ bi_context b)
    proofs (string_bytes "chaum-pedersen-batch-weights")) in
  map (fun i => from_bytes_be (0 :: take 31 (sha256 (string_bytes "weight-" ++ rev (be_bytes 8 i) ++ seed))))
    (seqZ 0 (Z.of_nat (length proofs))).

Record ParsedProof : Type := mk_Parsed {
  pa_g : Proj; pa_h : Proj; pa_y1 : Proj; pa_y2 : Proj; pa_a1 : Proj; pa_a2 : Proj; pa_s : Felt; pa_c : Felt }.

(** Parsing with the challenge checks; [None] is the early [return Ok(false)]. *)
Fixpoint parse_batch (proofs : list BatchInput) : PResult (option (list ParsedProof)) :=
  match proofs with
  | [] => Ok (Some [])
  | b :: rest =>
      let proof := bi_proof b in
      a1 ← pp_to_projective (dl_a1 proof);
      a2 ← pp_to_projective (dl_a2 proof);
      s ← parse_felt (dl_response proof);
      c ← parse_felt (dl_challenge proof);
      c_computed ← cp_challenge (bi_g b) (bi_h b) (bi_y1 b) (bi_y2 b) a1 a2 (bi_context b);
      if bool_decide (c <> c_computed) then Ok None
      else
        parsed ← parse_batch rest;
        Ok (option_map (cons (mk_Parsed (bi_g b) (bi_h b) (bi_y1 b) (bi_y2 b) a1 a2 s c)) parsed)
  end.

Record BatchSums : Type := mk_Sums { lhs1_sum : Proj; rhs1_sum : Proj; lhs2_sum : Proj; rhs2_sum : Proj }.
Definition zero_sums : BatchSums := mk_Sums proj_identity proj_identity proj_identity proj_identity.

Definition batch_step (sums : BatchSums) (wp : Felt * ParsedProof) : PResult BatchSums :=
  let '(r_i, p) := wp in
  weighted_s ← lift_kms (scalar_mul r_i (pa_s p));
  lhs1_term ← lift_kms (curve_mul weighted_s (Some (pa_g p)));
  y1_c ← lift_kms (curve_mul (pa_c p) (Some (pa_y1 p)));
  rhs1_term ← lift_kms (curve_mul r_i (Some (curve_add (pa_a1 p) y1_c)));
  lhs2_term ← lift_kms (curve_mul weighted_s (Some (pa_h p)));
  y2_c ← lift_kms (curve_mul (pa_c p) (Some (pa_y2 p)));
  rhs2_term ← lift_kms (curve_mul r_i (Some (curve_add (pa_a2 p) y2_c)));
  Ok (mk_Sums (curve_add (lhs1_sum sums) lhs1_term) (curve_add (rhs1_sum sums) rhs1_term)
        (curve_add (lhs2_sum sums) lhs2_term) (curve_add (rhs2_sum sums) rhs2_term)).

Definition verify_chaum_pedersen_batch (proofs : list BatchInput) : PResult bool :=
  match proofs with
  | [] => Ok true
  | [b] => cp_verify (bi_g b) (bi_h b) (bi_y1 b) (bi_y2 b) (bi_proof b) (bi_context b)
  | _ =>
      let weights := generate_batch_weights proofs in
      parsed ← parse_batch proofs;
      match parsed with
      | None => Ok false
      | Some parsed =>
          sums ← foldM batch_step zero_sums (zip weights parsed);
          first ← lift_kms (affine_eq (lhs1_sum sums) (rhs1_sum sums));
          if negb first then Ok false else lift_kms (affine_eq (lhs2_sum sums) (rhs2_sum sums))
      end
  end.

Definition batch_verify_chaum_pedersen (proofs : list DLEqualityProof) (statements : list (Proj * Proj * Proj * Proj))
    (context : list Z) : PResult bool :=
  _ ← reject_if (negb (length proofs =? length statements)%nat)
        (InvalidParameters "proofs and statements must have the same length");
  if (length proofs =? 0)%nat then Ok true
  else
    verify_chaum_pedersen_batch
      (zip_with (fun proof '(g, h, a, b) => mk_BatchInput g h a b proof context) proofs statements).
End zkp.

(** ** Points and text *)
Section poker_lemmas.
Context `{StarkLaws, !FeltText, !FeltTextLaws}.

Lemma lift_kms_Ok {A} (m : Result A) a : lift_kms m = Ok a <-> m = Ok a.
Proof. destruct m; cbn; split; congruence. Qed.

Lemma parse_felt_print f : parse_felt (felt_lower_hex f) = Ok f.
Proof. unfold parse_felt. by rewrite felt_text_roundtrip. Qed.

Lemma poker_negate_spec p : exists q, negate_point p = Ok q /\ q ≡ (-1) • p.
Proof.
  unfold negate_point. destruct (is_infinity p) eqn:Hi.
  - exists proj_identity. split; [done|]. apply is_infinity_spec in Hi. by rewrite Hi, smul_id_r.
  - assert (~ p ≡ proj_identity) as [a Ha]%to_affine_not_infinity by (rewrite <- is_infinity_spec; by rewrite Hi).
    unfold projective_to_affine. rewrite Ha. cbn [ok_or lift_kms mbind outcome_bind].
    destruct (aff_neg_spec p a Ha) as (b & q & Hb & Hq & Heq). exists q. split; [|done].
    destruct (aff_new_coords _ _ _ Hb) as [Hx Hy]. unfold affine_to_projective in Hq. rewrite Hx, Hy in Hq.
    apply expect_Ok in Hq. by rewrite Hq.
Qed.

Lemma negate_point_Ok p q : negate_point p = Ok q -> q ≡ (-1) • p.
Proof. intros Hq. destruct (poker_negate_spec p) as (q' & Hq' & Heq). rewrite Hq in Hq'. by injection Hq' as <-. Qed.

Lemma pp_from_projective_total p : ~ p ≡ proj_identity -> exists s, pp_from_projective p = Ok s.
Proof.
  intros [a Ha]%to_affine_not_infinity. unfold pp_from_projective, projective_to_affine. rewrite Ha. cbn. eauto.
Qed.

Lemma pp_roundtrip p s : pp_from_projective p = Ok s -> exists q, pp_to_projective s = Ok q /\ q ≡ p.
Proof.
  unfold pp_from_projective, projective_to_affine. destruct (proj_to_affine p) as [a|] eqn:Ha; [|done]. cbn. intros [= <-].
  unfold pp_to_projective. cbn [pp_x pp_y]. rewrite !parse_felt_print. cbn [mbind outcome_bind].
  destruct (from_affine_valid _ _ _ (aff_on_curve a)) as (q & Hq & Hqa). rewrite Hq. exists q. split; [done|].
  apply to_affine_eq. congruence.
Qed.

(** Converting a proof to its binary form and back gives the proof. *)
Lemma pp_bytes_roundtrip p s : pp_from_projective p = Ok s -> (b ← pp_to_bytes s; pp_from_bytes b) = Ok s.
Proof.
  unfold pp_from_projective. intros Hs. inv_ok. unfold pp_to_bytes. cbn [pp_x pp_y]. rewrite !parse_felt_print. cbn [mbind outcome_bind].
  unfold pp_from_bytes. cbn [cp_x cp_y]. by rewrite !from_bytes_to_bytes.
Qed.

Lemma affine_finite p : projective_to_affine p = Err PointAtInfinity \/ exists a, projective_to_affine p = Ok a.
Proof. unfold projective_to_affine. destruct (proj_to_affine p); cbn; eauto. Qed.
End poker_lemmas.

Section zkp_lemmas.
Context `{StarkLaws, !FeltText, !FeltTextLaws} `{HashFns}.
Implicit Types (g h y p q : Proj).

#[export] Instance cp_challenge_proper :
  Proper ((≡) ==> (≡) ==> (≡) ==> (≡) ==> (≡) ==> (≡) ==> (=) ==> (=)) cp_challenge.
Proof.
  intros g g' Hg h h' Hh y1 y1' Hy1 y2 y2' Hy2 a1 a1' Ha1 a2 a2' Ha2 ctx ? <-. unfold cp_challenge.
  apply projective_to_affine_proper in Hg, Hh, Hy1, Hy2, Ha1, Ha2. by rewrite Hg, Hh, Hy1, Hy2, Ha1, Ha2.
Qed.

#[export] Instance pp_from_projective_proper : Proper ((≡) ==> (=)) pp_from_projective.
Proof. intros p q Hp%projective_to_affine_proper. unfold pp_from_projective. by rewrite Hp. Qed.

(** An accepted proof satisfies both equations under its own challenge. *)
Lemma cp_verify_true_inv g h y1 y2 pf context :
  cp_verify g h y1 y2 pf context = Ok true ->
  exists a1 a2 s c, pp_to_projective (dl_a1 pf) = Ok a1 /\ pp_to_projective (dl_a2 pf) = Ok a2
    /\ parse_felt (dl_response pf) = Ok s /\ parse_felt (dl_challenge pf) = Ok c
    /\ cp_challenge g h y1 y2 a1 a2 context = Ok c
    /\ felt_val s • g ≡ a1 ⊕ felt_val c • y1 /\ felt_val s • h ≡ a2 ⊕ felt_val c • y2.
Proof.
  unfold cp_verify. intros Hv.
  destruct (pp_to_projective (dl_a1 pf)) as [a1| |]; [|done..]. destruct (pp_to_projective (dl_a2 pf)) as [a2| |]; [|done..].
  destruct (parse_felt (dl_response pf)) as [s| |]; [|done..]. destruct (parse_felt (dl_challenge pf)) as [c| |]; [|done..].
  cbn [mbind outcome_bind] in Hv. destruct (cp_challenge g h y1 y2 a1 a2 context) as [c'| |] eqn:Hc; [|done..].
  cbn [mbind outcome_bind] in Hv. case_bool_decide as Hcc; [done|]. assert (c = c') as -> by (destruct (decide (c = c')); tauto).
  exists a1, a2, s, c'. do 5 (split; [done|]).
  destruct (curve_mul_spec s g) as (l1 & E1 & M1). destruct (curve_mul_spec c' y1) as (z1 & E2 & M2).
  destruct (curve_mul_spec s h) as (l2 & E3 & M3). destruct (curve_mul_spec c' y2) as (z2 & E4 & M4).
  rewrite E1, E2, E3, E4 in Hv. cbn [lift_kms mbind outcome_bind] in Hv. unfold curve_add in Hv.
  destruct (affine_eq l1 (a1 ⊕ z1)) as [[]| |] eqn:Ha; try done. cbn in Hv.
  apply affine_eq_true in Ha as [Ha _]. apply lift_kms_Ok, affine_eq_true in Hv as [Hv _].
  by rewrite <- M1, <- M2, <- M3, <- M4.
Qed.

(** Only points at infinity stop the prover. *)
Lemma cp_prove_total r g h y1 y2 x context :
  ~ g ≡ proj_identity -> ~ h ≡ proj_identity -> ~ y1 ≡ proj_identity -> ~ y2 ≡ proj_identity ->
  ~ felt_val r • g ≡ proj_identity -> ~ felt_val r • h ≡ proj_identity ->
  exists pf, cp_prove r g h y1 y2 x context = Ok pf.
Proof.
  intros Hg Hh Hy1 Hy2 Ha1 Ha2. unfold cp_prove.
  destruct (curve_mul_spec r g) as (a1 & E1 & M1). destruct (curve_mul_spec r h) as (a2 & E2 & M2).
  rewrite E1, E2. cbn [lift_kms mbind outcome_bind]. rewrite <- M1 in Ha1. rewrite <- M2 in Ha2.
  destruct (pp_from_projective_total a1 Ha1) as [s1 Hs1]. destruct (pp_from_projective_total a2 Ha2) as [s2 Hs2].
  rewrite Hs1, Hs2. unfold cp_challenge, projective_to_affine.
  apply to_affine_not_infinity in Hg as [? ->], Hh as [? ->], Hy1 as [? ->], Hy2 as [? ->], Ha1 as [? ->], Ha2 as [? ->].
  cbn. eauto.
Qed.

(** What the verifier says to an honest proof: it accepts, unless a side of an equation is the
    point at infinity, which has no coordinates to compare. *)
Lemma cp_complete r g h y1 y2 x context pf :
  y1 ≡ felt_val x • g -> y2 ≡ felt_val x • h -> cp_prove r g h y1 y2 x context = Ok pf ->
  exists s, parse_felt (dl_response pf) = Ok s
    /\ cp_verify g h y1 y2 pf context
       = if is_infinity (felt_val s • g) || is_infinity (felt_val s • h)
         then Err (MpCryptoError PointAtInfinity) else Ok true.
Proof.
  intros Hy1 Hy2. unfold cp_prove.
  destruct (curve_mul_spec r g) as (a1 & E1 & M1). destruct (curve_mul_spec r h) as (a2 & E2 & M2).
  rewrite E1, E2. cbn [lift_kms mbind outcome_bind].
  destruct (cp_challenge g h y1 y2 a1 a2 context) as [c| |] eqn:Hc; [|done..]. cbn [mbind outcome_bind].
  destruct (scalar_mul c x) as [cx| |] eqn:Hcx; [|discriminate Hcx..]. apply scalar_mul_Ok in Hcx.
  cbn [lift_kms mbind outcome_bind]. destruct (scalar_add r cx) as [s| |] eqn:Hs; [|discriminate Hs..]. apply scalar_add_Ok in Hs.
  cbn [lift_kms mbind outcome_bind]. destruct (pp_from_projective a1) as [p1| |] eqn:Hp1; [|done..].
  cbn [mbind outcome_bind]. destruct (pp_from_projective a2) as [p2| |] eqn:Hp2; [|done..]. cbn [mbind outcome_bind].
  intros [= <-]. cbn [dl_response]. exists s. split; [apply parse_felt_print|].
  apply pp_roundtrip in Hp1 as (b1 & Hb1 & Hba1), Hp2 as (b2 & Hb2 & Hba2).
  unfold cp_verify. cbn [dl_a1 dl_a2 dl_response dl_challenge]. rewrite Hb1, Hb2, !parse_felt_print. cbn [mbind outcome_bind].
  rewrite (cp_challenge_proper g g (reflexivity _) h h (reflexivity _) y1 y1 (reflexivity _) y2 y2 (reflexivity _) b1 a1 Hba1
             b2 a2 Hba2 context context eq_refl), Hc. cbn [mbind outcome_bind].
  rewrite bool_decide_false by tauto.
  destruct (curve_mul_spec s g) as (l1 & F1 & L1). destruct (curve_mul_spec c y1) as (z1 & F2 & L2).
  destruct (curve_mul_spec s h) as (l2 & F3 & L3). destruct (curve_mul_spec c y2) as (z2 & F4 & L4).
  rewrite F1, F2, F3, F4. cbn [lift_kms mbind outcome_bind]. unfold curve_add.
  rewrite (affine_eq_equiv l1 (b1 ⊕ z1)), (affine_eq_equiv l2 (b2 ⊕ z2)).
  - rewrite <- L1, <- L3. by destruct (is_infinity l1), (is_infinity l2).
  - rewrite L3, L4, Hba2, M2, Hs, Hcx, Hy2. proj_module.
  - rewrite L1, L2, Hba1, M1, Hs, Hcx, Hy1. proj_module.
Qed.

(** A proof carries the challenge of its statement. *)
Lemma cp_prove_transcript r g h y1 y2 x context pf :
  cp_prove r g h y1 y2 x context = Ok pf ->
  exists a1 a2 c, pp_to_projective (dl_a1 pf) = Ok a1 /\ pp_to_projective (dl_a2 pf) = Ok a2
    /\ parse_felt (dl_challenge pf) = Ok c /\ cp_challenge g h y1 y2 a1 a2 context = Ok c.
Proof.
  unfold cp_prove.
  destruct (curve_mul_spec r g) as (a1 & E1 & M1). destruct (curve_mul_spec r h) as (a2 & E2 & M2).
  rewrite E1, E2. cbn [lift_kms mbind outcome_bind].
  destruct (cp_challenge g h y1 y2 a1 a2 context) as [c| |] eqn:Hc; [|done..]. cbn [mbind outcome_bind]. intros Hok. inv_ok.
  cbn [dl_a1 dl_a2 dl_challenge]. repeat match goal with Hp : pp_from_projective _ = Ok _ |- _ => apply pp_roundtrip in Hp as (? & ? & ?) end.
  eexists _, _, c. split; [eassumption|]. split; [eassumption|]. split; [apply parse_felt_print|].
  rewrite <- Hc. by apply cp_challenge_proper.
Qed.

Lemma to_bytes_be_inj (f f' : Felt) : to_bytes_be f = to_bytes_be f' -> f = f'.
Proof. intros Hf. apply felt_val_inj. unfold felt_val. by rewrite Hf. Qed.

Lemma affine_bytes_app_inj a b r r' : affine_bytes a ++ r = affine_bytes b ++ r' -> a = b /\ r = r'.
Proof.
  unfold affine_bytes. rewrite <- !app_assoc. intros [Hx Hy]%app_inj_1; [|by rewrite !to_bytes_be_length].
  apply app_inj_1 in Hy as [Hy ->]; [|by rewrite !to_bytes_be_length]. split; [|done].
  by apply aff_ext; apply to_bytes_be_inj.
Qed.

(** A challenge fixes the statement, or the hash collides. *)
Lemma cp_challenge_binding g h y1 y2 z1 z2 a1 a2 context c :
  cp_challenge g h y1 y2 a1 a2 context = Ok c -> cp_challenge g h z1 z2 a1 a2 context = Ok c ->
  (y1 ≡ z1 /\ y2 ≡ z2) \/ exists d d', d <> d' /\ zkp_compute_challenge d = zkp_compute_challenge d'.
Proof.
  unfold cp_challenge, projective_to_affine.
  destruct (proj_to_affine g) as [ga|]; [|done]. destruct (proj_to_affine h) as [ha|]; [|done].
  destruct (proj_to_affine y1) as [u1|] eqn:Hu1; [|done]. destruct (proj_to_affine y2) as [u2|] eqn:Hu2; [|done].
  destruct (proj_to_affine a1) as [b1|]; [|done]. destruct (proj_to_affine a2) as [b2|]; [|done].
  destruct (proj_to_affine z1) as [v1|] eqn:Hv1; [|done]. destruct (proj_to_affine z2) as [v2|] eqn:Hv2; [|done].
  cbn [ok_or lift_kms mbind outcome_bind]. intros [= Hc1] [= Hc2]. rewrite <- Hc2 in Hc1.
  match type of Hc1 with zkp_compute_challenge ?d = zkp_compute_challenge ?d' => destruct (decide (d = d')) as [Hd|]; [left|right; eauto] end.
  apply app_inv_head in Hd. apply affine_bytes_app_inj in Hd as [_ Hd]. apply affine_bytes_app_inj in Hd as [_ Hd].
  apply affine_bytes_app_inj in Hd as [-> Hd]. apply affine_bytes_app_inj in Hd as [-> _].
  split; apply to_affine_eq; congruence.
Qed.

(** The exponent two transcripts with one commitment give away. *)
Definition cp_extract (s1 s2 c1 c2 : Felt) : Z :=
  order_inverse (felt_val c1 - felt_val c2) * (felt_val s1 - felt_val s2).

Lemma cp_sound g h y1 y2 pf1 pf2 ctx1 ctx2 s1 s2 c1 c2 :
  cp_verify g h y1 y2 pf1 ctx1 = Ok true -> cp_verify g h y1 y2 pf2 ctx2 = Ok true ->
  dl_a1 pf1 = dl_a1 pf2 -> dl_a2 pf1 = dl_a2 pf2 ->
  parse_felt (dl_response pf1) = Ok s1 -> parse_felt (dl_response pf2) = Ok s2 ->
  parse_felt (dl_challenge pf1) = Ok c1 -> parse_felt (dl_challenge pf2) = Ok c2 ->
  (felt_val c1 - felt_val c2) mod CurveOrder <> 0 ->
  y1 ≡ cp_extract s1 s2 c1 c2 • g /\ y2 ≡ cp_extract s1 s2 c1 c2 • h.
Proof.
  intros (a1 & a2 & t1 & d1 & Ha1 & Ha2 & Ht1 & Hd1 & _ & Eg1 & Eh1)%cp_verify_true_inv
    (b1 & b2 & t2 & d2 & Hb1 & Hb2 & Ht2 & Hd2 & _ & Eg2 & Eh2)%cp_verify_true_inv HA1 HA2 Hs1 Hs2 Hc1 Hc2 Hne.
  rewrite HA1, Hb1 in Ha1. injection Ha1 as <-. rewrite HA2, Hb2 in Ha2. injection Ha2 as <-.
  rewrite Hs1 in Ht1. injection Ht1 as <-. rewrite Hs2 in Ht2. injection Ht2 as <-.
  rewrite Hc1 in Hd1. injection Hd1 as <-. rewrite Hc2 in Hd2. injection Hd2 as <-. unfold cp_extract. split.
  - rewrite (sigma_extract _ _ y1 _ _ _ Eg1 Eg2 Hne). proj_module.
  - rewrite (sigma_extract _ _ y2 _ _ _ Eh1 Eh2 Hne). proj_module.
Qed.
End zkp_lemmas.

(** ** Key ownership *)
Section schnorr_lemmas.
Context `{StarkLaws, !FeltText, !FeltTextLaws} `{HashFns}.

Lemma schnorr_complete r pk sk context pf g :
  generator = Ok g -> pk_point pk ≡ felt_val (sk_scalar sk) • g -> schnorr_prove r pk sk context = Ok pf ->
  exists s, parse_felt (ko_response pf) = Ok s
    /\ schnorr_verify pk pf context
       = if is_infinity (felt_val s • g) then Err (MpCryptoError PointAtInfinity) else Ok true.
Proof.
  intros Hg Hpk. unfold schnorr_prove. rewrite Hg. cbn [lift_kms mbind outcome_bind].
  destruct (curve_mul_spec r g) as (a & E1 & M1). rewrite E1. cbn [lift_kms mbind outcome_bind].
  destruct (affine_finite a) as [->|[aa Haa]]; [done|]. rewrite Haa. cbn [lift_kms mbind outcome_bind].
  destruct (affine_finite (pk_point pk)) as [->|[pa Hpa]]; [done|]. rewrite Hpa. cbn [lift_kms mbind outcome_bind].
  destruct (affine_finite g) as [->|[ga Hga]]; [done|]. rewrite Hga. cbn [lift_kms mbind outcome_bind].
  set (c := zkp_compute_challenge _).
  destruct (scalar_mul c (sk_scalar sk)) as [cx| |] eqn:Hcx; [|discriminate Hcx..]. apply scalar_mul_Ok in Hcx.
  cbn [lift_kms mbind outcome_bind]. destruct (scalar_add r cx) as [s| |] eqn:Hs; [|discriminate Hs..]. apply scalar_add_Ok in Hs.
  cbn [lift_kms mbind outcome_bind]. destruct (pp_from_projective a) as [p| |] eqn:Hp; [|done..]. cbn [mbind outcome_bind].
  intros [= <-]. cbn [ko_response]. exists s. split; [apply parse_felt_print|].
  apply pp_roundtrip in Hp as (b & Hb & Hba). unfold schnorr_verify. cbn [ko_commitment ko_response ko_challenge].
  rewrite Hg, Hb, !parse_felt_print. cbn [lift_kms mbind outcome_bind].
  rewrite (projective_to_affine_proper b a Hba), Haa, Hpa, Hga. cbn [lift_kms mbind outcome_bind].
  fold c. rewrite bool_decide_false by tauto.
  destruct (curve_mul_spec s g) as (l & F1 & L1). destruct (curve_mul_spec c (pk_point pk)) as (z & F2 & L2).
  rewrite F1, F2. cbn [lift_kms mbind outcome_bind]. unfold curve_add.
  rewrite (affine_eq_equiv l (b ⊕ z)); [rewrite <- L1; by destruct (is_infinity l)|].
  rewrite L1, L2, Hba, M1, Hs, Hcx, Hpk. proj_module.
Qed.

Lemma schnorr_verify_true_inv pk pf context g :
  generator = Ok g -> schnorr_verify pk pf context = Ok true ->
  exists a s c, pp_to_projective (ko_commitment pf) = Ok a /\ parse_felt (ko_response pf) = Ok s
    /\ parse_felt (ko_challenge pf) = Ok c /\ felt_val s • g ≡ a ⊕ felt_val c • pk_point pk
    /\ exists ga pa aa, projective_to_affine g = Ok ga /\ projective_to_affine (pk_point pk) = Ok pa
         /\ projective_to_affine a = Ok aa /\ c = zkp_compute_challenge (schnorr_input context ga pa aa).
Proof.
  intros Hg. unfold schnorr_verify. rewrite Hg. cbn [lift_kms mbind outcome_bind]. intros Hv.
  destruct (pp_to_projective (ko_commitment pf)) as [a| |]; [|done..]. destruct (parse_felt (ko_response pf)) as [s| |]; [|done..].
  destruct (parse_felt (ko_challenge pf)) as [c| |]; [|done..]. cbn [mbind outcome_bind] in Hv.
  destruct (affine_finite a) as [Ha|[aa Haa]]; [by rewrite Ha in Hv|]. rewrite Haa in Hv. cbn [lift_kms mbind outcome_bind] in Hv.
  destruct (affine_finite (pk_point pk)) as [Ha|[pa Hpa]]; [by rewrite Ha in Hv|]. rewrite Hpa in Hv.
  destruct (affine_finite g) as [Ha|[ga Hga]]; [by rewrite Ha in Hv|]. rewrite Hga in Hv. cbn [lift_kms mbind outcome_bind] in Hv.
  case_bool_decide as Hc; [done|]. exists a, s, c. do 3 (split; [done|]). split.
  - destruct (curve_mul_spec s g) as (l & F1 & L1). destruct (curve_mul_spec c (pk_point pk)) as (z & F2 & L2).
    rewrite F1, F2 in Hv. cbn [lift_kms mbind outcome_bind] in Hv. apply lift_kms_Ok, affine_eq_true in Hv as [Hv _].
    unfold curve_add in Hv. by rewrite <- L1, <- L2.
  - exists ga, pa, aa. do 3 (split; [done|]). by destruct (decide (c = zkp_compute_challenge (schnorr_input context ga pa aa))).
Qed.
End schnorr_lemmas.

(** ** Batches *)
Section batch_lemmas.
Context `{StarkLaws, !FeltText, !FeltTextLaws} `{HashFns}.

Definition point_sum (l : list Proj) : Proj := foldr proj_add proj_identity l.

(** How far a proof is from satisfying its two equations. *)
Definition gap1 (p : ParsedProof) : Proj := proj_sub (felt_val (pa_s p) • pa_g p) (pa_a1 p ⊕ felt_val (pa_c p) • pa_y1 p).
Definition gap2 (p : ParsedProof) : Proj := proj_sub (felt_val (pa_s p) • pa_h p) (pa_a2 p ⊕ felt_val (pa_c p) • pa_y2 p).

(** The proof [b] parses as [p] under its own challenge. *)
Definition parses_as (b : BatchInput) (p : ParsedProof) : Prop :=
  pa_g p = bi_g b /\ pa_h p = bi_h b /\ pa_y1 p = bi_y1 b /\ pa_y2 p = bi_y2 b
  /\ pp_to_projective (dl_a1 (bi_proof b)) = Ok (pa_a1 p) /\ pp_to_projective (dl_a2 (bi_proof b)) = Ok (pa_a2 p)
  /\ parse_felt (dl_response (bi_proof b)) = Ok (pa_s p) /\ parse_felt (dl_challenge (bi_proof b)) = Ok (pa_c p)
  /\ cp_challenge (bi_g b) (bi_h b) (bi_y1 b) (bi_y2 b) (pa_a1 p) (pa_a2 p) (bi_context b) = Ok (pa_c p).

Definition batch_item_verify (b : BatchInput) : PResult bool :=
  cp_verify (bi_g b) (bi_h b) (bi_y1 b) (bi_y2 b) (bi_proof b) (bi_context b).

Lemma parse_batch_spec bs ps : parse_batch bs = Ok (Some ps) <-> Forall2 parses_as bs ps.
Proof.
  revert ps; induction bs as [|b bs IH]; intros ps; cbn [parse_batch].
  { split; [intros [= <-]; constructor|by inversion 1]. }
  split.
  - destruct (pp_to_projective (dl_a1 (bi_proof b))) as [a1| |] eqn:E1; [|done..]. cbn [mbind outcome_bind].
    destruct (pp_to_projective (dl_a2 (bi_proof b))) as [a2| |] eqn:E2; [|done..]. cbn [mbind outcome_bind].
    destruct (parse_felt (dl_response (bi_proof b))) as [s| |] eqn:Es; [|done..]. cbn [mbind outcome_bind].
    destruct (parse_felt (dl_challenge (bi_proof b))) as [c| |] eqn:Ec; [|done..]. cbn [mbind outcome_bind].
    destruct (cp_challenge _ _ _ _ a1 a2 _) as [c'| |] eqn:Ech; [|done..]. cbn [mbind outcome_bind].
    case_bool_decide as Hc; [done|]. assert (c = c') as <- by (destruct (decide (c = c')); tauto).
    destruct (parse_batch bs) as [[ps'|]| |]; [|done..]. cbn. intros [= <-]. constructor; [done|]. by apply IH.
  - inversion 1 as [|? p ? ps' (Eg & Eh & Ey1 & Ey2 & Ea1 & Ea2 & Es & Ec & Ech) Hps]; subst.
    rewrite Ea1, Ea2, Es, Ec. cbn [mbind outcome_bind]. rewrite Ech. cbn [mbind outcome_bind]. rewrite bool_decide_false by tauto.
    apply IH in Hps. rewrite Hps. cbn. rewrite <- Eg, <- Eh, <- Ey1, <- Ey2. by destruct p.
Qed.

Lemma batch_step_spec sums w p :
  exists sums', batch_step sums (w, p) = Ok sums'
    /\ proj_sub (lhs1_sum sums') (rhs1_sum sums') ≡ proj_sub (lhs1_sum sums) (rhs1_sum sums) ⊕ felt_val w • gap1 p
    /\ proj_sub (lhs2_sum sums') (rhs2_sum sums') ≡ proj_sub (lhs2_sum sums) (rhs2_sum sums) ⊕ felt_val w • gap2 p.
Proof.
  unfold batch_step.
  destruct (scalar_mul w (pa_s p)) as [wsc| |] eqn:Hw; [|discriminate Hw..]. apply scalar_mul_Ok in Hw. cbn [lift_kms mbind outcome_bind].
  destruct (curve_mul_spec wsc (pa_g p)) as (t1 & E1 & M1). rewrite E1. cbn [lift_kms mbind outcome_bind].
  destruct (curve_mul_spec (pa_c p) (pa_y1 p)) as (t2 & E2 & M2). rewrite E2. cbn [lift_kms mbind outcome_bind].
  destruct (curve_mul_spec w (curve_add (pa_a1 p) t2)) as (t3 & E3 & M3). rewrite E3. cbn [lift_kms mbind outcome_bind].
  destruct (curve_mul_spec wsc (pa_h p)) as (t4 & E4 & M4). rewrite E4. cbn [lift_kms mbind outcome_bind].
  destruct (curve_mul_spec (pa_c p) (pa_y2 p)) as (t5 & E5 & M5). rewrite E5. cbn [lift_kms mbind outcome_bind].
  destruct (curve_mul_spec w (curve_add (pa_a2 p) t5)) as (t6 & E6 & M6). rewrite E6. cbn [lift_kms mbind outcome_bind].
  unfold curve_add in *. eexists. split; [reflexivity|]. cbn [lhs1_sum rhs1_sum lhs2_sum rhs2_sum]. unfold gap1, gap2. split.
  - rewrite M1, M3, M2, Hw. proj_module.
  - rewrite M4, M6, M5, Hw. proj_module.
Qed.

Lemma batch_fold ws ps sums :
  exists sums', foldM batch_step sums (zip ws ps) = Ok sums'
    /\ proj_sub (lhs1_sum sums') (rhs1_sum sums')
       ≡ proj_sub (lhs1_sum sums) (rhs1_sum sums) ⊕ point_sum (zip_with (fun w p => felt_val w • gap1 p) ws ps)
    /\ proj_sub (lhs2_sum sums') (rhs2_sum sums')
       ≡ proj_sub (lhs2_sum sums) (rhs2_sum sums) ⊕ point_sum (zip_with (fun w p => felt_val w • gap2 p) ws ps).
Proof.
  revert ws sums; induction ps as [|p ps IH]; intros [|w ws] sums; cbn [zip zip_with foldM point_sum foldr];
    try (exists sums; split; [done|]; by rewrite !proj_add_id_r).
  destruct (batch_step_spec sums w p) as (sums1 & -> & S1 & S2). cbn [mbind outcome_bind].
  destruct (IH ws sums1) as (sums2 & Hf & T1 & T2). exists sums2. split; [exact Hf|].
  rewrite T1, T2, S1, S2. by rewrite !proj_add_assoc.
Qed.

(** A sum of points of which only one may be nonzero. *)
Lemma point_sum_single l k p :
  l !! k = Some p -> (forall j q, j <> k -> l !! j = Some q -> q ≡ proj_identity) -> point_sum l ≡ p.
Proof.
  revert k; induction l as [|q l IH]; intros k Hk Hz; [done|]. cbn [point_sum foldr]. fold (point_sum l). destruct k as [|k].
  - injection Hk as ->. assert (point_sum l ≡ proj_identity) as ->; [|apply proj_add_id_r].
    clear IH. assert (forall j r, l !! j = Some r -> r ≡ proj_identity) as Hl by (intros j r Hr; by apply (Hz (S j))).
    clear Hz. induction l as [|r l IH]; [done|]. cbn [point_sum foldr]. fold (point_sum l).
    rewrite (Hl 0%nat r eq_refl), proj_add_id_l. apply IH. intros j r' Hr. by apply (Hl (S j)).
  - rewrite (Hz 0%nat q) by done. rewrite proj_add_id_l. apply (IH k); [done|]. intros j r Hj Hr. by apply (Hz (S j)); [lia|].
Qed.

Lemma gap_zero p q : proj_sub p q ≡ proj_identity <-> p ≡ q.
Proof.
  rewrite <- (proj_cancel_r (proj_sub p q) proj_identity q), proj_sub_spec, proj_add_id_l. done.
Qed.

Lemma smul_cancel w p : w mod CurveOrder <> 0 -> w • p ≡ proj_identity -> p ≡ proj_identity.
Proof.
  intros Hw%order_inverse_spec Hp. rewrite <- (smul_1_l p), <- Hw.
  transitivity (order_inverse w • (w • p)); [proj_module|]. by rewrite Hp, smul_id_r.
Qed.

(** What the batch's two comparisons say of the proofs' gaps. *)
Lemma batch_true_inv bs ps :
  (1 < length bs)%nat -> Forall2 parses_as bs ps -> verify_chaum_pedersen_batch bs = Ok true ->
  point_sum (zip_with (fun w p => felt_val w • gap1 p) (generate_batch_weights bs) ps) ≡ proj_identity
  /\ point_sum (zip_with (fun w p => felt_val w • gap2 p) (generate_batch_weights bs) ps) ≡ proj_identity.
Proof.
  intros Hlen Hps. assert (parse_batch bs = Ok (Some ps)) as Hp by by apply parse_batch_spec.
  unfold verify_chaum_pedersen_batch. destruct bs as [|b1 [|b2 bs]]; [cbn in Hlen; lia..|].
  set (all := b1 :: b2 :: bs) in *. rewrite Hp. cbn [mbind outcome_bind].
  destruct (batch_fold (generate_batch_weights all) ps zero_sums) as (sums & -> & S1 & S2). cbn [mbind outcome_bind].
  cbn [lhs1_sum rhs1_sum lhs2_sum rhs2_sum zero_sums] in S1, S2.
  destruct (affine_eq (lhs1_sum sums) (rhs1_sum sums)) as [[]| |] eqn:Q1; try done. cbn [lift_kms mbind outcome_bind negb].
  intros Q2%lift_kms_Ok. apply affine_eq_true in Q1 as [Q1 _], Q2 as [Q2 _]. apply gap_zero in Q1, Q2.
  rewrite S1 in Q1. rewrite S2 in Q2.
  split; [etransitivity; [|exact Q1]|etransitivity; [|exact Q2]]; proj_module.
Qed.

Lemma batch_equations_complete bs ps :
  (1 < length bs)%nat -> Forall2 parses_as bs ps ->
  Forall (fun p => gap1 p ≡ proj_identity /\ gap2 p ≡ proj_identity) ps ->
  verify_chaum_pedersen_batch bs = Ok true \/ verify_chaum_pedersen_batch bs = Err (MpCryptoError PointAtInfinity).
Proof.
  intros Hlen Hps Hgap. assert (parse_batch bs = Ok (Some ps)) as Hp by by apply parse_batch_spec.
  unfold verify_chaum_pedersen_batch. destruct bs as [|b1 [|b2 bs]]; [cbn in Hlen; lia..|].
  set (all := b1 :: b2 :: bs) in *. rewrite Hp. cbn [mbind outcome_bind].
  destruct (batch_fold (generate_batch_weights all) ps zero_sums) as (sums & -> & S1 & S2). cbn [mbind outcome_bind].
  cbn [lhs1_sum rhs1_sum lhs2_sum rhs2_sum zero_sums] in S1, S2.
  assert (forall f, Forall (fun p => f p ≡ proj_identity) ps ->
    point_sum (zip_with (fun w p => felt_val w • f p) (generate_batch_weights all) ps) ≡ proj_identity) as Hz.
  { intros f. generalize (generate_batch_weights all). clear - H0. induction ps as [|p ps IH]; intros [|w ws] Hf; [done..|].
    apply Forall_cons in Hf as [Hf Hfs]. cbn. fold (point_sum (zip_with (fun w p => felt_val w • f p) ws ps)).
    rewrite Hf, smul_id_r, IH by done. apply proj_add_id_l. }
  rewrite Hz in S1 by (eapply Forall_impl; [exact Hgap|]; by intros ? [? ?]).
  rewrite Hz in S2 by (eapply Forall_impl; [exact Hgap|]; by intros ? [? ?]).
  assert (lhs1_sum sums ≡ rhs1_sum sums) as Q1 by (apply gap_zero; rewrite S1; proj_module).
  assert (lhs2_sum sums ≡ rhs2_sum sums) as Q2 by (apply gap_zero; rewrite S2; proj_module).
  rewrite (affine_eq_equiv _ _ Q1), (affine_eq_equiv _ _ Q2).
  destruct (is_infinity (lhs1_sum sums)); cbn; [by right|]. destruct (is_infinity (lhs2_sum sums)); cbn; [by right|by left].
Qed.

Lemma batch_parsed bs :
  (1 < length bs)%nat -> verify_chaum_pedersen_batch bs = Ok true -> exists ps, Forall2 parses_as bs ps.
Proof.
  unfold verify_chaum_pedersen_batch. destruct bs as [|b1 [|b2 bs]]; [cbn; lia..|]. intros _.
  destruct (parse_batch _) as [[ps|]| |] eqn:Hp; [|done..]. intros _. exists ps. by apply parse_batch_spec.
Qed.

Lemma length_weights bs : length (generate_batch_weights bs) = length bs.
Proof. unfold generate_batch_weights. rewrite length_map, length_seqZ. lia. Qed.
End batch_lemmas.

(** ** The properties *)

(** C29: Chaum-Pedersen proofs are complete up to points at infinity, and two accepting
    transcripts with one commitment and different challenges yield the common exponent. *)
Theorem chaum_pedersen_correct `{StarkLaws, !FeltText, !FeltTextLaws} `{HashFns} (g h y1 y2 : Proj) context :
  (forall r x pf, y1 ≡ felt_val x • g -> y2 ≡ felt_val x • h -> cp_prove r g h y1 y2 x context = Ok pf ->
     exists s, parse_felt (dl_response pf) = Ok s
       /\ cp_verify g h y1 y2 pf context
          = if is_infinity (felt_val s • g) || is_infinity (felt_val s • h)
            then Err (MpCryptoError PointAtInfinity) else Ok true)
  /\ (forall r x, Forall (fun p : Proj => ~ p ≡ proj_identity) [g; h; y1; y2; felt_val r • g; felt_val r • h] ->
       exists pf, cp_prove r g h y1 y2 x context = Ok pf)
  /\ (forall pf1 pf2 ctx2 s1 s2 e1 e2,
       cp_verify g h y1 y2 pf1 context = Ok true -> cp_verify g h y1 y2 pf2 ctx2 = Ok true ->
       dl_a1 pf1 = dl_a1 pf2 -> dl_a2 pf1 = dl_a2 pf2 ->
       parse_felt (dl_response pf1) = Ok s1 -> parse_felt (dl_response pf2) = Ok s2 ->
       parse_felt (dl_challenge pf1) = Ok e1 -> parse_felt (dl_challenge pf2) = Ok e2 ->
       (felt_val e1 - felt_val e2) mod CurveOrder <> 0 ->
       y1 ≡ cp_extract s1 s2 e1 e2 • g /\ y2 ≡ cp_extract s1 s2 e1 e2 • h).
Proof.
  split_and!.
  - intros r x pf. apply cp_complete.
  - intros r x Hfin. rewrite !Forall_cons in Hfin. destruct Hfin as (Hg & Hh & Hy1 & Hy2 & Ha1 & Ha2 & _).
    by apply cp_prove_total.
  - intros pf1 pf2 ctx2 s1 s2 e1 e2. apply cp_sound.
Qed.

(** Batch verification agrees with verifying each proof.  If every proof of a batch is
    accepted by itself, the batch is accepted or reports a point at infinity; if the batch is
    accepted and all proofs but one satisfy their equations, so does the one left, unless its
    weight is a multiple of the curve order. *)
Theorem batch_verify_correct `{StarkLaws, !FeltText, !FeltTextLaws} `{HashFns} (bs : list BatchInput) :
  (1 < length bs)%nat ->
  (Forall (fun b => batch_item_verify b = Ok true) bs ->
     verify_chaum_pedersen_batch bs = Ok true
     \/ verify_chaum_pedersen_batch bs = Err (MpCryptoError PointAtInfinity))
  /\ (verify_chaum_pedersen_batch bs = Ok true ->
       exists ps, Forall2 parses_as bs ps
         /\ forall k w p, generate_batch_weights bs !! k = Some w -> ps !! k = Some p ->
              felt_val w mod CurveOrder <> 0 ->
              (forall j q, j <> k -> ps !! j = Some q -> gap1 q ≡ proj_identity /\ gap2 q ≡ proj_identity) ->
              gap1 p ≡ proj_identity /\ gap2 p ≡ proj_identity).
Proof.
  intros Hlen. split.
  - intros Hall.
    assert (exists ps, Forall2 parses_as bs ps /\ Forall (fun p => gap1 p ≡ proj_identity /\ gap2 p ≡ proj_identity) ps)
      as (ps & Hps & Hgap).
    { clear Hlen. induction Hall as [|b bs Hb _ (ps & Hps & Hgap)]; [by exists []|].
      apply cp_verify_true_inv in Hb as (a1 & a2 & s & c & E1 & E2 & Es & Ec & Ech & G1 & G2).
      exists (mk_Parsed (bi_g b) (bi_h b) (bi_y1 b) (bi_y2 b) a1 a2 s c :: ps). split; [by constructor|].
      constructor; [|done]. unfold gap1, gap2. cbn. by rewrite !gap_zero. }
    by eapply batch_equations_complete.
  - intros Hv. destruct (batch_parsed bs Hlen Hv) as [ps Hps]. exists ps. split; [done|].
    destruct (batch_true_inv bs ps Hlen Hps Hv) as [S1 S2]. intros k w p Hw Hp Hnz Hrest.
    assert (forall f : ParsedProof -> Proj, (forall j q, j <> k -> ps !! j = Some q -> f q ≡ proj_identity) ->
      point_sum (zip_with (fun w p => felt_val w • f p) (generate_batch_weights bs) ps) ≡ felt_val w • f p) as Hone.
    { intros f Hf. apply (point_sum_single _ k).
      - by rewrite lookup_zip_with, Hw, Hp.
      - intros j q Hj Hq. rewrite lookup_zip_with in Hq.
        destruct (generate_batch_weights bs !! j) as [wj|]; [|done]. destruct (ps !! j) as [pj|] eqn:Hpj; [|done].
        cbn in Hq. injection Hq as <-. by rewrite (Hf j pj Hj Hpj), smul_id_r. }
    rewrite (Hone gap1) in S1 by (intros j q Hj Hq; by apply (Hrest j q Hj Hq)).
    rewrite (Hone gap2) in S2 by (intros j q Hj Hq; by apply (Hrest j q Hj Hq)).
    split; by eapply smul_cancel.
Qed.

(** ** Witnesses *)
#[export] Instance poker_hashes : HashFns :=
  {| sha256 m := be_bytes 32 (256 * (be_value m mod 251 + 3)); sha512 m := be_bytes 64 (be_value m) |}.
#[export] Instance model_felt_text : @FeltText model_types :=
  {| felt_lower_hex f := bytes_string (to_bytes_be f); felt_from_text s := Some (from_bytes_be (string_bytes s)) |}.
#[export] Instance model_felt_text_laws : @FeltTextLaws model_types model_felt_text.
Proof.
  constructor. intros f. cbn [felt_from_text felt_lower_hex model_felt_text].
  rewrite string_bytes_string by apply to_bytes_be_ok. by rewrite from_bytes_to_bytes.
Qed.

Definition poker_point (k : Z) : @Proj model_types := k.
Definition cp_run (ctx : Z) : @DLEqualityProof :=
  default (mk_DLEqualityProof (mk_PokerPoint "" "") (mk_PokerPoint "" "") "" "")
    (to_option (cp_prove (mk 5) (poker_point 3) (poker_point 4) (poker_point 21) (poker_point 28) (mk 7) [ctx])).
Definition cp_run1 := Eval vm_compute in cp_run 1.
Definition cp_run2 := Eval vm_compute in cp_run 2.
Definition cp_felt (field : DLEqualityProof -> string) (pf : DLEqualityProof) : @Felt model_types :=
  default (mk 0) (to_option (parse_felt (field pf))).

Lemma chaum_pedersen_correct_witness :
  cp_verify (poker_point 3) (poker_point 4) (poker_point 21) (poker_point 28) cp_run1 [1] = Ok true
  /\ exists x, poker_point 21 ≡ x • poker_point 3 /\ poker_point 28 ≡ x • poker_point 4.
Proof.
  destruct (chaum_pedersen_correct (poker_point 3) (poker_point 4) (poker_point 21) (poker_point 28) [1]) as (_ & _ & Hsound).
  assert (cp_verify (poker_point 3) (poker_point 4) (poker_point 21) (poker_point 28) cp_run1 [1] = Ok true) as H1
    by (vm_compute; reflexivity).
  assert (cp_verify (poker_point 3) (poker_point 4) (poker_point 21) (poker_point 28) cp_run2 [2] = Ok true) as H2
    by (vm_compute; reflexivity).
  split; [exact H1|]. exists (cp_extract (cp_felt dl_response cp_run1) (cp_felt dl_response cp_run2)
    (cp_felt dl_challenge cp_run1) (cp_felt dl_challenge cp_run2)).
  pose proof (Hsound cp_run1 cp_run2 [2] (cp_felt dl_response cp_run1) (cp_felt dl_response cp_run2)
    (cp_felt dl_challenge cp_run1) (cp_felt dl_challenge cp_run2) H1 H2) as Hx.
  assert (forall field, field = dl_response \/ field = dl_challenge -> parse_felt (field cp_run1) = Ok (cp_felt field cp_run1)
    /\ parse_felt (field cp_run2) = Ok (cp_felt field cp_run2)) as Hp.
  { intros field [-> | ->]; split; apply ok_default; vm_compute; reflexivity. }
  apply Hx; [reflexivity|reflexivity|apply Hp; auto..|vm_compute; discriminate].
Defined.

Definition poker_batch : list BatchInput :=
  [mk_BatchInput (poker_point 3) (poker_point 4) (poker_point 21) (poker_point 28) cp_run1 [1];
   mk_BatchInput (poker_point 3) (poker_point 4) (poker_point 21) (poker_point 28) cp_run2 [2]].

Lemma batch_verify_correct_witness :
  Forall (fun b => batch_item_verify b = Ok true) poker_batch
  /\ (verify_chaum_pedersen_batch poker_batch = Ok true
      \/ verify_chaum_pedersen_batch poker_batch = Err (MpCryptoError PointAtInfinity)).
Proof.
  assert (Forall (fun b => batch_item_verify b = Ok true) poker_batch) as Hall
    by (repeat constructor; vm_compute; reflexivity).
  split; [exact Hall|]. destruct (batch_verify_correct poker_batch) as [Hc _]; [cbn; lia|]. exact (Hc Hall).
Defined.
