(* ===== verification/PokerProtocol.v ===== *)
(** * Mental poker: the protocol and shuffles

    crates/experimental/gaming-experimental/mental-poker/src: protocol.rs (aggregate keys,
    masking, remasking, reveal tokens) and shuffle.rs (the shuffle argument).

    Draws of randomness are arguments.  An index out of range is a [Panic]. *)

From stdpp Require Import base option list numbers strings.
From Stdlib Require Import ZArith Lia Zdiv.
From S2P Require Import Prelude StarkLib Primality GroupTac StarkModel Types Scalar Curve Text Derivation Requests.
From S2P Require Import MentalPoker.

#[local] Open Scope string_scope.
#[local] Open Scope list_scope.
#[local] Open Scope Z_scope.

Definition KEY_OWNERSHIP_CONTEXT : list Z := string_bytes "mental-poker-key-ownership".
Definition MASKING_CONTEXT : list Z := string_bytes "mental-poker-masking".
Definition REMASKING_CONTEXT : list Z := string_bytes "mental-poker-remasking".
Definition REVEAL_CONTEXT : list Z := string_bytes "mental-poker-reveal".
Definition SHUFFLE_CONTEXT : list Z := string_bytes "mental-poker-shuffle-v1".

(** [slice[i]]. *)
Definition index {A} (l : list A) (i : nat) : PResult A := expect (l !! i).

(** [Permutation::permute]. *)
Definition permute {A} (indices : list nat) (arr : list A) : PResult (list A) := collect (map (index arr) indices).

Section protocol.
Context `{StarkTypes, !FeltText} `{HashFns}.

(** ** Keys (protocol.rs) *)
Definition prove_key_ownership (r : Felt) (pk : PublicKey) (sk : SecretKey) (player_info : list Z) : PResult KeyOwnershipProof :=
  schnorr_prove r pk sk (KEY_OWNERSHIP_CONTEXT ++ player_info).

Definition verify_key_ownership (pk : PublicKey) (proof : KeyOwnershipProof) (player_info : list Z) : PResult bool :=
  schnorr_verify pk proof (KEY_OWNERSHIP_CONTEXT ++ player_info).

Definition compute_aggregate_key (player_keys : list (PublicKey * KeyOwnershipProof * list Z)) : PResult PublicKey :=
  foldM (fun aggregate '(pk, proof, player_info) =>
    valid ← verify_key_ownership pk proof player_info;
    _ ← reject_if (negb valid) InvalidKeyOwnership;
    Ok (pk_add aggregate pk)) pk_zero player_keys.

(** ** Masking; [k] is the nonce of the proof, [r] the masking factor. *)
Definition mask (k r : Felt) (card : Card) (aggregate_pk : PublicKey) : PResult (MaskedCard * DLEqualityProof) :=
  g ← lift_kms generator;
  m0 ← lift_kms (curve_mul r (Some g));
  pk_r ← lift_kms (curve_mul r (Some (pk_point aggregate_pk)));
  let m1 := curve_add (card_point card) pk_r in
  neg_card ← negate_point (card_point card);
  let c1_minus_card := curve_add m1 neg_card in
  proof ← cp_prove k g (pk_point aggregate_pk) m0 c1_minus_card r MASKING_CONTEXT;
  Ok (mk_MaskedCard m0 m1, proof).

Definition verify_mask (card : Card) (masked : MaskedCard) (aggregate_pk : PublicKey) (proof : DLEqualityProof) : PResult bool :=
  g ← lift_kms generator;
  neg_card ← negate_point (card_point card);
  let c1_minus_card := curve_add (c1 masked) neg_card in
  cp_verify g (pk_point aggregate_pk) (c0 masked) c1_minus_card proof MASKING_CONTEXT.

Definition remask (k alpha : Felt) (masked : MaskedCard) (aggregate_pk : PublicKey) : PResult (MaskedCard * DLEqualityProof) :=
  g ← lift_kms generator;
  zero_c0 ← lift_kms (curve_mul alpha (Some g));
  zero_c1 ← lift_kms (curve_mul alpha (Some (pk_point aggregate_pk)));
  let remasked := mk_MaskedCard (curve_add (c0 masked) zero_c0) (curve_add (c1 masked) zero_c1) in
  negated ← masked_negate masked;
  let diff := masked_add remasked negated in
  proof ← cp_prove k g (pk_point aggregate_pk) (c0 diff) (c1 diff) alpha REMASKING_CONTEXT;
  Ok (remasked, proof).

Definition verify_remask (original remasked : MaskedCard) (aggregate_pk : PublicKey) (proof : DLEqualityProof) : PResult bool :=
  g ← lift_kms generator;
  negated ← masked_negate original;
  let diff := masked_add remasked negated in
  cp_verify g (pk_point aggregate_pk) (c0 diff) (c1 diff) proof REMASKING_CONTEXT.

(** ** Reveal tokens *)
Definition compute_reveal_token (k : Felt) (masked : MaskedCard) (sk : SecretKey) (pk : PublicKey)
    : PResult (RevealToken * DLEqualityProof) :=
  g ← lift_kms generator;
  token_point ← lift_kms (curve_mul (sk_scalar sk) (Some (c0 masked)));
  proof ← cp_prove k (c0 masked) g token_point (pk_point pk) (sk_scalar sk) REVEAL_CONTEXT;
  Ok (mk_RevealToken token_point, proof).

Definition verify_reveal_token (masked : MaskedCard) (token : RevealToken) (pk : PublicKey) (proof : DLEqualityProof) : PResult bool :=
  g ← lift_kms generator;
  cp_verify (c0 masked) g (token_point token) (pk_point pk) proof REVEAL_CONTEXT.

Definition unmask (masked : MaskedCard) (reveal_tokens : list (RevealToken * DLEqualityProof * PublicKey)) : PResult Card :=
  aggregate_token ← foldM (fun aggregate_token '(token, proof, pk) =>
    valid ← verify_reveal_token masked token pk proof;
    _ ← reject_if (negb valid) InvalidRevealProof;
    Ok (token_add aggregate_token token)) token_zero reveal_tokens;
  neg_token ← negate_point (token_point aggregate_token);
  Ok (mk_Card (curve_add (c1 masked) neg_token)).

(** [BatchVerifier::verify_reveal_tokens_batch] (zkp.rs). *)
Definition verify_reveal_tokens_batch (proofs : list (MaskedCard * RevealToken * PublicKey * DLEqualityProof)) : PResult bool :=
  if (length proofs =? 0)%nat then Ok true
  else
    g ← lift_kms generator;
    verify_chaum_pedersen_batch
      (map (fun '(masked, token, pk, proof) =>
              mk_BatchInput (c0 masked) g (token_point token) (pk_point pk) proof REVEAL_CONTEXT) proofs).

(** ** Shuffling; one nonce per card *)
Definition shuffle_and_remask (nonces : list Felt) (deck : list MaskedCard) (aggregate_pk : PublicKey)
    (permutation : list nat) (masking_factors : list Felt) : PResult (list (MaskedCard * DLEqualityProof)) :=
  _ ← reject_if (negb (length deck =? length permutation)%nat || negb (length deck =? length masking_factors)%nat)
        (InvalidParameters "Deck, permutation, and masking factors must have same length");
  permuted ← permute permutation deck;
  collect (zip_with (fun k '(card, factor) => remask k factor card aggregate_pk) nonces (zip permuted masking_factors)).

(** ** The shuffle argument (shuffle.rs) *)
Record ShuffleStatement : Type := mk_ShuffleStatement {
  input_deck : list MaskedCard; output_deck : list MaskedCard; ss_public_key : PublicKey }.

Definition ShuffleStatement_new (input_deck output_deck : list MaskedCard) (public_key : PublicKey) : PResult ShuffleStatement :=
  _ ← reject_if (negb (length input_deck =? length output_deck)%nat) (InvalidParameters "Input and output deck sizes must match");
  _ ← reject_if (length input_deck =? 0)%nat (InvalidParameters "Deck cannot be empty");
  Ok (mk_ShuffleStatement input_deck output_deck public_key).

Record ShuffleWitness : Type := mk_ShuffleWitness { sw_permutation : list nat; sw_randomness : list Felt }.

Definition ShuffleWitness_new (permutation : list nat) (randomness : list Felt) : PResult ShuffleWitness :=
  _ ← reject_if (negb (length permutation =? length randomness)%nat) (InvalidParameters "Permutation and randomness must have same length");
  Ok (mk_ShuffleWitness permutation randomness).

Record ShuffleParameters : Type := mk_ShuffleParameters { sp_n : nat; sp_g : Proj; sp_h : Proj }.

Definition ShuffleParameters_new (n : nat) : PResult ShuffleParameters :=
  _ ← reject_if (n =? 0)%nat (InvalidParameters "Shuffle size must be positive");
  g ← lift_kms generator;
  h ← lift_kms generator_h;
  Ok (mk_ShuffleParameters n g h).

Record LinearCombinationProof : Type := mk_LinearCombinationProof {
  lc_aggregate_commitment : PokerPoint; lc_challenge : string; lc_response : string }.
Record ShuffleProof : Type := mk_ShuffleProof {
  remasking_proofs : list DLEqualityProof; permutation_commitment : PokerPoint;
  linear_combination_response : LinearCombinationProof }.

Definition shuffle_compute_challenge (transcript : list Z) : Felt :=
  from_bytes_be (0 :: take 31 (sha256 (SHUFFLE_CONTEXT ++ transcript))).

Definition add_point_to_transcript (transcript : list Z) (point : Proj) : PResult (list Z) :=
  affine ← lift_kms (projective_to_affine point);
  Ok (transcript ++ to_bytes_be (aff_x affine) ++ to_bytes_be (aff_y affine)).

Definition add_masked_card_to_transcript (transcript : list Z) (card : MaskedCard) : PResult (list Z) :=
  transcript ← add_point_to_transcript transcript (c0 card);
  add_point_to_transcript transcript (c1 card).

(** Both decks and the key, which the transcript starts with. *)
Definition statement_transcript (statement : ShuffleStatement) : PResult (list Z) :=
  transcript ← foldM add_masked_card_to_transcript [] (input_deck statement);
  transcript ← foldM add_masked_card_to_transcript transcript (output_deck statement);
  add_point_to_transcript transcript (pk_point (ss_public_key statement)).

(** [output[i] - input[j]], component by component. *)
Definition card_diff (output_card input_card : MaskedCard) : PResult (Proj * Proj) :=
  neg_input_c0 ← negate_point (c0 input_card);
  neg_input_c1 ← negate_point (c1 input_card);
  Ok (curve_add (c0 output_card) neg_input_c0, curve_add (c1 output_card) neg_input_c1).

(** Step 1 of the prover at position [i]; [nonce] is the proof's. *)
Definition prove_position (params : ShuffleParameters) (statement : ShuffleStatement) (witness : ShuffleWitness)
    (st : list DLEqualityProof * list Z) (inonce : nat * Felt) : PResult (list DLEqualityProof * list Z) :=
  let '(remasking_proofs, transcript) := st in
  let '(i, nonce) := inonce in
  perm_i ← index (sw_permutation witness) i;
  input_card ← index (input_deck statement) perm_i;
  output_card ← index (output_deck statement) i;
  r ← index (sw_randomness witness) i;
  '(diff_c0, diff_c1) ← card_diff output_card input_card;
  proof ← cp_prove nonce (sp_g params) (pk_point (ss_public_key statement)) diff_c0 diff_c1 r SHUFFLE_CONTEXT;
  transcript ← add_point_to_transcript transcript diff_c0;
  Ok (remasking_proofs ++ [proof], transcript).

(** Step 2: the commitment to the permutation. *)
Definition commit_permutation (params : ShuffleParameters) (witness : ShuffleWitness) (perm_blind : Felt) : PResult Proj :=
  blind ← lift_kms (curve_mul perm_blind (Some (sp_h params)));
  foldM (fun perm_commitment i =>
    perm_i ← index (sw_permutation witness) i;
    term ← lift_kms (curve_mul (felt_of_Z (Z.of_nat perm_i + 1)) (Some (sp_g params)));
    weighted ← lift_kms (curve_mul (felt_of_Z (Z.of_nat i + 1)) (Some term));
    Ok (curve_add perm_commitment weighted)) blind (seq 0 (sp_n params)).

(** Step 3: [sum_i challenge^i * r[i]]. *)
Definition weighted_randomness (challenge : Felt) (randomness : list Felt) : PResult Felt :=
  '(total, _) ← foldM (fun '(total, power) r =>
    term ← lift_kms (scalar_mul power r);
    total ← lift_kms (scalar_add total term);
    power ← lift_kms (scalar_mul power challenge);
    Ok (total, power)) (felt_of_Z 0, felt_of_Z 1) randomness;
  Ok total.

Definition shuffle_prove (nonces : list Felt) (perm_blind : Felt) (params : ShuffleParameters)
    (statement : ShuffleStatement) (witness : ShuffleWitness) : PResult ShuffleProof :=
  transcript ← statement_transcript statement;
  '(remasking_proofs, transcript) ←
    foldM (prove_position params statement witness) ([], transcript) (zip (seq 0 (sp_n params)) nonces);
  perm_commitment ← commit_permutation params witness perm_blind;
  transcript ← add_point_to_transcript transcript perm_commitment;
  let challenge := shuffle_compute_challenge transcript in
  weighted ← weighted_randomness challenge (sw_randomness witness);
  aggregate_commitment ← lift_kms (curve_mul weighted (Some (sp_g params)));
  response ← lift_kms (scalar_add perm_blind weighted);
  commitment ← pp_from_projective perm_commitment;
  aggregate ← pp_from_projective aggregate_commitment;
  Ok (mk_ShuffleProof remasking_proofs commitment
        (mk_LinearCombinationProof aggregate (felt_lower_hex challenge) (felt_lower_hex response))).

(** The verifier's inner loop over the inputs [js]: the first input the proof verifies for,
    [Reused] if it was matched before. *)
Inductive Matched : Type := NoMatch | Reused | MatchedAt (j : nat) (diff_c0 diff_c1 : Proj).

Fixpoint match_input (params : ShuffleParameters) (statement : ShuffleStatement) (output_card : MaskedCard)
    (proof : DLEqualityProof) (used : list nat) (js : list nat) : PResult Matched :=
  match js with
  | [] => Ok NoMatch
  | j :: js =>
      input_card ← index (input_deck statement) j;
      '(diff_c0, diff_c1) ← card_diff output_card input_card;
      valid ← cp_verify (sp_g params) (pk_point (ss_public_key statement)) diff_c0 diff_c1 proof SHUFFLE_CONTEXT;
      if valid : bool then Ok (if bool_decide (j ∈ used) then Reused else MatchedAt j diff_c0 diff_c1)
      else match_input params statement output_card proof used js
  end.

(** The outer loop over the outputs [is]; [None] is [return Ok(false)]. *)
Fixpoint match_outputs (params : ShuffleParameters) (statement : ShuffleStatement) (proof : ShuffleProof)
    (is_ : list nat) (used : list nat) (diff_points_c0 : list Proj) (transcript : list Z)
    : PResult (option (list nat * list Proj * list Z)) :=
  match is_ with
  | [] => Ok (Some (used, diff_points_c0, transcript))
  | i :: rest =>
      output_card ← index (output_deck statement) i;
      remasking_proof ← index (remasking_proofs proof) i;
      found ← match_input params statement output_card remasking_proof used (seq 0 (sp_n params));
      match found with
      | MatchedAt j diff_c0 _ =>
          transcript ← add_point_to_transcript transcript diff_c0;
          match_outputs params statement proof rest (used ++ [j]) (diff_points_c0 ++ [diff_c0]) transcript
      | _ => Ok None
      end
  end.

Definition shuffle_verify (params : ShuffleParameters) (statement : ShuffleStatement) (proof : ShuffleProof) : PResult bool :=
  let n := sp_n params in
  if negb (length (remasking_proofs proof) =? n)%nat then Ok false
  else
    transcript ← statement_transcript statement;
    matched ← match_outputs params statement proof (seq 0 n) [] [] transcript;
    match matched with
    | None => Ok false
    | Some (used, diff_points_c0, transcript) =>
        if negb (length used =? n)%nat then Ok false
        else
          perm_commitment ← pp_to_projective (permutation_commitment proof);
          transcript ← add_point_to_transcript transcript perm_commitment;
          let expected_challenge := shuffle_compute_challenge transcript in
          let lc := linear_combination_response proof in
          proof_challenge ← parse_felt (lc_challenge lc);
          if bool_decide (expected_challenge <> proof_challenge) then Ok false
          else
            aggregate_commitment ← pp_to_projective (lc_aggregate_commitment lc);
            response ← parse_felt (lc_response lc);
            if is_infinity aggregate_commitment && negb (length diff_points_c0 =? 0)%nat
               && negb (is_infinity (fold_left curve_add diff_points_c0 proj_identity))
            then Ok false
            else if (1 <? n)%nat && bool_decide (response = felt_of_Z 0) then Ok false
            else Ok true
    end.

(** Shuffling with a proof, and its verification (protocol.rs). *)
Definition remask_plain (aggregate_pk : PublicKey) (card : MaskedCard) (r : Felt) : PResult MaskedCard :=
  zero_c0 ← lift_kms (curve_mul_generator r);
  zero_c1 ← lift_kms (curve_mul r (Some (pk_point aggregate_pk)));
  Ok (mk_MaskedCard (curve_add (c0 card) zero_c0) (curve_add (c1 card) zero_c1)).

Definition shuffle_and_remask_with_proof (nonces : list Felt) (perm_blind : Felt) (deck : list MaskedCard)
    (aggregate_pk : PublicKey) (permutation : list nat) (masking_factors : list Felt)
    : PResult (list MaskedCard * ShuffleProof) :=
  _ ← reject_if (negb (length deck =? length permutation)%nat || negb (length deck =? length masking_factors)%nat)
        (InvalidParameters "Deck, permutation, and masking factors must have same length");
  permuted ← permute permutation deck;
  output_deck ← collect (zip_with (remask_plain aggregate_pk) permuted masking_factors);
  params ← ShuffleParameters_new (length deck);
  statement ← ShuffleStatement_new deck output_deck aggregate_pk;
  witness ← ShuffleWitness_new permutation masking_factors;
  proof ← shuffle_prove nonces perm_blind params statement witness;
  Ok (output_deck, proof).

Definition verify_shuffle (original_deck shuffled_deck : list MaskedCard) (aggregate_pk : PublicKey) (proof : ShuffleProof)
    : PResult bool :=
  if negb (length original_deck =? length shuffled_deck)%nat then Ok false
  else
    params ← ShuffleParameters_new (length original_deck);
    statement ← ShuffleStatement_new original_deck shuffled_deck aggregate_pk;
    shuffle_verify params statement proof.
End protocol.

(** ** Dealing *)

(** The ciphertext [mc] holds the point [p] under the secret [x]. *)
Definition holds `{StarkTypes} (x : Z) (mc : MaskedCard) (p : Proj) : Prop := c1 mc ≡ p ⊕ x • c0 mc.

Definition key_total `{StarkTypes} (sks : list SecretKey) : Z := foldr (fun sk n => felt_val (sk_scalar sk) + n) 0 sks.

(** Decks the players reach from the open cards: masked once, then shuffled, with or without a
    proof, and drawn from.  [cards] are the points of the open cards, in the deck's order. *)
Inductive dealt `{StarkTypes, !FeltText} `{HashFns} (apk : PublicKey) (open : list Proj) : list Proj -> list MaskedCard -> Prop :=
| dealt_masked deck :
    Forall2 (fun p mc => exists k r pf, mask k r (mk_Card p) apk = Ok (mc, pf)) open deck ->
    dealt apk open open deck
| dealt_shuffled cards deck nonces perm factors out cards' :
    dealt apk open cards deck -> perm ≡ₚ seq 0 (length deck) -> length nonces = length deck ->
    shuffle_and_remask nonces deck apk perm factors = Ok out -> permute perm cards = Ok cards' ->
    dealt apk open cards' (map fst out)
| dealt_proved cards deck nonces blind perm factors out proof cards' :
    dealt apk open cards deck -> perm ≡ₚ seq 0 (length deck) ->
    shuffle_and_remask_with_proof nonces blind deck apk perm factors = Ok (out, proof) -> permute perm cards = Ok cards' ->
    dealt apk open cards' out.

Section dealing.
Context `{StarkLaws, !FeltText, !FeltTextLaws} `{HashFns}.
Context (g : Proj) (Hg : generator = Ok g).

Lemma curve_mul_generator_Ok s q : curve_mul_generator s = Ok q -> q ≡ felt_val s • g.
Proof. unfold curve_mul_generator. rewrite Hg. cbn [mbind outcome_bind]. apply curve_mul_Ok. Qed.

Lemma mask_holds x k r card apk mc pf :
  pk_point apk ≡ x • g -> mask k r card apk = Ok (mc, pf) -> holds x mc (card_point card).
Proof.
  intros Hpk Hm. unfold mask in Hm. rewrite Hg in Hm. cbn [lift_kms mbind outcome_bind] in Hm.
  destruct (curve_mul_spec r g) as (m0 & E1 & M1). rewrite E1 in Hm. cbn [lift_kms mbind outcome_bind] in Hm.
  destruct (curve_mul_spec r (pk_point apk)) as (q & E2 & M2). rewrite E2 in Hm. cbn [lift_kms mbind outcome_bind] in Hm.
  inv_ok. unfold holds. cbn [c0 c1]. unfold curve_add. rewrite M1, M2, Hpk. proj_module.
Qed.

Lemma remask_sum_holds x apk mc p alpha q0 q1 :
  pk_point apk ≡ x • g -> holds x mc p -> q0 ≡ felt_val alpha • g -> q1 ≡ felt_val alpha • pk_point apk ->
  holds x (mk_MaskedCard (curve_add (c0 mc) q0) (curve_add (c1 mc) q1)) p.
Proof.
  unfold holds, curve_add. cbn [c0 c1]. intros Hpk Hh M0 M1. rewrite Hh, M0, M1, Hpk. proj_module.
Qed.

Lemma remask_holds x k alpha mc p apk mc' pf :
  pk_point apk ≡ x • g -> holds x mc p -> remask k alpha mc apk = Ok (mc', pf) -> holds x mc' p.
Proof.
  intros Hpk Hh Hm. unfold remask in Hm. rewrite Hg in Hm. cbn [lift_kms mbind outcome_bind] in Hm.
  destruct (curve_mul_spec alpha g) as (q0 & E1 & M1). rewrite E1 in Hm. cbn [lift_kms mbind outcome_bind] in Hm.
  destruct (curve_mul_spec alpha (pk_point apk)) as (q1 & E2 & M2). rewrite E2 in Hm. cbn [lift_kms mbind outcome_bind] in Hm.
  inv_ok. by eapply remask_sum_holds.
Qed.

Lemma remask_plain_holds x apk mc p r mc' :
  pk_point apk ≡ x • g -> holds x mc p -> remask_plain apk mc r = Ok mc' -> holds x mc' p.
Proof.
  intros Hpk Hh Hm. unfold remask_plain in Hm. inv_ok. apply lift_kms_Ok in H4, H5.
  apply curve_mul_generator_Ok in H4. apply curve_mul_Ok in H5. by eapply remask_sum_holds.
Qed.

Lemma permute_Forall2 {A B} (P : A -> B -> Prop) perm la lb la' lb' :
  Forall2 P la lb -> permute perm la = Ok la' -> permute perm lb = Ok lb' -> Forall2 P la' lb'.
Proof.
  intros Hl. unfold permute. revert la' lb'; induction perm as [|i perm IH]; intros la' lb'; cbn [map collect].
  { intros [= <-] [= <-]. constructor. }
  destruct (index la i) as [a| |] eqn:Ha; [|done..]. destruct (index lb i) as [b| |] eqn:Hb; [|done..].
  apply expect_Ok in Ha, Hb. cbn [mbind outcome_bind]. destruct (collect (map (index la) perm)) as [ta| |]; [|done..].
  destruct (collect (map (index lb) perm)) as [tb| |]; [|done..]. cbn. intros [= <-] [= <-].
  constructor; [by eapply Forall2_lookup_lr|]. by apply IH.
Qed.

Lemma permute_length {A} perm (l l' : list A) : permute perm l = Ok l' -> length l' = length perm.
Proof. unfold permute. intros Hl%collect_length. by rewrite length_map in Hl. Qed.

Lemma permute_app {A} p q (l : list A) : permute (p ++ q) l = (a ← permute p l; b ← permute q l; Ok (a ++ b)).
Proof.
  unfold permute. induction p as [|i p IH]; cbn [app map collect]; [by destruct (collect _)|].
  destruct (index l i); cbn [mbind outcome_bind]; [|done..]. rewrite IH.
  destruct (collect (map (index l) p)); cbn [mbind outcome_bind]; [|done..]. by destruct (collect (map (index l) q)).
Qed.

Lemma permute_id {A} (l : list A) : permute (seq 0 (length l)) l = Ok l.
Proof.
  induction l as [|x l IH] using rev_ind; [done|]. rewrite length_app. cbn [length]. rewrite Nat.add_1_r, seq_S, permute_app.
  assert (permute (seq 0 (length l)) (l ++ [x]) = Ok l) as ->.
  { rewrite <- IH. unfold permute. f_equal. apply map_ext_in. intros i Hi%in_seq. unfold index.
    by rewrite lookup_app_l by lia. }
  cbn [mbind outcome_bind]. unfold permute. cbn [map collect]. unfold index. cbn [Nat.add].
  by rewrite lookup_app_r, Nat.sub_diag by lia.
Qed.

Lemma collect_perm_fails {A} p q (l : list A) l1 :
  p ≡ₚ q -> collect (map (index l) p) = Ok l1 -> is_ok (collect (map (index l) q)) = false -> False.
Proof.
  intros Hp Hc%collect_Ok Hq. destruct (collect_total (index l) q) as [r Hr]; [|by rewrite Hr in Hq].
  intros i Hi. rewrite <- Hp in Hi. apply list_elem_of_lookup in Hi as [k Hk].
  assert (map (index l) p !! k = Some (index l i)) as Hm by (by rewrite list_lookup_fmap, Hk).
  destruct (Forall2_lookup_l _ _ _ _ _ Hc Hm) as (b & _ & Hb). eauto.
Qed.

Lemma permute_Permutation {A} perm perm' (l l1 l2 : list A) :
  perm ≡ₚ perm' -> permute perm l = Ok l1 -> permute perm' l = Ok l2 -> l1 ≡ₚ l2.
Proof.
  unfold permute. intros Hp. revert l1 l2.
  induction Hp as [|i p q Hp IH|i j p|p q r Hp1 IH1 Hp2 IH2]; intros l1 l2; cbn [map collect].
  - by intros [= <-] [= <-].
  - destruct (index l i) as [a| |]; [|done..]. cbn [mbind outcome_bind].
    destruct (collect (map (index l) p)) as [t1| |]; [|done..]. destruct (collect (map (index l) q)) as [t2| |]; [|done..].
    cbn. intros [= <-] [= <-]. constructor. by apply IH.
  - destruct (index l i) as [a| |], (index l j) as [b| |]; try done. cbn [mbind outcome_bind].
    destruct (collect (map (index l) p)) as [t| |]; [|done..]. cbn. intros [= <-] [= <-]. constructor.
  - intros H1' H2'. destruct (collect (map (index l) q)) as [t| |] eqn:Hq.
    + etransitivity; [by apply IH1|by apply IH2].
    + exfalso. eapply collect_perm_fails; [exact Hp1|exact H1'|]. by rewrite Hq.
    + exfalso. eapply collect_perm_fails; [exact Hp1|exact H1'|]. by rewrite Hq.
Qed.

Lemma remask_all_hold x apk cards permuted nonces factors out :
  pk_point apk ≡ x • g -> Forall2 (fun p mc => holds x mc p) cards permuted ->
  length nonces = length permuted -> length factors = length permuted ->
  collect (zip_with (fun k '(card, factor) => remask k factor card apk) nonces (zip permuted factors)) = Ok out ->
  Forall2 (fun p mc => holds x mc p) cards (map fst out).
Proof.
  intros Hpk Hall. revert nonces factors out; induction Hall as [|p mc cards permuted Hh _ IH]; intros [|k nonces] [|f factors] out Hn Hf;
    cbn in Hn, Hf; try lia; cbn [zip zip_with collect].
  - intros [= <-]. constructor.
  - destruct (remask k f mc apk) as [[mc' pf]| |] eqn:Hr; [|done..]. cbn [mbind outcome_bind]. intros Hok. inv_ok.
    cbn [map fst]. constructor; [by eapply remask_holds|]. apply (IH nonces factors); [lia|lia|done].
Qed.

Lemma remask_plain_all_hold x apk cards permuted factors out :
  pk_point apk ≡ x • g -> Forall2 (fun p mc => holds x mc p) cards permuted -> length factors = length permuted ->
  collect (zip_with (remask_plain apk) permuted factors) = Ok out -> Forall2 (fun p mc => holds x mc p) cards out.
Proof.
  intros Hpk Hall. revert factors out; induction Hall as [|p mc cards permuted Hh _ IH]; intros [|f factors] out Hf;
    cbn in Hf; try lia; cbn [zip_with collect].
  - intros [= <-]. constructor.
  - destruct (remask_plain apk mc f) as [mc'| |] eqn:Hr; [|done..]. cbn [mbind outcome_bind]. intros Hok. inv_ok.
    constructor; [by eapply remask_plain_holds|]. apply (IH factors); [lia|done].
Qed.

Lemma dealt_holds x apk open cards deck :
  pk_point apk ≡ x • g -> dealt apk open cards deck ->
  Forall2 (fun p mc => holds x mc p) cards deck /\ cards ≡ₚ open.
Proof.
  intros Hpk. induction 1 as [deck Hm|cards deck nonces perm factors out cards' _ [IH IHp] Hperm Hn Hs Hc
    |cards deck nonces blind perm factors out proof cards' _ [IH IHp] Hperm Hs Hc].
  - split; [|done]. eapply Forall2_impl; [exact Hm|]. intros p mc (k & r & pf & Hk). by apply (mask_holds x) in Hk.
  - pose proof (Forall2_length _ _ _ IH) as Hlen. split.
    + unfold shuffle_and_remask in Hs. inv_ok. apply orb_false_iff in H4 as [Hl1 Hl2].
      apply negb_false_iff, Nat.eqb_eq in Hl1, Hl2.
      match goal with Hp : permute perm deck = Ok ?q |- _ =>
        pose proof (permute_length _ _ _ Hp) as Hpl; pose proof (permute_Forall2 _ _ _ _ _ _ IH Hc Hp) as Hall end.
      apply (remask_all_hold x apk cards' _ nonces factors out Hpk Hall); [lia|lia|exact Hs].
    + rewrite <- IHp. rewrite <- Hlen in Hperm. by eapply permute_Permutation; [|exact Hc|apply permute_id].
  - pose proof (Forall2_length _ _ _ IH) as Hlen. split.
    + unfold shuffle_and_remask_with_proof in Hs. inv_ok. apply orb_false_iff in H4 as [Hl1 Hl2].
      apply negb_false_iff, Nat.eqb_eq in Hl1, Hl2.
      match goal with Hp : permute perm deck = Ok ?q |- _ =>
        pose proof (permute_length _ _ _ Hp) as Hpl; pose proof (permute_Forall2 _ _ _ _ _ _ IH Hc Hp) as Hall end.
      apply (remask_plain_all_hold x apk cards' _ factors out Hpk Hall); [lia|done].
    + rewrite <- IHp. rewrite <- Hlen in Hperm. by eapply permute_Permutation; [|exact Hc|apply permute_id].
Qed.

(** Masking and reveal tokens fail only at points at infinity. *)
Lemma mask_total k r card apk :
  Forall (fun p : Proj => ~ p ≡ proj_identity)
    [pk_point apk; felt_val r • g; felt_val r • pk_point apk; felt_val k • g; felt_val k • pk_point apk] ->
  exists mc pf, mask k r card apk = Ok (mc, pf) /\ c0 mc ≡ felt_val r • g.
Proof.
  intros Hfin. rewrite !Forall_cons in Hfin. destruct Hfin as (Ha & Hrg & Hra & Hkg & Hka & _).
  unfold mask. rewrite Hg. cbn [lift_kms mbind outcome_bind].
  destruct (curve_mul_spec r g) as (m0 & E1 & M1). rewrite E1. cbn [lift_kms mbind outcome_bind].
  destruct (curve_mul_spec r (pk_point apk)) as (q & E2 & M2). rewrite E2. cbn [lift_kms mbind outcome_bind].
  destruct (poker_negate_spec (card_point card)) as (nc & E3 & M3). rewrite E3. cbn [mbind outcome_bind]. unfold curve_add.
  destruct (cp_prove_total k g (pk_point apk) m0 (card_point card ⊕ q ⊕ nc) r MASKING_CONTEXT) as [pf Hpf];
    [by apply generator_finite|done|by rewrite M1| |done|done|].
  { intros Hi. apply Hra. rewrite <- Hi, M2, M3. proj_module. }
  rewrite Hpf. cbn. eauto.
Qed.

Lemma reveal_total k mc sk pk :
  Forall (fun p : Proj => ~ p ≡ proj_identity)
    [c0 mc; felt_val (sk_scalar sk) • c0 mc; pk_point pk; felt_val k • c0 mc; felt_val k • g] ->
  exists t, compute_reveal_token k mc sk pk = Ok t.
Proof.
  intros Hfin. rewrite !Forall_cons in Hfin. destruct Hfin as (Hc & Hs & Hpk & Hkc & Hkg & _).
  unfold compute_reveal_token. rewrite Hg. cbn [lift_kms mbind outcome_bind].
  destruct (curve_mul_spec (sk_scalar sk) (c0 mc)) as (tp & E & M). rewrite E. cbn [lift_kms mbind outcome_bind].
  destruct (cp_prove_total k (c0 mc) g tp (pk_point pk) (sk_scalar sk) REVEAL_CONTEXT) as [pf Hpf];
    [done|by apply generator_finite|by rewrite M|done..|]. rewrite Hpf. cbn. eauto.
Qed.

(** ** Revealing *)

(** The token of the player with key [sk] for the card [mc]. *)
Definition honest_token (mc : MaskedCard) (sk : SecretKey) (t : RevealToken * DLEqualityProof * PublicKey) : Prop :=
  pk_point (snd t) ≡ felt_val (sk_scalar sk) • g /\ exists k, compute_reveal_token k mc sk (snd t) = Ok (fst t).

Lemma honest_token_spec mc sk t :
  honest_token mc sk t ->
  token_point (fst (fst t)) ≡ felt_val (sk_scalar sk) • c0 mc
  /\ (verify_reveal_token mc (fst (fst t)) (snd t) (snd (fst t)) = Ok true
      \/ verify_reveal_token mc (fst (fst t)) (snd t) (snd (fst t)) = Err (MpCryptoError PointAtInfinity)).
Proof.
  destruct t as [[token proof] pk]. cbn [fst snd]. intros [Hpk [k Hk]]. cbn [fst snd] in Hpk, Hk.
  unfold compute_reveal_token in Hk. rewrite Hg in Hk. cbn [lift_kms mbind outcome_bind] in Hk.
  destruct (curve_mul_spec (sk_scalar sk) (c0 mc)) as (tp & E & M). rewrite E in Hk. cbn [lift_kms mbind outcome_bind] in Hk.
  destruct (cp_prove k (c0 mc) g tp (pk_point pk) (sk_scalar sk) REVEAL_CONTEXT) as [pf| |] eqn:Hcp; [|done..].
  cbn in Hk. injection Hk as <- <-. cbn [token_point]. split; [done|].
  destruct (cp_complete _ _ _ _ _ _ _ _ M Hpk Hcp) as (s & _ & Hv).
  unfold verify_reveal_token. rewrite Hg. cbn [lift_kms mbind outcome_bind token_point]. rewrite Hv.
  destruct (_ || _); [by right|by left].
Qed.

Lemma unmask_fold mc sks tokens acc :
  Forall2 (honest_token mc) sks tokens ->
  let run := foldM (fun aggregate_token '(token, proof, pk) =>
    valid ← verify_reveal_token mc token pk proof;
    _ ← reject_if (negb valid) InvalidRevealProof;
    Ok (token_add aggregate_token token)) acc tokens in
  run = Err (MpCryptoError PointAtInfinity)
  \/ exists t, run = Ok t /\ token_point t ≡ token_point acc ⊕ key_total sks • c0 mc.
Proof.
  cbv zeta. intros Hall. revert acc; induction Hall as [|sk [[token proof] pk] sks tokens Ht _ IH]; intros acc; cbn [foldM].
  { right. exists acc. split; [done|]. cbn [key_total foldr]. proj_module. }
  apply honest_token_spec in Ht as [Htok Hv]. cbn [fst snd] in Htok, Hv.
  destruct Hv as [Hv|Hv]; rewrite Hv; cbn [negb reject_if mbind outcome_bind]; [|by left].
  destruct (IH (token_add acc token)) as [->|(t & -> & Hsum)]; [by left|]. right. exists t. split; [done|].
  rewrite Hsum. unfold token_add, curve_add. cbn [token_point key_total foldr]. fold (key_total sks). rewrite Htok. proj_module.
Qed.

Lemma unmask_honest mc p sks tokens :
  holds (key_total sks) mc p -> Forall2 (honest_token mc) sks tokens ->
  unmask mc tokens = Err (MpCryptoError PointAtInfinity)
  \/ exists card, unmask mc tokens = Ok card /\ card_point card ≡ p.
Proof.
  intros Hh Hall. unfold unmask. destruct (unmask_fold mc sks tokens token_zero Hall) as [->|(t & -> & Ht)]; [by left|].
  right. cbn [mbind outcome_bind]. destruct (poker_negate_spec (token_point t)) as (q & -> & Hq). cbn [mbind outcome_bind].
  eexists. split; [reflexivity|]. unfold curve_add. cbn [card_point]. unfold holds in Hh. rewrite Hh, Hq, Ht.
  unfold token_zero. cbn [token_point]. proj_module.
Qed.

Lemma aggregate_fold keys acc apk :
  foldM (fun aggregate '(pk, proof, player_info) =>
    valid ← verify_key_ownership pk proof player_info;
    _ ← reject_if (negb valid) InvalidKeyOwnership;
    Ok (pk_add aggregate pk)) acc keys = Ok apk ->
  Forall (fun '(pk, proof, info) => verify_key_ownership pk proof info = Ok true) keys
  /\ pk_point apk ≡ pk_point acc ⊕ point_sum (map (fun k => pk_point (fst (fst k))) keys).
Proof.
  revert acc; induction keys as [|[[pk proof] info] keys IH]; intros acc; cbn [foldM map point_sum foldr].
  { intros [= <-]. split; [constructor|]. by rewrite proj_add_id_r. }
  destruct (verify_key_ownership pk proof info) as [[]| |] eqn:Hv; try done. cbn [negb reject_if mbind outcome_bind].
  intros [Hall Hsum]%IH. split; [by constructor|]. rewrite Hsum. unfold pk_add, curve_add. cbn [pk_point fst].
  fold (point_sum (map (fun k : PublicKey * KeyOwnershipProof * list Z => pk_point (fst (fst k))) keys)). by rewrite proj_add_assoc.
Qed.

Lemma aggregate_total keys apk sks :
  compute_aggregate_key keys = Ok apk ->
  Forall2 (fun sk (k : PublicKey * KeyOwnershipProof * list Z) => pk_point (fst (fst k)) ≡ felt_val (sk_scalar sk) • g) sks keys ->
  pk_point apk ≡ key_total sks • g.
Proof.
  intros [_ Hsum]%aggregate_fold Hall. rewrite Hsum. unfold pk_zero. cbn [pk_point]. rewrite proj_add_id_l. clear Hsum.
  induction Hall as [|sk [[pk pf] info] sks keys Hk _ IH]; [done|]. cbn [map point_sum foldr key_total fst]. cbn [fst] in Hk.
  fold (point_sum (map (fun k : PublicKey * KeyOwnershipProof * list Z => pk_point (fst (fst k))) keys)). fold (key_total sks).
  rewrite IH, Hk. proj_module.
Qed.
End dealing.

(** ** What an accepted shuffle proof says *)
Section shuffling.
Context `{StarkLaws, !FeltText, !FeltTextLaws} `{HashFns}.

(** The proof for output [i] was accepted against input [j]. *)
Definition accepted_pair (params : ShuffleParameters) (statement : ShuffleStatement) (proof : ShuffleProof) (i j : nat) : Prop :=
  exists out inp pf d0 d1, output_deck statement !! i = Some out /\ input_deck statement !! j = Some inp
    /\ remasking_proofs proof !! i = Some pf /\ card_diff out inp = Ok (d0, d1)
    /\ cp_verify (sp_g params) (pk_point (ss_public_key statement)) d0 d1 pf SHUFFLE_CONTEXT = Ok true.

Lemma card_diff_spec out inp :
  exists d0 d1, card_diff out inp = Ok (d0, d1) /\ d0 ≡ c0 out ⊕ (-1) • c0 inp /\ d1 ≡ c1 out ⊕ (-1) • c1 inp.
Proof.
  unfold card_diff. destruct (poker_negate_spec (c0 inp)) as (n0 & -> & M0). cbn [mbind outcome_bind].
  destruct (poker_negate_spec (c1 inp)) as (n1 & -> & M1). cbn [mbind outcome_bind]. unfold curve_add.
  eexists _, _. split; [reflexivity|]. by rewrite M0, M1.
Qed.

Lemma match_input_inv params statement out pf used js j d0 d1 :
  match_input params statement out pf used js = Ok (MatchedAt j d0 d1) ->
  j ∈ js /\ (j ∉ used) /\ exists inp, input_deck statement !! j = Some inp /\ card_diff out inp = Ok (d0, d1)
    /\ cp_verify (sp_g params) (pk_point (ss_public_key statement)) d0 d1 pf SHUFFLE_CONTEXT = Ok true.
Proof.
  induction js as [|k js IH]; cbn [match_input]; [done|].
  destruct (index (input_deck statement) k) as [inp| |] eqn:Hin; [|done..]. cbn [mbind outcome_bind].
  destruct (card_diff out inp) as [[e0 e1]| |] eqn:Hd; [|done..]. cbn [mbind outcome_bind].
  destruct (cp_verify _ _ e0 e1 pf _) as [[]| |] eqn:Hv; [| |done..]; cbn [mbind outcome_bind].
  - case_bool_decide as Hu; [done|]. intros [= <- <- <-]. apply expect_Ok in Hin. split; [by left|]. split; [done|].
    exists inp. done.
  - intros (Hj & Hu & Hrest)%IH. split; [by right|done].
Qed.

Lemma match_outputs_inv params statement proof is_ used ds tr used' ds' tr' :
  match_outputs params statement proof is_ used ds tr = Ok (Some (used', ds', tr')) ->
  exists js, used' = used ++ js /\ Forall2 (accepted_pair params statement proof) is_ js
    /\ (NoDup used -> NoDup used') /\ Forall (fun j => j ∈ seq 0 (sp_n params)) js.
Proof.
  revert used ds tr; induction is_ as [|i rest IH]; intros used ds tr; cbn [match_outputs].
  { intros [= <- _ _]. exists []. rewrite app_nil_r. done. }
  destruct (index (output_deck statement) i) as [out| |] eqn:Hout; [|done..]. cbn [mbind outcome_bind].
  destruct (index (remasking_proofs proof) i) as [pf| |] eqn:Hpf; [|done..]. cbn [mbind outcome_bind].
  destruct (match_input params statement out pf used _) as [[| |j d0 d1]| |] eqn:Hm; [done|done| |done..]. cbn [mbind outcome_bind].
  destruct (add_point_to_transcript tr d0) as [tr1| |]; [|done..]. cbn [mbind outcome_bind].
  intros (js & -> & Hall & Hnd & Hin)%IH. apply match_input_inv in Hm as (Hj & Hu & inp & Hinp & Hd & Hv).
  apply expect_Ok in Hout, Hpf. exists (j :: js). rewrite <- app_assoc. split; [done|]. split; [|split; [|by constructor]].
  - constructor; [|done]. by exists out, inp, pf, d0, d1.
  - intros Hused. rewrite <- app_assoc in Hnd. apply Hnd. apply NoDup_app. split; [done|]. split; [|apply NoDup_singleton].
    intros k Hk ->%list_elem_of_singleton. done.
Qed.

Lemma seq_permutation n js : NoDup js -> length js = n -> Forall (fun j => j ∈ seq 0 n) js -> js ≡ₚ seq 0 n.
Proof.
  intros Hnd Hlen Hin. apply submseteq_length_Permutation; [|by rewrite length_seq, Hlen].
  apply NoDup_submseteq; [done|]. by apply Forall_forall.
Qed.

Lemma shuffle_verify_inv params statement proof :
  shuffle_verify params statement proof = Ok true ->
  exists perm, perm ≡ₚ seq 0 (sp_n params) /\ Forall2 (accepted_pair params statement proof) (seq 0 (sp_n params)) perm.
Proof.
  unfold shuffle_verify. destruct (Nat.eqb_spec (length (remasking_proofs proof)) (sp_n params)); [|done]. cbn [negb].
  destruct (statement_transcript statement) as [tr| |]; [|done..]. cbn [mbind outcome_bind].
  destruct (match_outputs _ _ _ _ _ _ _) as [[[[used ds] tr']|]| |] eqn:Hm; [|done..]. cbn [mbind outcome_bind]. intros _.
  apply match_outputs_inv in Hm as (js & -> & Hall & Hnd & Hin). cbn [app] in *. exists js. split; [|done].
  apply seq_permutation; [apply Hnd; constructor| |done]. by rewrite <- (Forall2_length _ _ _ Hall), length_seq.
Qed.

(** Re-encryption of zero keeps what a card holds. *)
Lemma diff_holds g x y pk out inp d0 d1 p :
  card_diff out inp = Ok (d0, d1) -> pk ≡ x • g -> d0 ≡ y • g -> d1 ≡ y • pk -> holds x inp p -> holds x out p.
Proof.
  destruct (card_diff_spec out inp) as (e0 & e1 & -> & M0 & M1). intros [= -> ->] Hpk H0' H1' Hh. unfold holds in *.
  rewrite M0 in H0'. rewrite M1 in H1'.
  assert (c0 out ≡ y • g ⊕ c0 inp) as -> by (rewrite <- H0'; proj_module).
  assert (c1 out ≡ y • pk ⊕ c1 inp) as -> by (rewrite <- H1'; proj_module).
  rewrite Hh, Hpk. proj_module.
Qed.
End shuffling.

(** ** The properties *)

(** The mental-poker protocol deals the cards that were put in.  However often the deck is
    masked and shuffled, with or without shuffle proofs, it holds the open cards in some order;
    and when every player contributes an honest reveal token, unmasking a card returns the card
    at its place, or fails because a point is at infinity: an honest token is never rejected. *)
Theorem poker_deal_correct `{StarkLaws, !FeltText, !FeltTextLaws} `{HashFns} (g : Proj) sks keys apk open cards deck :
  generator = Ok g -> compute_aggregate_key keys = Ok apk ->
  Forall2 (fun sk (k : PublicKey * KeyOwnershipProof * list Z) => pk_point (fst (fst k)) ≡ felt_val (sk_scalar sk) • g) sks keys ->
  dealt apk open cards deck ->
  cards ≡ₚ open /\ length deck = length cards
  /\ forall i mc p tokens, deck !! i = Some mc -> cards !! i = Some p -> Forall2 (honest_token g mc) sks tokens ->
       unmask mc tokens = Err (MpCryptoError PointAtInfinity)
       \/ exists card, unmask mc tokens = Ok card /\ card_point card ≡ p.
Proof.
  intros Hg Hagg Hkeys Hd. pose proof (aggregate_total g keys apk sks Hagg Hkeys) as Hpk.
  destruct (dealt_holds g Hg (key_total sks) apk open cards deck Hpk Hd) as [Hall Hperm].
  split; [done|]. split; [symmetry; by eapply Forall2_length|].
  intros i mc p tokens Hmc Hp Htok. eapply unmask_honest; [exact Hg| |exact Htok]. by eapply Forall2_lookup_lr in Hall.
Qed.

(** C27: An accepted shuffle proof matches outputs with inputs one to one, each remasking proof
    accepted against its input; where the accepted statement is true the output card holds the
    point of that input card. *)
Theorem verify_shuffle_sound `{StarkLaws, !FeltText, !FeltTextLaws} `{HashFns} (g : Proj) original shuffled apk proof :
  generator = Ok g -> verify_shuffle original shuffled apk proof = Ok true ->
  length original = length shuffled
  /\ exists perm, perm ≡ₚ seq 0 (length original)
       /\ forall i j, perm !! i = Some j ->
            exists out inp pf d0 d1, shuffled !! i = Some out /\ original !! j = Some inp
              /\ remasking_proofs proof !! i = Some pf /\ card_diff out inp = Ok (d0, d1)
              /\ cp_verify g (pk_point apk) d0 d1 pf SHUFFLE_CONTEXT = Ok true
              /\ (forall x y p, pk_point apk ≡ x • g -> d0 ≡ y • g -> d1 ≡ y • pk_point apk ->
                    holds x inp p -> holds x out p).
Proof.
  intros Hg. unfold verify_shuffle, ShuffleParameters_new, ShuffleStatement_new. rewrite Hg.
  destruct (Nat.eqb_spec (length original) (length shuffled)) as [Hlen|]; [|done]. cbn [negb].
  destruct (Nat.eqb_spec (length original) 0) as [|Hne]; [done|]. cbn [reject_if mbind outcome_bind lift_kms].
  destruct generator_h_spec as [h Hh]. rewrite Hh. cbn [reject_if mbind outcome_bind lift_kms negb].
  intros (perm & Hperm & Hall)%shuffle_verify_inv. split; [done|]. cbn [sp_n] in *. exists perm. split; [done|].
  intros i j Hj. destruct (Forall2_lookup_r _ _ _ _ _ Hall Hj) as (i' & Hi' & Hacc).
  apply lookup_seq in Hi' as [-> _]. cbn [Nat.add] in Hacc.
  destruct Hacc as (out & inp & pf & d0 & d1 & Ho & Hi & Hpf & Hd & Hv). cbn [input_deck output_deck ss_public_key sp_g] in *.
  exists out, inp, pf, d0, d1. do 5 (split; [done|]). intros x y p Hpk H0' H1' Hh'. by eapply diff_holds.
Qed.

(** ** The permutation is public *)
Section revealing.
Context `{StarkLaws, !FeltText, !FeltTextLaws} `{HashFns}.

(** The proof at position [i] was made for the input [j] and the factor [r]. *)
Definition proved_pair (params : ShuffleParameters) (statement : ShuffleStatement) (proofs : list DLEqualityProof)
    (i j : nat) (r : Felt) : Prop :=
  exists nonce out inp pf d0 d1, output_deck statement !! i = Some out /\ input_deck statement !! j = Some inp
    /\ proofs !! i = Some pf /\ card_diff out inp = Ok (d0, d1)
    /\ cp_prove nonce (sp_g params) (pk_point (ss_public_key statement)) d0 d1 r SHUFFLE_CONTEXT = Ok pf.

Lemma prove_position_inv params statement w pfs tr m k pfs' tr' :
  prove_position params statement w (pfs, tr) (m, k) = Ok (pfs', tr') ->
  exists pi inp out r d0 d1 pf, sw_permutation w !! m = Some pi /\ sw_randomness w !! m = Some r
    /\ input_deck statement !! pi = Some inp /\ output_deck statement !! m = Some out /\ card_diff out inp = Ok (d0, d1)
    /\ cp_prove k (sp_g params) (pk_point (ss_public_key statement)) d0 d1 r SHUFFLE_CONTEXT = Ok pf /\ pfs' = pfs ++ [pf].
Proof.
  unfold prove_position. destruct (index (sw_permutation w) m) as [pi| |] eqn:Hpi; [|done..]. cbn [mbind outcome_bind].
  destruct (index (input_deck statement) pi) as [inp| |] eqn:Hin; [|done..]. cbn [mbind outcome_bind].
  destruct (index (output_deck statement) m) as [out| |] eqn:Hout; [|done..]. cbn [mbind outcome_bind].
  destruct (index (sw_randomness w) m) as [r| |] eqn:Hrm; [|done..]. cbn [mbind outcome_bind].
  destruct (card_diff out inp) as [[d0 d1]| |] eqn:Hd; [|done..]. cbn [mbind outcome_bind].
  destruct (cp_prove k _ _ d0 d1 r _) as [pf| |] eqn:Hcp; [|done..]. cbn [mbind outcome_bind].
  destruct (add_point_to_transcript tr d0) as [tr1| |]; [|done..]. cbn [mbind outcome_bind]. intros [= <- _].
  apply expect_Ok in Hpi, Hin, Hout, Hrm. by exists pi, inp, out, r, d0, d1, pf.
Qed.

Lemma prove_fold params statement w n m nonces pfs tr pfs' tr' :
  length pfs = m -> length nonces = n ->
  foldM (prove_position params statement w) (pfs, tr) (zip (seq m n) nonces) = Ok (pfs', tr') ->
  (exists rest, pfs' = pfs ++ rest)
  /\ forall i j r, (m <= i < m + n)%nat -> sw_permutation w !! i = Some j -> sw_randomness w !! i = Some r ->
       proved_pair params statement pfs' i j r.
Proof.
  revert m nonces pfs tr; induction n as [|n IH]; intros m [|k nonces] pfs tr Hm Hn; cbn in Hn; try lia; cbn [seq zip zip_with foldM].
  { intros [= <- _]. split; [exists []; by rewrite app_nil_r|]. intros i j r Hi. lia. }
  destruct (prove_position params statement w (pfs, tr) (m, k)) as [[pfs1 tr1]| |] eqn:Hp; [|done..]. cbn [mbind outcome_bind].
  apply prove_position_inv in Hp as (pi & inp & out & r & d0 & d1 & pf & Hpi & Hrm & Hin & Hout & Hd & Hcp & ->).
  intros [[rest ->] Hrest]%IH; [|rewrite length_app; cbn; lia|lia].
  split; [exists (pf :: rest); by rewrite <- app_assoc|]. intros i j r' Hi Hj Hr'.
  destruct (decide (i = m)) as [->|]; [|apply Hrest; [lia|done|done]].
  rewrite Hpi in Hj. injection Hj as ->. rewrite Hrm in Hr'. injection Hr' as ->. exists k, out, inp, pf, d0, d1. do 2 (split; [done|]). split; [|done].
  rewrite <- app_assoc, lookup_app_r, Hm, Nat.sub_diag by lia. done.
Qed.

Lemma shuffle_prove_pairs nonces blind params statement w proof :
  length nonces = sp_n params -> shuffle_prove nonces blind params statement w = Ok proof ->
  forall i j r, (i < sp_n params)%nat -> sw_permutation w !! i = Some j -> sw_randomness w !! i = Some r ->
    proved_pair params statement (remasking_proofs proof) i j r.
Proof.
  intros Hn. unfold shuffle_prove. destruct (statement_transcript statement) as [tr| |]; [|done..]. cbn [mbind outcome_bind].
  destruct (foldM _ ([], tr) _) as [[pfs tr1]| |] eqn:Hf; [|done..]. cbn [mbind outcome_bind]. intros Hok i j r Hi Hj Hr. inv_ok.
  cbn [remasking_proofs]. apply prove_fold in Hf as [_ Hf]; [|done|done]. apply Hf; [lia|done|done].
Qed.

(** Two points of one deck are the same, or the challenge hash collides. *)
Definition same_cards (deck : list MaskedCard) : Prop :=
  exists j k a b, j <> k /\ deck !! j = Some a /\ deck !! k = Some b /\ c0 a ≡ c0 b /\ c1 a ≡ c1 b.
Definition challenge_collision : Prop := exists d d', d <> d' /\ zkp_compute_challenge d = zkp_compute_challenge d'.

Lemma pairs_agree params statement proof i j k r :
  accepted_pair params statement proof i j -> proved_pair params statement (remasking_proofs proof) i k r ->
  j = k \/ same_cards (input_deck statement) \/ challenge_collision.
Proof.
  intros (out & inp & pf & d0 & d1 & Ho & Hi & Hpf & Hd & Hv) (nonce & out' & inp' & pf' & e0 & e1 & Ho' & Hi' & Hpf' & Hd' & Hcp).
  rewrite Ho in Ho'. injection Ho' as <-. rewrite Hpf in Hpf'. injection Hpf' as <-.
  apply cp_verify_true_inv in Hv as (a1 & a2 & s & c & Ha1 & Ha2 & _ & Hc & Hch & _).
  apply cp_prove_transcript in Hcp as (b1 & b2 & c' & Hb1 & Hb2 & Hc' & Hch').
  rewrite Ha1 in Hb1. injection Hb1 as <-. rewrite Ha2 in Hb2. injection Hb2 as <-. rewrite Hc in Hc'. injection Hc' as <-.
  destruct (decide (j = k)) as [->|Hne]; [by left|right].
  destruct (cp_challenge_binding _ _ _ _ _ _ _ _ _ _ Hch Hch') as [[E0 E1]|Hcoll]; [left|by right].
  destruct (card_diff_spec out inp) as (u0 & u1 & Hu & U0 & U1). rewrite Hd in Hu. injection Hu as <- <-.
  destruct (card_diff_spec out inp') as (v0 & v1 & Hw & V0 & V1). rewrite Hd' in Hw. injection Hw as <- <-.
  rewrite U0, V0 in E0. rewrite U1, V1 in E1. exists j, k, inp, inp'. do 3 (split; [done|]). split.
  - transitivity (c0 out ⊕ (-1) • (c0 out ⊕ (-1) • c0 inp)); [proj_module|]. rewrite E0. proj_module.
  - transitivity (c1 out ⊕ (-1) • (c1 out ⊕ (-1) • c1 inp)); [proj_module|]. rewrite E1. proj_module.
Qed.

(** A statement or the two exceptions. *)
Abbreviation unless_linked deck P := (P \/ same_cards deck \/ challenge_collision).

(** The verifier answers a proof of the prover's, about whatever it is asked. *)
Lemma affine_eq_answers p q : affine_eq p q = Err PointAtInfinity \/ exists b, affine_eq p q = Ok b.
Proof.
  unfold affine_eq. destruct (affine_finite p) as [->|[a ->]]; [by left|]. cbn [mbind outcome_bind].
  destruct (affine_finite q) as [->|[b ->]]; [by left|]. cbn [mbind outcome_bind]. eauto.
Qed.

Lemma cp_challenge_answers g h y1 y2 a1 a2 context :
  cp_challenge g h y1 y2 a1 a2 context = Err (MpCryptoError PointAtInfinity)
  \/ exists c, cp_challenge g h y1 y2 a1 a2 context = Ok c.
Proof.
  unfold cp_challenge.
  destruct (affine_finite g) as [->|[? ->]]; [by left|]. destruct (affine_finite h) as [->|[? ->]]; [by left|].
  destruct (affine_finite y1) as [->|[? ->]]; [by left|]. destruct (affine_finite y2) as [->|[? ->]]; [by left|].
  destruct (affine_finite a1) as [->|[? ->]]; [by left|]. destruct (affine_finite a2) as [->|[? ->]]; [by left|].
  cbn. eauto.
Qed.

Lemma cp_verify_answers r g h y1 y2 x context pf z1 z2 :
  cp_prove r g h y1 y2 x context = Ok pf ->
  cp_verify g h z1 z2 pf context = Err (MpCryptoError PointAtInfinity)
  \/ exists b, cp_verify g h z1 z2 pf context = Ok b.
Proof.
  intros Hp. destruct (cp_prove_transcript _ _ _ _ _ _ _ _ Hp) as (a1 & a2 & c & Ha1 & Ha2 & Hc & _).
  assert (exists s, parse_felt (dl_response pf) = Ok s) as [s Hs].
  { unfold cp_prove in Hp. inv_ok. eexists. apply parse_felt_print. }
  unfold cp_verify. rewrite Ha1, Ha2, Hs, Hc. cbn [mbind outcome_bind].
  destruct (cp_challenge_answers g h z1 z2 a1 a2 context) as [->|[c' ->]]; [by left|]. cbn [mbind outcome_bind].
  destruct (bool_decide _); [right; eauto|].
  destruct (curve_mul_spec s g) as (l1 & -> & _). destruct (curve_mul_spec c z1) as (q1 & -> & _).
  destruct (curve_mul_spec s h) as (l2 & -> & _). destruct (curve_mul_spec c z2) as (q2 & -> & _). cbn [lift_kms mbind outcome_bind].
  destruct (affine_eq_answers l1 (curve_add a1 q1)) as [->|[b ->]]; [by left|]. cbn [lift_kms mbind outcome_bind].
  destruct b; cbn [negb]; [|right; eauto].
  destruct (affine_eq_answers l2 (curve_add a2 q2)) as [->|[b ->]]; cbn [lift_kms]; [by left|right; eauto].
Qed.

(** The output at [i] is the input at [j] remasked with [r]. *)
Definition remasked_pair (params : ShuffleParameters) (statement : ShuffleStatement) (i j : nat) (r : Felt) : Prop :=
  exists out inp, output_deck statement !! i = Some out /\ input_deck statement !! j = Some inp
    /\ c0 out ≡ c0 inp ⊕ felt_val r • sp_g params
    /\ c1 out ≡ c1 inp ⊕ felt_val r • pk_point (ss_public_key statement).

(** The prover's own pair is accepted, or a point is at infinity. *)
Lemma proved_pair_accepted params statement proofs i k r :
  proved_pair params statement proofs i k r -> remasked_pair params statement i k r ->
  exists nonce out inp pf d0 d1 x y1 y2, output_deck statement !! i = Some out /\ input_deck statement !! k = Some inp
    /\ proofs !! i = Some pf /\ card_diff out inp = Ok (d0, d1)
    /\ cp_prove nonce (sp_g params) (pk_point (ss_public_key statement)) y1 y2 x SHUFFLE_CONTEXT = Ok pf
    /\ (cp_verify (sp_g params) (pk_point (ss_public_key statement)) d0 d1 pf SHUFFLE_CONTEXT = Ok true
        \/ cp_verify (sp_g params) (pk_point (ss_public_key statement)) d0 d1 pf SHUFFLE_CONTEXT
            = Err (MpCryptoError PointAtInfinity)).
Proof.
  intros (nonce & out & inp & pf & d0 & d1 & Ho & Hi & Hpf & Hd & Hcp) (out' & inp' & Ho' & Hi' & M0 & M1).
  rewrite Ho in Ho'. injection Ho' as <-. rewrite Hi in Hi'. injection Hi' as <-.
  destruct (card_diff_spec out inp) as (u0 & u1 & Hu & U0 & U1). rewrite Hd in Hu. injection Hu as <- <-.
  exists nonce, out, inp, pf, d0, d1, r, d0, d1. do 5 (split; [done|]).
  destruct (cp_complete nonce (sp_g params) (pk_point (ss_public_key statement)) d0 d1 r SHUFFLE_CONTEXT pf) as (s & _ & ->).
  - rewrite U0, M0. proj_module.
  - rewrite U1, M1. proj_module.
  - done.
  - destruct (_ || _); auto.
Qed.

(** The inner loop finds the input the proof was made for. *)
Lemma match_input_finds params statement proof i k r out pf used js :
  proved_pair params statement (remasking_proofs proof) i k r -> remasked_pair params statement i k r ->
  output_deck statement !! i = Some out -> remasking_proofs proof !! i = Some pf ->
  k ∉ used -> k ∈ js -> Forall (fun j => is_Some (input_deck statement !! j)) js ->
  unless_linked (input_deck statement)
    ((exists d0 d1, match_input params statement out pf used js = Ok (MatchedAt k d0 d1))
     \/ match_input params statement out pf used js = Err (MpCryptoError PointAtInfinity)).
Proof.
  intros Hpp Hrp Ho Hpf Hused Hk Hjs. induction Hjs as [|j js [inp Hj] _ IH]; [by apply not_elem_of_nil in Hk|].
  destruct (proved_pair_accepted _ _ _ _ _ _ Hpp Hrp) as (nonce & out' & inp' & pf' & e0 & e1 & x & y1 & y2 & Ho' & Hi' & Hpf' & He & Hcp & Hacc).
  rewrite Ho in Ho'. injection Ho' as <-. rewrite Hpf in Hpf'. injection Hpf' as <-.
  cbn [match_input]. unfold index. rewrite Hj. cbn [expect mbind outcome_bind].
  destruct (card_diff_spec out inp) as (d0 & d1 & Hd & _). rewrite Hd. cbn [mbind outcome_bind].
  destruct (cp_verify_answers _ _ _ _ _ _ _ _ d0 d1 Hcp) as [Hv|[[] Hv]]; rewrite Hv; cbn [mbind outcome_bind]; [by left; right| |].
  - destruct (pairs_agree params statement proof i j k r) as [->|HX]; [by exists out, inp, pf, d0, d1|done| |by right].
    left. left. exists d0, d1. by rewrite bool_decide_eq_false_2.
  - apply IH. apply elem_of_cons in Hk as [->|Hk]; [|done]. exfalso.
    rewrite Hj in Hi'. injection Hi' as <-. rewrite Hd in He. injection He as <- <-. by destruct Hacc; congruence.
Qed.

Lemma add_point_answers tr p :
  add_point_to_transcript tr p = Err (MpCryptoError PointAtInfinity) \/ exists tr', add_point_to_transcript tr p = Ok tr'.
Proof. unfold add_point_to_transcript. destruct (affine_finite p) as [->|[a ->]]; cbn; eauto. Qed.

(** The outer loop goes through the permutation. *)
Lemma match_outputs_finds params statement proof perm n m ds tr :
  NoDup perm -> length perm = (m + n)%nat -> length (input_deck statement) = sp_n params ->
  Forall (fun k => k < sp_n params)%nat perm ->
  (forall i k, perm !! i = Some k -> exists r, proved_pair params statement (remasking_proofs proof) i k r
    /\ remasked_pair params statement i k r) ->
  unless_linked (input_deck statement)
    ((exists ds' tr', match_outputs params statement proof (seq m n) (take m perm) ds tr = Ok (Some (perm, ds', tr')))
     \/ match_outputs params statement proof (seq m n) (take m perm) ds tr = Err (MpCryptoError PointAtInfinity)).
Proof.
  intros Hnd Hlen Hin Hrange Hpairs. revert m ds tr Hlen. induction n as [|n IH]; intros m ds tr Hlen; cbn [seq match_outputs].
  { rewrite take_ge by lia. left. left. eauto. }
  destruct (lookup_lt_is_Some_2 perm m) as [k Hk]; [lia|]. destruct (Hpairs m k Hk) as (r & Hpp & Hrp).
  pose proof Hpp as (_ & out & _ & pf & _ & _ & Ho & _ & Hpf & _). unfold index. rewrite Ho, Hpf. cbn [expect mbind outcome_bind].
  destruct (match_input_finds params statement proof m k r out pf (take m perm) (seq 0 (sp_n params)))
    as [[(d0 & d1 & ->)| ->]|HX]; try done; [| | | |left; by right|by right].
  - intros (i & Hi)%list_elem_of_lookup. apply lookup_take_Some in Hi as [Hi Him].
    pose proof (NoDup_lookup perm i m k Hnd Hi Hk). lia.
  - rewrite Forall_forall in Hrange. apply elem_of_seq. pose proof (Hrange k (list_elem_of_lookup_2 _ _ _ Hk)). lia.
  - apply Forall_forall. intros j Hj%elem_of_seq. apply lookup_lt_is_Some_2. lia.
  - cbn [mbind outcome_bind]. destruct (add_point_answers tr d0) as [->|[tr' ->]]; [left; by right|]. cbn [mbind outcome_bind].
    rewrite <- (take_S_r perm m k Hk). apply IH. lia.
Qed.

(** What an honest shuffle is made of. *)
Lemma honest_shuffle nonces blind deck apk perm factors shuffled proof params :
  ShuffleParameters_new (length deck) = Ok params -> length nonces = length deck ->
  shuffle_and_remask_with_proof nonces blind deck apk perm factors = Ok (shuffled, proof) ->
  length perm = length deck
  /\ forall i k, perm !! i = Some k -> exists r,
       proved_pair params (mk_ShuffleStatement deck shuffled apk) (remasking_proofs proof) i k r
       /\ remasked_pair params (mk_ShuffleStatement deck shuffled apk) i k r.
Proof.
  intros Hparams Hn. unfold shuffle_and_remask_with_proof. rewrite Hparams. intros Hs.
  apply bind_Ok in Hs as (u & [Hl1 Hl2]%reject_if_Ok%orb_false_iff & Hs). apply negb_false_iff, Nat.eqb_eq in Hl1, Hl2.
  apply bind_Ok in Hs as (permuted & Hperm & Hs). apply bind_Ok in Hs as (output & Hout & Hs). cbn [mbind outcome_bind] in Hs.
  apply bind_Ok in Hs as (statement & Hst & Hs). apply bind_Ok in Hs as (witness & Hw & Hs). apply bind_Ok in Hs as (pf & Hp & Hs).
  injection Hs as -> ->. unfold ShuffleStatement_new, ShuffleWitness_new in Hst, Hw. inv_ok. split; [done|].
  assert (sp_n params = length deck /\ generator = Ok (sp_g params)) as [Hpn Hg].
  { unfold ShuffleParameters_new in Hparams. inv_ok. split; [done|]. by apply lift_kms_Ok. }
  intros i k Hk. pose proof (lookup_lt_Some _ _ _ Hk) as Hi.
  destruct (lookup_lt_is_Some_2 factors i) as [r Hr]; [lia|]. exists r. split.
  - eapply (shuffle_prove_pairs nonces blind _ _ (mk_ShuffleWitness perm factors)); [by rewrite Hpn|exact Hp|lia|done|done].
  - apply collect_Ok in Hperm, Hout.
    destruct (Forall2_lookup_l _ _ _ i (index deck k) Hperm) as (inp & Hpi & Hinp); [by rewrite list_lookup_fmap, Hk|].
    apply expect_Ok in Hinp.
    destruct (Forall2_lookup_l _ _ _ i (remask_plain apk inp r) Hout) as (out & Ho & Hrm).
    { rewrite lookup_zip_with, Hpi, Hr. done. }
    unfold remask_plain in Hrm. apply bind_Ok in Hrm as (q0 & Hq0%lift_kms_Ok & Hrm). apply bind_Ok in Hrm as (q1 & Hq1%lift_kms_Ok & Hrm).
    apply (curve_mul_generator_Ok _ Hg) in Hq0. apply curve_mul_Ok in Hq1. injection Hrm as <-.
    exists (mk_MaskedCard (curve_add (c0 inp) q0) (curve_add (c1 inp) q1)), inp. do 2 (split; [done|]).
    cbn [c0 c1 sp_g ss_public_key]. unfold curve_add. by rewrite Hq0, Hq1.
Qed.
End revealing.


(** ** Witnesses *)
Definition demo_deck : list MaskedCard :=
  [mk_MaskedCard (poker_point 10) (poker_point 20); mk_MaskedCard (poker_point 30) (poker_point 45)].
Definition demo_apk : PublicKey := mk_PublicKey (poker_point 77).
Definition demo_params : ShuffleParameters := mk_ShuffleParameters 2 GXv HXv.
Definition demo_witness : ShuffleWitness := mk_ShuffleWitness [1; 0]%nat [mk 3; mk 4].
Definition demo_proof0 : ShuffleProof :=
  mk_ShuffleProof [] (mk_PokerPoint "" "") (mk_LinearCombinationProof (mk_PokerPoint "" "") "" "").
Definition demo_shuffle : list MaskedCard * ShuffleProof :=
  Eval vm_compute in default ([], demo_proof0)
    (to_option (shuffle_and_remask_with_proof [mk 5; mk 6] (mk 9) demo_deck demo_apk [1; 0]%nat [mk 3; mk 4])).
Definition demo_statement : ShuffleStatement := mk_ShuffleStatement demo_deck (fst demo_shuffle) demo_apk.

Lemma verify_shuffle_sound_witness :
  verify_shuffle demo_deck (fst demo_shuffle) demo_apk (snd demo_shuffle) = Ok true
  /\ exists perm, perm ≡ₚ seq 0 2.
Proof.
  assert (verify_shuffle demo_deck (fst demo_shuffle) demo_apk (snd demo_shuffle) = Ok true) as Hv by (vm_compute; reflexivity).
  split; [exact Hv|].
  destruct (verify_shuffle_sound (poker_point GXv) demo_deck (fst demo_shuffle) demo_apk (snd demo_shuffle) eq_refl Hv) as (_ & perm & Hperm & _).
  exists perm. exact Hperm.
Defined.


(** On that shuffle the loop does return the swap. *)
Lemma demo_swap_found :
  exists ds tr, match_outputs demo_params demo_statement (snd demo_shuffle) (seq 0 2) [] [] [] = Ok (Some ([1; 0]%nat, ds, tr)).
Proof. eexists _, _. vm_compute. reflexivity. Qed.
