(* ===== verification/PokerDeck.v ===== *)
(** * Mental poker: decks and hands (deck.rs)

    crates/experimental/gaming-experimental/mental-poker/src/deck.rs: playing cards, their
    encoding as points, masked decks and hands.  A [HashMap] is an association list, the newest
    entry first; the order of its values, which nothing here depends on, is not modelled. *)

From stdpp Require Import base option list numbers strings.
From Stdlib Require Import ZArith Lia Zdiv.
From S2P Require Import Prelude StarkLib Primality GroupTac StarkModel Types Scalar Curve Text Derivation Requests.
From S2P Require Import MentalPoker PokerProtocol.

#[local] Open Scope string_scope.
#[local] Open Scope list_scope.
#[local] Open Scope Z_scope.

Inductive Suit : Type := Clubs | Diamonds | Hearts | Spades.
Inductive Rank : Type := Two | Three | Four | Five | Six | Seven | Eight | Nine | Ten | Jack | Queen | King | Ace.
Record PlayingCard : Type := mk_PlayingCard { card_rank : Rank; card_suit : Suit }.

#[export] Instance Suit_eq_dec : EqDecision Suit.
Proof. solve_decision. Defined.
#[export] Instance Rank_eq_dec : EqDecision Rank.
Proof. solve_decision. Defined.
#[export] Instance PlayingCard_eq_dec : EqDecision PlayingCard.
Proof. solve_decision. Defined.

Definition Suit_ALL : list Suit := [Clubs; Diamonds; Hearts; Spades].
Definition Rank_ALL : list Rank := [Two; Three; Four; Five; Six; Seven; Eight; Nine; Ten; Jack; Queen; King; Ace].

(** The two nested loops of [standard_deck]. *)
Definition all_playing : list PlayingCard := concat (map (fun rank => map (mk_PlayingCard rank) Suit_ALL) Rank_ALL).

Fixpoint assoc {K V} `{EqDecision K} (k : K) (l : list (K * V)) : option V :=
  match l with
  | [] => None
  | (k', v) :: l => if bool_decide (k = k') then Some v else assoc k l
  end.

Section deck.
Context `{StarkTypes, !FeltText} `{HashFns}.

Record CardEncoding : Type := mk_CardEncoding {
  card_to_playing : list (list Z * PlayingCard); playing_to_card : list (PlayingCard * Card) }.

(** One turn of the loop: the index and the encoding so far. *)
Definition encode_step (st : Z * CardEncoding) (playing : PlayingCard) : PResult (Z * CardEncoding) :=
  let '(index, enc) := st in
  card ← card_from_index index;
  let enc := match projective_to_affine (card_point card) with
             | Ok affine => mk_CardEncoding ((affine_bytes affine, playing) :: card_to_playing enc)
                              ((playing, card) :: playing_to_card enc)
             | _ => enc
             end in
  Ok (index + 1, enc).

Definition standard_deck : PResult CardEncoding :=
  '(_, enc) ← foldM encode_step (1, mk_CardEncoding [] []) all_playing; Ok enc.

Definition card_decode (enc : CardEncoding) (card : Card) : PResult PlayingCard :=
  affine ← lift_kms (projective_to_affine (card_point card));
  ok_or (assoc (affine_bytes affine) (card_to_playing enc)) InvalidCard.

Definition card_encode (enc : CardEncoding) (playing : PlayingCard) : PResult Card :=
  ok_or (assoc playing (playing_to_card enc)) InvalidCard.

(** ** Masked decks; the draws of each card's mask are a pair *)
Record MaskedDeck : Type := mk_MaskedDeck { deck_cards : list MaskedCard; deck_proofs : list DLEqualityProof }.

Definition MaskedDeck_new (draws : list (Felt * Felt)) (open_cards : list Card) (aggregate_pk : PublicKey) : PResult MaskedDeck :=
  masked ← collect (zip_with (fun '(k, r) card => mask k r card aggregate_pk) draws open_cards);
  Ok (mk_MaskedDeck (map fst masked) (map snd masked)).

Definition deck_shuffle (nonces : list Felt) (permutation : list nat) (factors : list Felt) (self : MaskedDeck)
    (aggregate_pk : PublicKey) : PResult MaskedDeck :=
  shuffled ← shuffle_and_remask nonces (deck_cards self) aggregate_pk permutation factors;
  Ok (mk_MaskedDeck (map fst shuffled) (map snd shuffled)).

(** [Vec::remove(0)] panics on an empty vector. *)
Definition draw (self : MaskedDeck) : PResult (option MaskedCard * MaskedDeck) :=
  match deck_cards self with
  | [] => Ok (None, self)
  | card :: cards =>
      match deck_proofs self with
      | [] => Panic
      | _ :: proofs => Ok (Some card, mk_MaskedDeck cards proofs)
      end
  end.

(** [Vec::drain(0..actual)] panics beyond the end. *)
Definition draw_n (n : nat) (self : MaskedDeck) : PResult (list MaskedCard * MaskedDeck) :=
  let actual := Nat.min n (length (deck_cards self)) in
  if (length (deck_proofs self) <? actual)%nat then Panic
  else Ok (take actual (deck_cards self), mk_MaskedDeck (drop actual (deck_cards self)) (drop actual (deck_proofs self))).

(** ** Hands *)
Record Hand : Type := mk_Hand { masked_cards : list MaskedCard; revealed : list (option PlayingCard) }.
Definition Hand_new : Hand := mk_Hand [] [].
Definition hand_add (self : Hand) (card : MaskedCard) : Hand := mk_Hand (masked_cards self ++ [card]) (revealed self ++ [None]).

Definition hand_reveal (self : Hand) (i : nat) (reveal_tokens : list (RevealToken * DLEqualityProof * PublicKey))
    (encoding : CardEncoding) : PResult (PlayingCard * Hand) :=
  _ ← reject_if (length (masked_cards self) <=? i)%nat CardNotFound;
  masked ← index (masked_cards self) i;
  open_card ← unmask masked reveal_tokens;
  playing ← card_decode encoding open_card;
  if (i <? length (revealed self))%nat
  then Ok (playing, mk_Hand (masked_cards self) (<[i := Some playing]> (revealed self)))
  else Panic.
End deck.

(** ** The encoding *)
Section encoding.
Context `{StarkLaws, !FeltText, !FeltTextLaws} `{HashFns}.
Context (g : Proj) (Hg : generator = Ok g).

Lemma assoc_elem {K V} `{EqDecision K} (l : list (K * V)) k v : NoDup (map fst l) -> (k, v) ∈ l -> assoc k l = Some v.
Proof.
  induction l as [|[k' v'] l IH]; cbn [map fst assoc]; [intros _ Hin; by apply not_elem_of_nil in Hin|].
  rewrite NoDup_cons. intros [Hni Hnd] [[= -> ->]|Hin]%elem_of_cons; [by rewrite bool_decide_true|].
  rewrite bool_decide_false; [by apply IH|]. intros ->. apply Hni. apply list_elem_of_fmap. by exists (k', v).
Qed.

(** Entry [(a, p)] of the encoding is for the card of index [i]. *)
Definition entry_for (i : Z) (p : PlayingCard) (e1 : list Z * PlayingCard) (e2 : PlayingCard * Card) : Prop :=
  exists card a, card_point card ≡ i • g /\ proj_to_affine (card_point card) = Some a
    /\ e1 = (affine_bytes a, p) /\ e2 = (p, card).

Lemma card_from_index_spec i : 1 <= i <= 2 ^ 32 -> exists card a, card_from_index i = Ok card
  /\ card_point card ≡ i • g /\ proj_to_affine (card_point card) = Some a.
Proof.
  intros Hi. unfold card_from_index, curve_mul_generator. rewrite Hg. cbn [mbind outcome_bind].
  destruct (curve_scalar_mul_spec g (felt_of_Z i)) as (q & Hq & Hqi). rewrite Hq. cbn [lift_kms mbind outcome_bind].
  rewrite felt_of_Z_val in Hqi by lia. rewrite Z.mod_small in Hqi by (assert (2 ^ 32 < felt_prime) by done; lia).
  assert (~ q ≡ proj_identity) as [a Ha]%to_affine_not_infinity.
  { rewrite Hqi, (generator_smul_infinity g i Hg). assert (2 ^ 32 < CurveOrder) by done. rewrite Z.mod_small by lia. lia. }
  exists (mk_Card q), a. done.
Qed.

Lemma encode_step_spec n enc p : 1 <= n <= 2 ^ 32 -> exists card a,
  encode_step (n, enc) p = Ok (n + 1, mk_CardEncoding ((affine_bytes a, p) :: card_to_playing enc) ((p, card) :: playing_to_card enc))
  /\ card_point card ≡ n • g /\ proj_to_affine (card_point card) = Some a.
Proof.
  intros Hn. destruct (card_from_index_spec n Hn) as (card & a & Hc & Hci & Ha). exists card, a. split; [|done].
  unfold encode_step. rewrite Hc. cbn [mbind outcome_bind]. unfold projective_to_affine. by rewrite Ha.
Qed.

Lemma encode_fold l n enc :
  1 <= n -> n + Z.of_nat (length l) <= 2 ^ 32 ->
  exists es1 es2, foldM encode_step (n, enc) l
      = Ok (n + Z.of_nat (length l), mk_CardEncoding (rev es1 ++ card_to_playing enc) (rev es2 ++ playing_to_card enc))
    /\ length es1 = length l /\ length es2 = length l
    /\ forall k p e1 e2, l !! k = Some p -> es1 !! k = Some e1 -> es2 !! k = Some e2 -> entry_for (n + Z.of_nat k) p e1 e2.
Proof.
  revert n enc; induction l as [|p l IH]; intros n enc Hn Hb; cbn [foldM length].
  { exists [], []. destruct enc. rewrite Z.add_0_r. by split. }
  cbn [length] in Hb. destruct (encode_step_spec n enc p) as (card & a & Hst & Hci & Ha); [lia|].
  rewrite Hst. cbn [mbind outcome_bind].
  match goal with |- context [foldM encode_step (n + 1, ?e) l] => destruct (IH (n + 1) e) as (es1 & es2 & Hf & H1' & H2' & Hall); [lia|lia|] end.
  exists ((affine_bytes a, p) :: es1), ((p, card) :: es2). rewrite Hf. cbn [card_to_playing playing_to_card rev length].
  rewrite <- !app_assoc. split; [do 2 f_equal; lia|]. split; [by rewrite H1'|]. split; [by rewrite H2'|].
  intros [|k] q e1 e2 Hq He1 He2; cbn in Hq, He1, He2.
  - injection Hq as <-. injection He1 as <-. injection He2 as <-. exists card, a. by rewrite Z.add_0_r.
  - replace (n + Z.of_nat (S k)) with (n + 1 + Z.of_nat k) by lia. by apply Hall.
Qed.

Lemma index_distinct_le i j : 0 <= j <= i -> i < 2 ^ 32 -> i • g ≡ j • g -> i = j.
Proof.
  intros Hj Hi Hij. assert ((i - j) • g ≡ proj_identity) as Hd.
  { transitivity (i • g ⊕ (-1) • (j • g)); [proj_module|]. rewrite Hij. proj_module. }
  apply (generator_smul_infinity g _ Hg) in Hd. assert (2 ^ 32 < CurveOrder) by done.
  rewrite Z.mod_small in Hd by lia. lia.
Qed.

Lemma index_distinct i j : 0 <= i < 2 ^ 32 -> 0 <= j < 2 ^ 32 -> i • g ≡ j • g -> i = j.
Proof.
  intros Hi Hj Hij. destruct (Z.le_ge_cases j i); [apply index_distinct_le; done || lia|].
  symmetry. apply index_distinct_le; [lia|lia|by symmetry].
Qed.

Lemma elem_all_playing p : p ∈ all_playing.
Proof. apply (bool_decide_unpack _). by destruct p as [[] []]. Qed.

Lemma NoDup_all_playing : NoDup all_playing.
Proof. apply (bool_decide_unpack _). vm_compute. exact I. Qed.

Lemma NoDup_rev_fst {K V} (l : list (K * V)) : NoDup (map fst l) -> NoDup (map fst (rev l)).
Proof. intros Hl. rewrite map_rev. eapply NoDup_Permutation_proper; [symmetry; apply Permutation_rev|done]. Qed.

Lemma elem_rev {A} (l : list A) k x : l !! k = Some x -> x ∈ rev l.
Proof. intros Hx%list_elem_of_lookup_2. by rewrite <- Permutation_rev. Qed.

(** The entries of the 52 cards, in the order of insertion. *)
Definition entries (es1 : list (list Z * PlayingCard)) (es2 : list (PlayingCard * Card)) : Prop :=
  length es1 = 52%nat /\ length es2 = 52%nat
  /\ forall k, (k < 52)%nat -> exists p e1 e2, all_playing !! k = Some p /\ es1 !! k = Some e1 /\ es2 !! k = Some e2
       /\ entry_for (1 + Z.of_nat k) p e1 e2.

Lemma NoDup_fst_alt {K V} (l : list (K * V)) :
  (forall i j u v, l !! i = Some u -> l !! j = Some v -> fst u = fst v -> i = j) -> NoDup (map fst l).
Proof.
  intros Hl. apply NoDup_alt. intros i j x Hi Hj. rewrite list_lookup_fmap in Hi, Hj.
  destruct (l !! i) as [u|] eqn:Hu; [|done]. destruct (l !! j) as [v|] eqn:Hv; [|done].
  cbn in Hi, Hj. eapply Hl; [exact Hu|exact Hv|congruence].
Qed.

Lemma entries_keys_NoDup es1 es2 : entries es1 es2 -> NoDup (map fst es1).
Proof.
  intros (Hl1 & _ & Hk). apply NoDup_fst_alt. intros i j u v Hu Hv Huv.
  pose proof (lookup_lt_Some _ _ _ Hu). pose proof (lookup_lt_Some _ _ _ Hv).
  destruct (Hk i) as (p & e1 & e2 & _ & He1 & _ & (card & a & Hc & Ha & -> & _)); [lia|]. rewrite Hu in He1. injection He1 as ->.
  destruct (Hk j) as (p' & e1' & e2' & _ & He1' & _ & (card' & a' & Hc' & Ha' & -> & _)); [lia|]. rewrite Hv in He1'. injection He1' as ->.
  cbn [fst] in Huv. rewrite <- (app_nil_r (affine_bytes a')), <- (app_nil_r (affine_bytes a)) in Huv.
  apply affine_bytes_app_inj in Huv as [-> _].
  assert (card_point card ≡ card_point card') as Hcc by (apply to_affine_eq; congruence).
  rewrite Hc, Hc' in Hcc. apply index_distinct in Hcc; lia.
Qed.

Lemma entries_cards_NoDup es1 es2 : entries es1 es2 -> NoDup (map fst es2).
Proof.
  intros (_ & Hl2 & Hk). apply NoDup_fst_alt. intros i j u v Hu Hv Huv.
  pose proof (lookup_lt_Some _ _ _ Hu). pose proof (lookup_lt_Some _ _ _ Hv).
  destruct (Hk i) as (p & e1 & e2 & Hp & _ & He2 & (card & a & _ & _ & _ & ->)); [lia|]. rewrite Hu in He2. injection He2 as ->.
  destruct (Hk j) as (p' & e1' & e2' & Hp' & _ & He2' & (card' & a' & _ & _ & _ & ->)); [lia|]. rewrite Hv in He2'. injection He2' as ->.
  cbn [fst] in Huv. subst p'. by eapply NoDup_lookup; [apply NoDup_all_playing| |].
Qed.

Lemma standard_deck_entries :
  exists es1 es2, standard_deck = Ok (mk_CardEncoding (rev es1) (rev es2)) /\ entries es1 es2.
Proof.
  destruct (encode_fold all_playing 1 (mk_CardEncoding [] [])) as (es1 & es2 & Hf & Hl1 & Hl2 & Hall); [done|by vm_compute|].
  unfold standard_deck. rewrite Hf. cbn [mbind outcome_bind card_to_playing playing_to_card]. rewrite !app_nil_r.
  exists es1, es2. split; [done|]. change (length all_playing) with 52%nat in Hl1, Hl2. split; [done|]. split; [done|].
  intros k Hk. destruct (lookup_lt_is_Some_2 all_playing k) as [p Hp]; [done|].
  destruct (lookup_lt_is_Some_2 es1 k) as [e1 He1]; [lia|]. destruct (lookup_lt_is_Some_2 es2 k) as [e2 He2]; [lia|]. eauto 10.
Qed.

Lemma standard_deck_spec :
  exists enc, standard_deck = Ok enc
    /\ forall p, exists card, card_encode enc p = Ok card
         /\ forall card', card_point card' ≡ card_point card -> card_decode enc card' = Ok p.
Proof.
  destruct standard_deck_entries as (es1 & es2 & -> & Hes). eexists. split; [reflexivity|].
  pose proof (entries_keys_NoDup _ _ Hes) as Hnd1. pose proof (entries_cards_NoDup _ _ Hes) as Hnd2.
  destruct Hes as (_ & _ & Hk). intros p. destruct (list_elem_of_lookup_1 _ _ (elem_all_playing p)) as [k Hp].
  pose proof (lookup_lt_Some _ _ _ Hp) as Hlt. change (length all_playing) with 52%nat in Hlt.
  destruct (Hk k Hlt) as (p' & e1 & e2 & Hp' & He1 & He2 & (card & a & _ & Ha & -> & ->)).
  rewrite Hp in Hp'. injection Hp' as <-. exists card. split.
  - unfold card_encode. cbn [playing_to_card]. by rewrite (assoc_elem _ _ card) by (by apply NoDup_rev_fst || by eapply elem_rev).
  - intros card' Hcc. unfold card_decode, projective_to_affine. apply to_affine_eq in Hcc. rewrite Hcc, Ha.
    cbn [ok_or lift_kms mbind outcome_bind card_to_playing].
    by rewrite (assoc_elem _ _ p) by (by apply NoDup_rev_fst || by eapply elem_rev).
Qed.
End encoding.

(** ** Decks *)

(** A deck has one proof per card. *)
Definition deck_ok `{StarkTypes} (d : MaskedDeck) : Prop := length (deck_cards d) = length (deck_proofs d).

(** Every operation on decks keeps one proof per card, so that drawing never panics; what is
    drawn is the top of the deck. *)
Theorem deck_operations_safe `{StarkTypes, !FeltText} `{HashFns} (d : MaskedDeck) :
  deck_ok d ->
  (exists d', draw d = Ok (head (deck_cards d), d') /\ deck_ok d' /\ deck_cards d' = tail (deck_cards d))
  /\ (forall n, exists d', draw_n n d = Ok (take n (deck_cards d), d') /\ deck_ok d' /\ deck_cards d' = drop n (deck_cards d))
  /\ (forall nonces perm factors apk d', deck_shuffle nonces perm factors d apk = Ok d' -> deck_ok d')
  /\ (forall draws cards apk d', MaskedDeck_new draws cards apk = Ok d' -> deck_ok d').
Proof.
  intros Hd. unfold deck_ok in *. split_and!.
  - unfold draw. destruct d as [[|c cards] [|pf pfs]]; cbn in *; try lia; eexists; (split; [reflexivity|]); cbn; [done|]. split; [lia|done].
  - intros n. unfold draw_n. rewrite (proj2 (Nat.ltb_ge _ _)) by lia.
    destruct (Nat.le_ge_cases n (length (deck_cards d))); [rewrite Nat.min_l by done|rewrite Nat.min_r, (firstn_all2 _ (n := n)), firstn_all by done];
      (eexists; split; [reflexivity|]; cbn; split; [rewrite !length_drop; lia|]); [done|].
    by rewrite !drop_ge by lia.
  - intros nonces perm factors apk d' Hs. unfold deck_shuffle in Hs. inv_ok. cbn. by rewrite !length_map.
  - intros draws cards apk d' Hn. unfold MaskedDeck_new in Hn. inv_ok. cbn. by rewrite !length_map.
Qed.

(** ** The properties *)

(** The encoding of playing cards as points is exact: building the standard deck succeeds,
    every one of the 52 playing cards has a point, and any point equal to it, whatever its
    coordinates' scale, decodes to that card. *)
Theorem card_encoding_roundtrip `{StarkLaws, !FeltText, !FeltTextLaws} `{HashFns} :
  exists enc, standard_deck = Ok enc
    /\ forall p, exists card, card_encode enc p = Ok card
         /\ forall card', card_point card' ≡ card_point card -> card_decode enc card' = Ok p.
Proof. destruct generator_spec as [g Hg]. by apply (standard_deck_spec g). Qed.

(** C26: Playing cards that are encoded, masked and shuffled any number of times under the
    aggregate key of the players are what a hand reveals: with an honest token from every
    player, revealing a dealt card returns and records the playing card encoded at its place,
    or reports a point at infinity; honest tokens are never rejected. *)
Theorem hand_reveal_correct `{StarkLaws, !FeltText, !FeltTextLaws} `{HashFns}
    (g : Proj) sks keys apk enc plays open cards deck i mc hand j tokens :
  generator = Ok g -> compute_aggregate_key keys = Ok apk ->
  Forall2 (fun sk (k : PublicKey * KeyOwnershipProof * list Z) => pk_point (fst (fst k)) ≡ felt_val (sk_scalar sk) • g) sks keys ->
  standard_deck = Ok enc ->
  Forall2 (fun play pt => exists card, card_encode enc play = Ok card /\ card_point card = pt) plays open ->
  dealt apk open cards deck -> deck !! i = Some mc ->
  masked_cards hand !! j = Some mc -> length (revealed hand) = length (masked_cards hand) ->
  Forall2 (honest_token g mc) sks tokens ->
  hand_reveal hand j tokens enc = Err (MpCryptoError PointAtInfinity)
  \/ exists play hand' card, hand_reveal hand j tokens enc = Ok (play, hand')
       /\ play ∈ plays /\ card_encode enc play = Ok card /\ cards !! i = Some (card_point card)
       /\ masked_cards hand' = masked_cards hand /\ revealed hand' = <[j := Some play]> (revealed hand).
Proof.
  intros Hg Hagg Hkeys Henc Hplays Hd Hmc Hj Hlen Htok. pose proof (aggregate_total g keys apk sks Hagg Hkeys) as Hpk.
  destruct (dealt_holds g Hg (key_total sks) apk open cards deck Hpk Hd) as [Hall Hperm].
  destruct (Forall2_lookup_r _ _ _ _ _ Hall Hmc) as (pt & Hpt & Hholds).
  assert (pt ∈ open) as Hin by (rewrite <- Hperm; by eapply list_elem_of_lookup_2).
  apply list_elem_of_lookup in Hin as [k Hk]. destruct (Forall2_lookup_r _ _ _ _ _ Hplays Hk) as (play & Hplay & card & Hcard & <-).
  destruct (standard_deck_spec g Hg) as (enc' & Henc' & Hspec). rewrite Henc in Henc'. injection Henc' as <-.
  destruct (Hspec play) as (card' & Hcard' & Hdec). rewrite Hcard in Hcard'. injection Hcard' as <-.
  pose proof (lookup_lt_Some _ _ _ Hj). unfold hand_reveal. rewrite (proj2 (Nat.leb_gt _ _)) by done.
  unfold index. rewrite Hj. cbn [reject_if mbind outcome_bind expect].
  destruct (unmask_honest g Hg mc _ sks tokens Hholds Htok) as [->|(c & -> & Hc)]; [by left|]. right. cbn [mbind outcome_bind].
  rewrite (Hdec c Hc). cbn [mbind outcome_bind]. rewrite (proj2 (Nat.ltb_lt _ _)) by lia.
  eexists play, _, card. split; [reflexivity|]. split; [by eapply list_elem_of_lookup_2|]. done.
Qed.

(** ** Witness *)
Definition demo_sk : SecretKey := mk_SecretKey (mk 5).
Definition demo_pk : PublicKey := mk_PublicKey (poker_point (5 * GXv mod CurveOrder)).
Definition demo_ko : KeyOwnershipProof :=
  Eval vm_compute in default (mk_KeyOwnershipProof (mk_PokerPoint "" "") "" "") (to_option (prove_key_ownership (mk 8) demo_pk demo_sk [])).
Definition demo_keys : list (PublicKey * KeyOwnershipProof * list Z) := [(demo_pk, demo_ko, [])].
Definition demo_aggregate : PublicKey := default demo_pk (to_option (compute_aggregate_key demo_keys)).

Lemma card_eta `{StarkTypes} (c : Card) : mk_Card (card_point c) = c.
Proof. by destruct c. Qed.

Lemma hand_reveal_correct_witness :
  exists enc hand tokens, standard_deck = Ok enc
    /\ (hand_reveal hand 0 tokens enc = Err (MpCryptoError PointAtInfinity)
        \/ exists play hand', hand_reveal hand 0 tokens enc = Ok (play, hand') /\ play ∈ [mk_PlayingCard Ace Spades]).
Proof.
  assert (generator = Ok (poker_point GXv)) as Hg by reflexivity.
  assert (compute_aggregate_key demo_keys = Ok demo_aggregate) as Hagg by (apply ok_default; vm_compute; reflexivity).
  assert (pk_point demo_pk ≡ felt_val (sk_scalar demo_sk) • poker_point GXv) as Hpk by (vm_compute; exact I).
  assert (Forall2 (fun sk (k : PublicKey * KeyOwnershipProof * list Z) => pk_point (fst (fst k)) ≡ felt_val (sk_scalar sk) • poker_point GXv)
    [demo_sk] demo_keys) as Hkeys by (constructor; [exact Hpk|constructor]).
  destruct (standard_deck_spec (poker_point GXv) Hg) as (enc & Henc & Hspec).
  destruct (Hspec (mk_PlayingCard Ace Spades)) as (card & Hcard & _).
  destruct (mask_total (poker_point GXv) Hg (mk 4) (mk 6) card demo_aggregate) as (mc & pf & Hmask & Hc0).
  { repeat (apply Forall_cons_2; [points_differ|]). constructor. }
  destruct (reveal_total (poker_point GXv) Hg (mk 3) mc demo_sk demo_pk) as [t Ht].
  { repeat (apply Forall_cons_2; [try rewrite Hc0; points_differ|]). constructor. }
  exists enc, (hand_add Hand_new mc), [(fst t, snd t, demo_pk)]. split; [exact Henc|].
  destruct (hand_reveal_correct (poker_point GXv) [demo_sk] demo_keys demo_aggregate enc
    [mk_PlayingCard Ace Spades] [card_point card] [card_point card] [mc] 0%nat mc (hand_add Hand_new mc) 0%nat
    [(fst t, snd t, demo_pk)] Hg Hagg Hkeys Henc) as [He|(play & hand' & c & Hr & Hp & _)].
  - constructor; [|constructor]. exists card. split; [exact Hcard|reflexivity].
  - apply dealt_masked. constructor; [|constructor]. exists (mk 4), (mk 6), pf. rewrite card_eta. exact Hmask.
  - reflexivity.
  - reflexivity.
  - reflexivity.
  - constructor; [|constructor]. split; [exact Hpk|]. exists (mk 3). exact (eq_trans Ht (f_equal Ok (surjective_pairing _))).
  - left. exact He.
  - right. exists play, hand'. split; [exact Hr|exact Hp].
Defined.
