(* ===== verification/Blackjack.v ===== *)
(** * Blackjack

    crates/experimental/gaming-experimental/mental-poker/src/blackjack.rs: card values, hand
    values, the dealer's rules, outcomes, payouts and shoes.

    A card is its index; a failed [assert!] and an arithmetic overflow are [Panic]s.  Display
    texts are not modelled. *)

From stdpp Require Import base option list numbers strings.
From Stdlib Require Import ZArith Lia.
From S2P Require Import Prelude StarkLib Types MentalPoker.

#[local] Open Scope string_scope.
#[local] Open Scope list_scope.
#[local] Open Scope Z_scope.

Definition U8_LIMIT : Z := 255.
Definition u32_limit : Z := 2 ^ 32 - 1.
Definition u8_saturating_add (a b : Z) : Z := Z.min (a + b) U8_LIMIT.

(** An unsigned result below [limit], or an overflow. *)
Definition in_width (limit z : Z) : PResult Z := if (0 <=? z) && (z <=? limit) then Ok z else Panic.

(** ** Cards *)
Definition rank_from_index (index : Z) : PResult Z := i ← in_width u64_MAX (index - 1); Ok (i mod 13).

Definition card_value (index : Z) : PResult Z :=
  if negb ((1 <=? index) && (index <=? 52)) then Panic
  else
    rank ← rank_from_index index;
    if rank <=? 8 then Ok (rank + 2)
    else if rank <=? 11 then Ok 10
    else if rank =? 12 then Ok 11
    else Panic.

Definition is_ace (index : Z) : PResult bool := rank ← rank_from_index index; Ok (rank =? 12).
Definition is_face_card (index : Z) : PResult bool := rank ← rank_from_index index; Ok ((9 <=? rank) && (rank <=? 11)).
Definition is_ten_value (index : Z) : PResult bool := rank ← rank_from_index index; Ok ((8 <=? rank) && (rank <=? 11)).
Definition suit_of_index (index : Z) : PResult Z := i ← in_width u64_MAX (index - 1); Ok ((i / 13) mod 256).

(** ** Hands *)
Record HandValue : Type := mk_HandValue { hv_hard : Z; hv_soft : option Z; hv_aces : Z }.

Definition hv_best (self : HandValue) : Z :=
  match hv_soft self with Some soft => if soft <=? 21 then soft else hv_hard self | None => hv_hard self end.
Definition hv_is_soft (self : HandValue) : bool := match hv_soft self with Some s => s <=? 21 | None => false end.
Definition hv_is_bust (self : HandValue) : bool := 21 <? hv_hard self.

Definition hand_step (st : Z * Z) (card : Z) : PResult (Z * Z) :=
  let '(hard_total, ace_count) := st in
  value ← card_value card;
  if value =? 11 then
    ace_count ← in_width U8_LIMIT (ace_count + 1);
    Ok (u8_saturating_add hard_total 1, ace_count)
  else Ok (u8_saturating_add hard_total value, ace_count).

Definition calculate_hand_value (cards : list Z) : PResult HandValue :=
  '(hard_total, ace_count) ← foldM hand_step (0, 0) cards;
  if 0 <? ace_count then
    plus ← in_width U8_LIMIT (hard_total + 10);
    Ok (mk_HandValue hard_total (if plus <=? 21 then Some plus else None) ace_count)
  else Ok (mk_HandValue hard_total None ace_count).

Definition best_value (cards : list Z) : PResult Z := v ← calculate_hand_value cards; Ok (hv_best v).
Definition is_bust (cards : list Z) : PResult bool := v ← calculate_hand_value cards; Ok (hv_is_bust v).

(** [||] does not look at the second card when the first decides. *)
Definition either_card (test : Z -> PResult bool) (a b : Z) : PResult bool :=
  first ← test a; if first : bool then Ok true else test b.

Definition is_blackjack (cards : list Z) : PResult bool :=
  match cards with
  | [a; b] =>
      has_ace ← either_card is_ace a b;
      has_ten ← either_card is_ten_value a b;
      Ok (has_ace && has_ten)
  | _ => Ok false
  end.

(** ** Dealer, outcomes and payouts *)
Definition should_dealer_hit (hand : HandValue) : bool := hv_best hand <? 17.
Definition should_dealer_hit_soft17 (hand : HandValue) : bool :=
  let best := hv_best hand in
  if best <? 17 then true else if (best =? 17) && hv_is_soft hand then true else false.

Inductive Outcome : Type :=
| PlayerBlackjack | DealerBlackjack | BothBlackjack | PlayerWins | DealerWins | Push | PlayerBusts | DealerBusts.

Definition is_player_win (o : Outcome) : bool := match o with PlayerBlackjack | PlayerWins | DealerBusts => true | _ => false end.
Definition is_push (o : Outcome) : bool := match o with Push | BothBlackjack => true | _ => false end.

Definition determine_winner (player_cards dealer_cards : list Z) : PResult Outcome :=
  player_bj ← is_blackjack player_cards;
  dealer_bj ← is_blackjack dealer_cards;
  if player_bj && dealer_bj then Ok BothBlackjack
  else if player_bj : bool then Ok PlayerBlackjack
  else if dealer_bj : bool then Ok DealerBlackjack
  else
    player_value ← calculate_hand_value player_cards;
    dealer_value ← calculate_hand_value dealer_cards;
    if hv_is_bust player_value then Ok PlayerBusts
    else if hv_is_bust dealer_value then Ok DealerBusts
    else
      match hv_best player_value ?= hv_best dealer_value with
      | Gt => Ok PlayerWins
      | Lt => Ok DealerWins
      | Eq => Ok Push
      end.

Definition calculate_payout (bet : Z) (outcome : Outcome) : PResult Z :=
  match outcome with
  | PlayerBlackjack => tripled ← in_width u64_MAX (bet * 3); in_width u64_MAX (bet + tripled / 2)
  | PlayerWins | DealerBusts => in_width u64_MAX (bet * 2)
  | Push | BothBlackjack => Ok bet
  | DealerWins | DealerBlackjack | PlayerBusts => Ok 0
  end.

(** ** Shoes *)
Definition deck_config_validate (num_decks : Z) : PResult unit :=
  _ ← reject_if (num_decks =? 0) (InvalidParameters "Number of decks must be at least 1");
  reject_if (8 <? num_decks) (InvalidParameters "Number of decks cannot exceed 8").

Definition total_cards (num_decks : Z) : PResult Z := in_width u32_limit (num_decks * 52).

Definition create_blackjack_card_indices (num_decks : Z) : PResult (list Z) :=
  _ ← total_cards num_decks;
  Ok (concat (replicate (Z.to_nat num_decks) (seqZ 1 52))).

(** ** What a hand is worth *)

(** A card's rank value, and the totals of a hand with [k] of its aces counted as 11. *)
Definition card_ok (c : Z) : Prop := 1 <= c <= 52.
Definition low_value (c : Z) : Z :=
  let r := (c - 1) mod 13 in if r =? 12 then 1 else Z.min (r + 2) 10.
Definition ace_of (c : Z) : Z := if (c - 1) mod 13 =? 12 then 1 else 0.
Definition hard_sum (cards : list Z) : Z := foldr (fun c n => low_value c + n) 0 cards.
Definition ace_sum (cards : list Z) : Z := foldr (fun c n => ace_of c + n) 0 cards.
Definition total_with (cards : list Z) (k : Z) : Z := hard_sum cards + 10 * k.

Lemma card_value_spec c : card_ok c -> card_value c = Ok (if ace_of c =? 1 then 11 else low_value c).
Proof.
  unfold card_ok. intros Hc. unfold card_value, rank_from_index, in_width.
  rewrite !(proj2 (Z.leb_le _ _)) by (unfold u64_MAX; lia). cbn [andb negb mbind outcome_bind]. unfold ace_of, low_value.
  pose proof (Z.mod_pos_bound (c - 1) 13 ltac:(lia)). set (r := (c - 1) mod 13) in *.
  destruct (Z.leb_spec r 8), (Z.leb_spec r 11), (Z.eqb_spec r 12); cbn; try lia; f_equal; lia.
Qed.

Lemma low_value_range c : 1 <= low_value c <= 10.
Proof.
  unfold low_value. pose proof (Z.mod_pos_bound (c - 1) 13 ltac:(lia)). destruct (_ =? _); lia.
Qed.
Lemma ace_of_range c : ace_of c = 0 \/ ace_of c = 1 /\ low_value c = 1.
Proof. unfold ace_of, low_value. destruct (_ =? _); [by right|by left]. Qed.

Lemma sums_range cards : 0 <= ace_sum cards <= hard_sum cards.
Proof.
  induction cards as [|x cards IH]; [done|]. cbn [ace_sum hard_sum foldr]. fold (hard_sum cards) (ace_sum cards).
  pose proof (low_value_range x). destruct (ace_of_range x) as [->|[-> ?]]; lia.
Qed.

Lemma hand_step_spec h a c :
  card_ok c -> 0 <= a <= h -> h + low_value c <= 255 -> hand_step (h, a) c = Ok (h + low_value c, a + ace_of c).
Proof.
  intros Hc Ha Hb. unfold hand_step. rewrite card_value_spec by done. cbn [mbind outcome_bind].
  pose proof (low_value_range c). unfold u8_saturating_add, in_width.
  destruct (ace_of_range c) as [->|[-> Hl]]; cbn [Z.eqb Pos.eqb].
  - rewrite (proj2 (Z.eqb_neq _ 11)) by lia. rewrite Z.min_l by (unfold U8_LIMIT; lia). by rewrite Z.add_0_r.
  - rewrite Hl in *. rewrite !(proj2 (Z.leb_le _ _)) by (unfold U8_LIMIT; lia). cbn [andb mbind outcome_bind].
    by rewrite Z.min_l by (unfold U8_LIMIT; lia).
Qed.

Lemma hand_fold cards h a :
  Forall card_ok cards -> 0 <= a <= h -> h + hard_sum cards <= 255 ->
  foldM hand_step (h, a) cards = Ok (h + hard_sum cards, a + ace_sum cards).
Proof.
  intros Hall. revert h a; induction Hall as [|c cards Hc _ IH]; intros h a Ha Hb; [cbn; by rewrite !Z.add_0_r|].
  cbn [hard_sum ace_sum foldr] in *. fold (hard_sum cards) (ace_sum cards) in *. pose proof (sums_range cards).
  pose proof (low_value_range c). cbn [foldM]. rewrite hand_step_spec by (done || lia). cbn [mbind outcome_bind].
  rewrite IH by (destruct (ace_of_range c) as [?|[? ?]]; lia). do 2 f_equal; lia.
Qed.

(** The best total: the largest way of counting the aces that does not exceed 21, or the
    smallest total if all do. *)
Definition best_total (cards : list Z) (best : Z) : Prop :=
  (exists k, 0 <= k <= ace_sum cards /\ best = total_with cards k)
  /\ (best <= 21 -> forall k, 0 <= k <= ace_sum cards -> total_with cards k <= 21 -> total_with cards k <= best)
  /\ (21 < best -> forall k, 0 <= k <= ace_sum cards -> 21 < total_with cards k /\ best <= total_with cards k).

Lemma calculate_spec cards :
  Forall card_ok cards -> hard_sum cards <= 245 ->
  calculate_hand_value cards
  = Ok (mk_HandValue (hard_sum cards)
          (if (0 <? ace_sum cards) && (hard_sum cards + 10 <=? 21) then Some (hard_sum cards + 10) else None) (ace_sum cards)).
Proof.
  intros Hall Hb. unfold calculate_hand_value. rewrite hand_fold by (done || lia). cbn [mbind outcome_bind]. rewrite !Z.add_0_l.
  pose proof (sums_range cards). destruct (Z.ltb_spec 0 (ace_sum cards)); [|done]. unfold in_width.
  rewrite !(proj2 (Z.leb_le _ _)) by (unfold U8_LIMIT; lia). cbn [andb mbind outcome_bind]. by destruct (_ <=? 21).
Qed.

Lemma hv_best_total cards hv :
  Forall card_ok cards -> hard_sum cards <= 245 -> calculate_hand_value cards = Ok hv ->
  best_total cards (hv_best hv) /\ (hv_is_bust hv = true <-> 21 < hv_best hv).
Proof.
  intros Hall Hb. rewrite calculate_spec by done. intros [= <-]. unfold hv_best, hv_is_bust, best_total, total_with. cbn [hv_soft hv_hard].
  pose proof (sums_range cards). rewrite Z.ltb_lt.
  destruct (Z.ltb_spec 0 (ace_sum cards)), (Z.leb_spec (hard_sum cards + 10) 21); cbn [andb];
    [rewrite (proj2 (Z.leb_le _ _)) by done| | |]; split_and!; try lia;
    first [exists 1; lia | exists 0; lia | intros; lia].
Qed.

Lemma rank_total c : card_ok c -> exists r, rank_from_index c = Ok r.
Proof.
  unfold card_ok. intros Hc. unfold rank_from_index, in_width. rewrite !(proj2 (Z.leb_le _ _)) by (unfold u64_MAX; lia). cbn. eauto.
Qed.

Lemma is_blackjack_total cards : Forall card_ok cards -> exists b, is_blackjack cards = Ok b.
Proof.
  intros Hall. unfold is_blackjack. destruct cards as [|a [|b [|? ?]]]; eauto.
  apply Forall_cons in Hall as [Ha [Hb _]%Forall_cons]. destruct (rank_total a Ha) as [ra Era]. destruct (rank_total b Hb) as [rb Erb].
  unfold either_card, is_ace, is_ten_value. rewrite Era, Erb. cbn [mbind outcome_bind].
  destruct (ra =? 12); cbn [mbind outcome_bind]; destruct ((8 <=? ra) && (ra <=? 11)); cbn; eauto.
Qed.

(** The decision of [determine_winner], given the two values. *)
Lemma winner_cases p d (pb db : bool) :
  (hv_is_bust p = true <-> 21 < hv_best p) -> (hv_is_bust d = true <-> 21 < hv_best d) ->
  exists o,
    (if pb && db then Ok BothBlackjack else if pb then Ok PlayerBlackjack else if db then Ok DealerBlackjack
     else player_value ← (Ok p : PResult HandValue);
          dealer_value ← (Ok d : PResult HandValue);
          if hv_is_bust player_value then Ok PlayerBusts
          else if hv_is_bust dealer_value then Ok DealerBusts
          else match hv_best player_value ?= hv_best dealer_value with Gt => Ok PlayerWins | Lt => Ok DealerWins | Eq => Ok Push end) = Ok o
    /\ (is_player_win o = true <->
          (pb = true /\ db = false)
          \/ (pb = false /\ db = false /\ hv_best p <= 21 /\ (21 < hv_best d \/ hv_best d < hv_best p)))
    /\ (is_push o = true <->
          (pb = true /\ db = true) \/ (pb = false /\ db = false /\ hv_best p <= 21 /\ hv_best p = hv_best d)).
Proof.
  intros Up Ud. cbn [mbind outcome_bind].
  destruct pb, db; cbn [andb];
    try (eexists; split; [reflexivity|]; cbn; split; (split; [intros ?; try done; tauto|intros; destruct_or?; destruct_and?; done])).
  destruct (hv_is_bust p) eqn:Ebp, (hv_is_bust d) eqn:Ebd; [| | |destruct (Z.compare_spec (hv_best p) (hv_best d))];
    (eexists; split; [reflexivity|]); cbn; assert (false = true <-> False) as Hft by done; rewrite ?Hft in *;
    assert (true = true <-> True) as Htt by done; rewrite ?Htt in *; split; split; intros; try done;
    destruct_or?; destruct_and?; try done; try tauto; try (exfalso; lia || (apply Up || apply Ud; lia)); try (right; repeat split; lia).
Qed.

Lemma payout_bounded bet o :
  0 <= bet -> 3 * bet <= u64_MAX / 2 ->
  exists pay, calculate_payout bet o = Ok pay /\ 2 * pay <= 5 * bet /\ (bet < pay -> is_player_win o = true \/ bet = 0).
Proof.
  intros Hb Hm. pose proof (Z.mul_div_le u64_MAX 2 ltac:(lia)).
  assert (forall z, 0 <= z <= 4 * bet -> in_width u64_MAX z = Ok z) as Hw.
  { intros z Hz. unfold in_width. rewrite !(proj2 (Z.leb_le _ _)) by lia. done. }
  pose proof (Z.mul_div_le (bet * 3) 2 ltac:(lia)). pose proof (Z.div_pos (bet * 3) 2 ltac:(lia) ltac:(lia)).
  destruct o; cbn [calculate_payout is_player_win]; rewrite ?Hw by lia; cbn [mbind outcome_bind]; rewrite ?Hw by lia;
    eexists; (split; [reflexivity|]); split; try lia; intros; try (by left); lia.
Qed.

(** A blackjack hand is valued by the best way of counting its aces.  For a hand of cards of
    the deck whose hard total is at most 245 the calculation does not overflow, its best value is
    the largest total not above 21 over all ways to count the aces as 1 or 11, or the smallest
    total if every way is above 21, and the hand is bust exactly in the second case.  The winner
    is the side with the better hand, a natural blackjack first; and the payout never exceeds two
    and a half times the bet. *)
Theorem blackjack_correct player dealer :
  Forall card_ok player -> Forall card_ok dealer -> hard_sum player <= 245 -> hard_sum dealer <= 245 ->
  exists p d pb db o, calculate_hand_value player = Ok p /\ calculate_hand_value dealer = Ok d
    /\ best_total player (hv_best p) /\ best_total dealer (hv_best d)
    /\ (hv_is_bust p = true <-> 21 < hv_best p) /\ (hv_is_bust d = true <-> 21 < hv_best d)
    /\ is_blackjack player = Ok pb /\ is_blackjack dealer = Ok db
    /\ determine_winner player dealer = Ok o
    /\ (is_player_win o = true <->
          (pb = true /\ db = false)
          \/ (pb = false /\ db = false /\ hv_best p <= 21 /\ (21 < hv_best d \/ hv_best d < hv_best p)))
    /\ (is_push o = true <->
          (pb = true /\ db = true) \/ (pb = false /\ db = false /\ hv_best p <= 21 /\ hv_best p = hv_best d))
    /\ (forall bet, 0 <= bet -> 3 * bet <= u64_MAX / 2 ->
          exists pay, calculate_payout bet o = Ok pay /\ 2 * pay <= 5 * bet
            /\ (bet < pay -> is_player_win o = true \/ bet = 0)).
Proof.
  intros Hp Hd Hbp Hbd.
  destruct (is_ok_exists (calculate_hand_value player)) as [p Ep]; [by rewrite calculate_spec|].
  destruct (is_ok_exists (calculate_hand_value dealer)) as [d Ed]; [by rewrite calculate_spec|].
  destruct (hv_best_total player p Hp Hbp Ep) as [Bp Up]. destruct (hv_best_total dealer d Hd Hbd Ed) as [Bd Ud].
  destruct (is_blackjack_total player Hp) as [pb Epb]. destruct (is_blackjack_total dealer Hd) as [db Edb].
  destruct (winner_cases p d pb db) as (o & Ho & Hwin & Hpush); [done|done|].
  exists p, d, pb, db, o. do 8 (split; [done|]). split.
  { unfold determine_winner. rewrite Epb, Edb. cbn [mbind outcome_bind]. rewrite Ep, Ed. exact Ho. }
  split; [done|]. split; [done|]. intros bet Hbet Hmax. by apply payout_bounded.
Qed.

Lemma blackjack_correct_witness :
  exists o, determine_winner [52; 8] [10; 8] = Ok o /\ is_player_win o = true.
Proof.
  destruct (blackjack_correct [52; 8] [10; 8]) as (p & d & pb & db & o & Ep & Ed & _ & _ & _ & _ & Epb & Edb & Ho & Hw & _);
    [repeat constructor; unfold card_ok; lia|repeat constructor; unfold card_ok; lia|vm_compute; discriminate|vm_compute; discriminate|].
  exists o. split; [exact Ho|]. vm_compute in Ho. injection Ho as <-. reflexivity.
Defined.

(** The calculation panics on a hand with an ace whose hard total is above 245: the total is
    added saturating, the ten for the ace is not. *)
Lemma hand_value_overflows : calculate_hand_value (52 :: replicate 25 12) = Panic.
Proof. vm_compute. reflexivity. Qed.
