(* ===== verification/Provider.v ===== *)
(** * The JSON-RPC provider

    crates/gateway/src/backend/rpc.rs and crates/wallet-api/src/provider_error.rs:
    the helpers around JSON-RPC calls, and the endpoint-safe description of a
    provider failure.

    The client library's errors are inductive types with the variants the source
    distinguishes; its calls are the interface [Provider] over a world [W] that a
    call may move.  [StarknetRsFelt] and the core [Felt] are the same field, and
    the conversions go through big-endian bytes. *)

From stdpp Require Import base option list numbers strings.
From Stdlib Require Import ZArith Lia.
From S2P Require Import Prelude StarkLib Types Scalar Text Domain Primitives Requests Fee.

#[local] Open Scope string_scope.
#[local] Open Scope list_scope.
#[local] Open Scope Z_scope.

(** ** Errors of the client library *)
Inductive StarknetError : Type :=
| SE_ClassHashNotFound | SE_ContractNotFound | SE_EntrypointNotFound | SE_TransactionHashNotFound
| SE_InsufficientAccountBalance | SE_InsufficientResourcesForValidate
| SE_ValidationFailure (message : string) | SE_UnexpectedError (message : string) | SE_Other (text : string).

(** [reqwest::Error]: its predicates, and the URL its [Display] embeds. *)
Record HttpError : Type := {
  http_is_timeout : bool; http_is_connect : bool; http_status : option Z; http_is_decode : bool; http_url : string }.

(** [BoundedHttpTransportError]. *)
Inductive TransportError : Type :=
| TE_Reqwest (http : HttpError) | TE_Json | TE_ResponseTooLarge (limit : Z) | TE_UnexpectedResponseId (id : Z)
| TE_InvalidNumericResponseId | TE_BatchError (code : Z).

Inductive JsonRpcClientError : Type :=
| JC_JsonError | JC_TransportError (error : TransportError) | JC_JsonRpcError (code : Z).

(** [ProviderError]; [Other] holds any implementation's error, of which the
    source recognises its own transport's. *)
Inductive ProviderError : Type :=
| PE_StarknetError (error : StarknetError) | PE_RateLimited | PE_ArrayLengthMismatch
| PE_Other (inner : option JsonRpcClientError).

(** ** Describing failures *)
Definition transport_error_kind (inner : option JsonRpcClientError) : string :=
  match inner with
  | None => "other"
  | Some JC_JsonError | Some (JC_TransportError TE_Json) => "decode"
  | Some (JC_JsonRpcError _) | Some (JC_TransportError (TE_BatchError _)) => "json-rpc code {}"
  | Some (JC_TransportError (TE_Reqwest http)) =>
      if http_is_timeout http then "timeout"
      else if http_is_connect http then "connect"
      else match http_status http with
           | Some _ => "status {}"
           | None => if http_is_decode http then "decode" else "other"
           end
  | Some (JC_TransportError (TE_ResponseTooLarge _)) => "response exceeds {limit} bytes"
  | Some (JC_TransportError (TE_UnexpectedResponseId _))
  | Some (JC_TransportError TE_InvalidNumericResponseId) => "other"
  end.

(** [Display] of the typed failures, which the library defines. *)
Class ErrorText : Type := { starknet_error_text : StarknetError -> string; typed_error_text : ProviderError -> string }.

Section provider.
Context `{StarkTypes, !ErrorText}.

Definition provider_error_message (error : ProviderError) : string :=
  match error with
  | PE_Other inner => "provider transport error: " +:+ transport_error_kind inner
  | typed => typed_error_text typed
  end.

(** [rpc_error]. *)
Definition rpc_error (error : ProviderError) : KmsError := RpcError (provider_error_message error).

Definition provider_transport_error (message : string) : GatewayError :=
  gateway_error_new Code_ProviderTransport true (Some message).

Definition map_provider_error (error : ProviderError) : GatewayError :=
  provider_transport_error (provider_error_message error).

Definition is_contract_not_found (error : ProviderError) : bool :=
  match error with PE_StarknetError SE_ContractNotFound => true | _ => false end.

Definition is_entrypoint_not_found (error : ProviderError) : bool :=
  match error with PE_StarknetError SE_EntrypointNotFound => true | _ => false end.

(** ** Values *)
Inductive BlockId : Type := Id_Latest | Id_PreConfirmed | Id_Number (number : Z) | Id_Hash (hash : Felt).

Definition core_felt_to_rs (felt : Felt) : Felt := from_bytes_be (to_bytes_be felt).
Definition rs_felt_to_core (felt : Felt) : Felt := from_bytes_be (to_bytes_be felt).
Definition rs_felt_to_biguint (felt : Felt) : Z := be_value (to_bytes_be felt).

Definition to_block_id `{FeltFromHex} {E} (block : BlockSelector) : outcome E BlockId :=
  match block with
  | Block_Latest => Ok Id_Latest
  | Block_Pending => Ok Id_PreConfirmed
  | Block_Number number => Ok (Id_Number number)
  | Block_Hash hash => h ← felt_hex_to_felt hash; Ok (Id_Hash (core_felt_to_rs h))
  end.

Record FunctionCall : Type := { fc_contract_address : Felt; fc_entry_point_selector : Felt; fc_calldata : list Felt }.

(** Execution status of a transaction. *)
Inductive ExecutionResult : Type := Succeeded | RevertedExec (reason : string).
Inductive TransactionFinalityStatus : Type := Fin_PreConfirmed | Fin_AcceptedOnL2 | Fin_AcceptedOnL1.
Inductive TransactionStatus : Type :=
| Status_Received | Status_Candidate | Status_PreConfirmed (execution : ExecutionResult)
| Status_AcceptedOnL2 (execution : ExecutionResult) | Status_AcceptedOnL1 (execution : ExecutionResult).
Record TransactionReceipt : Type := {
  receipt_finality_status : TransactionFinalityStatus; receipt_execution_result : ExecutionResult }.

(** A block with its transaction hashes, by its header. *)
Inductive MaybePreConfirmedBlock : Type :=
| FullBlock (block_hash : Felt) (block_number : Z) | PreConfirmedBlock (block_number : Z).

(** A V3 account deployment under construction, and its submission's errors. *)
Record AccountDeployment : Type := mk_AccountDeployment {
  dep_class_hash : Felt; dep_chain_id : Felt; dep_secret : Felt; dep_salt : Felt;
  dep_tip : option Z; dep_bounds : option ProposedResourceBounds }.

Inductive AccountFactoryError : Type :=
| AF_Provider (error : ProviderError) | AF_Signing (text : string) | AF_FeeOutOfRange.

Record FeeEstimate : Type := {
  est_l1_gas : Z * Z; est_l2_gas : Z * Z; est_l1_data_gas : Z * Z }.
End provider.

(** The calls the backend makes. *)
Class Provider `{StarkTypes} (W : Type) : Type := {
  rpc_get_transaction_receipt : Felt -> W -> (TransactionReceipt + ProviderError) * W;
  rpc_get_transaction_status : Felt -> W -> (TransactionStatus + ProviderError) * W;
  rpc_get_class_hash_at : BlockId -> Felt -> W -> (Felt + ProviderError) * W;
  rpc_get_nonce : BlockId -> Felt -> W -> (Felt + ProviderError) * W;
  rpc_call : FunctionCall -> BlockId -> W -> (list Felt + ProviderError) * W;
  rpc_block_hash_and_number : W -> ((Felt * Z) + ProviderError) * W;
  rpc_get_block_with_tx_hashes : BlockId -> W -> (MaybePreConfirmedBlock + ProviderError) * W;
  factory_new : Felt -> Felt -> Felt -> W -> (unit + string) * W;
  deploy_estimate_fee : AccountDeployment -> W -> (FeeEstimate + AccountFactoryError) * W;
  deploy_send : AccountDeployment -> W -> (Felt + AccountFactoryError) * W;
  (* [get_selector_from_name] of the two literals *)
  selector_balance_of : Felt;
  selector_balance_of_camel : Felt }.

(** ** Redaction *)

(** The same failure against another endpoint. *)
Definition with_url (url : string) (error : ProviderError) : ProviderError :=
  match error with
  | PE_Other (Some (JC_TransportError (TE_Reqwest http))) =>
      PE_Other (Some (JC_TransportError (TE_Reqwest
        {| http_is_timeout := http_is_timeout http; http_is_connect := http_is_connect http;
           http_status := http_status http; http_is_decode := http_is_decode http; http_url := url |})))
  | _ => error
  end.

(** The message of a transport failure is one of seven templates and does not
    depend on the endpoint. *)
Theorem provider_error_redacted `{ErrorText} url error :
  provider_error_message (with_url url error) = provider_error_message error
  /\ forall inner, error = PE_Other inner ->
     exists kind, kind ∈ ["timeout"; "connect"; "status {}"; "decode"; "json-rpc code {}";
                          "response exceeds {limit} bytes"; "other"]
       /\ provider_error_message error = "provider transport error: " +:+ kind.
Proof.
  split.
  - by destruct error as [| | |[[|[]|]|]].
  - intros inner ->. exists (transport_error_kind inner). split; [|done].
    destruct inner as [[|[http| | | | |]|]|]; cbn [transport_error_kind]; try solve [repeat first [by left | right]].
    destruct (http_is_timeout http), (http_is_connect http), (http_status http), (http_is_decode http);
      repeat first [by left | right].
Qed.

Lemma core_rs_felt `{StarkLaws} (f : Felt) : core_felt_to_rs f = f /\ rs_felt_to_core f = f.
Proof.
  assert (from_bytes_be (to_bytes_be f) = f) as Heq; [|by split].
  apply felt_val_inj. rewrite from_bytes_be_val by (apply to_bytes_be_length || apply to_bytes_be_ok).
  apply Z.mod_small. apply felt_val_range.
Qed.
