(* ===== verification/GatewayErrors.v ===== *)
(** * Typed gateway errors

    crates/gateway/src/errors.rs: the mapping of KMS and domain errors to
    gateway errors, with the classification of transaction failures by their
    text.  Lower-casing is modelled on the ASCII letters, which are the only
    characters of the searched words. *)

From stdpp Require Import base option list numbers strings.
From Stdlib Require Import ZArith Lia.
From S2P Require Import Prelude StarkLib Types Text Domain Primitives.

#[local] Open Scope string_scope.
#[local] Open Scope list_scope.

(** ** Searching text *)

(** [str::contains]. *)
Fixpoint str_contains (needle l : list Z) : bool :=
  starts_with needle l || match l with [] => false | _ :: l => str_contains needle l end.

Lemma str_contains_spec needle l :
  str_contains needle l = true <-> exists before after, l = before ++ needle ++ after.
Proof.
  assert (forall l, starts_with needle l = true <-> exists after, l = needle ++ after) as Hstart.
  { intros l'. unfold starts_with. rewrite bool_decide_eq_true. split.
    - intros Ht. exists (drop (length needle) l'). rewrite <- Ht at 1. symmetry. apply take_drop.
    - intros [after ->]. by rewrite take_app_length. }
  induction l as [|c l IH]; cbn [str_contains]; rewrite orb_true_iff, Hstart.
  - split.
    + intros [[after Ha]|[=]]. by exists [], after.
    + intros (before & after & Hl). left. exists []. symmetry in Hl.
      apply app_eq_nil in Hl as [_ Hl]. by apply app_eq_nil in Hl as [-> ->].
  - rewrite IH. split.
    + intros [[after Ha]|(before & after & ->)]; [by exists [], after|by exists (c :: before), after].
    + intros ([|c' before] & after & Hl); [left; by exists after|].
      right. injection Hl as -> ->. by exists before, after.
Qed.

(** [message.to_lowercase().contains(word)]. *)
Definition mentions (message word : string) : bool :=
  str_contains (string_bytes word) (map to_lower (string_bytes message)).

(** ** Classification *)
Definition classify_transaction_error (message : string) : GatewayError :=
  let code :=
    if mentions message "nonce" then Code_NonceMismatch
    else if mentions message "constructor" || mentions message "calldata" then Code_ConstructorCalldataMismatch
    else if mentions message "class hash" then Code_InvalidClassHash
    else Code_RpcDegraded in
  let retryable := match code with Code_NonceMismatch | Code_RpcDegraded => true | _ => false end in
  gateway_error_new code retryable (Some message).

Definition classify_reverted_transaction_error (message : string) : GatewayError :=
  let code :=
    if mentions message "constructor" || mentions message "calldata" then Code_ConstructorCalldataMismatch
    else if mentions message "class hash" then Code_InvalidClassHash
    else Code_InvalidRequest in
  gateway_error_new code false (Some message).

Definition map_kms_error (error : KmsError) : GatewayError :=
  match error with
  | AccountNotDeployed message => gateway_error_new Code_Undeployed false (Some message)
  | ContractNotFound message => gateway_error_new Code_NotFound false (Some message)
  | InsufficientBalance =>
      gateway_error_new Code_InsufficientBalance false (Some "insufficient balance for requested amount")
  | InsufficientFeeBalance message => gateway_error_new Code_InsufficientFee false (Some message)
  | InvalidClassHash message => gateway_error_new Code_InvalidClassHash false (Some message)
  | InvalidDerivationPath message => gateway_error_new Code_InvalidDerivationPath false (Some message)
  | Timeout message => gateway_error_new Code_Timeout true (Some message)
  | InvalidMnemonic message | InvalidPrivateKey message =>
      gateway_error_new Code_SecretUnavailable false (Some message)
  | RpcError message | FeeEstimationFailed message =>
      gateway_error_new Code_ProviderTransport true (Some message)
  | TransactionError message => classify_transaction_error message
  | TransactionReverted message => classify_reverted_transaction_error message
  | AlreadyDeployed message => gateway_error_new Code_InvalidRequest false (Some message)
  | InvalidPublicKey message | CryptoError message | SerializationError message
  | DeserializationError message | InvalidAmount message | StarknetCryptoError message
  | InvalidProof message | StakingError message | MultisigError message | ControllerError message =>
      gateway_error_new Code_InvalidRequest false (Some message)
  | HexError message => gateway_error_new Code_InvalidRequest false (Some message)
  | JsonError message => gateway_error_new Code_InvalidRequest false (Some message)
  | PointAtInfinity =>
      gateway_error_new Code_InvalidRequest false (Some "derived public key is point at infinity")
  end.

Definition map_domain_error (error : DomainError) : GatewayError :=
  match error with
  | Domain_InvalidDerivationPath message => gateway_error_new Code_InvalidDerivationPath false (Some message)
  | Domain_InvalidCachePolicy message => gateway_error_new Code_InvalidCachePolicy false (Some message)
  | Domain_InvalidWaitPolicy message => gateway_error_new Code_InvalidWaitPolicy false (Some message)
  | InvalidFeltHex message => gateway_error_new Code_InvalidRequest false (Some message)
  | InvalidHexBytes message | InvalidSignRequest message | InvalidSecretRef message =>
      gateway_error_new Code_InvalidRequest false (Some message)
  | EmptyField _ => gateway_error_new Code_InvalidRequest false (Some "field {} must not be empty")
  end.

(** ** What a caller may conclude from an error *)

(** The codes a caller may retry on. *)
Definition transient (code : GatewayErrorCode) : Prop :=
  code = Code_Timeout \/ code = Code_ProviderTransport \/ code = Code_NonceMismatch \/ code = Code_RpcDegraded.

(** A mapped KMS error is retryable exactly when its code is transient; a
    transient code comes only from a timeout, an RPC or fee-estimation failure
    or an unsubmitted transaction, so a revert is never retried; and the
    balance error carries no amount. *)
Theorem map_kms_error_retryable error :
  (err_retryable (map_kms_error error) = true <-> transient (err_code (map_kms_error error)))
  /\ (err_retryable (map_kms_error error) = true ->
      exists message, error = Timeout message \/ error = RpcError message
        \/ error = FeeEstimationFailed message \/ error = TransactionError message)
  /\ err_code (map_kms_error error) <> Code_Internal.
Proof.
  unfold transient. destruct error; cbn [map_kms_error gateway_error_new err_code err_retryable];
    try (split_and!; [split; [done|intuition discriminate]|done|done]);
    try (split_and!; [split; [by auto|done]|by eauto 10|done]).
  - unfold classify_transaction_error. cbn [err_code err_retryable gateway_error_new].
    destruct (mentions msg "nonce"), (mentions msg "constructor" || mentions msg "calldata"), (mentions msg "class hash");
      (split_and!; [split; [by auto|intuition discriminate]|by eauto 10|done]).
  - unfold classify_reverted_transaction_error. cbn [err_code err_retryable gateway_error_new].
    destruct (mentions msg "constructor" || mentions msg "calldata"), (mentions msg "class hash");
      (split_and!; [split; [done|intuition discriminate]|done|done]).
Qed.

(** A failed submission is a nonce mismatch exactly when its text has the word
    in some mix of cases. *)
Theorem nonce_mismatch_iff message :
  err_code (map_kms_error (TransactionError message)) = Code_NonceMismatch <->
  exists before after,
    map to_lower (string_bytes message) = before ++ string_bytes "nonce" ++ after.
Proof.
  rewrite <- str_contains_spec. change (str_contains _ _) with (mentions message "nonce").
  cbn [map_kms_error classify_transaction_error gateway_error_new err_code].
  destruct (mentions message "nonce"); [done|].
  destruct (mentions message "constructor" || mentions message "calldata"), (mentions message "class hash"); done.
Qed.

Example nonce_examples :
  err_code (map_kms_error (TransactionError "Invalid Transaction NONCE: class hash")) = Code_NonceMismatch
  /\ err_code (map_kms_error (TransactionReverted "nonce too low")) = Code_InvalidRequest
  /\ err_code (map_kms_error (TransactionError "connection reset")) = Code_RpcDegraded.
Proof. split_and!; vm_compute; reflexivity. Qed.

#[export] Instance DomainError_eq_dec : EqDecision DomainError.
Proof. solve_decision. Defined.

Lemma map_domain_error_final error : err_retryable (map_domain_error error) = false.
Proof. by destruct error. Qed.
