(* ===== verification/GatewayClasses.v ===== *)
(** * Account class resolution

    crates/gateway/src/account_class.rs: the account class a request names is
    resolved against an allowlist of known class hashes, with an opt-in that
    waives it where a class's constructor is known without its hash. *)

From stdpp Require Import base option list numbers strings.
From Stdlib Require Import ZArith Lia.
From S2P Require Import Prelude StarkLib StarkModel Types Scalar Serialization TxHash Text Domain Primitives.
From S2P Require Import AccountClass Requests GatewayErrors.

#[local] Open Scope string_scope.
#[local] Open Scope list_scope.

Abbreviation GResult := (outcome GatewayError).

Section resolve.
Context `{FeltExtras, !FeltFromHex}.

Inductive ResolvedAccountClass : Type :=
| Resolved_OpenZeppelin (account : OpenZeppelinAccount)
| Resolved_Argent (account : ArgentAccount)
| Resolved_Braavos (account : BraavosAccount).

Definition as_account_class (c : ResolvedAccountClass) : AccountClass :=
  match c with
  | Resolved_OpenZeppelin account => oz_account_class account
  | Resolved_Argent account => argent_account_class account
  | Resolved_Braavos account => braavos_account_class account
  end.

(** [ResolvedAccountClass::class_hash], [build_constructor_calldata] and
    [calculate_address]. *)
Definition resolved_class_hash (c : ResolvedAccountClass) : Felt := ac_class_hash (as_account_class c).
Definition resolved_constructor_calldata (c : ResolvedAccountClass) (public_key : Felt) : list Felt :=
  ac_constructor_calldata (as_account_class c) public_key.
Definition resolved_calculate_address (c : ResolvedAccountClass) (public_key : Felt) (salt_policy : SaltPolicy)
    : Result Felt :=
  calculate_address (as_account_class c) public_key salt_policy.

Definition to_salt_policy (spec : SaltPolicySpec) : GResult SaltPolicy :=
  match spec with
  | Spec_PublicKey => Ok SaltPublicKey
  | Spec_Zero => Ok SaltZero
  | Spec_Explicit salt => s ← felt_hex_to_felt salt; Ok (SaltExplicit s)
  end.

(** The body of the loop over the peer networks. *)
Definition push_peer_class (chain_id : ChainId) (hashes : list Felt) (peer : ChainId) : list Felt :=
  if decide (peer = chain_id) then hashes
  else match oz_account_latest peer with
       | Ok account =>
           let hash := ac_class_hash (oz_account_class account) in
           if decide (hash ∈ hashes) then hashes else hashes ++ [hash]
       | _ => hashes
       end.

Definition known_class_hashes (kind : AccountClassKind) (chain_id : ChainId) : list Felt :=
  match kind with
  | Kind_OpenZeppelin =>
      let hashes := match oz_account_latest chain_id with
                    | Ok latest => [ac_class_hash (oz_account_class latest)]
                    | _ => []
                    end in
      fold_left (push_peer_class chain_id) [Sepolia; Mainnet] hashes
  | Kind_Argent => argent_known_class_hashes
  | Kind_Braavos => deployment_class_hashes
  end.

Definition enforce_class_hash_allowlist (class_hash : Felt) (kind : AccountClassKind) (chain_id : ChainId)
    (allow_unlisted : bool) : GResult unit :=
  if bool_decide (kind = Kind_Braavos) && is_implementation_class_hash class_hash then
    Err (gateway_error_new Code_InvalidClassHash false
      (Some "class_hash {class_hash:#x} is a Braavos account implementation class; addresses are fixed by a base (deployment) class, use one of those"))
  else if allow_unlisted then Ok tt
  else if decide (class_hash ∈ known_class_hashes kind chain_id) then Ok tt
  else
    let override_hint := match kind with
                         | Kind_Argent => ""
                         | _ => "; set allow_unlisted_class_hash=true to override"
                         end in
    Err (gateway_error_new Code_InvalidClassHash false
      (Some ("class_hash {class_hash:#x} is not on the known {kind:?} allowlist" +:+ override_hint))).

Definition resolve_braavos_class (class_hash : Felt) (chain_id : ChainId) (allow_unlisted : bool)
    : GResult BraavosAccount :=
  _ ← enforce_class_hash_allowlist class_hash Kind_Braavos chain_id allow_unlisted;
  match braavos_try_with_class_hash class_hash with
  | Ok account => Ok account
  | Err err =>
      if allow_unlisted && negb (is_implementation_class_hash class_hash)
      then Ok (braavos_with_class_hash class_hash)
      else Err (map_kms_error err)
  | Panic => Panic
  end.

Definition resolve_account_class (spec : AccountClassSpec) (chain_id : ChainId) : GResult ResolvedAccountClass :=
  match spec_kind spec with
  | Kind_OpenZeppelin =>
      account ← match spec_class_hash spec, spec_source_label spec with
        | Some class_hash, _ =>
            class_hash ← felt_hex_to_felt class_hash;
            _ ← enforce_class_hash_allowlist class_hash Kind_OpenZeppelin chain_id
                  (spec_allow_unlisted_class_hash spec);
            Ok (oz_from_class_hash class_hash)
        | None, Some version => map_err map_kms_error (oz_account_from_manifest chain_id version)
        | None, None => map_err map_kms_error (oz_account_latest chain_id)
        end;
      Ok (Resolved_OpenZeppelin account)
  | Kind_Argent =>
      _ ← reject_if (bool_decide (is_Some (spec_source_label spec)))
            (gateway_error_new Code_UnsupportedAccountClass false
               (Some "Argent account resolution does not support source_label"));
      account ← match spec_class_hash spec with
        | Some class_hash =>
            class_hash ← felt_hex_to_felt class_hash;
            _ ← enforce_class_hash_allowlist class_hash Kind_Argent chain_id
                  (spec_allow_unlisted_class_hash spec);
            map_err map_kms_error (argent_try_with_class_hash class_hash)
        | None => Ok argent_new
        end;
      Ok (Resolved_Argent account)
  | Kind_Braavos =>
      _ ← reject_if (bool_decide (is_Some (spec_source_label spec)))
            (gateway_error_new Code_UnsupportedAccountClass false
               (Some "Braavos account resolution does not support source_label"));
      account ← match spec_class_hash spec with
        | Some class_hash =>
            class_hash ← felt_hex_to_felt class_hash;
            resolve_braavos_class class_hash chain_id (spec_allow_unlisted_class_hash spec)
        | None => Ok braavos_new
        end;
      Ok (Resolved_Braavos account)
  end.

(** ** What the allowlist promises *)
Definition kind_family (kind : AccountClassKind) : AccountFamily :=
  match kind with
  | Kind_OpenZeppelin => FamilyOpenZeppelin
  | Kind_Argent => FamilyArgent
  | Kind_Braavos => FamilyBraavos
  end.

(** The registry lists [class_hash] as a class that accounts of this kind are
    deployed with. *)
Definition registered (kind : AccountClassKind) (class_hash : Felt) : Prop :=
  exists c, c ∈ deployment_classes (kind_family kind) /\ kc_class_hash c = class_hash.

(** An explicit class hash a request may name. *)
Definition class_admitted (kind : AccountClassKind) (allow_unlisted : bool) (class_hash : Felt) : Prop :=
  match kind with
  | Kind_OpenZeppelin => allow_unlisted = true \/ class_hash = felt_of_Z oz_class_value
  | Kind_Argent => class_hash ∈ argent_known_class_hashes
  | Kind_Braavos =>
      class_hash ∈ deployment_class_hashes
      \/ (allow_unlisted = true /\ class_hash ∉ implementation_class_hashes)
  end.

(** A refusal a caller cannot retry away. *)
Definition refused {A} (r : GResult A) : Prop :=
  exists e, r = Err e /\ err_retryable e = false
    /\ (err_code e = Code_InvalidClassHash \/ err_code e = Code_UnsupportedAccountClass).
End resolve.

Section resolve_lemmas.
Context `{FeltExtrasLaws, !StarkLaws, !FeltFromHex}.

Lemma oz_account_latest_hash chain_id :
  exists a, oz_account_latest chain_id = Ok a
    /\ ac_class_hash (oz_account_class a) = felt_of_Z oz_class_value.
Proof.
  unfold oz_account_latest, oz_latest, oz_from_manifest, oz_account_manifest.
  cbn [mbind outcome_bind OZ_ACCOUNT_CLASS_MANIFEST oz_versions oz_latest_version map_get].
  rewrite decide_True by done. cbn [mbind outcome_bind ok_or oz_networks].
  assert (map_get (chain_name chain_id) [("SN_MAIN", {| declared_class_hash := oz_class_text |});
      ("SN_SEPOLIA", {| declared_class_hash := oz_class_text |})]
    = Some {| declared_class_hash := oz_class_text |}) as -> by by destruct chain_id.
  cbn [ok_or mbind outcome_bind declared_class_hash]. rewrite parse_oz_class. eauto.
Qed.

(** Both networks declare the same class. *)
Lemma known_oz_classes chain_id :
  known_class_hashes Kind_OpenZeppelin chain_id = [felt_of_Z oz_class_value].
Proof.
  assert (forall peer, push_peer_class chain_id [felt_of_Z oz_class_value] peer = [felt_of_Z oz_class_value])
    as Hpush.
  { intros peer. unfold push_peer_class. destruct (decide _); [done|].
    destruct (oz_account_latest_hash peer) as (a & -> & ->). by rewrite decide_True by by left. }
  unfold known_class_hashes. destruct (oz_account_latest_hash chain_id) as (a & -> & ->).
  cbn [fold_left]. by rewrite !Hpush.
Qed.

Lemma argent_try_spec h :
  (h ∈ argent_known_class_hashes ->
   exists a, argent_try_with_class_hash h = Ok a /\ argent_class_hash a = h)
  /\ (h ∉ argent_known_class_hashes -> exists m, argent_try_with_class_hash h = Err (InvalidClassHash m)).
Proof.
  unfold argent_try_with_class_hash, layout_for_class_hash, argent_known_class_hashes.
  destruct (List.find _ argent_known_classes) as [[[h' v] l]|] eqn:Hf; cbn [option_map ok_or mbind outcome_bind].
  - apply List.find_some in Hf as [Hin ->%bool_decide_eq_true_1]. split; [by eauto|]. intros []. apply list_elem_of_In.
    change h with ((fun '(h, _, _) => h : Felt) (h, v, l)). by apply List.in_map.
  - split; [|by eauto]. intros ([[h' v] l] & -> & Hin)%list_elem_of_fmap.
    apply (List.find_none _ _) with (x := (h', v, l)) in Hf; [|by apply list_elem_of_In].
    by apply bool_decide_eq_false_1 in Hf.
Qed.

Lemma deployment_not_implementation h :
  h ∈ deployment_class_hashes -> is_implementation_class_hash h = false.
Proof.
  intros Hd. apply bool_decide_eq_false. intros Hi.
  assert (forall role, h ∈ class_hashes_with_role role ->
    exists c, c ∈ braavos_known_classes /\ role ∈ kc_roles c /\ kc_class_hash c = h) as Hrole.
  { intros role (c & -> & Hc)%list_elem_of_fmap. exists c.
    apply list_elem_of_In, List.filter_In in Hc as [Hc Hr%bool_decide_eq_true_1].
    split_and!; [by apply list_elem_of_In|done|done]. }
  destruct (Hrole _ Hd) as (c1 & Hc1 & Hr1 & Hh1), (Hrole _ Hi) as (c2 & Hc2 & Hr2 & Hh2).
  assert (c1 = c2) as <-.
  { apply registry_unique; [| |congruence]; unfold known_account_classes; rewrite !elem_of_app; auto. }
  assert (Forall (fun c => ~ (Deployment ∈ kc_roles c /\ Implementation ∈ kc_roles c)) braavos_known_classes) as Hall.
  { repeat (apply Forall_cons; split; [apply (bool_decide_unpack _); vm_compute; exact I|]). constructor. }
  rewrite Forall_forall in Hall. by apply (Hall c1).
Qed.

Lemma enforce_spec h kind chain_id allow :
  match enforce_class_hash_allowlist h kind chain_id allow with
  | Ok _ => (kind = Kind_Braavos -> h ∉ implementation_class_hashes)
      /\ (allow = true \/ h ∈ known_class_hashes kind chain_id)
  | Err e => err_code e = Code_InvalidClassHash /\ err_retryable e = false
      /\ ((kind = Kind_Braavos /\ h ∈ implementation_class_hashes)
          \/ (allow = false /\ h ∉ known_class_hashes kind chain_id))
  | Panic => False
  end.
Proof.
  unfold enforce_class_hash_allowlist, is_implementation_class_hash.
  destruct (decide (kind = Kind_Braavos)) as [Hk|Hk], (decide (h ∈ implementation_class_hashes)) as [Hi|Hi].
  1: rewrite !bool_decide_eq_true_2 by done; cbn [andb]; by auto.
  1: rewrite (bool_decide_eq_false_2 (h ∈ _)) by done; rewrite andb_false_r.
  2: rewrite bool_decide_eq_false_2 by done; cbn [andb].
  3: rewrite bool_decide_eq_false_2 by done; cbn [andb].
  all: destruct allow; [by auto|]; destruct (decide (h ∈ known_class_hashes kind chain_id)); by auto 10.
Qed.

(** The resolution of an explicit class hash, in both directions. *)
Lemma resolve_explicit spec chain_id h :
  spec_class_hash spec = Some (felt_hex_from_felt h) ->
  (spec_kind spec = Kind_OpenZeppelin \/ spec_source_label spec = None) ->
  (class_admitted (spec_kind spec) (spec_allow_unlisted_class_hash spec) h ->
   exists c, resolve_account_class spec chain_id = Ok c /\ resolved_class_hash c = h)
  /\ (~ class_admitted (spec_kind spec) (spec_allow_unlisted_class_hash spec) h ->
      refused (resolve_account_class spec chain_id)).
Proof.
  intros Hh Hlabel. unfold resolve_account_class, refused.
  pose proof (enforce_spec h (spec_kind spec) chain_id (spec_allow_unlisted_class_hash spec)) as He.
  destruct (spec_kind spec); cbn [class_admitted]; rewrite Hh.
  - rewrite to_from_felt. cbn [mbind outcome_bind]. rewrite known_oz_classes in He.
    destruct (enforce_class_hash_allowlist _ _ _ _) as [u|e|]; cbn [mbind outcome_bind]; [| |done].
    + destruct He as [_ He]. rewrite list_elem_of_singleton in He. split; [by eauto|by intros []].
    + destruct He as (Hc & Hr & [[? _]|[Ha Hn]]); [done|]. rewrite list_elem_of_singleton in Hn.
      split; [|by eauto 10]. intros [?|?]; [congruence|done].
  - destruct Hlabel as [?|Hlabel]; [done|]. rewrite Hlabel, bool_decide_eq_false_2 by (by intros [? [=]]).
    cbn [reject_if mbind outcome_bind]. rewrite to_from_felt. cbn [mbind outcome_bind].
    destruct (argent_try_spec h) as [Hin Hout]. cbn [known_class_hashes] in He.
    destruct (enforce_class_hash_allowlist _ _ _ _) as [u|e|]; cbn [mbind outcome_bind]; [| |done].
    + split.
      * intros (a & -> & Ha)%Hin. cbn [map_err mbind outcome_bind]. eauto.
      * intros [m ->]%Hout. cbn. eauto 10.
    + destruct He as (Hc & Hr & [[? _]|[Ha Hn]]); [done|]. split; [done|]. eauto 10.
  - destruct Hlabel as [?|Hlabel]; [done|]. rewrite Hlabel, bool_decide_eq_false_2 by (by intros [? [=]]).
    cbn [reject_if mbind outcome_bind]. rewrite to_from_felt. cbn [mbind outcome_bind].
    unfold resolve_braavos_class. cbn [known_class_hashes] in He.
    destruct (enforce_class_hash_allowlist _ _ _ _) as [u|e|]; cbn [mbind outcome_bind]; [| |done].
    + destruct He as [Hi He]. specialize (Hi eq_refl). unfold braavos_try_with_class_hash.
      destruct (decide (h ∈ deployment_class_hashes)) as [Hd|Hd].
      * rewrite bool_decide_eq_true_2 by done. cbn [mbind outcome_bind]. split; [by eauto|]. intros []. by left.
      * rewrite bool_decide_eq_false_2 by done. unfold is_implementation_class_hash.
        rewrite (bool_decide_eq_false_2 (h ∈ implementation_class_hashes)) by done.
        destruct He as [->|He]; [|done]. cbn [andb negb mbind outcome_bind]. split; [by eauto|]. intros []. by right.
    + split; [|by destruct He as (? & ? & _); eauto 10].
      destruct He as (_ & _ & [[_ Hi]|[Ha Hn]]).
      * intros [Hd|[_ ?]]; [|done]. pose proof (deployment_not_implementation h Hd) as Hni.
        by apply bool_decide_eq_false_1 in Hni.
      * intros [?|[? _]]; [done|congruence].
Qed.

Lemma registered_intro kind c :
  c ∈ known_account_classes -> kc_family c = kind_family kind -> is_deployment_class c = true ->
  registered kind (kc_class_hash c).
Proof.
  intros Hin Hf Hd. exists c. split; [|done]. apply list_elem_of_In, List.filter_In.
  split; [by apply list_elem_of_In|]. by rewrite Hf, Hd, bool_decide_eq_true_2.
Qed.

(** Without the opt-in only registered deployment classes are admitted. *)
Lemma class_admitted_registered kind h : class_admitted kind false h -> registered kind h.
Proof.
  destruct kind; cbn [class_admitted].
  - intros [?|Hh]; [done|]. rewrite Hh.
    apply (registered_intro Kind_OpenZeppelin (oz_class ("3.0.0",
      "https://docs.openzeppelin.com/contracts-cairo/3.x/api/account#AccountUpgradeable", felt_of_Z oz_class_value)));
      [|done|done]. unfold known_account_classes. rewrite oz_classes_eq. by left.
  - intros ([[h' v] l] & -> & Hin)%list_elem_of_fmap.
    apply (registered_intro Kind_Argent {| kc_family := FamilyArgent; kc_class_hash := h';
      kc_version := trim_start_v v; kc_label := String.append "Argent Account " v;
      kc_roles := DEPLOYMENT_AND_IMPLEMENTATION; kc_constructor := Some (shape_of_layout l);
      kc_source := ARGENT_DEPLOYMENTS_SOURCE |}); [|done|done].
    unfold known_account_classes. rewrite !elem_of_app. right; left. unfold argent_cairo1_classes.
    apply list_elem_of_fmap. by exists (h', v, l).
  - intros [Hd|[? _]]; [|done]. apply list_elem_of_fmap in Hd as (c & -> & Hc).
    apply list_elem_of_In, List.filter_In in Hc as [Hc Hr].
    apply registered_intro; [|cbn|done].
    + unfold known_account_classes. rewrite !elem_of_app, !list_elem_of_In. auto.
    + assert (Forall (fun c => kc_family c = FamilyBraavos) braavos_known_classes) as Hall by by repeat constructor.
      rewrite Forall_forall in Hall. apply Hall. by apply list_elem_of_In.
Qed.

(** Resolution never panics on validated text. *)
Lemma resolve_total spec chain_id :
  option_felt_hex_ok (spec_class_hash spec) -> resolve_account_class spec chain_id <> Panic.
Proof.
  intros Hok. destruct (spec_class_hash spec) as [hx|] eqn:Hh.
  - destruct Hok as [h ->].
    destruct (decide (spec_kind spec = Kind_OpenZeppelin \/ spec_source_label spec = None)) as [Hl|Hl].
    + destruct (resolve_explicit spec chain_id h Hh Hl) as [Hin Hout].
      destruct (resolve_account_class spec chain_id) as [c|e|] eqn:Hr; [done|done|]. exfalso.
      assert (~ class_admitted (spec_kind spec) (spec_allow_unlisted_class_hash spec) h) as Hna
        by (intros Ha; by destruct (Hin Ha) as (c & ? & _)).
      by destruct (Hout Hna) as (e & ? & _).
    + unfold resolve_account_class. destruct (spec_kind spec), (spec_source_label spec); tauto || done.
  - unfold resolve_account_class. rewrite Hh.
    destruct (oz_account_latest_hash chain_id) as (a & Ha & _).
    destruct (spec_kind spec); [| |]; cbn [mbind outcome_bind].
    + destruct (spec_source_label spec) as [version|]; [|by rewrite Ha].
      unfold oz_account_from_manifest, oz_from_manifest, oz_account_manifest. cbn [mbind outcome_bind].
      destruct (map_get version _) as [entry|]; [|done]. cbn [ok_or mbind outcome_bind].
      destruct (map_get _ (oz_networks entry)) as [net|]; [|done]. cbn [ok_or mbind outcome_bind].
      unfold parse_class_hash. by destruct (felt_from_hex _).
    + by destruct (bool_decide _).
    + by destruct (bool_decide _).
Qed.
End resolve_lemmas.

#[local] Instance class_admitted_dec `{FeltExtras, !FeltFromHex} kind allow h : Decision (class_admitted kind allow h).
Proof. destruct kind; cbn [class_admitted]; apply _. Defined.

(** ** Properties *)

(** An explicit class hash is resolved exactly when it is admitted, to a class with that
    hash: a known Argent class whatever the opt-in, a Braavos base class or with the opt-in one
    that is no known implementation class, the OpenZeppelin manifest class or with the opt-in
    any; without the opt-in it is a registered deployment class of its family; every other hash
    is refused for good. *)
Theorem resolve_account_class_correct `{FeltExtrasLaws, !StarkLaws, !FeltFromHex} spec chain_id h :
  spec_class_hash spec = Some (felt_hex_from_felt h) ->
  (spec_kind spec = Kind_OpenZeppelin \/ spec_source_label spec = None) ->
  let allow := spec_allow_unlisted_class_hash spec in
  ((exists c, resolve_account_class spec chain_id = Ok c) <-> class_admitted (spec_kind spec) allow h)
  /\ (forall c, resolve_account_class spec chain_id = Ok c -> resolved_class_hash c = h)
  /\ (~ class_admitted (spec_kind spec) allow h -> refused (resolve_account_class spec chain_id))
  /\ (allow = false -> class_admitted (spec_kind spec) allow h -> registered (spec_kind spec) h).
Proof.
  intros Hh Hl allow. destruct (resolve_explicit spec chain_id h Hh Hl) as [Hin Hout].
  destruct (decide (class_admitted (spec_kind spec) allow h)) as [Ha|Ha].
  - destruct (Hin Ha) as (c & Hr & Hc). split_and!; [|rewrite Hr; intros ? [= <-]; done|done|].
    + split; [done|]. by exists c.
    + intros Hf. rewrite Hf in *. by apply class_admitted_registered.
  - destruct (Hout Ha) as (e & Hr & He). split_and!; [|by rewrite Hr|by intros _; exists e|done].
    split; [|done]. intros [c Hc]. congruence.
Qed.

(** ** Witnesses *)
#[local] Existing Instance model_extras.
#[local] Existing Instance model_extras_laws.
#[local] Existing Instance model_felt_from_hex.

(** An Argent class off the list is refused with the opt-in set, a Braavos base
    class is taken without it. *)
Lemma resolve_account_class_correct_witness :
  refused (resolve_account_class (mk_AccountClassSpec Kind_Argent
    (Some (@felt_hex_from_felt model_types (felt_of_Z 5))) None true) Mainnet)
  /\ registered Kind_Braavos BASE_CLASS_HASH_V100.
Proof.
  split.
  - apply (resolve_account_class_correct (mk_AccountClassSpec Kind_Argent
      (Some (@felt_hex_from_felt model_types (felt_of_Z 5))) None true) Mainnet (felt_of_Z 5)).
    + reflexivity.
    + right. reflexivity.
    + apply (bool_decide_unpack _). vm_compute. exact I.
  - apply (resolve_account_class_correct (mk_AccountClassSpec Kind_Braavos
      (Some (@felt_hex_from_felt model_types BASE_CLASS_HASH_V100)) None false) Mainnet BASE_CLASS_HASH_V100).
    + reflexivity.
    + right. reflexivity.
    + reflexivity.
    + left. apply (bool_decide_unpack _). vm_compute. exact I.
Defined.
