(* ===== verification/Clock.v ===== *)
(** * The gateway clock

    crates/gateway/src/clock.rs.  [Instant]s are nanoseconds on the monotonic
    timeline, [SystemTime]s nanoseconds from the Unix epoch (negative before
    it), [Duration]s non-negative nanoseconds; readings are [u64] milliseconds.
    The anchor behind the mutex is the state every reading threads.

    [Clock] is the interface the cache and the operation store rely on;
    [clock_monotone] shows that [SystemClock] meets it. *)

From stdpp Require Import base option list numbers sorting.
From Stdlib Require Import ZArith Lia.
From S2P Require Import Prelude.

#[local] Open Scope Z_scope.

Record Anchor : Type := { epoch_ms : Z; started : Z }.

(** [now.saturating_duration_since(started)]. *)
Definition saturating_duration_since (now started : Z) : Z := Z.max (now - started) 0.

Definition as_millis (duration : Z) : Z := duration / 1000000.

Definition saturating_duration_ms (duration : Z) : Z :=
  let millis := as_millis duration in
  if u64_MAX <? millis then u64_MAX else millis.

Definition saturating_unix_time_ms (now : Z) : Z :=
  if 0 <=? now then saturating_duration_ms now else 0.

(** One clock step: the reading and the anchor it leaves. *)
Definition advance (anchor : option Anchor) (wall_ms now : Z) : Z * option Anchor :=
  let anchored :=
    (fun a => u64_saturating_add (epoch_ms a)
                (saturating_duration_ms (saturating_duration_since now (started a)))) <$> anchor in
  let reanchor := (wall_ms, Some {| epoch_ms := wall_ms; started := now |}) in
  match anchored with
  | Some t => if wall_ms <=? t then (t, anchor) else reanchor
  | None => reanchor
  end.

(** [SystemClock::now_ms]: both clocks are sampled under the anchor's lock, so
    the readings are ordered like the lock acquisitions. *)
Definition now_ms (anchor : option Anchor) (sample : Z * Z) : Z * option Anchor :=
  advance anchor (saturating_unix_time_ms (fst sample)) (snd sample).

(** The readings of a sequence of calls, from an anchor. *)
Fixpoint readings (anchor : option Anchor) (samples : list (Z * Z)) : list Z :=
  match samples with
  | [] => []
  | s :: samples =>
      let '(r, anchor') := now_ms anchor s in r :: readings anchor' samples
  end.

(** ** The timeline of an anchor *)

(** What an anchor reads at an instant. *)
Definition timeline (a : Anchor) (now : Z) : Z :=
  u64_saturating_add (epoch_ms a)
    (saturating_duration_ms (saturating_duration_since now (started a))).

Definition anchor_ok (a : Anchor) : Prop := 0 <= epoch_ms a <= u64_MAX.

Lemma sorted_lookup_le l i j a b :
  StronglySorted Z.le l -> (i <= j)%nat -> l !! i = Some a -> l !! j = Some b -> a <= b.
Proof.
  intros Hs. revert i j. induction Hs as [|x l _ IH Hx]; intros i j Hij Ha Hb; [done|].
  destruct i as [|i], j as [|j]; try lia; cbn in Ha, Hb; simplify_eq; [done| |].
  - rewrite Forall_forall in Hx. apply Hx. by eapply list_elem_of_lookup_2.
  - eapply (IH i j); [lia|done|done].
Qed.

Lemma saturating_duration_ms_min d : saturating_duration_ms d = Z.min (as_millis d) u64_MAX.
Proof. unfold saturating_duration_ms. destruct (Z.ltb_spec u64_MAX (as_millis d)); lia. Qed.

Lemma as_millis_nonneg d : 0 <= d -> 0 <= as_millis d.
Proof. intros. apply Z.div_pos; lia. Qed.

Lemma unix_time_range t : 0 <= saturating_unix_time_ms t <= u64_MAX.
Proof.
  unfold saturating_unix_time_ms. destruct (Z.leb_spec 0 t) as [Ht|]; [|done].
  rewrite saturating_duration_ms_min. pose proof (as_millis_nonneg t Ht). unfold u64_MAX in *. lia.
Qed.

Lemma timeline_eq a now :
  anchor_ok a -> started a <= now ->
  timeline a now = Z.min (epoch_ms a + as_millis (now - started a)) u64_MAX.
Proof.
  intros Ha Hs. unfold timeline, u64_saturating_add, saturating_duration_since.
  rewrite saturating_duration_ms_min, Z.max_l by lia.
  pose proof (as_millis_nonneg (now - started a)). unfold anchor_ok in Ha. lia.
Qed.

Lemma as_millis_split a b : as_millis a + as_millis b <= as_millis (a + b).
Proof.
  unfold as_millis. apply Z.div_le_lower_bound; [lia|].
  pose proof (Z.mul_div_le a 1000000). pose proof (Z.mul_div_le b 1000000). lia.
Qed.

(** An integer past a real [x/10^6] absorbs the fraction of [x]. *)
Lemma as_millis_carry a b : as_millis (a + b) <= as_millis a + 1 + as_millis b.
Proof.
  unfold as_millis. apply Z.lt_succ_r, Z.div_lt_upper_bound; [lia|].
  pose proof (Z.mod_pos_bound a 1000000). pose proof (Z.mod_pos_bound b 1000000).
  pose proof (Z.div_mod a 1000000). pose proof (Z.div_mod b 1000000). lia.
Qed.

(** An anchor's timeline runs at least as fast as the monotonic clock. *)
Lemma timeline_elapsed a t1 t2 :
  anchor_ok a -> started a <= t1 <= t2 ->
  Z.min (timeline a t1 + as_millis (t2 - t1)) u64_MAX <= timeline a t2.
Proof.
  intros Ha Ht. rewrite !timeline_eq by (done || lia).
  pose proof (as_millis_split (t1 - started a) (t2 - t1)) as Hs.
  replace (t1 - started a + (t2 - t1)) with (t2 - started a) in Hs by lia.
  pose proof (as_millis_nonneg (t2 - t1)). lia.
Qed.

(** One step: the reading is the new anchor's, never behind the wall clock, and
    the new timeline never runs behind the old one. *)
Lemma advance_spec anchor wall now :
  0 <= wall <= u64_MAX ->
  (forall a, anchor = Some a -> anchor_ok a /\ started a <= now) ->
  exists a', snd (advance anchor wall now) = Some a' /\ anchor_ok a' /\ started a' <= now
    /\ fst (advance anchor wall now) = timeline a' now
    /\ wall <= timeline a' now
    /\ (forall a t, anchor = Some a -> now <= t -> timeline a t <= timeline a' t).
Proof.
  intros Hw Ha.
  pose (fresh := {| epoch_ms := wall; started := now |}).
  assert (anchor_ok fresh) as Hfresh by done.
  assert (timeline fresh now = wall) as Hnow.
  { rewrite timeline_eq by (done || cbn; lia). subst fresh. cbn [epoch_ms started].
    rewrite Z.sub_diag. change (as_millis 0) with 0. lia. }
  unfold advance. destruct anchor as [a|]; cbn [fmap option_fmap option_map].
  - destruct (Ha a eq_refl) as [Hok Hst]. fold (timeline a now).
    destruct (Z.leb_spec wall (timeline a now)) as [Hle|Hlt]; cbn [fst snd].
    + exists a. repeat split; try done; try apply Hok. by intros ? t [= ->] _.
    + exists fresh. repeat split; try (done || (cbn; lia)).
      intros ? t [= <-] Ht. rewrite !timeline_eq by (done || cbn; lia).
      subst fresh. cbn [epoch_ms started]. rewrite timeline_eq in Hlt by done.
      pose proof (as_millis_carry (now - started a) (t - now)) as Hc.
      replace (now - started a + (t - now)) with (t - started a) in Hc by lia.
      lia.
  - cbn [fst snd]. exists fresh. repeat split; try (done || (cbn; lia)).
Qed.

(** Every later reading is at least what the anchor reads at that instant. *)
Lemma readings_above samples : forall anchor j r s,
  (forall a, anchor = Some a -> anchor_ok a) ->
  StronglySorted Z.le (map snd samples) ->
  (forall a s', anchor = Some a -> s' ∈ samples -> started a <= snd s') ->
  readings anchor samples !! j = Some r -> samples !! j = Some s ->
  saturating_unix_time_ms (fst s) <= r <= u64_MAX
  /\ (forall a, anchor = Some a -> timeline a (snd s) <= r).
Proof.
  induction samples as [|s0 samples IH]; intros anchor j r s Hok Hs Hst Hr Hj; [done|].
  cbn [readings] in Hr. unfold now_ms in Hr.
  inversion Hs as [|? ? Hs' Hall]; subst. rewrite Forall_map, Forall_forall in Hall.
  destruct (advance_spec anchor (saturating_unix_time_ms (fst s0)) (snd s0))
    as (a' & Ha' & Hok' & Hst' & Hread & Hwall & Hmono).
  { apply unix_time_range. }
  { intros a Ha. split; [by apply Hok|]. eapply Hst; [done|]. left. }
  destruct (advance anchor _ _) as [r0 anchor']. cbn [fst snd] in *. subst.
  destruct j as [|j].
  - cbn in Hr, Hj. injection Hr as <-. injection Hj as <-. split; [|by intros; apply Hmono].
    split; [done|]. rewrite timeline_eq by done. lia.
  - cbn [lookup list_lookup] in Hr, Hj.
    assert (s ∈ samples) as Hin by by eapply list_elem_of_lookup_2.
    destruct (IH (Some a') j r s) as [Hb Ha].
    + by intros ? [= <-].
    + done.
    + intros ? s' [= <-] Hs1. specialize (Hall _ Hs1). cbn in Hall. lia.
    + done.
    + done.
    + split; [done|]. intros a ->. transitivity (timeline a' (snd s)); [|by apply Ha].
      apply Hmono; [done|]. by apply Hall.
Qed.

Lemma readings_ordered samples : forall anchor i j ri rj si sj,
  (forall a, anchor = Some a -> anchor_ok a) ->
  StronglySorted Z.le (map snd samples) ->
  (forall a s', anchor = Some a -> s' ∈ samples -> started a <= snd s') ->
  (i <= j)%nat ->
  readings anchor samples !! i = Some ri -> samples !! i = Some si ->
  readings anchor samples !! j = Some rj -> samples !! j = Some sj ->
  Z.min (ri + as_millis (snd sj - snd si)) u64_MAX <= rj.
Proof.
  induction samples as [|s0 samples IH];
    intros anchor i j ri rj si sj Hok Hs Hst Hij Hri Hsi Hrj Hsj; [done|].
  pose proof Hrj as Hrj'. cbn [readings] in Hri, Hrj. unfold now_ms in Hri, Hrj.
  inversion Hs as [|? ? Hs' Hall]; subst. rewrite Forall_map, Forall_forall in Hall.
  destruct (advance_spec anchor (saturating_unix_time_ms (fst s0)) (snd s0))
    as (a' & Ha' & Hok' & Hst' & Hread & Hwall & Hmono).
  { apply unix_time_range. }
  { intros a Ha. split; [by apply Hok|]. eapply Hst; [done|]. left. }
  destruct (advance anchor _ _) as [r0 anchor'] eqn:Hadv. cbn [fst snd] in *. subst.
  assert (forall b s', Some a' = Some b -> s' ∈ samples -> started b <= snd s') as Hst1.
  { intros ? s' [= <-] Hs1. specialize (Hall _ Hs1). cbn in Hall. lia. }
  destruct i as [|i].
  - cbn in Hri, Hsi. injection Hri as <-. injection Hsi as <-.
    destruct j as [|j].
    + cbn in Hrj, Hsj. injection Hrj as <-. injection Hsj as <-.
      rewrite Z.sub_diag. change (as_millis 0) with 0. lia.
    + cbn [lookup list_lookup] in Hrj, Hsj.
      assert (sj ∈ samples) as Hin by by eapply list_elem_of_lookup_2.
      etransitivity; [apply timeline_elapsed; [done|]|].
      { split; [done|]. by apply Hall. }
      eapply (readings_above samples (Some a')); try done. by intros ? [= <-].
  - destruct j as [|j]; [lia|]. cbn [lookup list_lookup] in Hri, Hsi, Hrj, Hsj.
    eapply (IH (Some a') i j); try done; [|lia]. by intros ? [= <-].
Qed.

(** ** The property *)

(** Readings of the system clock never decrease, never fall behind the wall clock, and
    advance at least as fast as the monotonic clock between any two calls, up to saturation at
    u64::MAX, whatever the wall clock does. *)
Theorem clock_monotone (samples : list (Z * Z)) i j ri rj si sj :
  StronglySorted Z.le (map snd samples) ->
  (i <= j)%nat ->
  readings None samples !! i = Some ri -> samples !! i = Some si ->
  readings None samples !! j = Some rj -> samples !! j = Some sj ->
  ri <= rj
  /\ Z.min (ri + as_millis (snd sj - snd si)) u64_MAX <= rj
  /\ saturating_unix_time_ms (fst sj) <= rj <= u64_MAX.
Proof.
  intros Hs Hij Hri Hsi Hrj Hsj.
  pose proof (readings_ordered samples None i j ri rj si sj) as Ho.
  pose proof (readings_above samples None i ri si) as [Hbi _]; try done.
  pose proof (readings_above samples None j rj sj) as [Hbj _]; try done.
  specialize (Ho ltac:(done) Hs ltac:(done) Hij Hri Hsi Hrj Hsj). split; [|done].
  assert (snd si <= snd sj) as Hle.
  { eapply (sorted_lookup_le (map snd samples) i j); try done;
      rewrite list_lookup_fmap; [by rewrite Hsi|by rewrite Hsj]. }
  pose proof (as_millis_nonneg (snd sj - snd si)). lia.
Qed.

Lemma clock_monotone_witness :
  let samples := [(1000 * 1000000, 0); (500 * 1000000, 100 * 1000000);
                  (9000 * 1000000, 200 * 1000000); (1300 * 1000000, 300 * 1000000)] in
  readings None samples = [1000; 1100; 9000; 9100] /\ 1100 <= 9100.
Proof.
  split; [reflexivity|].
  refine (proj1 (clock_monotone
    [(1000 * 1000000, 0); (500 * 1000000, 100 * 1000000);
     (9000 * 1000000, 200 * 1000000); (1300 * 1000000, 300 * 1000000)]
    1 3 1100 9100 (500 * 1000000, 100 * 1000000) (1300 * 1000000, 300 * 1000000) _ _ _ _ _ _));
    try reflexivity; [|lia].
  repeat constructor; cbn; lia.
Defined.

(** ** The interface

    [trait Clock] and its documented contract: a reading never falls below the
    one before it. *)
Class Clock (C : Type) : Type := clock_now_ms : C -> Z * C.

Class ClockLaws (C : Type) `{Clock C} : Type := {
  clock_ok : C -> Prop;
  clock_floor : C -> Z;
  clock_read c : clock_ok c ->
    clock_ok (snd (clock_now_ms c))
    /\ clock_floor c <= fst (clock_now_ms c) <= u64_MAX
    /\ clock_floor (snd (clock_now_ms c)) = fst (clock_now_ms c);
  clock_floor_nonneg c : clock_ok c -> 0 <= clock_floor c }.

(** [SystemClock] over the samples the operating system will return: the anchor
    and how many readings were taken. *)
Section system_clock.
Context (samples : nat -> Z * Z).

Record SystemClock : Type := { sc_anchor : option Anchor; sc_ticks : nat }.

#[export] Instance system_clock : Clock SystemClock := fun c =>
  let '(r, a) := now_ms (sc_anchor c) (samples (sc_ticks c)) in
  (r, {| sc_anchor := a; sc_ticks := S (sc_ticks c) |}).

(** [Instant] is documented to be non-decreasing. *)
Context (Hinstant : forall n, snd (samples n) <= snd (samples (S n))).

#[export] Instance system_clock_laws : ClockLaws SystemClock.
Proof.
  refine {|
    clock_ok c := forall a, sc_anchor c = Some a ->
      anchor_ok a /\ started a <= snd (samples (pred (sc_ticks c)));
    clock_floor c := match sc_anchor c with
                     | Some a => timeline a (snd (samples (pred (sc_ticks c)))) | None => 0 end |}.
  - intros [anchor n] Hok. cbn [sc_anchor sc_ticks] in *.
    assert (snd (samples (pred n)) <= snd (samples n)) as Hn by (destruct n; cbn; [lia|apply Hinstant]).
    destruct (advance_spec anchor (saturating_unix_time_ms (fst (samples n))) (snd (samples n)))
      as (a' & Ha' & Hok' & Hst' & Hread & Hwall & Hmono); [apply unix_time_range| |].
    { intros a Ha. destruct (Hok a Ha). split; [done|lia]. }
    unfold clock_now_ms, system_clock, now_ms. cbn [sc_anchor sc_ticks].
    destruct (advance anchor _ _) as [r anchor']. cbn in Ha', Hread. subst. cbn [fst snd sc_anchor sc_ticks pred].
    split; [by intros ? [= <-]|]. split; [split|done].
    + destruct anchor as [a|].
      * destruct (Hok a eq_refl) as [Ha Hs]. etransitivity; [|by apply Hmono].
        rewrite !timeline_eq by (done || lia). pose proof (as_millis_split (snd (samples (pred n)) - started a)
          (snd (samples n) - snd (samples (pred n)))) as Hc.
        replace (snd (samples (pred n)) - started a + (snd (samples n) - snd (samples (pred n))))
          with (snd (samples n) - started a) in Hc by lia.
        pose proof (as_millis_nonneg (snd (samples n) - snd (samples (pred n)))). lia.
      * pose proof (unix_time_range (fst (samples n))). lia.
    + rewrite timeline_eq by done. lia.
  - intros [[a|] n] Hok; cbn in *; [|lia]. destruct (Hok a eq_refl) as [Ha Hs].
    rewrite timeline_eq by done. unfold anchor_ok in Ha.
    pose proof (as_millis_nonneg (snd (samples (pred n)) - started a)). unfold u64_MAX in *. lia.
Defined.
End system_clock.
