(* ===== verification/SnapshotCache.v ===== *)
(** * The shared snapshot cache

    crates/gateway/src/snapshot_cache.rs and [store_snapshot] of
    crates/gateway/src/snapshot.rs: the cache key, the freshness decisions, the
    quantised metadata a reply exposes, and insertion with first-in first-out
    eviction.

    The eviction loop [while entries.len() > max { if let Some(k) =
    order.pop_front() { remove } }] never ends when [order] runs out first; it
    is a fuelled loop here, and [store_snapshot_refines] shows that the queue's
    length is enough fuel for every cache the gateway can reach. *)

From stdpp Require Import base option list numbers strings gmap.
From Stdlib Require Import ZArith Lia.
From S2P Require Import Prelude Domain.

#[local] Open Scope Z_scope.

Definition MAX_SNAPSHOT_TOKENS : nat := 16.
Definition MAX_SNAPSHOT_TTL_MS : Z := 60 * 60 * 1000.
Definition MAX_SNAPSHOT_STALE_MS : Z := 24 * 60 * 60 * 1000.
Definition SNAPSHOT_TIME_QUANTUM_MS : Z := 5000.

Record SnapshotCacheEntry : Type := mk_entry {
  entry_generated_at_ms : Z; entry_snapshot : AccountSnapshot }.

(** ** The cache key *)
Inductive CachedBlockSelector : Type :=
| Cached_Latest | Cached_Pending | Cached_Number (number : Z) | Cached_Hash (hash : FeltHex).

Record CachedTrackedToken : Type := mk_cached_token {
  cached_symbol : string; cached_address : FeltHex; cached_decimals : Z }.

Record SnapshotCacheKey : Type := mk_key {
  key_chain_id : ChainId; key_address : FeltHex;
  key_block : CachedBlockSelector; key_tokens : list CachedTrackedToken }.

(** [From<&BlockSelector> for CachedBlockSelector]. *)
Definition cached_block (value : BlockSelector) : CachedBlockSelector :=
  match value with
  | Block_Latest => Cached_Latest
  | Block_Pending => Cached_Pending
  | Block_Number number => Cached_Number number
  | Block_Hash hash => Cached_Hash hash
  end.

(** [From<&TrackedToken> for CachedTrackedToken]. *)
Definition cached_token (value : TrackedToken) : CachedTrackedToken :=
  {| cached_symbol := token_symbol value; cached_address := token_address value;
     cached_decimals := token_decimals value |}.

(** [SnapshotCacheKey::from_request]. *)
Definition key_from_request (request : AccountSnapshotRequest) : SnapshotCacheKey :=
  {| key_chain_id := req_chain_id request; key_address := req_address request;
     key_block := cached_block (req_block request);
     key_tokens := map cached_token (req_tokens request) |}.

#[export] Instance CachedBlockSelector_eq_dec : EqDecision CachedBlockSelector.
Proof. solve_decision. Defined.
#[export] Instance CachedTrackedToken_eq_dec : EqDecision CachedTrackedToken.
Proof. solve_decision. Defined.
#[export] Instance SnapshotCacheKey_eq_dec : EqDecision SnapshotCacheKey.
Proof. solve_decision. Defined.

#[export] Instance CachedBlockSelector_countable : Countable CachedBlockSelector.
Proof.
  apply (inj_countable'
    (fun b => match b with
              | Cached_Latest => inl (inl true) | Cached_Pending => inl (inl false)
              | Cached_Number n => inl (inr n) | Cached_Hash h => inr h end)
    (fun s : (bool + Z) + FeltHex =>
       match s with
       | inl (inl true) => Cached_Latest | inl (inl false) => Cached_Pending
       | inl (inr n) => Cached_Number n | inr h => Cached_Hash h end)). by intros [].
Defined.
#[export] Instance CachedTrackedToken_countable : Countable CachedTrackedToken.
Proof.
  apply (inj_countable' (fun t => (cached_symbol t, cached_address t, cached_decimals t))
           (fun '(s, a, d) => mk_cached_token s a d)). by intros [].
Defined.
#[export] Instance SnapshotCacheKey_countable : Countable SnapshotCacheKey.
Proof.
  apply (inj_countable' (fun k => (key_chain_id k, key_address k, key_block k, key_tokens k))
           (fun '(c, a, b, t) => mk_key c a b t)). by intros [].
Defined.

Record SnapshotCache : Type := mk_cache {
  cache_entries : gmap SnapshotCacheKey SnapshotCacheEntry;
  cache_order : list SnapshotCacheKey }.

(** [SnapshotCache::default()]. *)
Definition cache_default : SnapshotCache := {| cache_entries := ∅; cache_order := [] |}.

(** ** Exposed metadata *)
Definition quantize_down (value_ms : Z) : Z := value_ms - value_ms mod SNAPSHOT_TIME_QUANTUM_MS.

Definition quantize_up (value_ms : Z) : Z :=
  let rem := value_ms mod SNAPSHOT_TIME_QUANTUM_MS in
  if rem =? 0 then value_ms else u64_saturating_add value_ms (SNAPSHOT_TIME_QUANTUM_MS - rem).

Definition apply_cache_metadata (snapshot : AccountSnapshot) (status : CacheStatus)
    (generated_at_ms now_ms : Z) : AccountSnapshot :=
  let generated_bucket := quantize_down generated_at_ms in
  {| snap_address := snap_address snapshot; snap_deployment := snap_deployment snapshot;
     snap_nonce := snap_nonce snapshot; snap_balances := snap_balances snapshot;
     snap_block := snap_block snapshot;
     snap_cache := {| meta_status := status; meta_generated_at_ms := generated_bucket;
                      meta_age_ms := u64_saturating_sub (quantize_up now_ms) generated_bucket |} |}.

(** ** Freshness *)
Definition max_cache_age (policy : CachePolicy) : Z :=
  u64_saturating_add (Z.min (ttl_ms policy) MAX_SNAPSHOT_TTL_MS)
    (Z.min (stale_while_revalidate_ms policy) MAX_SNAPSHOT_STALE_MS).

Definition is_background (mode : QueryMode) : bool :=
  match mode with BackgroundView => true | ActiveView => false end.

Definition cached_snapshot_response (request : AccountSnapshotRequest)
    (cached : option SnapshotCacheEntry) (now_ms : Z) : option AccountSnapshot :=
  entry ← cached;
  let age_ms := u64_saturating_sub now_ms (entry_generated_at_ms entry) in
  if age_ms <=? Z.min (ttl_ms (req_cache_policy request)) MAX_SNAPSHOT_TTL_MS
  then Some (apply_cache_metadata (entry_snapshot entry) Hit (entry_generated_at_ms entry) now_ms)
  else if (age_ms <=? max_cache_age (req_cache_policy request)) && is_background (req_mode request)
  then Some (apply_cache_metadata (entry_snapshot entry) Stale (entry_generated_at_ms entry) now_ms)
  else None.

Definition stale_snapshot_fallback (request : AccountSnapshotRequest)
    (cached : option SnapshotCacheEntry) (now_ms : Z) : option AccountSnapshot :=
  entry ← cached;
  let age_ms := u64_saturating_sub now_ms (entry_generated_at_ms entry) in
  if age_ms <=? max_cache_age (req_cache_policy request)
  then Some (apply_cache_metadata (entry_snapshot entry) Stale (entry_generated_at_ms entry) now_ms)
  else None.

(** ** Insertion *)

(** The eviction loop; [None] is a loop that has not ended within the fuel. *)
Fixpoint evict_loop (fuel : nat) (max_entries : nat) (cache : SnapshotCache)
    : option SnapshotCache :=
  match fuel with
  | O => None
  | S fuel =>
      if (max_entries <? size (cache_entries cache))%nat
      then evict_loop fuel max_entries
             match cache_order cache with
             | evicted :: order =>
                 {| cache_entries := delete evicted (cache_entries cache); cache_order := order |}
             | [] => cache
             end
      else Some cache
  end.

(** The cache right after the insertion, before the loop. *)
Definition insert_entry (key : SnapshotCacheKey) (entry : SnapshotCacheEntry)
    (cache : SnapshotCache) : SnapshotCache :=
  {| cache_entries := <[key := entry]> (cache_entries cache);
     cache_order := if decide (is_Some (cache_entries cache !! key))
                    then cache_order cache else cache_order cache ++ [key] |}.

Definition store_snapshot (key : SnapshotCacheKey) (snapshot : AccountSnapshot)
    (max_entries : nat) (generated_at_ms : Z) (cache : SnapshotCache) : option SnapshotCache :=
  let cache :=
    insert_entry key {| entry_generated_at_ms := generated_at_ms; entry_snapshot := snapshot |} cache in
  evict_loop (S (length (cache_order cache))) max_entries cache.

(** ** Metadata lemmas *)
Lemma quantize_down_bucket g : quantize_down g = SNAPSHOT_TIME_QUANTUM_MS * (g / SNAPSHOT_TIME_QUANTUM_MS).
Proof.
  unfold quantize_down. pose proof (Z.div_mod g SNAPSHOT_TIME_QUANTUM_MS).
  unfold SNAPSHOT_TIME_QUANTUM_MS in *. lia.
Qed.

Lemma quantize_down_range g : g - SNAPSHOT_TIME_QUANTUM_MS < quantize_down g <= g.
Proof.
  unfold quantize_down. pose proof (Z.mod_pos_bound g SNAPSHOT_TIME_QUANTUM_MS).
  unfold SNAPSHOT_TIME_QUANTUM_MS in *. lia.
Qed.

Lemma quantize_up_range t :
  t <= u64_MAX -> t <= quantize_up t < t + SNAPSHOT_TIME_QUANTUM_MS.
Proof.
  intros Ht. unfold quantize_up, u64_saturating_add.
  pose proof (Z.mod_pos_bound t SNAPSHOT_TIME_QUANTUM_MS).
  destruct (Z.eqb_spec (t mod SNAPSHOT_TIME_QUANTUM_MS) 0);
    unfold SNAPSHOT_TIME_QUANTUM_MS in *; lia.
Qed.

(** The parts of a snapshot a reply passes on unchanged. *)
Definition snapshot_body (s : AccountSnapshot) :=
  (snap_address s, snap_deployment s, snap_nonce s, snap_balances s, snap_block s).

(** What a served entry may look like. *)
Definition served (request : AccountSnapshotRequest) (entry : SnapshotCacheEntry) (now_ms : Z)
    (reply : AccountSnapshot) : Prop :=
  let age := u64_saturating_sub now_ms (entry_generated_at_ms entry) in
  snapshot_body reply = snapshot_body (entry_snapshot entry)
  /\ meta_generated_at_ms (snap_cache reply) = quantize_down (entry_generated_at_ms entry)
  /\ age <= meta_age_ms (snap_cache reply)
  /\ match meta_status (snap_cache reply) with
     | Hit => age <= ttl_ms (req_cache_policy request) /\ age <= MAX_SNAPSHOT_TTL_MS
     | Stale => age <= ttl_ms (req_cache_policy request)
                       + stale_while_revalidate_ms (req_cache_policy request)
                /\ age <= MAX_SNAPSHOT_TTL_MS + MAX_SNAPSHOT_STALE_MS
     | Miss => False
     end.

Lemma apply_cache_metadata_age s st g now :
  now <= u64_MAX ->
  u64_saturating_sub now g <= meta_age_ms (snap_cache (apply_cache_metadata s st g now)).
Proof.
  intros Hn. cbn [apply_cache_metadata snap_cache meta_age_ms].
  pose proof (quantize_up_range now Hn). pose proof (quantize_down_range g).
  unfold u64_saturating_sub. lia.
Qed.

Lemma cached_snapshot_response_served request entry now reply :
  now <= u64_MAX ->
  cached_snapshot_response request (Some entry) now = Some reply ->
  served request entry now reply.
Proof.
  intros Hn. unfold cached_snapshot_response. cbn [mbind option_bind].
  pose proof (fun st => apply_cache_metadata_age (entry_snapshot entry) st (entry_generated_at_ms entry) now Hn) as Hage.
  destruct (Z.leb_spec (u64_saturating_sub now (entry_generated_at_ms entry))
    (Z.min (ttl_ms (req_cache_policy request)) MAX_SNAPSHOT_TTL_MS)) as [Hle|_].
  { intros [= <-]. repeat split; [apply Hage|lia..]. }
  destruct (andb _ _) eqn:Hc; [|done]. apply andb_prop in Hc as [Hc _]. apply Z.leb_le in Hc.
  intros [= <-]. unfold max_cache_age, u64_saturating_add in Hc.
  repeat split; [apply Hage|cbn in *; lia..].
Qed.

Lemma stale_snapshot_fallback_served request entry now reply :
  now <= u64_MAX ->
  stale_snapshot_fallback request (Some entry) now = Some reply ->
  served request entry now reply.
Proof.
  intros Hn. unfold stale_snapshot_fallback. cbn [mbind option_bind].
  destruct (Z.leb_spec (u64_saturating_sub now (entry_generated_at_ms entry))
    (max_cache_age (req_cache_policy request))) as [Hc|]; [|done].
  intros [= <-]. unfold max_cache_age, u64_saturating_add in Hc.
  repeat split; [by apply apply_cache_metadata_age|cbn in *; lia..].
Qed.

(** ** The cache as a bounded first-in first-out list *)

(** The abstract cache: its entries, oldest first. *)
Definition fifo : Type := list (SnapshotCacheKey * SnapshotCacheEntry).

(** Replace in place when present; else append, and drop the oldest past the bound. *)
Definition fifo_put (max : nat) (key : SnapshotCacheKey) (e : SnapshotCacheEntry) (l : fifo) : fifo :=
  if decide (key ∈ l.*1)
  then map (fun ke => if decide (ke.1 = key) then (key, e) else ke) l
  else drop (S (length l) - max) (l ++ [(key, e)]).

(** The concrete cache holds exactly the abstract entries, within the bound. *)
Definition represents (max : nat) (cache : SnapshotCache) (l : fifo) : Prop :=
  NoDup l.*1 /\ cache_order cache = l.*1 /\ cache_entries cache = list_to_map l
  /\ (length l <= max)%nat.

Lemma size_list_to_map (l : fifo) :
  NoDup l.*1 -> size (list_to_map l : gmap SnapshotCacheKey SnapshotCacheEntry) = length l.
Proof.
  intros Hl. rewrite <- (length_map_to_list (list_to_map l)).
  by rewrite (map_to_list_to_map l Hl).
Qed.

Lemma evict_loop_fifo max l fuel :
  NoDup l.*1 -> (length l < fuel)%nat ->
  evict_loop fuel max {| cache_entries := list_to_map l; cache_order := l.*1 |}
  = Some {| cache_entries := list_to_map (drop (length l - max) l);
            cache_order := (drop (length l - max) l).*1 |}.
Proof.
  revert fuel; induction l as [|[k e] l IH]; intros fuel Hnd Hf;
    (destruct fuel as [|fuel]; [cbn in Hf; lia|]); cbn [evict_loop cache_entries cache_order];
    rewrite size_list_to_map by done.
  - destruct (Nat.ltb_spec max (length (@nil (SnapshotCacheKey * SnapshotCacheEntry)))); [cbn in *; lia|].
    done.
  - destruct (Nat.ltb_spec max (length ((k, e) :: l))) as [Hlt|Hge].
    + cbn [fmap list_fmap fst list_to_map foldr] in *. apply NoDup_cons in Hnd as [Hk Hnd].
      rewrite delete_insert_id by by apply not_elem_of_list_to_map_1.
      rewrite IH by (done || cbn in Hf; lia). cbn [length] in *.
      replace (S (length l) - max)%nat with (S (length l - max)) by lia. done.
    + replace (length ((k, e) :: l) - max)%nat with 0%nat by lia. done.
Qed.

Lemma fst_replace (key : SnapshotCacheKey) (e : SnapshotCacheEntry) (l : fifo) :
  (map (fun ke => if decide (ke.1 = key) then (key, e) else ke) l).*1 = l.*1.
Proof.
  induction l as [|[k x] l IH]; [done|]. cbn. rewrite IH.
  destruct (decide (k = key)) as [->|]; done.
Qed.

Lemma list_to_map_replace (key : SnapshotCacheKey) (e : SnapshotCacheEntry) (l : fifo) :
  key ∈ l.*1 ->
  list_to_map (map (fun ke => if decide (ke.1 = key) then (key, e) else ke) l)
  = (<[key := e]> (list_to_map l) : gmap SnapshotCacheKey SnapshotCacheEntry).
Proof.
  intros Hk. induction l as [|[k x] l IH]; [by apply elem_of_nil in Hk|].
  cbn [map list_to_map foldr fst fmap list_fmap] in *.
  destruct (decide (k = key)) as [->|Hne].
  - destruct (decide (key ∈ l.*1)) as [Hin|Hout].
    + cbn. rewrite IH by done. by rewrite !insert_insert_eq.
    + cbn. rewrite insert_insert_eq. f_equal. f_equal.
      clear IH Hk. induction l as [|[k' x'] l IH]; [done|]. cbn in *.
      apply not_elem_of_cons in Hout as [Hne Hout]. rewrite decide_False by done. by rewrite IH.
  - apply elem_of_cons in Hk as [->|Hk]; [done|]. cbn. rewrite IH by done.
    by rewrite insert_insert_ne.
Qed.

Lemma insert_entry_fifo max key e cache l :
  represents max cache l ->
  insert_entry key e cache =
    if decide (key ∈ l.*1)
    then {| cache_entries := list_to_map (fifo_put max key e l);
            cache_order := (fifo_put max key e l).*1 |}
    else {| cache_entries := list_to_map (l ++ [(key, e)]); cache_order := (l ++ [(key, e)]).*1 |}.
Proof.
  intros (Hnd & Ho & He & Hl). unfold insert_entry, fifo_put. rewrite Ho, He.
  destruct (decide (key ∈ l.*1)) as [Hin|Hout].
  - rewrite decide_True, fst_replace, list_to_map_replace; [done|done|].
    destruct (list_to_map l !! key) eqn:Hk; [eauto|]. by apply not_elem_of_list_to_map_2 in Hk.
  - rewrite decide_False, list_to_map_snoc, fmap_app; [done|done|].
    rewrite not_elem_of_list_to_map_1 by done. by intros [? ?].
Qed.

Lemma sublist_drop_NoDup (l : fifo) n : NoDup l.*1 -> NoDup (drop n l).*1.
Proof. intros Hl. rewrite fmap_drop. eapply sublist_NoDup; [done|apply sublist_drop]. Qed.

Lemma fifo_put_NoDup max key e l : NoDup l.*1 -> NoDup (fifo_put max key e l).*1.
Proof.
  intros Hnd. unfold fifo_put. destruct (decide (key ∈ l.*1)) as [|Hout].
  - by rewrite fst_replace.
  - apply sublist_drop_NoDup. rewrite fmap_app. cbn. apply NoDup_app. split_and!; [done| |].
    + intros k Hk ->%list_elem_of_singleton. done.
    + apply NoDup_singleton.
Qed.

Lemma store_snapshot_represents max key snapshot g cache l :
  represents max cache l ->
  exists cache', store_snapshot key snapshot max g cache = Some cache'
    /\ represents max cache' (fifo_put max key (mk_entry g snapshot) l).
Proof.
  intros Hrep. unfold store_snapshot. rewrite (insert_entry_fifo max key _ cache l Hrep).
  pose proof (fifo_put_NoDup max key (mk_entry g snapshot) l (proj1 Hrep)) as Hnd'.
  destruct Hrep as (Hnd & Ho & He & Hl).
  destruct (decide (key ∈ l.*1)) as [Hin|Hout]; cbn [cache_order]; eexists.
  - assert (length (fifo_put max key (mk_entry g snapshot) l) = length l) as Hlen.
    { unfold fifo_put. rewrite decide_True by done. apply length_map. }
    rewrite evict_loop_fifo by (done || rewrite ?length_fmap; lia).
    split; [done|]. rewrite Hlen. replace (length l - max)%nat with 0%nat by lia.
    rewrite drop_0. repeat split; [done|]. lia.
  - assert (NoDup (l ++ [(key, mk_entry g snapshot)]).*1) as Hnd1.
    { clear Hnd'. pose proof (fifo_put_NoDup (S (length l)) key (mk_entry g snapshot) l Hnd) as H.
      unfold fifo_put in H. rewrite decide_False, Nat.sub_diag, drop_0 in H by done. done. }
    rewrite evict_loop_fifo by (done || rewrite length_fmap; lia).
    split; [done|]. unfold fifo_put in *. rewrite decide_False in * by done.
    rewrite length_app. cbn [length]. rewrite Nat.add_1_r.
    repeat split; [done|]. rewrite length_drop, length_app. cbn. lia.
Qed.

(** What the abstract insertion does to lookups. *)
Lemma fifo_put_lookup max key e l k :
  NoDup l.*1 -> (length l <= max)%nat -> (0 < max)%nat ->
  (list_to_map (fifo_put max key e l) : gmap _ _) !! key = Some e
  /\ (k <> key -> (list_to_map (fifo_put max key e l) : gmap _ _) !! k
                  = if decide (key ∈ l.*1 \/ (length l < max)%nat \/ head l.*1 <> Some k)
                    then (list_to_map l : gmap _ _) !! k else None).
Proof.
  intros Hnd Hlen Hmax. unfold fifo_put. destruct (decide (key ∈ l.*1)) as [Hin|Hout].
  { rewrite list_to_map_replace by done. rewrite lookup_insert_eq. split; [done|].
    intros Hne. rewrite lookup_insert_ne by done. by rewrite decide_True by auto. }
  destruct (decide (length l < max)%nat) as [Hlt|Hge].
  - replace (S (length l) - max)%nat with 0%nat by lia. rewrite drop_0, list_to_map_snoc by done.
    rewrite lookup_insert_eq. split; [done|]. intros Hne.
    rewrite lookup_insert_ne by done. by rewrite decide_True by auto.
  - replace (S (length l) - max)%nat with 1%nat by lia.
    destruct l as [|[k0 e0] l]; [cbn in *; lia|]. cbn in Hout, Hnd.
    apply not_elem_of_cons in Hout as [Hne0 Hout]. apply NoDup_cons in Hnd as [Hk0 Hnd].
    change (drop 1 (((k0, e0) :: l) ++ [(key, e)])) with (l ++ [(key, e)]).
    rewrite list_to_map_snoc by done.
    rewrite lookup_insert_eq. split; [done|]. intros Hne. rewrite lookup_insert_ne by done. cbn.
    destruct (decide (k0 = k)) as [->|Hk].
    + rewrite decide_False; [by apply not_elem_of_list_to_map_1|].
      intros [[]%elem_of_cons|[?|?]]; naive_solver lia.
    + rewrite decide_True, lookup_insert_ne by naive_solver. done.
Qed.

(** Without the invariant the loop would spin: nothing left to pop. *)
Lemma evict_loop_stuck fuel max entries :
  (max < size entries)%nat ->
  evict_loop fuel max {| cache_entries := entries; cache_order := [] |} = None.
Proof.
  intros Hsz. induction fuel as [|fuel IH]; [done|].
  cbn [evict_loop cache_entries cache_order]. by rewrite (proj2 (Nat.ltb_lt _ _)) by done.
Qed.

Lemma cache_default_represents max : represents max cache_default [].
Proof. repeat split; [constructor|cbn; lia]. Qed.

(** ** Properties *)

(** C30: Storing a snapshot refines an abstract bounded FIFO list: the eviction loop ends, the
    new key is present, a present key is replaced in place, otherwise at most the oldest entry
    is dropped, and the size stays within the bound. *)
Theorem store_snapshot_refines max key snapshot g cache l :
  represents max cache l -> (0 < max)%nat ->
  exists cache', store_snapshot key snapshot max g cache = Some cache'
    /\ represents max cache' (fifo_put max key (mk_entry g snapshot) l)
    /\ (size (cache_entries cache') <= max)%nat
    /\ cache_entries cache' !! key = Some (mk_entry g snapshot)
    /\ (forall k, k <> key ->
          cache_entries cache' !! k
          = if decide (key ∈ l.*1 \/ (length l < max)%nat \/ head (cache_order cache) <> Some k)
            then cache_entries cache !! k else None).
Proof.
  intros Hrep Hmax.
  destruct (store_snapshot_represents max key snapshot g cache l Hrep) as (cache' & Hs & Hrep').
  exists cache'. split_and!; [done|done|..].
  all: destruct Hrep as (Hnd & Ho & He & Hlen), Hrep' as (Hnd' & Ho' & He' & Hlen').
  all: rewrite He', ?Ho, ?He || (intros k Hk; rewrite He', Ho, He).
  - by rewrite size_list_to_map.
  - by apply fifo_put_lookup.
  - intros k Hk. by apply fifo_put_lookup.
Qed.

(** The metadata on a cached reply depends on the generation time only through its
    five-second bucket, and the reported age never under-states the true age and over-states it
    by less than two quanta. *)
Theorem exposed_metadata_quantised snapshot status g g' now :
  g / SNAPSHOT_TIME_QUANTUM_MS = g' / SNAPSHOT_TIME_QUANTUM_MS ->
  0 <= g <= now -> now <= u64_MAX ->
  let meta := snap_cache (apply_cache_metadata snapshot status g now) in
  apply_cache_metadata snapshot status g now = apply_cache_metadata snapshot status g' now
  /\ (meta_generated_at_ms meta mod SNAPSHOT_TIME_QUANTUM_MS = 0)
  /\ meta_generated_at_ms meta <= g
  /\ now - g <= meta_age_ms meta < now - g + 2 * SNAPSHOT_TIME_QUANTUM_MS.
Proof.
  intros Hq Hg Hn meta. pose proof (quantize_down_range g). pose proof (quantize_up_range now Hn).
  split_and!.
  - unfold apply_cache_metadata. by rewrite !quantize_down_bucket, Hq.
  - subst meta. cbn [apply_cache_metadata snap_cache meta_generated_at_ms].
    rewrite quantize_down_bucket, Z.mul_comm. apply Z_mod_mult.
  - cbn. lia.
  - etransitivity; [|apply (apply_cache_metadata_age snapshot status g now Hn)].
    unfold u64_saturating_sub. lia.
  - subst meta. cbn [apply_cache_metadata snap_cache meta_age_ms]. unfold u64_saturating_sub. lia.
Qed.

(** A cache entry is served as Hit only within the requested TTL and one hour, and as
    Stale only within the requested windows and 25 hours, with the stored body and an age that
    is not under-stated. *)
Theorem cache_serves_within_bounds request entry now reply :
  now <= u64_MAX ->
  cached_snapshot_response request (Some entry) now = Some reply
  \/ stale_snapshot_fallback request (Some entry) now = Some reply ->
  served request entry now reply.
Proof.
  intros Hn [Hr|Hr]; [by apply cached_snapshot_response_served|by apply stale_snapshot_fallback_served].
Qed.

(** The caller's own [ttl_ms] is compared with the exact age. *)
Definition probe (request : AccountSnapshotRequest) (ttl : Z) : AccountSnapshotRequest :=
  {| req_chain_id := req_chain_id request; req_address := req_address request;
     req_tokens := req_tokens request; req_block := req_block request; req_mode := ActiveView;
     req_cache_policy := {| ttl_ms := ttl; stale_while_revalidate_ms := 0 |} |}.

(** A caller who varies its own ttl_ms learns the exact age of a shared cache entry: the
    entry is served exactly when the exact age is at most the TTL. *)
Theorem ttl_probe_reveals_age request entry now ttl :
  0 <= entry_generated_at_ms entry <= now -> 0 <= ttl <= MAX_SNAPSHOT_TTL_MS ->
  is_Some (cached_snapshot_response (probe request ttl) (Some entry) now)
  <-> now - entry_generated_at_ms entry <= ttl.
Proof.
  intros Hg Ht. unfold cached_snapshot_response, u64_saturating_sub.
  cbn [mbind option_bind probe req_cache_policy ttl_ms req_mode is_background].
  rewrite andb_false_r. destruct (Z.leb_spec (Z.max (now - entry_generated_at_ms entry) 0)
    (Z.min ttl MAX_SNAPSHOT_TTL_MS)); split; intros; try lia; eauto.
  by destruct H0.
Qed.

(** ** Concrete instances *)
Definition ex_request : AccountSnapshotRequest :=
  {| req_chain_id := Sepolia; req_address := mk_FeltHex "0x1"; req_tokens := [];
     req_block := Block_Latest; req_mode := ActiveView;
     req_cache_policy := {| ttl_ms := 10000; stale_while_revalidate_ms := 60000 |} |}.

Definition ex_snapshot : AccountSnapshot :=
  {| snap_address := mk_FeltHex "0x1"; snap_deployment := Dep_Undeployed; snap_nonce := None;
     snap_balances := [];
     snap_block := {| sbm_selector := Block_Latest; sbm_block_hash := None; sbm_block_number := None |};
     snap_cache := {| meta_status := Miss; meta_generated_at_ms := 5000; meta_age_ms := 0 |} |}.

Definition ex_key (address : string) : SnapshotCacheKey :=
  {| key_chain_id := Sepolia; key_address := mk_FeltHex address; key_block := Cached_Latest;
     key_tokens := [] |}.

(** A full cache of one entry: storing another key evicts it. *)
Lemma store_snapshot_refines_witness :
  let cache := {| cache_entries := {[ex_key "0x1" := mk_entry 7000 ex_snapshot]};
                  cache_order := [ex_key "0x1"] |} in
  exists cache', store_snapshot (ex_key "0x2") ex_snapshot 1 9000 cache = Some cache'
    /\ cache_entries cache' !! ex_key "0x1" = None.
Proof.
  destruct (store_snapshot_refines 1 (ex_key "0x2") ex_snapshot 9000
    {| cache_entries := {[ex_key "0x1" := mk_entry 7000 ex_snapshot]}; cache_order := [ex_key "0x1"] |}
    [(ex_key "0x1", mk_entry 7000 ex_snapshot)])
    as (cache' & Hs & _ & _ & _ & Hother).
  - repeat split; [apply NoDup_singleton|cbn; lia].
  - lia.
  - exists cache'. split; [exact Hs|]. rewrite Hother by discriminate.
    rewrite decide_False; [reflexivity|]. cbn [fmap list_fmap fst length cache_order head].
    intros [?%list_elem_of_singleton|[?|Hh]]; [discriminate|lia|by apply Hh].
Defined.

Lemma exposed_metadata_quantised_witness :
  apply_cache_metadata ex_snapshot Hit 7000 20001 = apply_cache_metadata ex_snapshot Hit 9999 20001.
Proof.
  apply (exposed_metadata_quantised ex_snapshot Hit 7000 9999 20001);
  first [reflexivity | unfold u64_MAX; lia].
Defined.

Lemma cache_serves_within_bounds_witness :
  exists reply, cached_snapshot_response ex_request (Some (mk_entry 7000 ex_snapshot)) 17000 = Some reply
    /\ served ex_request (mk_entry 7000 ex_snapshot) 17000 reply.
Proof.
  eexists. split; [reflexivity|]. apply cache_serves_within_bounds; [by vm_compute|left; reflexivity].
Defined.

Lemma ttl_probe_reveals_age_witness :
  is_Some (cached_snapshot_response (probe ex_request 3000) (Some (mk_entry 7000 ex_snapshot)) 10000)
  /\ ~ is_Some (cached_snapshot_response (probe ex_request 2999) (Some (mk_entry 7000 ex_snapshot)) 10000).
Proof.
  split.
  - apply ttl_probe_reveals_age; unfold MAX_SNAPSHOT_TTL_MS; cbn; lia.
  - intros Hs%ttl_probe_reveals_age; unfold MAX_SNAPSHOT_TTL_MS in *; cbn in *; lia.
Defined.
