(* ===== verification/OperationStore.v ===== *)
(** * The operation store

    crates/gateway/src/operations.rs, with the retention policy of
    crates/gateway/src/types.rs: tracked operation states, aged into [Expired]
    after the policy's lifetime and evicted, expired ones first and then the
    least recently updated, when the store exceeds its bound.

    The [HashMap] is a [gmap]; its iteration order is [map_to_list]'s, and
    [sort_unstable_by_key] is a merge sort.  [by_age_unique] shows that neither
    choice matters: revisions are distinct, so there is one sorted order. *)

From stdpp Require Import base option list numbers strings gmap sorting.
From Stdlib Require Import ZArith Lia.
From S2P Require Import Prelude Domain.

#[local] Open Scope Z_scope.

(** ** Retention policy *)
Record OperationRetentionPolicy : Type := mk_retention {
  ret_ttl_ms : Z; ret_max_entries : nat }.

Inductive OperationRetentionError : Type := ZeroTtl | ZeroMaxEntries.

(** [OperationRetentionPolicy::new]. *)
Definition retention_new (ttl : Z) (max_entries : nat)
    : outcome OperationRetentionError OperationRetentionPolicy :=
  if ttl =? 0 then Err ZeroTtl
  else if (max_entries =? 0)%nat then Err ZeroMaxEntries
  else Ok {| ret_ttl_ms := ttl; ret_max_entries := max_entries |}.

Definition DEFAULT_OPERATION_RETENTION_TTL_MS : Z := 24 * 60 * 60 * 1000.
Definition DEFAULT_OPERATION_RETENTION_MAX_ENTRIES : nat := 1024.

(** [Default for OperationRetentionPolicy]. *)
Definition retention_default : OperationRetentionPolicy :=
  {| ret_ttl_ms := DEFAULT_OPERATION_RETENTION_TTL_MS;
     ret_max_entries := DEFAULT_OPERATION_RETENTION_MAX_ENTRIES |}.

(** ** The store *)
Record OperationEntry : Type := mk_operation_entry {
  oe_status : OperationStatus; oe_updated_at_ms : Z; oe_revision : Z }.

Record OperationStore : Type := mk_store {
  store_retention : OperationRetentionPolicy;
  store_entries : gmap OperationId OperationEntry;
  store_next_revision : Z }.

(** [OperationStore::new]. *)
Definition store_new (retention : OperationRetentionPolicy) : OperationStore :=
  {| store_retention := retention; store_entries := ∅; store_next_revision := 1 |}.

Definition is_expired (state : OperationState) : bool :=
  match state with Op_Expired => true | _ => false end.

Definition set_state (status : OperationStatus) (state : OperationState) : OperationStatus :=
  {| os_id := os_id status; os_kind := os_kind status; os_state := state;
     os_provenance := os_provenance status |}.

(** The body of [prune]'s first loop. *)
Definition expire_entry (ttl now_ms : Z) (entry : OperationEntry) : OperationEntry :=
  if is_expired (os_state (oe_status entry)) then entry
  else if ttl <? u64_saturating_sub now_ms (oe_updated_at_ms entry)
  then {| oe_status := set_state (oe_status entry) Op_Expired;
          oe_updated_at_ms := oe_updated_at_ms entry; oe_revision := oe_revision entry |}
  else entry.

(** [(id, active, revision)], sorted by [(active, revision)]; [false < true]. *)
Definition AgeKey : Type := OperationId * bool * Z.

Definition age_key (x : OperationId * OperationEntry) : AgeKey :=
  (x.1, negb (is_expired (os_state (oe_status x.2))), oe_revision x.2).

Definition age_le (a b : AgeKey) : Prop :=
  let '(_, active_a, rev_a) := a in
  let '(_, active_b, rev_b) := b in
  (Is_true (negb active_a && active_b)) \/ (active_a = active_b /\ rev_a <= rev_b).

#[export] Instance age_le_dec : RelDecision age_le.
Proof. intros [[? a] ra] [[? b] rb]. unfold age_le. solve_decision. Defined.

Definition remove_all (ids : list OperationId) (m : gmap OperationId OperationEntry) :=
  foldl (fun m id => delete id m) m ids.

(** The ids [prune] removes, in order. *)
Definition by_age (entries : gmap OperationId OperationEntry) : list AgeKey :=
  merge_sort age_le (map age_key (map_to_list entries)).

Definition prune (now_ms : Z) (store : OperationStore) : OperationStore :=
  let entries := expire_entry (ret_ttl_ms (store_retention store)) now_ms <$> store_entries store in
  let max_entries := ret_max_entries (store_retention store) in
  let keep m := {| store_retention := store_retention store; store_entries := m;
                   store_next_revision := store_next_revision store |} in
  if (size entries <=? max_entries)%nat then keep entries
  else
    let remove_count := (size entries - max_entries)%nat in
    keep (remove_all (map (fun k : AgeKey => k.1.1) (take remove_count (by_age entries))) entries).

(** [OperationStore::get]: the store is pruned first. *)
Definition store_get (id : OperationId) (now_ms : Z) (store : OperationStore)
    : option OperationStatus * OperationStore :=
  let store := prune now_ms store in
  (oe_status <$> store_entries store !! id, store).

(** The store right after an insertion, before pruning. *)
Definition insert_status (status : OperationStatus) (now_ms : Z) (store : OperationStore)
    : OperationStore :=
  let revision := store_next_revision store in
  {| store_retention := store_retention store;
     store_entries := <[os_id status := mk_operation_entry status now_ms revision]> (store_entries store);
     store_next_revision := u64_saturating_add revision 1 |}.

(** [OperationStore::insert]. *)
Definition store_insert (status : OperationStatus) (now_ms : Z) (store : OperationStore)
    : OperationStore :=
  prune now_ms (insert_status status now_ms store).

(** ** The age order *)
#[export] Instance age_le_total : Total age_le.
Proof.
  intros [[? a] ra] [[? b] rb]. unfold age_le.
  destruct a, b; cbn; (destruct (Z.le_ge_cases ra rb); auto).
Qed.

#[export] Instance age_le_trans : Transitive age_le.
Proof.
  intros [[? a] ra] [[? b] rb] [[? c] rc]. unfold age_le.
  destruct a, b, c; cbn; intuition lia.
Qed.

(** Revisions are distinct. *)
Definition revisions_distinct (m : gmap OperationId OperationEntry) : Prop :=
  forall i j a b, m !! i = Some a -> m !! j = Some b -> oe_revision a = oe_revision b -> i = j.

Lemma elem_of_age_keys m k :
  k ∈ map age_key (map_to_list m) <-> exists id e, m !! id = Some e /\ k = age_key (id, e).
Proof.
  rewrite list_elem_of_fmap. split.
  - intros ([id e] & -> & Hin%elem_of_map_to_list). eauto.
  - intros (id & e & Hm & ->). exists (id, e). split; [done|]. by apply elem_of_map_to_list.
Qed.

Lemma by_age_perm m : by_age m ≡ₚ map age_key (map_to_list m).
Proof. apply merge_sort_Permutation. Qed.

Lemma by_age_sorted m : StronglySorted age_le (by_age m).
Proof. apply StronglySorted_merge_sort; apply _. Qed.

Lemma length_by_age m : length (by_age m) = size m.
Proof. by rewrite by_age_perm, length_map, length_map_to_list. Qed.

Lemma NoDup_by_age_ids m : NoDup (map (fun k : AgeKey => k.1.1) (by_age m)).
Proof.
  rewrite by_age_perm, map_map. change (fun x => (age_key x).1.1) with (@fst OperationId OperationEntry).
  apply NoDup_fst_map_to_list.
Qed.

(** Whatever order the map is iterated in and however ties are left, the sorted
    list is the same. *)
Lemma by_age_unique m l :
  revisions_distinct m ->
  l ≡ₚ map age_key (map_to_list m) -> StronglySorted age_le l -> l = by_age m.
Proof.
  intros Hrev Hl Hs. apply (StronglySorted_unique_strong age_le).
  - intros a b Ha Hb Hab Hba. rewrite Hl, elem_of_age_keys in Ha. rewrite by_age_perm, elem_of_age_keys in Hb.
    destruct Ha as (i & ea & Hi & ->), Hb as (j & eb & Hj & ->).
    unfold age_le, age_key in *. cbn in *.
    assert (oe_revision ea = oe_revision eb) as Hr.
    { destruct (is_expired (os_state (oe_status ea))), (is_expired (os_state (oe_status eb)));
        cbn in *; intuition lia. }
    pose proof (Hrev i j ea eb Hi Hj Hr) as ->. by rewrite Hi in Hj; injection Hj as ->.
  - done.
  - apply by_age_sorted.
  - by rewrite Hl, by_age_perm.
Qed.

(** ** Pruning *)
Lemma lookup_remove_all ids m id :
  remove_all ids m !! id = if decide (id ∈ ids) then None else m !! id.
Proof.
  unfold remove_all. revert m; induction ids as [|i ids IH]; intros m; cbn [foldl]; [done|].
  rewrite IH. destruct (decide (id ∈ ids)) as [Hin|Hout].
  - by rewrite decide_True by by right.
  - destruct (decide (i = id)) as [->|Hne].
    + rewrite lookup_delete_eq, decide_True by by left. done.
    + rewrite lookup_delete_ne, decide_False by (done || rewrite not_elem_of_cons; naive_solver). done.
Qed.

Lemma size_remove_all ids m :
  NoDup ids -> (forall id, id ∈ ids -> is_Some (m !! id)) ->
  (size (remove_all ids m) + length ids = size m)%nat.
Proof.
  unfold remove_all. revert m; induction ids as [|i ids IH]; intros m Hnd Hall; cbn [foldl length]; [lia|].
  apply NoDup_cons in Hnd as [Hi Hnd]. assert (is_Some (m !! i)) as Hm by (apply Hall; left).
  pose proof (map_size_ne_0_lookup_2 m i Hm). pose proof (map_size_delete_Some i m Hm).
  rewrite <- (IH (delete i m)) in *; [lia|done|].
  intros id Hid. rewrite lookup_delete_ne by (intros ->; done). apply Hall. by right.
Qed.

Definition expired_entries (now_ms : Z) (store : OperationStore) : gmap OperationId OperationEntry :=
  expire_entry (ret_ttl_ms (store_retention store)) now_ms <$> store_entries store.

(** The ids a prune removes: the excess, least (active, revision) first. *)
Definition victims (now_ms : Z) (store : OperationStore) : list OperationId :=
  map (fun k : AgeKey => k.1.1)
    (take (size (store_entries store) - ret_max_entries (store_retention store))
       (by_age (expired_entries now_ms store))).

Lemma size_expired now store : size (expired_entries now store) = size (store_entries store).
Proof. apply map_size_fmap. Qed.

Lemma lookup_prune now store id :
  store_entries (prune now store) !! id
  = if decide (id ∈ victims now store) then None else expired_entries now store !! id.
Proof.
  unfold prune, victims. fold (expired_entries now store). rewrite !size_expired.
  destruct (Nat.leb_spec (size (store_entries store)) (ret_max_entries (store_retention store))) as [Hle|Hgt].
  - replace (size _ - _)%nat with 0%nat by lia. by rewrite take_0, decide_False by apply not_elem_of_nil.
  - cbn [store_entries]. apply lookup_remove_all.
Qed.

Lemma prune_fields now store :
  store_retention (prune now store) = store_retention store
  /\ store_next_revision (prune now store) = store_next_revision store.
Proof. unfold prune. by destruct (_ <=? _)%nat. Qed.

Lemma by_age_elem now store k :
  k ∈ by_age (expired_entries now store) <->
  exists id e, expired_entries now store !! id = Some e /\ k = age_key (id, e).
Proof. by rewrite by_age_perm, elem_of_age_keys. Qed.

Lemma victims_sublist now store :
  NoDup (victims now store)
  /\ forall id, id ∈ victims now store -> is_Some (expired_entries now store !! id).
Proof.
  split.
  - unfold victims. rewrite <- firstn_map. eapply sublist_NoDup; [apply NoDup_by_age_ids|apply sublist_take].
  - intros id (k & -> & Hk%subseteq_take)%list_elem_of_fmap.
    apply by_age_elem in Hk as (id & e & He & ->). cbn. eauto.
Qed.

Lemma size_prune now store :
  size (store_entries (prune now store))
  = Nat.min (size (store_entries store)) (ret_max_entries (store_retention store)).
Proof.
  destruct (victims_sublist now store) as [Hnd Hin].
  unfold prune. fold (expired_entries now store). rewrite !size_expired.
  destruct (Nat.leb_spec (size (store_entries store)) (ret_max_entries (store_retention store)));
    cbn [store_entries]; [rewrite size_expired; lia|].
  pose proof (size_remove_all (victims now store) (expired_entries now store) Hnd Hin) as Hsz.
  unfold victims in Hsz at 2. rewrite length_map, length_take, length_by_age, !size_expired in Hsz.
  unfold victims in Hsz. lia.
Qed.

(** A removed operation ranks no higher than a kept one. *)
Lemma victims_ranked now store i j ei ej :
  i ∈ victims now store -> ~ j ∈ victims now store ->
  expired_entries now store !! i = Some ei -> expired_entries now store !! j = Some ej ->
  age_le (age_key (i, ei)) (age_key (j, ej)).
Proof.
  intros Hi Hj Hei Hej. unfold victims in *.
  set (n := (size (store_entries store) - _)%nat) in *.
  pose proof (by_age_sorted (expired_entries now store)) as Hs.
  rewrite <- (take_drop n (by_age _)) in Hs.
  assert (age_key (j, ej) ∈ drop n (by_age (expired_entries now store))) as Hdrop.
  { assert (age_key (j, ej) ∈ by_age (expired_entries now store)) as Hin by (apply by_age_elem; eauto).
    rewrite <- (take_drop n (by_age _)), elem_of_app in Hin. destruct Hin as [Hin|]; [|done].
    destruct Hj. apply list_elem_of_fmap. by exists (age_key (j, ej)). }
  apply list_elem_of_fmap in Hi as (k & Hk & Hin).
  eapply StronglySorted_app_1_elem_of; [exact Hs| |exact Hdrop].
  pose proof (subseteq_take _ _ _ Hin) as Hin'. apply by_age_elem in Hin' as (i' & e' & He' & ->).
  cbn in Hk. subst i'. rewrite Hei in He'. by injection He' as <-.
Qed.

(** ** The invariant *)
Record store_ok (store : OperationStore) : Prop := {
  so_ttl : 0 <= ret_ttl_ms (store_retention store);
  so_max : (0 < ret_max_entries (store_retention store))%nat;
  so_size : (size (store_entries store) <= ret_max_entries (store_retention store))%nat;
  so_next : 1 <= store_next_revision store <= u64_MAX;
  so_entry id e : store_entries store !! id = Some e ->
    os_id (oe_status e) = id /\ oe_revision e < store_next_revision store;
  so_distinct : revisions_distinct (store_entries store) }.

Lemma expire_entry_fields ttl now e :
  os_id (oe_status (expire_entry ttl now e)) = os_id (oe_status e)
  /\ oe_revision (expire_entry ttl now e) = oe_revision e.
Proof. unfold expire_entry. destruct (is_expired _); [done|]. by destruct (_ <? _). Qed.

(** Pruning keeps everything but the bound on the size, which it restores. *)
Lemma prune_ok now store :
  0 <= ret_ttl_ms (store_retention store) ->
  (0 < ret_max_entries (store_retention store))%nat ->
  1 <= store_next_revision store <= u64_MAX ->
  (forall id e, store_entries store !! id = Some e ->
     os_id (oe_status e) = id /\ oe_revision e < store_next_revision store) ->
  revisions_distinct (store_entries store) ->
  store_ok (prune now store).
Proof.
  intros Ht Hm Hn He Hd. destruct (prune_fields now store) as [Hr Hnr].
  assert (forall id e', store_entries (prune now store) !! id = Some e' -> exists e,
    store_entries store !! id = Some e /\ os_id (oe_status e') = os_id (oe_status e)
    /\ oe_revision e' = oe_revision e) as Hback.
  { intros id e' Hl. rewrite lookup_prune in Hl. destruct (decide _); [done|].
    unfold expired_entries in Hl. rewrite lookup_fmap in Hl.
    apply fmap_Some in Hl as (e & Hl & ->). exists e. split; [done|]. apply expire_entry_fields. }
  split; rewrite ?Hr, ?Hnr; try done.
  - rewrite size_prune. lia.
  - intros id e' Hl. destruct (Hback id e' Hl) as (e & Hl' & -> & ->). by apply He.
  - intros i j a b Ha Hb Hab.
    destruct (Hback i a Ha) as (a' & Ha' & _ & Ra), (Hback j b Hb) as (b' & Hb' & _ & Rb).
    apply (Hd i j a' b'); congruence.
Qed.

Section insertion.
Context (status : OperationStatus) (now : Z) (store : OperationStore).
Context (Hok : store_ok store) (Hrev : store_next_revision store < u64_MAX).

Lemma insert_status_next :
  store_next_revision (insert_status status now store) = store_next_revision store + 1.
Proof. cbn. unfold u64_saturating_add. lia. Qed.

Lemma insert_status_entry id e :
  store_entries (insert_status status now store) !! id = Some e ->
  (id = os_id status /\ e = mk_operation_entry status now (store_next_revision store))
  \/ (id <> os_id status /\ store_entries store !! id = Some e
      /\ oe_revision e < store_next_revision store).
Proof.
  cbn. intros [[<- <-]|[Hne Hl]]%lookup_insert_Some; [by left|].
  right. split_and!; [done|done|]. by eapply so_entry.
Qed.

Lemma insert_status_prunable : store_ok (prune now (insert_status status now store)).
Proof.
  destruct Hok. apply prune_ok; try done.
  - rewrite insert_status_next. lia.
  - intros id e [[-> ->]|(Hne & Hl & Hlt)]%insert_status_entry; rewrite insert_status_next; cbn [oe_status oe_revision].
    + split; [done|lia].
    + destruct (so_entry0 id e Hl). split; [done|lia].
  - intros i j a b Ha Hb Hab.
    apply insert_status_entry in Ha as [[-> ->]|(Hi & Ha & Hra)];
      apply insert_status_entry in Hb as [[-> ->]|(Hj & Hb & Hrb)]; cbn in Hab; [done|lia|lia|].
    by apply (so_distinct0 i j a b).
Qed.

(** The entry just written is not expired by the prune that follows. *)
Lemma expired_insert_status :
  is_expired (os_state status) = false ->
  expired_entries now (insert_status status now store) !! os_id status
  = Some (mk_operation_entry status now (store_next_revision store)).
Proof.
  intros Hact. unfold expired_entries. cbn. rewrite lookup_fmap, lookup_insert_eq. cbn.
  unfold expire_entry. cbn. rewrite Hact. unfold u64_saturating_sub.
  rewrite Z.sub_diag, Z.max_id, (proj2 (Z.ltb_ge _ _)); [done|apply (so_ttl store Hok)].
Qed.

(** The newest entry outranks every other, so it is never evicted. *)
Lemma insert_not_victim :
  is_expired (os_state status) = false ->
  ~ os_id status ∈ victims now (insert_status status now store).
Proof.
  intros Hact Hv. set (s := insert_status status now store) in *.
  assert (exists j e, expired_entries now s !! j = Some e /\ ~ j ∈ victims now s) as (j & e & Hj & Hkept).
  { assert (size (store_entries (prune now s)) <> 0)%nat as Hsz.
    { rewrite size_prune. pose proof (so_max store Hok).
      assert (size (store_entries s) <> 0)%nat
        by (apply (map_size_ne_0_lookup_2 _ (os_id status)); subst s; cbn; rewrite lookup_insert_eq; eauto).
      change (store_retention s) with (store_retention store). lia. }
    apply map_size_ne_0_lookup in Hsz as [j [e Hj]]. rewrite lookup_prune in Hj.
    destruct (decide (j ∈ victims now s)); [done|]. eauto. }
  assert (expired_entries now s !! os_id status
          = Some (mk_operation_entry status now (store_next_revision store))) as Hnew.
  { by apply expired_insert_status. }
  pose proof (victims_ranked now s _ j _ e Hv Hkept Hnew Hj) as Hrank.
  unfold expired_entries in Hj. rewrite lookup_fmap in Hj. apply fmap_Some in Hj as (e0 & Hj & ->).
  destruct (expire_entry_fields (ret_ttl_ms (store_retention s)) now e0) as [_ Hr].
  unfold age_le, age_key in Hrank. cbn in Hrank. rewrite Hact in Hrank. cbn in Hrank.
  apply insert_status_entry in Hj as [[-> _]|(_ & _ & Hlt)]; [done|].
  destruct Hrank as [[]|[_ Hle]]. cbn in Hr. rewrite Hr in Hle. lia.
Qed.

Lemma lookup_store_insert :
  is_expired (os_state status) = false ->
  store_entries (store_insert status now store) !! os_id status
  = Some (mk_operation_entry status now (store_next_revision store)).
Proof.
  intros Hact. unfold store_insert. rewrite lookup_prune, decide_False by by apply insert_not_victim.
  by apply expired_insert_status.
Qed.
End insertion.

(** A store within its bound loses nothing to a prune. *)
Lemma lookup_prune_small now store id :
  store_ok store ->
  store_entries (prune now store) !! id
  = expire_entry (ret_ttl_ms (store_retention store)) now <$> store_entries store !! id.
Proof.
  intros Hok. rewrite lookup_prune, decide_False; [apply lookup_fmap|].
  unfold victims. replace (size _ - _)%nat with 0%nat by (pose proof (so_size store Hok); lia).
  rewrite take_0. apply not_elem_of_nil.
Qed.

Lemma store_get_ok id now store : store_ok store -> store_ok (snd (store_get id now store)).
Proof. intros Hok. apply prune_ok; by destruct Hok. Qed.

Lemma store_new_ok retention :
  0 <= ret_ttl_ms retention -> (0 < ret_max_entries retention)%nat -> store_ok (store_new retention).
Proof.
  intros Ht Hm. split; cbn; try done; try lia.
  rewrite map_size_empty. lia.
Qed.

(** What a lookup reports: the status, aged into [Expired]. *)
Lemma store_get_status id now store :
  store_ok store ->
  store_ok (snd (store_get id now store))
  /\ fst (store_get id now store)
     = (fun e => if ret_ttl_ms (store_retention store) <? u64_saturating_sub now (oe_updated_at_ms e)
                 then set_state (oe_status e) Op_Expired else oe_status e)
       <$> store_entries store !! id.
Proof.
  intros Hok. split; [by apply store_get_ok|]. cbn [store_get fst].
  rewrite lookup_prune_small by done. destruct (store_entries store !! id) as [e|]; [|done].
  cbn. f_equal. unfold expire_entry. destruct e as [[i k st pr] u r]. cbn.
  destruct st; cbn; by destruct (_ <? _).
Qed.

(** ** Sequences of operations *)
Inductive StoreOp : Type :=
| InsertOp (status : OperationStatus) (now_ms : Z)
| GetOp (id : OperationId) (now_ms : Z).

Definition run_op (store : OperationStore) (op : StoreOp) : OperationStore :=
  match op with
  | InsertOp status now => store_insert status now store
  | GetOp id now => snd (store_get id now store)
  end.

Lemma run_ops_ok ops : forall store,
  store_ok store -> store_next_revision store + Z.of_nat (length ops) < u64_MAX ->
  store_ok (foldl run_op store ops)
  /\ store_next_revision (foldl run_op store ops) <= store_next_revision store + Z.of_nat (length ops).
Proof.
  induction ops as [|op ops IH]; intros store Hok Hn; cbn [foldl length] in *; [split; [done|lia]|].
  assert (store_ok (run_op store op) /\ store_next_revision (run_op store op) <= store_next_revision store + 1)
    as [Hok' Hn'].
  { destruct op as [status now|id now]; cbn [run_op].
    - split; [by apply insert_status_prunable; [|lia]|]. unfold store_insert.
      rewrite (proj2 (prune_fields _ _)), insert_status_next by (done || lia). lia.
    - split; [by apply store_get_ok|]. unfold store_get. cbn. rewrite (proj2 (prune_fields _ _)). lia. }
  destruct (IH (run_op store op) Hok') as [Hok'' Hn'']; [lia|]. split; [done|lia].
Qed.

(** ** Properties *)

(** Inserting an operation status keeps the store's invariant, the status can be read
    back, other entries only age into Expired, and an evicted entry ranks no higher than any
    kept one: expired ones first, then the least recently updated. *)
Theorem operation_insert_correct status now store :
  store_ok store -> store_next_revision store < u64_MAX -> is_expired (os_state status) = false ->
  let store' := store_insert status now store in
  store_ok store'
  /\ fst (store_get (os_id status) now store') = Some status
  /\ (forall id e', id <> os_id status -> store_entries store' !! id = Some e' ->
        exists e, store_entries store !! id = Some e
          /\ e' = expire_entry (ret_ttl_ms (store_retention store)) now e)
  /\ (forall i j ei ej, i <> os_id status ->
        store_entries store !! i = Some ei -> store_entries store' !! i = None ->
        store_entries store' !! j = Some ej ->
        age_le (age_key (i, expire_entry (ret_ttl_ms (store_retention store)) now ei))
               (age_key (j, ej))).
Proof.
  intros Hok Hrev Hact store'.
  assert (store_ok store') as Hok' by by apply insert_status_prunable.
  split_and!; [done| | |].
  - unfold store_get. cbn [fst]. rewrite lookup_prune_small by done.
    subst store'. rewrite lookup_store_insert by done. cbn. unfold expire_entry. cbn.
    rewrite Hact. unfold u64_saturating_sub. rewrite Z.sub_diag, Z.max_id.
    pose proof (so_ttl _ Hok') as Ht. by rewrite (proj2 (Z.ltb_ge _ _)).
  - intros id e' Hne Hl. unfold store', store_insert in Hl. rewrite lookup_prune in Hl.
    destruct (decide _); [done|]. unfold expired_entries in Hl. rewrite lookup_fmap in Hl.
    apply fmap_Some in Hl as (e & He & ->). exists e. cbn in He.
    rewrite lookup_insert_ne in He by done. done.
  - intros i j ei ej Hne Hi Hgone Hj. unfold store', store_insert in Hgone, Hj.
    rewrite lookup_prune in Hgone, Hj.
    assert (expired_entries now (insert_status status now store) !! i
            = Some (expire_entry (ret_ttl_ms (store_retention store)) now ei)) as Hei.
    { unfold expired_entries. cbn. by rewrite lookup_fmap, lookup_insert_ne, Hi. }
    rewrite Hei in Hgone. destruct (decide (i ∈ _)) as [Hv|]; [|done].
    destruct (decide (j ∈ _)) as [|Hk]; [done|]. by eapply victims_ranked.
Qed.

(** A lookup reports the stored status, aged into [Expired] past the lifetime. *)
Theorem operation_get_correct id now store :
  store_ok store ->
  store_ok (snd (store_get id now store))
  /\ fst (store_get id now store)
     = (fun e => if ret_ttl_ms (store_retention store) <? u64_saturating_sub now (oe_updated_at_ms e)
                 then set_state (oe_status e) Op_Expired else oe_status e)
       <$> store_entries store !! id.
Proof. apply store_get_status. Qed.

(** From a valid retention policy every sequence of insertions and lookups keeps the
    operation store's invariant and bound. *)
Theorem operation_store_reachable ttl max retention ops :
  0 <= ttl -> retention_new ttl max = Ok retention -> Z.of_nat (length ops) + 1 < u64_MAX ->
  let store := foldl run_op (store_new retention) ops in
  store_ok store /\ (size (store_entries store) <= max)%nat.
Proof.
  intros Ht Hr Hn. unfold retention_new in Hr.
  destruct (Z.eqb_spec ttl 0); [done|]. destruct (Nat.eqb_spec max 0); [done|]. injection Hr as <-.
  destruct (run_ops_ok ops (store_new (mk_retention ttl max))) as [Hok _]; [|cbn; lia|].
  { apply store_new_ok; cbn; lia. }
  split; [done|]. pose proof (so_size _ Hok) as Hsz.
  assert (forall s, store_retention (foldl run_op s ops) = store_retention s) as Hret.
  { clear. induction ops as [|op ops IH]; intros s; [done|]. cbn [foldl]. rewrite IH.
    destruct op; cbn; [unfold store_insert|]; by rewrite (proj1 (prune_fields _ _)). }
  by rewrite Hret in Hsz.
Qed.

(** ** Concrete instances *)
Definition ex_status (id : string) (state : OperationState) : OperationStatus :=
  {| os_id := mk_OperationId id; os_kind := Sign; os_state := state; os_provenance := None |}.

Definition ex_store : OperationStore :=
  store_insert (ex_status "sign-a" Op_Completed) 100 (store_new (mk_retention 1000 1)).

Lemma ex_store_ok : store_ok ex_store.
Proof. apply insert_status_prunable; [apply store_new_ok; cbn; lia|by vm_compute]. Qed.

(** A store bounded to one entry: the second insertion evicts the first. *)
Lemma operation_insert_correct_witness :
  fst (store_get (mk_OperationId "sign-b") 200 (store_insert (ex_status "sign-b" Op_Queued) 200 ex_store))
    = Some (ex_status "sign-b" Op_Queued)
  /\ store_entries (store_insert (ex_status "sign-b" Op_Queued) 200 ex_store) !! mk_OperationId "sign-a" = None.
Proof.
  split; [|by vm_compute].
  apply (operation_insert_correct (ex_status "sign-b" Op_Queued) 200 ex_store);
    [apply ex_store_ok|by vm_compute|reflexivity].
Defined.

Lemma operation_get_correct_witness :
  fst (store_get (mk_OperationId "sign-a") 1101 ex_store) = Some (ex_status "sign-a" Op_Expired).
Proof.
  rewrite (proj2 (operation_get_correct (mk_OperationId "sign-a") 1101 ex_store ex_store_ok)).
  by vm_compute.
Defined.

Lemma operation_store_reachable_witness :
  let store := foldl run_op (store_new (mk_retention 1000 1))
                 [InsertOp (ex_status "sign-a" Op_Queued) 5; InsertOp (ex_status "sign-b" Op_Queued) 6;
                  GetOp (mk_OperationId "sign-a") 7] in
  (size (store_entries store) <= 1)%nat.
Proof.
  apply (operation_store_reachable 1000 1 (mk_retention 1000 1)); [lia|reflexivity|by vm_compute].
Defined.
