(* ===== verification/Gateway.v ===== *)
(** * The gateway runtime

    crates/gateway/src/gateway.rs and snapshot.rs: the runtime's state, request
    validation, operation tracking, and the snapshot query, over the interfaces
    of crates/gateway/src/backend/interface.rs ([GatewayBackend]) and clock.rs
    ([Clock]).

    A handler is a state transformer on [Gateway] that returns an [outcome].
    The model runs one handler at a time: the interleaving of concurrent
    requests at their [await] points is not modelled. *)

From stdpp Require Import base option list numbers strings gmap.
From Stdlib Require Import ZArith Lia.
From S2P Require Import Prelude Text Domain Primitives Requests Clock SnapshotCache OperationStore.

#[local] Open Scope string_scope.
#[local] Open Scope list_scope.
#[local] Open Scope Z_scope.

Definition DEFAULT_SNAPSHOT_CACHE_MAX_ENTRIES : nat := 256.
Definition MAX_WAIT_TIMEOUT_MS : Z := 15 * 60 * 1000.
Definition MIN_WAIT_POLL_INTERVAL_MS : Z := 250.

Abbreviation GatewayResult := (outcome GatewayError).

(** ** The effectful boundary *)

(** [trait GatewayBackend]: every call returns [Ok] ([inl]) or [Err] ([inr]) and
    may move the chain it talks to. *)
Class GatewayBackend (B : Type) : Type := {
  backend_chain_id : B -> ChainId;
  check_deployed : FeltHex -> BlockSelector -> B -> (bool + GatewayError) * B;
  backend_nonce : FeltHex -> BlockSelector -> B -> (FeltHex + GatewayError) * B;
  token_balance : FeltHex -> TrackedToken -> BlockSelector -> B -> (string + GatewayError) * B;
  block_metadata : BlockSelector -> B -> (SnapshotBlockMetadata + GatewayError) * B }.

(** The operating system's entropy source. *)
Class Entropy (R : Type) : Type := { try_random_bytes : R -> option (list Z) * R }.

Section gateway.
Context {B S C R : Type} `{GatewayBackend B} `{Clock C} `{Entropy R} `{HexCodec}.

Record Gateway : Type := mk_gateway {
  gw_backend : B; gw_secret_resolver : S; gw_clock : C; gw_entropy : R;
  gw_operations : OperationStore; gw_snapshot_cache : SnapshotCache;
  gw_snapshot_cache_max_entries : nat }.

(** [Gateway::with_clock_and_retention]. *)
Definition with_clock_and_retention (backend : B) (secret_resolver : S) (clock : C) (entropy : R)
    (operation_retention : OperationRetentionPolicy) : Gateway :=
  {| gw_backend := backend; gw_secret_resolver := secret_resolver; gw_clock := clock; gw_entropy := entropy;
     gw_operations := store_new operation_retention; gw_snapshot_cache := cache_default;
     gw_snapshot_cache_max_entries := DEFAULT_SNAPSHOT_CACHE_MAX_ENTRIES |}.

(** [Gateway::with_clock]. *)
Definition with_clock (backend : B) (secret_resolver : S) (clock : C) (entropy : R) : Gateway :=
  with_clock_and_retention backend secret_resolver clock entropy retention_default.

(** ** Handlers *)
Definition GM (A : Type) : Type := Gateway -> GatewayResult A * Gateway.

#[export] Instance GM_ret : MRet GM := fun A a g => (Ok a, g).
#[export] Instance GM_bind : MBind GM := fun A A' f m g =>
  match m g with
  | (Ok a, g) => f a g
  | (Err e, g) => (Err e, g)
  | (Panic, g) => (Panic, g)
  end.

Definition fail {A} (e : GatewayError) : GM A := fun g => (Err e, g).
Definition lift {A} (r : GatewayResult A) : GM A := fun g => (r, g).
(** Reading a field of [self]. *)
Definition asks {A} (f : Gateway -> A) : GM A := fun g => (Ok (f g), g).
(** [match m.await { Ok(..) => .., Err(..) => .. }]. *)
Definition catch {A} (m : GM A) : GM (A + GatewayError) := fun g =>
  match m g with
  | (Ok a, g) => (Ok (inl a), g)
  | (Err e, g) => (Ok (inr e), g)
  | (Panic, g) => (Panic, g)
  end.

Definition on_backend {A} (f : B -> (A + GatewayError) * B) : GM A := fun g =>
  let '(r, b) := f (gw_backend g) in
  (match r with inl a => Ok a | inr e => Err e end,
   mk_gateway b (gw_secret_resolver g) (gw_clock g) (gw_entropy g) (gw_operations g) (gw_snapshot_cache g)
        (gw_snapshot_cache_max_entries g)).

Definition read_clock : GM Z := fun g =>
  let '(t, c) := clock_now_ms (gw_clock g) in
  (Ok t, mk_gateway (gw_backend g) (gw_secret_resolver g) c (gw_entropy g) (gw_operations g) (gw_snapshot_cache g)
           (gw_snapshot_cache_max_entries g)).

Definition random_bytes : GM (option (list Z)) := fun g =>
  let '(bs, r) := try_random_bytes (gw_entropy g) in
  (Ok bs, mk_gateway (gw_backend g) (gw_secret_resolver g) (gw_clock g) r (gw_operations g) (gw_snapshot_cache g)
            (gw_snapshot_cache_max_entries g)).

(** One access under the operation store's lock. *)
Definition on_operations {A} (f : OperationStore -> A * OperationStore) : GM A := fun g =>
  let '(a, s) := f (gw_operations g) in
  (Ok a, mk_gateway (gw_backend g) (gw_secret_resolver g) (gw_clock g) (gw_entropy g) s (gw_snapshot_cache g)
           (gw_snapshot_cache_max_entries g)).

(** One write under the cache's lock; an eviction loop that does not end is
    reported as [Panic] ([store_snapshot_refines]: it always ends). *)
Definition on_cache (f : SnapshotCache -> option SnapshotCache) : GM unit := fun g =>
  match f (gw_snapshot_cache g) with
  | Some c => (Ok tt, mk_gateway (gw_backend g) (gw_secret_resolver g) (gw_clock g) (gw_entropy g) (gw_operations g) c
                        (gw_snapshot_cache_max_entries g))
  | None => (Panic, g)
  end.

(** ** Operation tracking *)
Definition operation_prefix (kind : OperationKind) : string :=
  match kind with
  | DeriveAccount => "derive"
  | CheckDeployment => "check"
  | DeployAccount => "deploy"
  | Sign => "sign"
  | QueryAccountSnapshot => "snapshot"
  end.

Definition begin_operation (kind : OperationKind) : GM OperationStatus :=
  entropy ← random_bytes;
  entropy ← lift (ok_or entropy
    (gateway_error_new Code_Internal true (Some "OS entropy source unavailable: {error}")));
  id ← lift (map_err
    (fun _ => gateway_error_new Code_Internal false (Some "failed to generate operation id: {error}"))
    (operation_id_new (operation_prefix kind +:+ "-" +:+ hex_encode entropy)));
  let status := {| os_id := id; os_kind := kind; os_state := Op_Queued; os_provenance := None |} in
  now ← read_clock;
  _ ← on_operations (fun s => (tt, store_insert status now s));
  mret status.

Definition set_operation (id : OperationId) (kind : OperationKind) (state : OperationState)
    (provenance : option Provenance) : GM OperationStatus :=
  let status := {| os_id := id; os_kind := kind; os_state := state; os_provenance := provenance |} in
  now ← read_clock;
  _ ← on_operations (fun s => (tt, store_insert status now s));
  mret status.

Definition reject_operation (queued : OperationStatus) (error : GatewayError)
    (provenance : option Provenance) : GM unit :=
  _ ← set_operation (os_id queued) (os_kind queued) (Op_Rejected error) provenance;
  mret tt.

Inductive OperationLookupResult : Type :=
| Found (operation : OperationStatus) | Lookup_NotFound (operation_id : OperationId).

(** [Gateway::operation_status]. *)
Definition operation_status (id : OperationId) : GM OperationLookupResult :=
  now ← read_clock;
  found ← on_operations (store_get id now);
  mret (match found with Some operation => Found operation | None => Lookup_NotFound id end).

(** ** Request validation *)
Definition ensure_chain_matches (backend : B) (chain_id : ChainId) : GatewayResult unit :=
  if decide (chain_id <> backend_chain_id backend)
  then Err (gateway_error_new Code_ChainMismatch false
              (Some "request targets {}, gateway backend is configured for {}"))
  else Ok tt.

Definition validate_cache_policy (cache_policy : CachePolicy) : GatewayResult unit :=
  if ttl_ms cache_policy =? 0
  then Err (gateway_error_new Code_InvalidCachePolicy false
              (Some "cache ttl_ms must be greater than zero"))
  else Ok tt.

Definition validate_wait_mode (mode : DeployMode) : GatewayResult unit :=
  match mode with
  | SubmitOnly => Ok tt
  | WaitForAcceptance wait =>
      let invalid msg := Err (gateway_error_new Code_InvalidWaitPolicy false (Some msg)) in
      if poll_interval_ms wait <? MIN_WAIT_POLL_INTERVAL_MS
      then invalid "wait poll_interval_ms must be at least {MIN_WAIT_POLL_INTERVAL_MS}"
      else if MAX_WAIT_TIMEOUT_MS <? poll_interval_ms wait
      then invalid "wait poll_interval_ms must be at most {MAX_WAIT_TIMEOUT_MS}"
      else if timeout_ms wait =? 0
      then invalid "wait timeout_ms must be greater than zero"
      else if MAX_WAIT_TIMEOUT_MS <? timeout_ms wait
      then invalid "wait timeout_ms must be at most {MAX_WAIT_TIMEOUT_MS}"
      else Ok tt
  end.

(** [if request.tokens.len() > MAX_SNAPSHOT_TOKENS { .. }]. *)
Definition validate_token_count (tokens : list TrackedToken) : GatewayResult unit :=
  if (MAX_SNAPSHOT_TOKENS <? length tokens)%nat
  then Err (gateway_error_new Code_InvalidRequest false
              (Some "snapshot request tracks {} tokens (maximum {MAX_SNAPSHOT_TOKENS})"))
  else Ok tt.

(** [if let Err(error) = check { reject_operation(..); return Err(error) }]. *)
Definition guard_operation (queued : OperationStatus) (check : GatewayResult unit) : GM unit :=
  r ← catch (lift check);
  match r with
  | inl _ => mret tt
  | inr error => _ ← reject_operation queued error None; fail error
  end.

(** ** Snapshot queries *)
Record GatewayResponse (T : Type) : Type := mk_response { resp_operation : OperationStatus; resp_value : T }.
#[global] Arguments mk_response {T}.
#[global] Arguments resp_operation {T}.
#[global] Arguments resp_value {T}.

(** The loop over the tracked tokens. *)
Fixpoint fetch_balances (request : AccountSnapshotRequest) (tokens : list TrackedToken)
    : GM (list TokenBalanceSnapshot) :=
  match tokens with
  | [] => mret []
  | token :: tokens =>
      amount_raw ← on_backend (token_balance (req_address request) token (req_block request));
      balances ← fetch_balances request tokens;
      mret ({| tbs_token := token; tbs_amount_raw := amount_raw |} :: balances)
  end.

Definition fetch_snapshot (request : AccountSnapshotRequest) (generated_at_ms : Z) : GM AccountSnapshot :=
  deployed ← on_backend (check_deployed (req_address request) (req_block request));
  nonce ← (if deployed : bool
           then n ← on_backend (backend_nonce (req_address request) (req_block request)); mret (Some n)
           else mret None);
  balances ← fetch_balances request (req_tokens request);
  block ← catch (on_backend (block_metadata (req_block request)));
  let block := match block with
    | inl block => block
    | inr _ => {| sbm_selector := req_block request; sbm_block_hash := None; sbm_block_number := None |}
    end in
  mret {| snap_address := req_address request;
          snap_deployment := if deployed : bool then Dep_Deployed else Dep_Undeployed;
          snap_nonce := nonce; snap_balances := balances; snap_block := block;
          snap_cache := {| meta_status := Miss; meta_generated_at_ms := quantize_down generated_at_ms;
                           meta_age_ms := 0 |} |}.

Definition refresh_snapshot (queued : OperationStatus) (request : AccountSnapshotRequest)
    (key : SnapshotCacheKey) (cached : option SnapshotCacheEntry) (now_ms : Z)
    : GM (GatewayResponse AccountSnapshot) :=
  fetched ← catch (fetch_snapshot request now_ms);
  match fetched with
  | inl snapshot =>
      max_entries ← asks gw_snapshot_cache_max_entries;
      _ ← on_cache (store_snapshot key snapshot max_entries now_ms);
      status ← set_operation (os_id queued) (os_kind queued) Op_Completed None;
      mret (mk_response status snapshot)
  | inr error =>
      match stale_snapshot_fallback request cached now_ms with
      | Some value =>
          status ← set_operation (os_id queued) (os_kind queued) Op_Completed None;
          mret (mk_response status value)
      | None => _ ← reject_operation queued error None; fail error
      end
  end.

Definition query_account_snapshot (request : AccountSnapshotRequest)
    : GM (GatewayResponse AccountSnapshot) :=
  queued ← begin_operation QueryAccountSnapshot;
  _ ← set_operation (os_id queued) (os_kind queued) Op_Running None;
  backend ← asks gw_backend;
  _ ← guard_operation queued (ensure_chain_matches backend (req_chain_id request));
  _ ← guard_operation queued (validate_cache_policy (req_cache_policy request));
  _ ← guard_operation queued (validate_token_count (req_tokens request));
  let key := key_from_request request in
  now ← read_clock;
  cached ← asks (fun g => cache_entries (gw_snapshot_cache g) !! key);
  match cached_snapshot_response request cached now with
  | Some value =>
      status ← set_operation (os_id queued) (os_kind queued) Op_Completed None;
      mret (mk_response status value)
  | None => refresh_snapshot queued request key cached now
  end.

(** ** Reasoning about handlers *)

(** [wp m Q g]: running [m] from [g] ends in [Q]. *)
Definition wp {A} (m : GM A) (Q : GatewayResult A -> Gateway -> Prop) (g : Gateway) : Prop :=
  Q (fst (m g)) (snd (m g)).

Lemma wp_bind {A A'} (m : GM A) (f : A -> GM A') Q g :
  wp m (fun r g' => match r with
                    | Ok a => wp (f a) Q g' | Err e => Q (Err e) g' | Panic => Q Panic g'
                    end) g ->
  wp (m ≫= f) Q g.
Proof. unfold wp, mbind, GM_bind. by destruct (m g) as [[a|e|] g']. Qed.

Lemma wp_mono {A} (m : GM A) (Q Q' : GatewayResult A -> Gateway -> Prop) g :
  wp m Q g -> (forall r g', Q r g' -> Q' r g') -> wp m Q' g.
Proof. unfold wp. auto. Qed.

Lemma wp_catch {A} (m : GM A) Q g :
  wp m (fun r g' => match r with
                    | Ok a => Q (Ok (inl a)) g' | Err e => Q (Ok (inr e)) g' | Panic => Q Panic g'
                    end) g ->
  wp (catch m) Q g.
Proof. unfold wp, catch. by destruct (m g) as [[a|e|] g']. Qed.

(** ** The runtime invariant *)
Context `{!ClockLaws C}.
(** The retention policy the gateway was built with. *)
Context (retention : OperationRetentionPolicy).

(** A cache entry answers the requests that share its key. *)
Definition answers (key : SnapshotCacheKey) (entry : SnapshotCacheEntry) : Prop :=
  snap_address (entry_snapshot entry) = key_address key
  /\ map (fun b => cached_token (tbs_token b)) (snap_balances (entry_snapshot entry)) = key_tokens key.

Record gateway_ok (g : Gateway) : Prop := {
  go_clock : clock_ok (gw_clock g);
  go_store : store_ok (gw_operations g);
  go_retention : store_retention (gw_operations g) = retention;
  go_ceiling : gw_snapshot_cache_max_entries g = DEFAULT_SNAPSHOT_CACHE_MAX_ENTRIES;
  go_cache : exists l, represents (gw_snapshot_cache_max_entries g) (gw_snapshot_cache g) l;
  go_entries k e : cache_entries (gw_snapshot_cache g) !! k = Some e ->
    answers k e /\ 0 <= entry_generated_at_ms e <= clock_floor (gw_clock g) }.

Lemma go_max g : gateway_ok g -> (0 < gw_snapshot_cache_max_entries g)%nat.
Proof. intros Hg. rewrite (go_ceiling g Hg). unfold DEFAULT_SNAPSHOT_CACHE_MAX_ENTRIES. lia. Qed.

(** Room for [n] more insertions before the revision counter saturates. *)
Definition room (n : Z) (g : Gateway) : Prop := store_next_revision (gw_operations g) + n < u64_MAX.

(** The store holds this status. *)
Definition recorded (status : OperationStatus) (g : Gateway) : Prop :=
  exists e, store_entries (gw_operations g) !! os_id status = Some e /\ oe_status e = status.

(** Everything but the operation store and the clock is as before. *)
Definition same_cache (g g' : Gateway) : Prop :=
  gw_backend g' = gw_backend g /\ gw_secret_resolver g' = gw_secret_resolver g
  /\ gw_snapshot_cache g' = gw_snapshot_cache g
  /\ gw_snapshot_cache_max_entries g' = gw_snapshot_cache_max_entries g.

Lemma same_cache_trans g1 g2 g3 : same_cache g1 g2 -> same_cache g2 g3 -> same_cache g1 g3.
Proof. unfold same_cache. intuition congruence. Qed.

Lemma read_clock_spec g :
  gateway_ok g ->
  wp read_clock (fun r g' => exists t, r = Ok t /\ gateway_ok g' /\ same_cache g g'
    /\ gw_operations g' = gw_operations g
    /\ clock_floor (gw_clock g) <= t <= u64_MAX /\ clock_floor (gw_clock g') = t) g.
Proof.
  intros [Hc Hs Hret Hm Hl He]. unfold wp, read_clock.
  destruct (clock_read (gw_clock g) Hc) as (Hc' & Hb & Hf).
  destruct (clock_now_ms (gw_clock g)) as [t c]. cbn [fst snd] in *.
  exists t. split_and!; try done; try lia. split; try done.
  intros k e Hk. cbn [gw_snapshot_cache gw_clock] in *. destruct (He k e Hk). split; [done|lia].
Qed.

Lemma set_operation_spec id kind state provenance n g :
  gateway_ok g -> room (n + 1) g -> 0 <= n -> is_expired state = false ->
  wp (set_operation id kind state provenance) (fun r g' =>
    r = Ok (mk_OperationStatus id kind state provenance) /\ gateway_ok g' /\ same_cache g g'
    /\ room n g' /\ clock_floor (gw_clock g) <= clock_floor (gw_clock g')
    /\ recorded (mk_OperationStatus id kind state provenance) g') g.
Proof.
  intros Hg Hr Hn Hst. unfold set_operation. apply wp_bind.
  eapply wp_mono; [by apply read_clock_spec|]. intros r g1 (t & -> & Hg1 & Hsame & Hops & Ht & Hf).
  set (status := mk_OperationStatus id kind state provenance).
  unfold wp, mbind, GM_bind, on_operations, mret, GM_ret. cbn [fst snd].
  destruct Hg1 as [Hc Hs Hret Hm Hl He].
  assert (store_next_revision (gw_operations g1) < u64_MAX) as Hrev
    by (rewrite Hops; unfold room in Hr; lia).
  split; [done|]. split_and!; try done.
  - split; try done; cbn [gw_operations]; [by apply insert_status_prunable|].
    unfold store_insert. by rewrite (proj1 (prune_fields _ _)).
  - unfold room in *. cbn [gw_operations]. unfold store_insert.
    rewrite (proj2 (prune_fields _ _)), insert_status_next, Hops by done. lia.
  - cbn [gw_clock]. lia.
  - unfold recorded. cbn [gw_operations]. change id with (os_id status).
    rewrite lookup_store_insert by done. eauto.
Qed.

Lemma operation_id_well_formed kind suffix :
  operation_id_new (operation_prefix kind +:+ "-" +:+ suffix)
  = Ok (mk_OperationId (operation_prefix kind +:+ "-" +:+ suffix)).
Proof. by destruct kind. Qed.

(** The error of an entropy source that fails, and a state in which nothing but that
    source was asked. *)
Definition entropy_unavailable : GatewayError :=
  gateway_error_new Code_Internal true (Some "OS entropy source unavailable: {error}").
Definition only_entropy (g g' : Gateway) : Prop :=
  g' = mk_gateway (gw_backend g) (gw_secret_resolver g) (gw_clock g) (snd (try_random_bytes (gw_entropy g)))
         (gw_operations g) (gw_snapshot_cache g) (gw_snapshot_cache_max_entries g).

(** An operation is started exactly when there is entropy for its id. *)
Lemma begin_operation_spec kind n g :
  gateway_ok g -> room (n + 1) g -> 0 <= n ->
  wp (begin_operation kind) (fun r g' => gateway_ok g' /\ same_cache g g'
    /\ clock_floor (gw_clock g) <= clock_floor (gw_clock g')
    /\ match fst (try_random_bytes (gw_entropy g)) with
       | None => r = Err entropy_unavailable /\ only_entropy g g'
       | Some _ => exists status, r = Ok status /\ room n g' /\ os_kind status = kind /\ recorded status g'
       end) g.
Proof.
  intros Hg Hr Hn. unfold begin_operation, only_entropy. apply wp_bind.
  unfold wp at 1, random_bytes. destruct (try_random_bytes (gw_entropy g)) as [bs ent]. cbn [fst snd].
  set (g1 := mk_gateway _ _ _ _ _ _ _).
  assert (gateway_ok g1) as Hg1 by (destruct Hg; by split).
  apply wp_bind. unfold wp at 1, lift. cbn [fst snd].
  destruct bs as [bs|]; cbn [ok_or]; [|by split_and!].
  apply wp_bind. unfold wp at 1. rewrite operation_id_well_formed. cbn [map_err fst snd].
  eapply wp_mono.
  { by apply (set_operation_spec (mk_OperationId (operation_prefix kind +:+ "-" +:+ hex_encode bs))
      kind Op_Queued None n g1). }
  intros r g2 (-> & Hok & Hsame & Hroom & Hfl & Hrec). split_and!; try done. by eexists.
Qed.

(** Nothing but the backend moved. *)
Definition backend_only (g g' : Gateway) : Prop :=
  g' = mk_gateway (gw_backend g') (gw_secret_resolver g) (gw_clock g) (gw_entropy g) (gw_operations g) (gw_snapshot_cache g)
         (gw_snapshot_cache_max_entries g).

Lemma backend_only_trans g1 g2 g3 : backend_only g1 g2 -> backend_only g2 g3 -> backend_only g1 g3.
Proof. unfold backend_only. intros -> ->. done. Qed.

Lemma backend_only_refl g : backend_only g g.
Proof. by destruct g. Qed.

Lemma on_backend_answer {A} (f : B -> (A + GatewayError) * B) (g : Gateway) :
  wp (on_backend f) (fun r g' => backend_only g g'
    /\ match r with
       | Ok a => f (gw_backend g) = (inl a, gw_backend g')
       | Err e => f (gw_backend g) = (inr e, gw_backend g')
       | Panic => False
       end) g.
Proof. unfold wp, on_backend. destruct (f (gw_backend g)) as [[a|e] b] eqn:Hf; by split. Qed.

(** *** What the backend answers to a snapshot's questions

    The account's deployment, its nonce if it is deployed, each token's balance in the
    order asked, and the block; [b] and [b'] are the backend before and after. *)
Inductive balances_fetched (request : AccountSnapshotRequest)
    : list TrackedToken -> B -> list TokenBalanceSnapshot -> B -> Prop :=
| fetched_none b : balances_fetched request [] b [] b
| fetched_token token tokens b amount b1 balances b2 :
    token_balance (req_address request) token (req_block request) b = (inl amount, b1) ->
    balances_fetched request tokens b1 balances b2 ->
    balances_fetched request (token :: tokens) b ({| tbs_token := token; tbs_amount_raw := amount |} :: balances) b2.

Inductive balances_failed (request : AccountSnapshotRequest)
    : list TrackedToken -> B -> GatewayError -> B -> Prop :=
| failed_here token tokens b e b1 :
    token_balance (req_address request) token (req_block request) b = (inr e, b1) ->
    balances_failed request (token :: tokens) b e b1
| failed_later token tokens b amount b1 e b2 :
    token_balance (req_address request) token (req_block request) b = (inl amount, b1) ->
    balances_failed request tokens b1 e b2 -> balances_failed request (token :: tokens) b e b2.

Definition nonce_read (request : AccountSnapshotRequest) (deployed : bool) (b : B) (nonce : option FeltHex) (b' : B)
    : Prop :=
  if deployed then exists n, nonce = Some n /\ backend_nonce (req_address request) (req_block request) b = (inl n, b')
  else nonce = None /\ b' = b.

Definition fetched (request : AccountSnapshotRequest) (b : B) (s : AccountSnapshot) (b' : B) : Prop :=
  exists deployed b1 b2 b3,
    check_deployed (req_address request) (req_block request) b = (inl deployed, b1)
    /\ snap_deployment s = (if deployed then Dep_Deployed else Dep_Undeployed)
    /\ nonce_read request deployed b1 (snap_nonce s) b2
    /\ balances_fetched request (req_tokens request) b2 (snap_balances s) b3
    /\ snap_block s = match fst (block_metadata (req_block request) b3) with
                      | inl block => block
                      | inr _ => {| sbm_selector := req_block request; sbm_block_hash := None; sbm_block_number := None |}
                      end
    /\ b' = snd (block_metadata (req_block request) b3).

Definition fetch_failed (request : AccountSnapshotRequest) (b : B) (e : GatewayError) (b' : B) : Prop :=
  check_deployed (req_address request) (req_block request) b = (inr e, b')
  \/ exists deployed b1, check_deployed (req_address request) (req_block request) b = (inl deployed, b1)
      /\ ((deployed = true /\ backend_nonce (req_address request) (req_block request) b1 = (inr e, b'))
          \/ exists nonce b2, nonce_read request deployed b1 nonce b2
              /\ balances_failed request (req_tokens request) b2 e b').

Lemma balances_fetched_tokens request tokens b balances b' :
  balances_fetched request tokens b balances b' -> map tbs_token balances = tokens.
Proof. induction 1 as [|token tokens b amount b1 balances b2 _ _ IH]; [done|]. cbn. by rewrite IH. Qed.

Lemma fetch_balances_spec request tokens g :
  wp (fetch_balances request tokens) (fun r g' => backend_only g g' /\
    match r with
    | Ok balances => balances_fetched request tokens (gw_backend g) balances (gw_backend g')
    | Err e => balances_failed request tokens (gw_backend g) e (gw_backend g')
    | Panic => False
    end) g.
Proof.
  revert g; induction tokens as [|token tokens IH]; intros g; cbn [fetch_balances].
  { split; [apply backend_only_refl|constructor]. }
  apply wp_bind. eapply wp_mono; [apply on_backend_answer|]. intros [amount|e|] g1 [Hg1 Hp]; [| |done].
  2:{ split; [done|by constructor]. }
  apply wp_bind. eapply wp_mono; [apply IH|].
  intros [balances|e|] g2 [Hg2 Hb]; [| |done]; (split; [by eapply backend_only_trans|]);
    by econstructor.
Qed.

Lemma nonce_spec request (deployed : bool) g :
  wp (if deployed then n ← on_backend (backend_nonce (req_address request) (req_block request)); mret (Some n)
      else mret None) (fun r g' => backend_only g g' /\
    match r with
    | Ok nonce => nonce_read request deployed (gw_backend g) nonce (gw_backend g')
    | Err e => deployed = true /\ backend_nonce (req_address request) (req_block request) (gw_backend g) = (inr e, gw_backend g')
    | Panic => False
    end) g.
Proof.
  destruct deployed; [|by split; [apply backend_only_refl|]]. apply wp_bind.
  eapply wp_mono; [apply on_backend_answer|]. intros [n|e|] g1 [Hg1 Hp]; (split; [done|]); [by eexists|done|done].
Qed.

Lemma fetch_snapshot_spec request now g :
  wp (fetch_snapshot request now) (fun r g' => backend_only g g' /\
    match r with
    | Ok s => snap_address s = req_address request /\ fetched request (gw_backend g) s (gw_backend g')
              /\ snap_cache s = {| meta_status := Miss; meta_generated_at_ms := quantize_down now; meta_age_ms := 0 |}
    | Err e => fetch_failed request (gw_backend g) e (gw_backend g')
    | Panic => False
    end) g.
Proof.
  unfold fetch_snapshot. apply wp_bind. eapply wp_mono; [apply on_backend_answer|].
  intros [deployed|e|] g1 [Hg1 Hp]; [|by split; [|left]|done]. apply wp_bind.
  eapply wp_mono; [apply nonce_spec|]. intros [nonce|e|] g2 [Hg2 Hp2]; [| |done].
  2:{ split; [by eapply backend_only_trans|]. right. eexists _, _. split; [done|]. by left. }
  apply wp_bind. eapply wp_mono; [apply fetch_balances_spec|].
  intros [balances|e|] g3 [Hg3 Hb]; [| |done]; (assert (backend_only g g3) by
    (eapply backend_only_trans; [done|]; by eapply backend_only_trans)).
  2:{ split; [done|]. right. eexists _, _. split; [done|]. right. by eexists _, _. }
  apply wp_bind, wp_catch. eapply wp_mono; [apply on_backend_answer|].
  intros [block|e|] g4 [Hg4 Hp4]; [| |done]; (split; [by eapply backend_only_trans|]); cbn;
    (split; [done|]; split; [|done]); exists deployed, (gw_backend g1), (gw_backend g2), (gw_backend g3);
    cbn; rewrite Hp4; by split_and!.
Qed.

Lemma gateway_ok_backend g g' : gateway_ok g -> backend_only g g' -> gateway_ok g'.
Proof. intros [] ->. by split. Qed.

(** Storing an entry that answers its key, generated no later than the clock. *)
Lemma on_cache_spec key snapshot now g :
  gateway_ok g -> answers key (mk_entry now snapshot) -> 0 <= now <= clock_floor (gw_clock g) ->
  wp (on_cache (store_snapshot key snapshot (gw_snapshot_cache_max_entries g) now)) (fun r g' =>
    r = Ok tt /\ gateway_ok g' /\ gw_operations g' = gw_operations g /\ gw_clock g' = gw_clock g
    /\ gw_backend g' = gw_backend g
    /\ cache_entries (gw_snapshot_cache g') !! key = Some (mk_entry now snapshot)) g.
Proof.
  intros Hg Hans Hnow. pose proof (go_max g Hg) as Hm. destruct Hg as [Hc Hs Hret Hceil [l Hl] He].
  unfold wp, on_cache.
  destruct (store_snapshot_represents _ key snapshot now _ _ Hl) as (cache' & -> & Hl'). cbn [fst snd].
  pose proof Hl as (Hnd & _ & Hmap & Hlen). pose proof Hl' as (_ & _ & Hmap' & _).
  pose proof (fun k => fifo_put_lookup _ key (mk_entry now snapshot) l k Hnd Hlen Hm) as Hput.
  split; [done|]. split_and!; [|done|done|done|].
  - split; try done; cbn [gw_snapshot_cache gw_snapshot_cache_max_entries gw_clock]; [by eexists|].
    intros k e Hk. rewrite Hmap' in Hk. destruct (decide (k = key)) as [->|Hne].
    + rewrite (proj1 (Hput key)) in Hk. injection Hk as <-. done.
    + rewrite (proj2 (Hput k) Hne) in Hk. destruct (decide _); [|done]. apply He. by rewrite Hmap.
  - cbn [gw_snapshot_cache]. rewrite Hmap'. apply (Hput key).
Qed.

(** The store holds a rejection with this error. *)
Definition rejected (e : GatewayError) (g : Gateway) : Prop :=
  exists status, recorded status g /\ os_state status = Op_Rejected e.

Lemma reject_spec {A} queued e provenance n g :
  gateway_ok g -> room (n + 1) g -> 0 <= n ->
  wp (_ ← reject_operation queued e provenance; fail e : GM A)
     (fun r g' => r = Err e /\ gateway_ok g' /\ room n g' /\ rejected e g' /\ same_cache g g') g.
Proof.
  intros Hg Hr Hn. apply wp_bind. unfold reject_operation. apply wp_bind.
  eapply wp_mono; [by apply (set_operation_spec _ _ _ _ n)|].
  intros r g' (-> & Hok & Hsame & Hroom & _ & Hrec). split; [done|]. split_and!; [done|done| |done].
  eexists. by split.
Qed.

Lemma complete_spec {A} queued provenance (value : A) n g :
  gateway_ok g -> room (n + 1) g -> 0 <= n ->
  wp (status ← set_operation (os_id queued) (os_kind queued) Op_Completed provenance;
      mret (mk_response status value))
     (fun r g' => gateway_ok g' /\ room n g' /\ same_cache g g' /\ exists status,
        r = Ok (mk_response status value) /\ recorded status g' /\ os_state status = Op_Completed
        /\ os_kind status = os_kind queued) g.
Proof.
  intros Hg Hr Hn. apply wp_bind. eapply wp_mono; [by apply (set_operation_spec _ _ _ _ n)|].
  intros r g' (-> & Hok & Hsame & Hroom & _ & Hrec). split_and!; [done|done|done|]. eexists. by split_and!.
Qed.

Lemma guard_operation_spec queued check n g :
  gateway_ok g -> room (n + 1) g -> 0 <= n -> check <> Panic ->
  wp (guard_operation queued check) (fun r g' =>
    match r with
    | Ok _ => g' = g /\ check = Ok tt
    | Err e => check = Err e /\ gateway_ok g' /\ room n g' /\ rejected e g' /\ same_cache g g'
    | Panic => False
    end) g.
Proof.
  intros Hg Hr Hn Hp. unfold guard_operation. apply wp_bind, wp_catch. unfold wp at 1, lift. cbn [fst snd].
  destruct check as [[]|e|]; [done| |done].
  eapply wp_mono; [by apply (reject_spec _ _ _ n)|]. by intros r g' (-> & Hok & Hrej).
Qed.

(** ** The snapshot query *)

(** A reply is about what was asked. *)
Definition about (request : AccountSnapshotRequest) (s : AccountSnapshot) : Prop :=
  snap_address s = req_address request /\ map tbs_token (snap_balances s) = req_tokens request.

#[local] Instance cached_token_inj : Inj eq eq cached_token.
Proof. by intros [] [] [=->->->]. Qed.

Lemma about_answers request s now :
  about request s <-> answers (key_from_request request) (mk_entry now s).
Proof.
  unfold about, answers. cbn. rewrite <- (map_map tbs_token cached_token). split.
  - by intros [-> ->].
  - intros [-> Ht]. split; [done|]. by apply (inj (fmap cached_token)) in Ht.
Qed.

(** Where a reply came from: what the backend answers now, which is then cached; or a
    cache entry within its bounds, either without asking the backend or, stale, because the
    backend failed. *)
Definition sourced (request : AccountSnapshotRequest) (now : Z) (cached : option SnapshotCacheEntry)
    (b : B) (g' : Gateway) (s : AccountSnapshot) : Prop :=
  (meta_status (snap_cache s) = Miss
   /\ meta_generated_at_ms (snap_cache s) = quantize_down now
   /\ fetched request b s (gw_backend g')
   /\ cache_entries (gw_snapshot_cache g') !! key_from_request request = Some (mk_entry now s))
  \/ (exists entry, cached = Some entry /\ entry_generated_at_ms entry <= now /\ served request entry now s
      /\ (gw_backend g' = b
          \/ (meta_status (snap_cache s) = Stale /\ exists e, fetch_failed request b e (gw_backend g')))).

(** A refusal of the backend, which no cache entry could cover. *)
Definition unfetched (request : AccountSnapshotRequest) (since : Z) (cached : option SnapshotCacheEntry) (b : B)
    (e : GatewayError) (g' : Gateway) : Prop :=
  fetch_failed request b e (gw_backend g')
  /\ exists now, since <= now <= u64_MAX /\ stale_snapshot_fallback request cached now = None.

Lemma served_about request entry now s :
  answers (key_from_request request) entry -> served request entry now s -> about request s.
Proof.
  destruct entry as [t [a d n bs b c]], s as [a' d' n' bs' b' c'].
  intros Hans (Hbody & _). cbn in Hbody. injection Hbody as -> -> -> -> ->.
  by apply (about_answers request (mk_AccountSnapshot a d n bs b c) t).
Qed.

Lemma fallback_stale request cached now value :
  stale_snapshot_fallback request cached now = Some value -> meta_status (snap_cache value) = Stale.
Proof.
  unfold stale_snapshot_fallback. destruct cached as [entry|]; [|done]. cbn [mbind option_bind].
  destruct (_ <=? _); [|done]. by intros [= <-].
Qed.

Lemma refresh_snapshot_spec queued request cached now n g :
  gateway_ok g -> room (n + 1) g -> 0 <= n -> 0 <= now <= u64_MAX -> clock_floor (gw_clock g) = now ->
  (forall e, cached = Some e -> answers (key_from_request request) e /\ entry_generated_at_ms e <= now) ->
  wp (refresh_snapshot queued request (key_from_request request) cached now) (fun r g' =>
    gateway_ok g' /\ room n g' /\
    match r with
    | Ok resp => recorded (resp_operation resp) g' /\ os_state (resp_operation resp) = Op_Completed
        /\ os_kind (resp_operation resp) = os_kind queued
        /\ about request (resp_value resp) /\ sourced request now cached (gw_backend g) g' (resp_value resp)
    | Err e => rejected e g' /\ unfetched request now cached (gw_backend g) e g'
    | Panic => False
    end) g.
Proof.
  intros Hg Hr Hn Hnow Hfl Hcached. unfold refresh_snapshot. apply wp_bind, wp_catch.
  eapply wp_mono; [apply fetch_snapshot_spec|].
  intros [s|e|] g1 [Hb Hs]; [| |done]; pose proof (gateway_ok_backend _ _ Hg Hb) as Hg1;
    (assert (room (n + 1) g1) as Hr1 by by rewrite Hb).
  - destruct Hs as (Ha & Hf & Hmeta). pose proof Hf as (deployed & b1 & b2 & b3 & _ & _ & _ & Ht%balances_fetched_tokens & _).
    apply wp_bind. unfold wp at 1, asks. cbn [fst snd].
    apply wp_bind.
    eapply wp_mono; [apply on_cache_spec; [done|by apply about_answers|rewrite Hb; cbn; lia]|].
    intros r g2 (-> & Hg2 & Hops & _ & Hb2 & Hlook).
    eapply wp_mono; [apply (complete_spec _ _ _ n); [done|unfold room in *; by rewrite Hops|done]|].
    intros r g3 (Hg3 & Hr3 & (Hb3 & _ & Hsame & _) & status & -> & Hrec & Hst & Hk). cbn. split_and!; try done.
    left. rewrite Hmeta, Hsame, Hb3, Hb2. by split_and!.
  - destruct (stale_snapshot_fallback request cached now) as [value|] eqn:Hstale.
    + pose proof (fallback_stale _ _ _ _ Hstale) as Hmeta.
      destruct cached as [entry|]; [|done]. destruct (Hcached entry eq_refl) as [Hans Hge].
      pose proof (stale_snapshot_fallback_served _ _ _ _ (proj2 Hnow) Hstale) as Hserved.
      eapply wp_mono; [by apply (complete_spec _ _ _ n)|].
      intros r g3 (Hg3 & Hr3 & (Hb3 & _) & status & -> & Hrec & Hst & Hk). cbn.
      split_and!; try done; [by eapply served_about|]. right. exists entry. split_and!; try done.
      right. rewrite Hb3. split; [done|by exists e].
    + eapply wp_mono; [by apply (reject_spec _ _ _ n)|]. intros r g3 (-> & Hg3 & Hr3 & Hrej & Hb3 & _).
      split_and!; try done. unfold unfetched. rewrite Hb3. split; [done|]. exists now. split; [lia|done].
Qed.

Lemma checks_total backend chain policy tokens :
  ensure_chain_matches backend chain <> Panic /\ validate_cache_policy policy <> Panic
  /\ validate_token_count tokens <> Panic.
Proof.
  unfold ensure_chain_matches, validate_cache_policy, validate_token_count.
  by destruct (decide _), (_ =? _), (_ <? _)%nat.
Qed.

(** The requests that are looked at, and the codes under which the others are refused. *)
Definition query_valid (request : AccountSnapshotRequest) (chain : ChainId) : Prop :=
  req_chain_id request = chain /\ ttl_ms (req_cache_policy request) <> 0
  /\ (length (req_tokens request) <= MAX_SNAPSHOT_TOKENS)%nat.

Definition query_invalid (request : AccountSnapshotRequest) (chain : ChainId) (e : GatewayError) : Prop :=
  (req_chain_id request <> chain /\ err_code e = Code_ChainMismatch)
  \/ (ttl_ms (req_cache_policy request) = 0 /\ err_code e = Code_InvalidCachePolicy)
  \/ ((MAX_SNAPSHOT_TOKENS < length (req_tokens request))%nat /\ err_code e = Code_InvalidRequest).

(** What the query promises of its result and of the state it leaves. *)
Definition query_post (request : AccountSnapshotRequest) (g : Gateway)
    (r : GatewayResult (GatewayResponse AccountSnapshot)) (g' : Gateway) : Prop :=
  let cached := cache_entries (gw_snapshot_cache g) !! key_from_request request in
  gateway_ok g' /\
  match fst (try_random_bytes (gw_entropy g)) with
  | None => r = Err entropy_unavailable /\ only_entropy g g'
  | Some _ =>
      match r with
      | Ok resp =>
          query_valid request (backend_chain_id (gw_backend g))
          /\ recorded (resp_operation resp) g' /\ os_state (resp_operation resp) = Op_Completed
          /\ os_kind (resp_operation resp) = QueryAccountSnapshot
          /\ about request (resp_value resp)
          /\ exists now, clock_floor (gw_clock g) <= now <= u64_MAX
              /\ sourced request now cached (gw_backend g) g' (resp_value resp)
      | Err e => rejected e g'
          /\ ((query_invalid request (backend_chain_id (gw_backend g)) e /\ gw_backend g' = gw_backend g)
              \/ (query_valid request (backend_chain_id (gw_backend g)) /\ unfetched request (clock_floor (gw_clock g)) cached (gw_backend g) e g'))
      | Panic => False
      end
  end.

Lemma query_body_spec request queued n g :
  gateway_ok g -> room (n + 1) g -> 0 <= n -> os_kind queued = QueryAccountSnapshot ->
  let key := key_from_request request in
  wp (now ← read_clock;
      cached ← asks (fun g => cache_entries (gw_snapshot_cache g) !! key);
      match cached_snapshot_response request cached now with
      | Some value =>
          status ← set_operation (os_id queued) (os_kind queued) Op_Completed None;
          mret (mk_response status value)
      | None => refresh_snapshot queued request key cached now
      end) (fun r g' => gateway_ok g' /\ room n g' /\
    match r with
    | Ok resp => recorded (resp_operation resp) g' /\ os_state (resp_operation resp) = Op_Completed
        /\ os_kind (resp_operation resp) = QueryAccountSnapshot /\ about request (resp_value resp)
        /\ exists now, clock_floor (gw_clock g) <= now <= u64_MAX
          /\ sourced request now (cache_entries (gw_snapshot_cache g) !! key) (gw_backend g) g' (resp_value resp)
    | Err e => rejected e g'
        /\ unfetched request (clock_floor (gw_clock g)) (cache_entries (gw_snapshot_cache g) !! key) (gw_backend g) e g'
    | Panic => False
    end) g.
Proof.
  intros Hg Hr Hn Hk key. apply wp_bind. eapply wp_mono; [by apply read_clock_spec|].
  intros r g1 (now & -> & Hg1 & (Hb1 & _ & Hc & _) & Hops & Hnow & Hfl).
  assert (room (n + 1) g1) as Hr1 by (unfold room in *; by rewrite Hops).
  pose proof (clock_floor_nonneg _ (go_clock g Hg)) as Hpos.
  apply wp_bind. unfold wp at 1, asks. cbn [fst snd]. rewrite Hc.
  set (cached := cache_entries (gw_snapshot_cache g) !! key).
  assert (forall e, cached = Some e -> answers key e /\ entry_generated_at_ms e <= now) as Hcached.
  { intros e He. destruct (go_entries g Hg key e He). split; [done|lia]. }
  destruct (cached_snapshot_response request cached now) as [value|] eqn:Hresp.
  - destruct cached as [entry|]; [|done]. destruct (Hcached entry eq_refl) as [Hans Hge].
    pose proof (cached_snapshot_response_served _ _ _ _ (proj2 Hnow) Hresp) as Hserved.
    eapply wp_mono; [by apply (complete_spec _ _ _ n)|].
    intros r g2 (Hg2 & Hr2 & (Hb2 & _) & status & -> & Hrec & Hst & Hk2). cbn. split_and!; try done; [congruence| |].
    + by eapply served_about.
    + exists now. split; [done|]. right. exists entry. split_and!; try done. left. congruence.
  - eapply wp_mono; [apply (refresh_snapshot_spec _ _ _ _ n); try done; lia|]. rewrite Hb1.
    intros [resp|e|] g2 (Hg2 & Hr2 & Hpost); [| |done].
    + destruct Hpost as (? & ? & Hk2 & ? & ?). split_and!; try done; [congruence|]. eauto.
    + destruct Hpost as (? & Hf & t & Ht & Hs). split_and!; try done. split; [done|]. exists t. split; [lia|done].
Qed.

Lemma room_le m n g : n <= m -> room m g -> room n g.
Proof. unfold room. lia. Qed.

(** A guard that refuses says why, and asks nobody. *)
Lemma guards_refuse request (g : Gateway) e :
  let chain := backend_chain_id (gw_backend g) in
  ensure_chain_matches (gw_backend g) (req_chain_id request) = Err e
  \/ validate_cache_policy (req_cache_policy request) = Err e
  \/ validate_token_count (req_tokens request) = Err e -> query_invalid request chain e.
Proof.
  unfold ensure_chain_matches, validate_cache_policy, validate_token_count, query_invalid.
  intros [Hc|[Hc|Hc]].
  - left. destruct (decide _) as [Hne|]; [|done]. by injection Hc as <-.
  - right; left. destruct (Z.eqb_spec (ttl_ms (req_cache_policy request)) 0); [|done]. by injection Hc as <-.
  - right; right. destruct (Nat.ltb_spec MAX_SNAPSHOT_TOKENS (length (req_tokens request))); [|done]. by injection Hc as <-.
Qed.

Lemma guards_pass request (g : Gateway) :
  ensure_chain_matches (gw_backend g) (req_chain_id request) = Ok tt ->
  validate_cache_policy (req_cache_policy request) = Ok tt -> validate_token_count (req_tokens request) = Ok tt ->
  query_valid request (backend_chain_id (gw_backend g)).
Proof.
  unfold ensure_chain_matches, validate_cache_policy, validate_token_count, query_valid.
  destruct (decide _) as [|Hch]; [done|].
  destruct (Z.eqb_spec (ttl_ms (req_cache_policy request)) 0); [done|].
  destruct (Nat.ltb_spec MAX_SNAPSHOT_TOKENS (length (req_tokens request))); [done|].
  intros _ _ _. split_and!; [by apply dec_stable|done|done].
Qed.

Lemma query_account_snapshot_spec request n g :
  gateway_ok g -> room (n + 3) g -> 0 <= n ->
  wp (query_account_snapshot request) (fun r g' => room n g' /\ query_post request g r g') g.
Proof.
  intros Hg Hr Hn. unfold query_account_snapshot, query_post. apply wp_bind.
  eapply wp_mono; [apply (begin_operation_spec _ (n + 2)); [done|eapply room_le, Hr; lia|lia]|].
  intros r g1 (Hg1 & (Hb1 & _ & Hc1 & _) & Hf1 & Hpost).
  destruct (fst (try_random_bytes (gw_entropy g))) as [bs|].
  2:{ destruct Hpost as [-> Hg']. split_and!; try done. rewrite Hg'. unfold room in *. cbn. lia. }
  destruct Hpost as (queued & -> & Hr1 & Hk & _). apply wp_bind.
  eapply wp_mono; [apply (set_operation_spec _ _ _ _ (n + 1)); [done|eapply room_le, Hr1; lia|lia|done]|].
  intros r g2 (-> & Hg2 & (Hb2 & _ & Hc2 & _) & Hr2 & Hf2 & _).
  assert (gw_backend g2 = gw_backend g) as Hb by congruence.
  destruct (checks_total (gw_backend g2) (req_chain_id request) (req_cache_policy request) (req_tokens request))
    as (Hp1 & Hp2 & Hp3).
  rewrite <- Hc1, <- Hc2, <- Hb. clear Hb1 Hb2 Hb.
  apply wp_bind. unfold wp at 1, asks. cbn [fst snd].
  apply wp_bind. eapply wp_mono; [by apply (guard_operation_spec _ _ n)|].
  intros [[]|e|] g3; [intros [-> Hchain]| |done].
  2:{ intros (Hc & ? & ? & ? & ? & _). split_and!; try done. left. split; [apply (guards_refuse request g2 e); tauto|done]. }
  apply wp_bind. eapply wp_mono; [by apply (guard_operation_spec _ _ n)|].
  intros [[]|e|] g4; [intros [-> Hpol]| |done].
  2:{ intros (Hc & ? & ? & ? & ? & _). split_and!; try done. left. split; [apply (guards_refuse request g2 e); tauto|done]. }
  apply wp_bind. eapply wp_mono; [by apply (guard_operation_spec _ _ n)|].
  intros [[]|e|] g5; [intros [-> Htok]| |done].
  2:{ intros (Hc & ? & ? & ? & ? & _). split_and!; try done. left. split; [apply (guards_refuse request g2 e); tauto|done]. }
  pose proof (guards_pass request g2 Hchain Hpol Htok) as Hvalid.
  eapply wp_mono; [by apply (query_body_spec _ _ n)|].
  intros [resp|e|] g6 (Hg6 & Hr6 & Hpost); [| |done].
  - destruct Hpost as (Hrec & Hst & Hk6 & Habout & now & Hnow & Hsrc).
    split; [done|]. split; [done|]. split_and!; try done. exists now. split; [lia|done].
  - destruct Hpost as (Hrej & Hf & t & Ht & Hs). split_and!; try done. right. split; [done|].
    split; [done|]. exists t. split; [lia|done].
Qed.

Lemma operation_status_spec id n g :
  gateway_ok g -> room n g ->
  wp (operation_status id) (fun r g' => gateway_ok g' /\ room n g' /\ same_cache g g' /\ exists now,
    clock_floor (gw_clock g) <= now
    /\ r = Ok (match store_entries (gw_operations g) !! id with
               | Some e => Found (if ret_ttl_ms (store_retention (gw_operations g))
                                     <? u64_saturating_sub now (oe_updated_at_ms e)
                                  then set_state (oe_status e) Op_Expired else oe_status e)
               | None => Lookup_NotFound id
               end)) g.
Proof.
  intros Hg Hr. unfold operation_status. apply wp_bind. eapply wp_mono; [by apply read_clock_spec|].
  intros r g1 (now & -> & Hg1 & Hsame & Hops & Hnow & Hfl).
  unfold wp, mbind, GM_bind, on_operations, mret, GM_ret.
  pose proof (store_get_status id now (gw_operations g1) (go_store g1 Hg1)) as [Hok Hget].
  pose proof (prune_fields now (gw_operations g1)) as [Hret Hrev].
  change (prune now (gw_operations g1)) with (snd (store_get id now (gw_operations g1))) in Hrev, Hret.
  destruct (store_get id now (gw_operations g1)) as [found store']. cbn [fst snd] in *.
  split_and!.
  - destruct Hg1. split; try done. cbn. congruence.
  - unfold room in *. cbn. by rewrite Hrev, Hops.
  - done.
  - exists now. split; [lia|]. rewrite Hget, Hops. by destruct (store_entries (gw_operations g) !! id).
Qed.

(** ** A new gateway *)

(** [OperationRetentionPolicy]'s documented invariant. *)
Definition retention_ok : Prop := 0 < ret_ttl_ms retention /\ (0 < ret_max_entries retention)%nat.

Lemma with_clock_ok backend secret_resolver clock entropy :
  retention_ok -> clock_ok clock ->
  gateway_ok (with_clock_and_retention backend secret_resolver clock entropy retention).
Proof.
  intros [Ht Hm] Hc. split; try done.
  - apply store_new_ok; cbn; lia.
  - exists []. apply cache_default_represents.
Qed.

End gateway.

(** A deploy wait mode is accepted exactly when the poll interval is between 250 ms and 15
    minutes and the timeout positive and at most 15 minutes; every refusal is InvalidWaitPolicy
    and not retryable. *)
Theorem validate_wait_mode_bounds mode :
  (validate_wait_mode mode = Ok tt <->
   match mode with
   | SubmitOnly => True
   | WaitForAcceptance w =>
       MIN_WAIT_POLL_INTERVAL_MS <= poll_interval_ms w <= MAX_WAIT_TIMEOUT_MS
       /\ timeout_ms w <> 0 /\ timeout_ms w <= MAX_WAIT_TIMEOUT_MS
   end)
  /\ (forall e, validate_wait_mode mode = Err e -> err_code e = Code_InvalidWaitPolicy /\ err_retryable e = false)
  /\ validate_wait_mode mode <> Panic.
Proof.
  destruct mode as [|w]; [done|]. unfold validate_wait_mode.
  destruct (Z.ltb_spec (poll_interval_ms w) MIN_WAIT_POLL_INTERVAL_MS),
    (Z.ltb_spec MAX_WAIT_TIMEOUT_MS (poll_interval_ms w)), (Z.eqb_spec (timeout_ms w) 0),
    (Z.ltb_spec MAX_WAIT_TIMEOUT_MS (timeout_ms w));
    (split_and!; [split; intros; first [done|lia]|by intros ? [= <-]|done]).
Qed.
