(* ===== verification/GatewayAccounts.v ===== *)
(** * Account flows

    crates/gateway/src/accounts.rs and [derive_account_descriptor] of gateway.rs:
    derive an account, check its deployment, deploy it.  The secret resolver
    (types.rs) and the backend's deploy call (backend/interface.rs) are the
    interfaces [SecretResolver] and [DeployBackend]. *)

From stdpp Require Import base option list numbers strings gmap.
From Stdlib Require Import ZArith Lia.
From S2P Require Import Prelude StarkLib Types Scalar TxHash Text Domain Primitives StarkSigning AccountClass.
From S2P Require Import Requests GatewayErrors GatewayClasses Clock SnapshotCache OperationStore Gateway.

#[local] Open Scope string_scope.
#[local] Open Scope list_scope.
#[local] Open Scope Z_scope.

(** ** The trusted boundary *)

(** [trait SecretResolver]: a [SecretFelt] is the field element it guards. *)
Class SecretResolver `{StarkTypes} (S : Type) : Type := {
  resolve_private_key : SecretRef -> KeyDomain -> DerivationPath -> S -> (Felt + GatewayError) * S;
  resolve_nostr_private_key : SecretRef -> DerivationPath -> S -> (list Z + GatewayError) * S }.

(** The provided body of [resolve_nostr_private_key]. *)
Definition resolve_nostr_unsupported {S} (_ : SecretRef) (_ : DerivationPath) (s : S) : (list Z + GatewayError) * S :=
  (inr (gateway_error_new Code_UnsupportedKeyDomain false
          (Some "secret resolver does not support Nostr private keys")), s).

Inductive DeployExecution : Type :=
| AlreadyDeployedExec | SubmittedExec (tx_hash : FeltHex) | AcceptedExec (tx_hash : FeltHex).

(** [GatewayBackend::deploy_open_zeppelin]. *)
Class DeployBackend `{StarkTypes} (B : Type) : Type := {
  deploy_open_zeppelin : Felt -> AccountDescriptor -> DeployMode -> B -> (DeployExecution + GatewayError) * B }.

Section accounts.
Context `{StarkLib.StarkTypes, !StarkCrypto, !FeltExtras, !FeltFromHex, !HexCodec}.
Context {B S C R : Type} `{!GatewayBackend B, !DeployBackend B, !SecretResolver S, !Clock C, !Entropy R}.

Abbreviation GM := (@GM B S C R).
Abbreviation Gateway := (@Gateway B S C R).

(** A call of the secret resolver. *)
Definition on_resolver {A} (f : S -> (A + GatewayError) * S) : GM A := fun g =>
  let '(r, s) := f (gw_secret_resolver g) in
  (match r with inl a => Ok a | inr e => Err e end,
   mk_gateway (gw_backend g) s (gw_clock g) (gw_entropy g) (gw_operations g) (gw_snapshot_cache g)
     (gw_snapshot_cache_max_entries g)).

Definition derive_public_key (private_key : Felt) : GatewayResult Felt :=
  map_err map_kms_error (stark_public_key private_key).

Definition derive_account_descriptor (request : DerivationRequest) : GM (Felt * AccountDescriptor) :=
  backend ← asks gw_backend;
  _ ← lift (ensure_chain_matches backend (dr_chain_id request));
  _ ← lift (map_err map_domain_error (derivation_request_validate request));
  _ ← lift (reject_if (bool_decide (dr_key_domain request <> StarknetAccount))
        (gateway_error_new Code_UnsupportedKeyDomain false
           (Some "derive/check/deploy gateway flows currently require {:?}, got {:?}")));
  private_key ← on_resolver (resolve_private_key (dr_secret request) (dr_key_domain request) (dr_path request));
  public_key ← lift (derive_public_key private_key);
  account_class ← lift (resolve_account_class (dr_account_class request) (dr_chain_id request));
  salt_policy ← lift (to_salt_policy (dr_salt_policy request));
  let salt := salt_resolve salt_policy public_key in
  let class_hash := resolved_class_hash account_class in
  let constructor_calldata := resolved_constructor_calldata account_class public_key in
  address ← lift (map_err map_kms_error (resolved_calculate_address account_class public_key salt_policy));
  mret (private_key,
    {| ad_address := felt_hex_from_felt address;
       ad_public_key := felt_hex_from_felt public_key;
       ad_class_hash := felt_hex_from_felt class_hash;
       ad_salt := felt_hex_from_felt salt;
       ad_constructor_calldata := map felt_hex_from_felt constructor_calldata;
       ad_deployer_address := felt_hex_from_felt (felt_of_Z 0);
       ad_provenance :=
         {| prov_chain_id := dr_chain_id request; prov_key_domain := dr_key_domain request;
            prov_derivation_path := dr_path request;
            prov_class_hash := Some (felt_hex_from_felt class_hash) |} |}).

(** [set_operation(..)] followed by [Ok(GatewayResponse { operation, value })]. *)
Definition respond {A} (queued : OperationStatus) (state : OperationState) (provenance : option Provenance)
    (value : A) : GM (GatewayResponse A) :=
  status ← set_operation (os_id queued) (os_kind queued) state provenance;
  mret (mk_response status value).

(** [reject_operation(..)] followed by [Err(error)]. *)
Definition refuse {A} (queued : OperationStatus) (error : GatewayError) (provenance : option Provenance) : GM A :=
  _ ← reject_operation queued error provenance; fail error.

Definition derive_account (request : DerivationRequest) : GM (GatewayResponse AccountDescriptor) :=
  queued ← begin_operation DeriveAccount;
  _ ← set_operation (os_id queued) (os_kind queued) Op_Running None;
  derived ← catch (derive_account_descriptor request);
  match derived with
  | inl (_, account) => respond queued Op_Completed (Some (ad_provenance account)) account
  | inr error => refuse queued error None
  end.

Definition check_deployment (request : DerivationRequest) : GM (GatewayResponse CheckDeploymentResult) :=
  queued ← begin_operation CheckDeployment;
  _ ← set_operation (os_id queued) (os_kind queued) Op_Running None;
  derived ← catch (derive_account_descriptor request);
  match derived with
  | inl (_, account) =>
      deployed ← catch (on_backend (check_deployed (ad_address account) Block_Latest));
      match deployed with
      | inl true =>
          respond queued Op_Completed (Some (ad_provenance account))
            {| cd_account := account; cd_deployment := Dep_Deployed |}
      | inl false =>
          respond queued Op_Completed (Some (ad_provenance account))
            {| cd_account := account; cd_deployment := Dep_Undeployed |}
      | inr error => refuse queued error (Some (ad_provenance account))
      end
  | inr error => refuse queued error None
  end.

Definition deploy_account (request : DeployAccountRequest) : GM (GatewayResponse DeployAccountResult) :=
  queued ← begin_operation DeployAccount;
  _ ← set_operation (os_id queued) (os_kind queued) Op_Running None;
  _ ← guard_operation queued (validate_wait_mode (da_mode request));
  derived ← catch (derive_account_descriptor (da_derivation request));
  match derived with
  | inl (private_key, account) =>
      if decide (spec_kind (dr_account_class (da_derivation request)) <> Kind_OpenZeppelin) then
        refuse queued (gateway_error_new Code_UnsupportedAccountClass false
                         (Some "deploy_account currently supports OpenZeppelin accounts only"))
          (Some (ad_provenance account))
      else
        executed ← catch (on_backend (deploy_open_zeppelin private_key account (da_mode request)));
        match executed with
        | inl AlreadyDeployedExec =>
            respond queued Op_Completed (Some (ad_provenance account))
              {| dar_account := account; dar_deployment := Dep_Deployed; dar_already_deployed := true |}
        | inl (SubmittedExec tx_hash) =>
            respond queued (Op_Submitted tx_hash) (Some (ad_provenance account))
              {| dar_account := account; dar_deployment := Dep_Deploying tx_hash; dar_already_deployed := false |}
        | inl (AcceptedExec tx_hash) =>
            respond queued (Op_Accepted tx_hash) (Some (ad_provenance account))
              {| dar_account := account; dar_deployment := Dep_Deployed; dar_already_deployed := false |}
        | inr error => refuse queued error (Some (ad_provenance account))
        end
  | inr error => refuse queued error None
  end.

(** ** What the flows promise *)

(** The descriptor is that of [key]: its address is the contract address of the
    salt, class and constructor it lists, deployed from address zero. *)
Definition describes (request : DerivationRequest) (key : Felt) (d : AccountDescriptor) : Prop :=
  exists public_key account_class salt_policy address,
    stark_public_key key = Ok public_key
    /\ resolve_account_class (dr_account_class request) (dr_chain_id request) = Ok account_class
    /\ to_salt_policy (dr_salt_policy request) = Ok salt_policy
    /\ calculate_contract_address (salt_resolve salt_policy public_key) (resolved_class_hash account_class)
         (resolved_constructor_calldata account_class public_key) (felt_of_Z 0) = Ok address
    /\ ad_address d = felt_hex_from_felt address
    /\ ad_public_key d = felt_hex_from_felt public_key
    /\ ad_class_hash d = felt_hex_from_felt (resolved_class_hash account_class)
    /\ ad_salt d = felt_hex_from_felt (salt_resolve salt_policy public_key)
    /\ ad_constructor_calldata d = map felt_hex_from_felt (resolved_constructor_calldata account_class public_key)
    /\ ad_deployer_address d = felt_hex_from_felt (felt_of_Z 0)
    /\ ad_provenance d = {| prov_chain_id := dr_chain_id request; prov_key_domain := dr_key_domain request;
                            prov_derivation_path := dr_path request; prov_class_hash := Some (ad_class_hash d) |}.

(** The requests a gateway on [chain] derives, given the resolver's answer. *)
Definition derivable (request : DerivationRequest) (chain : ChainId) (answer : Felt + GatewayError) : Prop :=
  dr_chain_id request = chain /\ dr_key_domain request = StarknetAccount /\ coin_type (dr_path request) = 9004
  /\ (exists key, answer = inl key /\ 1 <= felt_val key < CurveOrder)
  /\ exists c, resolve_account_class (dr_account_class request) (dr_chain_id request) = Ok c.

(** What the resolver answers to the request in state [g]. *)
Definition resolver_answer (request : DerivationRequest) (g : Gateway) : Felt + GatewayError :=
  fst (resolve_private_key (dr_secret request) (dr_key_domain request) (dr_path request) (gw_secret_resolver g)).

(** A tracked handler's reply: the operation in it is the one on record, and a
    refusal is on record with the error it returns.  Without entropy for an id no
    operation is started, and nothing is touched. *)
Definition tracked_post {A} (kind : OperationKind) (good : GatewayResponse A -> Gateway -> Prop) (bad : GatewayError -> Gateway -> Prop)
    (g : Gateway) (r : GatewayResult (GatewayResponse A)) (g' : Gateway) : Prop :=
  match fst (try_random_bytes (gw_entropy g)) with
  | None => r = Err entropy_unavailable /\ only_entropy g g'
  | Some _ =>
      match r with
      | Ok resp => recorded (resp_operation resp) g' /\ os_kind (resp_operation resp) = kind /\ good resp g'
      | Err e => rejected e g' /\ bad e g'
      | Panic => False
      end
  end.

(** [derive_account]'s promise; the backend is not asked. *)
Definition derive_good (request : DerivationRequest) (g : Gateway) (resp : GatewayResponse AccountDescriptor)
    (g' : Gateway) : Prop :=
  let account := resp_value resp in
  gw_backend g' = gw_backend g /\
  derivable request (backend_chain_id (gw_backend g)) (resolver_answer request g)
  /\ (exists key, resolver_answer request g = inl key /\ describes request key account)
  /\ os_state (resp_operation resp) = Op_Completed
  /\ os_provenance (resp_operation resp) = Some (ad_provenance account).

Definition derive_bad (request : DerivationRequest) (g : Gateway) (_ : GatewayError) (g' : Gateway) : Prop :=
  gw_backend g' = gw_backend g /\
  ~ derivable request (backend_chain_id (gw_backend g)) (resolver_answer request g).

(** [check_deployment]'s promise: the state is what the backend says of the
    derived address at the latest block. *)
Definition check_good (request : DerivationRequest) (g : Gateway) (resp : GatewayResponse CheckDeploymentResult)
    (g' : Gateway) : Prop :=
  let account := cd_account (resp_value resp) in
  derivable request (backend_chain_id (gw_backend g)) (resolver_answer request g)
  /\ (exists key, resolver_answer request g = inl key /\ describes request key account)
  /\ (exists deployed, check_deployed (ad_address account) Block_Latest (gw_backend g) = (inl deployed, gw_backend g')
        /\ cd_deployment (resp_value resp) = if deployed : bool then Dep_Deployed else Dep_Undeployed)
  /\ os_state (resp_operation resp) = Op_Completed
  /\ os_provenance (resp_operation resp) = Some (ad_provenance account).

(** The requests that reach the backend's deploy call. *)
Definition deployable (request : DeployAccountRequest) (g : Gateway) : Prop :=
  validate_wait_mode (da_mode request) = Ok tt
  /\ derivable (da_derivation request) (backend_chain_id (gw_backend g)) (resolver_answer (da_derivation request) g)
  /\ spec_kind (dr_account_class (da_derivation request)) = Kind_OpenZeppelin.

(** How a deploy execution is reported. *)
Definition reported (ex : DeployExecution) (resp : GatewayResponse DeployAccountResult) : Prop :=
  let '(state, deployment, already) :=
    match ex with
    | AlreadyDeployedExec => (Op_Completed, Dep_Deployed, true)
    | SubmittedExec tx_hash => (Op_Submitted tx_hash, Dep_Deploying tx_hash, false)
    | AcceptedExec tx_hash => (Op_Accepted tx_hash, Dep_Deployed, false)
    end in
  os_state (resp_operation resp) = state /\ dar_deployment (resp_value resp) = deployment
  /\ dar_already_deployed (resp_value resp) = already.

(** The chain is where one deployment of this account, with the request's key, left it. *)
Definition deploy_good (request : DeployAccountRequest) (g : Gateway) (resp : GatewayResponse DeployAccountResult)
    (g' : Gateway) : Prop :=
  let account := dar_account (resp_value resp) in
  deployable request g
  /\ (exists key ex, resolver_answer (da_derivation request) g = inl key
        /\ describes (da_derivation request) key account
        /\ deploy_open_zeppelin key account (da_mode request) (gw_backend g) = (inl ex, gw_backend g')
        /\ reported ex resp)
  /\ os_provenance (resp_operation resp) = Some (ad_provenance account).

(** A refused request has not been sent to the chain unless it was deployable,
    and then the error is the backend's and nothing was sent but that deployment. *)
Definition deploy_bad (request : DeployAccountRequest) (g : Gateway) (e : GatewayError) (g' : Gateway) : Prop :=
  (~ deployable request g /\ gw_backend g' = gw_backend g)
  \/ (deployable request g /\ exists key account, resolver_answer (da_derivation request) g = inl key
        /\ describes (da_derivation request) key account
        /\ deploy_open_zeppelin key account (da_mode request) (gw_backend g) = (inr e, gw_backend g')).

(** Nothing but the secret resolver and the backend moved. *)
Definition outside_only (g g' : Gateway) : Prop :=
  g' = mk_gateway (gw_backend g') (gw_secret_resolver g') (gw_clock g) (gw_entropy g) (gw_operations g)
         (gw_snapshot_cache g) (gw_snapshot_cache_max_entries g).

Lemma backend_only_outside g g' : backend_only g g' -> outside_only g g'.
Proof. unfold backend_only, outside_only. intros ->. done. Qed.

Lemma outside_only_trans g1 g2 g3 : outside_only g1 g2 -> outside_only g2 g3 -> outside_only g1 g3.
Proof. unfold outside_only. intros -> ->. done. Qed.

Lemma outside_only_refl g : outside_only g g.
Proof. by destruct g. Qed.

Lemma on_resolver_spec {A} (f : S -> (A + GatewayError) * S) g :
  wp (on_resolver f) (fun r g' => outside_only g g' /\ gw_backend g' = gw_backend g
    /\ r = match fst (f (gw_secret_resolver g)) with inl a => Ok a | inr e => Err e end) g.
Proof. unfold wp, on_resolver. by destruct (f (gw_secret_resolver g)) as [[a|e] s]. Qed.

Lemma wp_lift {A} (r : GatewayResult A) Q g : Q r g -> wp (lift r : GM A) Q g.
Proof. done. Qed.

(** ** The flows *)
Context `{!StarkLaws, !StarkCryptoLaws, !FeltExtrasLaws, !ClockLaws C}.
Context (retention : OperationRetentionPolicy).
Abbreviation gateway_ok := (gateway_ok retention).

Lemma outside_ok g g' n : outside_only g g' -> gateway_ok g -> room n g -> gateway_ok g' /\ room n g'.
Proof. intros -> [] Hr. split; [by split|done]. Qed.

Lemma respond_spec {A} queued state provenance (value : A) n g :
  gateway_ok g -> room (n + 1) g -> 0 <= n -> is_expired state = false ->
  wp (respond queued state provenance value) (fun r g' => gateway_ok g' /\ room n g' /\ gw_backend g' = gw_backend g /\
    exists resp, r = Ok resp /\ recorded (resp_operation resp) g' /\ resp_value resp = value
      /\ os_kind (resp_operation resp) = os_kind queued
      /\ os_state (resp_operation resp) = state /\ os_provenance (resp_operation resp) = provenance) g.
Proof.
  intros Hg Hr Hn Hst. unfold respond. apply wp_bind.
  eapply wp_mono; [by apply (set_operation_spec retention _ _ _ _ n)|].
  intros r g' (-> & Hok & (Hb & _) & Hroom & _ & Hrec). split_and!; [done|done|done|]. eexists. by split_and!.
Qed.

Lemma refuse_spec {A} queued e provenance n g :
  gateway_ok g -> room (n + 1) g -> 0 <= n ->
  wp (refuse queued e provenance : GM A)
    (fun r g' => gateway_ok g' /\ room n g' /\ r = Err e /\ rejected e g' /\ gw_backend g' = gw_backend g) g.
Proof.
  intros Hg Hr Hn. eapply wp_mono; [by apply (reject_spec retention _ _ _ n)|].
  by intros r g' (-> & Hok & Hroom & Hrej & Hsame & _).
Qed.

(** A tracked handler meets its promise when its body does. *)
Lemma tracked_spec {A} kind (body : OperationStatus -> GM (GatewayResponse A)) good bad n g :
  gateway_ok g -> room (n + 3) g -> 0 <= n ->
  (forall queued g1, gateway_ok g1 -> room (n + 1) g1 -> same_cache g g1 -> os_kind queued = kind ->
     wp (body queued) (fun r g' => gateway_ok g' /\ room n g' /\
       match r with
       | Ok resp => recorded (resp_operation resp) g' /\ os_kind (resp_operation resp) = kind /\ good resp g'
       | Err e => rejected e g' /\ bad e g'
       | Panic => False
       end) g1) ->
  wp (queued ← begin_operation kind;
      _ ← set_operation (os_id queued) (os_kind queued) Op_Running None;
      body queued)
     (fun r g' => gateway_ok g' /\ room n g' /\ tracked_post kind good bad g r g') g.
Proof.
  intros Hg Hr Hn Hbody. unfold tracked_post. apply wp_bind.
  eapply wp_mono; [apply (begin_operation_spec retention _ (n + 2)); [done|eapply room_le, Hr; lia|lia]|].
  intros r g1 (Hg1 & Hs1 & _ & Hpost). destruct (fst (try_random_bytes (gw_entropy g))) as [bs|].
  2:{ destruct Hpost as [-> Ho]. split_and!; try done. rewrite Ho. unfold room in *. cbn. lia. }
  destruct Hpost as (queued & -> & Hr1 & Hk & _). apply wp_bind.
  eapply wp_mono; [apply (set_operation_spec retention _ _ _ _ (n + 1)); [done|eapply room_le, Hr1; lia|lia|done]|].
  intros r g2 (-> & Hg2 & Hs2 & Hr2 & _).
  apply (Hbody queued g2 Hg2 Hr2); [by eapply same_cache_trans|done].
Qed.

Lemma stark_public_key_total k :
  (1 <= felt_val k < CurveOrder -> exists pk, stark_public_key k = Ok pk)
  /\ (~ 1 <= felt_val k < CurveOrder -> exists e, stark_public_key k = Err e).
Proof.
  destruct (stark_public_key_correct k) as [Hin Hout]. split.
  - intros (g & a & _ & _ & Hk)%Hin. eauto.
  - intros Hk%Hout. eauto.
Qed.

Lemma to_salt_policy_total request :
  derivation_request_ok request -> exists p, to_salt_policy (dr_salt_policy request) = Ok p.
Proof.
  intros [_ Hs]. destruct (dr_salt_policy request) as [| |salt]; cbn [to_salt_policy]; [eauto|eauto|].
  destruct Hs as [f ->]. rewrite to_from_felt. cbn. eauto.
Qed.

(** Derivation succeeds exactly on the derivable requests, and describes them. *)
Lemma derive_account_descriptor_spec request g :
  derivation_request_ok request ->
  wp (derive_account_descriptor request) (fun r g' => outside_only g g' /\ gw_backend g' = gw_backend g /\
    match r with
    | Ok (key, d) => derivable request (backend_chain_id (gw_backend g)) (resolver_answer request g)
        /\ resolver_answer request g = inl key /\ describes request key d
    | Err _ => ~ derivable request (backend_chain_id (gw_backend g)) (resolver_answer request g)
    | Panic => False
    end) g.
Proof.
  intros Hreq. unfold derive_account_descriptor. apply wp_bind. unfold wp at 1, asks. cbn [fst snd].
  apply wp_bind, wp_lift. unfold ensure_chain_matches. destruct (decide _) as [Hch|Hch].
  { split_and!; [apply outside_only_refl|done|]. intros (? & _). by apply Hch. }
  apply dec_stable in Hch. apply wp_bind, wp_lift. unfold derivation_request_validate.
  destruct (validate_for_cases (dr_path request) (dr_key_domain request)) as [[Hc ->]|[Hc [e ->]]];
    cbn [mbind outcome_bind map_err].
  2:{ split_and!; [apply outside_only_refl|done|]. intros (_ & Hd & Hp & _). rewrite Hd in Hc. by apply Hc. }
  apply wp_bind, wp_lift. destruct (decide (dr_key_domain request <> StarknetAccount)) as [Hd|Hd].
  { rewrite bool_decide_eq_true_2 by done. split_and!; [apply outside_only_refl|done|].
    by intros (_ & ? & _). }
  rewrite bool_decide_eq_false_2 by done. apply dec_stable in Hd. cbn [reject_if]. rewrite Hd in Hc.
  apply wp_bind. eapply wp_mono; [apply on_resolver_spec|]. intros r g1 (Hg1 & Hb1 & ->).
  change (fst (resolve_private_key _ _ _ _)) with (resolver_answer request g).
  destruct (resolver_answer request g) as [key|e].
  2:{ split_and!; [done|done|]. by intros (_ & _ & _ & (? & [=] & _) & _). }
  apply wp_bind, wp_lift. unfold derive_public_key. destruct (stark_public_key_total key) as [Hin Hout].
  destruct (decide (1 <= felt_val key < CurveOrder)) as [Hk|Hk].
  2:{ destruct (Hout Hk) as [e ->]. cbn [map_err]. split_and!; [done|done|].
      by intros (_ & _ & _ & (? & [= <-] & ?) & _). }
  destruct (Hin Hk) as [pk Hpk]. rewrite Hpk. cbn [map_err]. apply wp_bind, wp_lift.
  pose proof (resolve_total (dr_account_class request) (dr_chain_id request) (proj1 Hreq)) as Htot.
  destruct (resolve_account_class _ _) as [c|e|] eqn:Hcl; [| |done].
  2:{ split_and!; [done|done|]. intros (_ & _ & _ & _ & c & Hc'). congruence. }
  apply wp_bind, wp_lift. destruct (to_salt_policy_total request Hreq) as [p Hp]. rewrite Hp.
  apply wp_bind, wp_lift. unfold resolved_calculate_address, calculate_address.
  rewrite calculate_contract_address_eq. cbn [map_err].
  split_and!; [done|done|]. split_and!; [|done|].
  - split_and!; [done|done|done|by eauto|by eauto].
  - exists pk, c, p. eexists. rewrite calculate_contract_address_eq. by split_and!.
Qed.

Lemma derive_account_spec request n g :
  derivation_request_ok request -> gateway_ok g -> room (n + 3) g -> 0 <= n ->
  wp (derive_account request) (fun r g' => gateway_ok g' /\ room n g' /\
    tracked_post DeriveAccount (derive_good request g) (derive_bad request g) g r g') g.
Proof.
  intros Hreq Hg Hr Hn. unfold derive_account. apply tracked_spec; [done..|].
  intros queued g1 Hg1 Hr1 (Hb & Hs & _) Hk. unfold derive_good, derive_bad, resolver_answer. rewrite <- Hb, <- Hs.
  fold (resolver_answer request g1).
  apply wp_bind, wp_catch. eapply wp_mono; [by apply derive_account_descriptor_spec|].
  intros [[key account]|e|] g2 (Ho & Hb2 & Hp); [| |done];
    destruct (outside_ok _ _ _ Ho Hg1 Hr1) as [Hg2 Hr2].
  - destruct Hp as (Hd & Ha & Hdesc). eapply wp_mono; [by apply (respond_spec _ _ _ _ n)|].
    intros r g3 (Hg3 & Hr3 & Hb3 & resp & -> & Hrec & <- & Hk3 & Hst & Hpr).
    split_and!; try done; [congruence|congruence|by eauto].
  - eapply wp_mono; [by apply (refuse_spec _ _ _ n)|]. intros r g3 (Hg3 & Hr3 & -> & Hrej & Hb3).
    split_and!; try done. congruence.
Qed.

Lemma check_deployment_spec request n g :
  derivation_request_ok request -> gateway_ok g -> room (n + 3) g -> 0 <= n ->
  wp (check_deployment request) (fun r g' => gateway_ok g' /\ room n g' /\
    tracked_post CheckDeployment (check_good request g) (fun _ _ => True) g r g') g.
Proof.
  intros Hreq Hg Hr Hn. unfold check_deployment. apply tracked_spec; [done..|].
  intros queued g1 Hg1 Hr1 (Hb & Hs & _) Hk. unfold check_good, resolver_answer. rewrite <- Hb, <- Hs.
  fold (resolver_answer request g1).
  apply wp_bind, wp_catch. eapply wp_mono; [by apply derive_account_descriptor_spec|].
  intros [[key account]|e|] g2 (Ho & Hb2 & Hp); [| |done];
    destruct (outside_ok _ _ _ Ho Hg1 Hr1) as [Hg2 Hr2].
  2:{ eapply wp_mono; [by apply (refuse_spec _ _ _ n)|]. by intros r g3 (Hg3 & Hr3 & -> & Hrej & _). }
  destruct Hp as (Hd & Ha & Hdesc). rewrite <- Hb2 in *. apply wp_bind, wp_catch.
  eapply wp_mono; [apply on_backend_answer|]. intros [deployed|e|] g3 [Ho3%backend_only_outside Hdep]; [| |done];
    destruct (outside_ok _ _ _ Ho3 Hg2 Hr2) as [Hg3 Hr3].
  2:{ eapply wp_mono; [by apply (refuse_spec _ _ _ n)|]. by intros r g4 (Hg4 & Hr4 & -> & Hrej & _). }
  destruct deployed; (eapply wp_mono; [by apply (respond_spec _ _ _ _ n)|]);
    intros r g4 (Hg4 & Hr4 & Hb4 & resp & -> & Hrec & Hval & Hk4 & Hst & Hpr); rewrite Hval, Hb4;
    cbn [cd_account cd_deployment]; (split_and!; try done; [congruence|by eauto|by eauto]).
Qed.

Lemma deploy_account_spec request n g :
  derivation_request_ok (da_derivation request) -> gateway_ok g -> room (n + 3) g -> 0 <= n ->
  wp (deploy_account request) (fun r g' => gateway_ok g' /\ room n g' /\
    tracked_post DeployAccount (deploy_good request g) (deploy_bad request g) g r g') g.
Proof.
  intros Hreq Hg Hr Hn. unfold deploy_account. apply tracked_spec; [done..|].
  intros queued g1 Hg1 Hr1 (Hb & Hs & _) Hk. unfold deploy_good, deploy_bad, deployable, resolver_answer.
  rewrite <- Hb, <- Hs. fold (resolver_answer (da_derivation request) g1).
  pose proof (proj2 (proj2 (validate_wait_mode_bounds (da_mode request)))) as Htot.
  apply wp_bind. eapply wp_mono; [by apply (guard_operation_spec retention _ _ n)|].
  intros [[]|e|] g2; [intros [-> Hwait]| |done].
  2:{ intros (Hw & Hg2 & Hr2 & Hrej & Hb2 & _). split_and!; [done|done|done|]. left. split; [|done].
      intros [? _]. congruence. }
  apply wp_bind, wp_catch. eapply wp_mono; [by apply derive_account_descriptor_spec|].
  intros [[key account]|e|] g2 (Ho & Hb2 & Hp); [| |done];
    destruct (outside_ok _ _ _ Ho Hg1 Hr1) as [Hg2 Hr2]; rewrite <- Hb2 in *.
  2:{ eapply wp_mono; [by apply (refuse_spec _ _ _ n)|]. intros r g3 (Hg3 & Hr3 & -> & Hrej & Hb3).
      split_and!; [done|done|done|]. left. split; [|done]. by intros (_ & ? & _). }
  destruct Hp as (Hd & Ha & Hdesc). destruct (decide _) as [Hkind|Hkind].
  { eapply wp_mono; [by apply (refuse_spec _ _ _ n)|]. intros r g3 (Hg3 & Hr3 & -> & Hrej & Hb3).
    split_and!; [done|done|done|]. left. split; [|done]. by intros (_ & _ & ?). }
  apply dec_stable in Hkind. apply wp_bind, wp_catch.
  eapply wp_mono; [apply on_backend_answer|]. intros [ex|e|] g3 [Ho3%backend_only_outside Hex]; [| |done];
    destruct (outside_ok _ _ _ Ho3 Hg2 Hr2) as [Hg3 Hr3].
  2:{ eapply wp_mono; [by apply (refuse_spec _ _ _ n)|]. intros r g4 (Hg4 & Hr4 & -> & Hrej & Hb4).
      split_and!; [done|done|done|]. right. split; [done|]. exists key, account. by rewrite Hb4. }
  destruct ex as [|tx|tx];
    (eapply wp_mono; [by apply (respond_spec _ _ _ _ n)|]);
    intros r g4 (Hg4 & Hr4 & Hb4 & resp & -> & Hrec & Hval & Hk4 & Hst & Hpr);
    (split_and!; try done; [congruence| |by rewrite Hval]); eexists key, _; unfold reported; rewrite Hval, Hb4;
    cbn [dar_account]; by split_and!.
Qed.
End accounts.
