(* ===== verification/GatewaySigning.v ===== *)
(** * The signing flow

    crates/gateway/src/signing.rs: the Stark and Nostr branches of [sign].  The
    Stark signing loop takes fuel; running out of it is reported as [Panic],
    which [sign_spec] excludes when some nonce among the first [fuel] is
    accepted. *)

From stdpp Require Import base option list numbers strings gmap.
From Stdlib Require Import ZArith Lia.
From S2P Require Import Prelude StarkLib Types Scalar TxHash Text Domain Primitives Derivation StarkSigning.
From S2P Require Import NostrSigning AccountClass Requests GatewayErrors GatewayClasses Clock SnapshotCache OperationStore Gateway.
From S2P Require Import GatewayAccounts.

#[local] Open Scope string_scope.
#[local] Open Scope list_scope.
#[local] Open Scope Z_scope.

Definition sign_provenance (request : SignRequest) : option Provenance :=
  option_map (fun chain_id =>
    {| prov_chain_id := chain_id; prov_key_domain := sign_request_key_domain request;
       prov_derivation_path := sign_request_path request; prov_class_hash := None |})
  (sign_request_chain_id request).

Section signing.
Context `{StarkLib.StarkTypes, !StarkCrypto, !FeltExtras, !FeltFromHex, !HexCodec, !Schnorr}.
Context {B S C R : Type} `{!GatewayBackend B, !DeployBackend B, !SecretResolver S, !Clock C, !Entropy R}.

Abbreviation GM := (@GM B S C R).
Abbreviation Gateway := (@Gateway B S C R).

(** The shared branch of [StarkHash] and [StarkRawMessage]. *)
Definition sign_stark (fuel : nat) (queued : OperationStatus) (provenance : option Provenance)
    (secret : SecretRef) (key_domain : StarkKeyDomain) (derivation_path : DerivationPath) (hash : FeltHex)
    : GM (GatewayResponse SignResult) :=
  private_key ← catch (on_resolver (resolve_private_key secret (stark_key_domain key_domain) derivation_path));
  match private_key with
  | inr error => refuse queued error None
  | inl private_key =>
      hash ← lift (felt_hex_to_felt hash);
      match sign_stark_hash fuel private_key hash with
      | Some (Ok signed) =>
          respond queued Op_Completed provenance
            (StarkEcdsa (felt_hex_from_felt (ss_public_key signed)) (felt_hex_from_felt (ss_r signed))
               (felt_hex_from_felt (ss_s signed)))
      | Some (Err error) => refuse queued (map_kms_error error) provenance
      | Some Panic | None => lift Panic
      end
  end.

(** The tail of the Nostr branches. *)
Definition finish_nostr (queued : OperationStatus) (signed : Result NostrSignature) : GM (GatewayResponse SignResult) :=
  match signed with
  | Ok signed =>
      respond queued Op_Completed None
        (NostrBip340 (hex_bytes_from_bytes (ns_public_key signed)) (hex_bytes_from_bytes (ns_signature signed)))
  | Err error => refuse queued (map_kms_error error) None
  | Panic => lift Panic
  end.

Definition sign_nostr_event (queued : OperationStatus) (secret : SecretRef) (derivation_path : DerivationPath)
    (event_id : HexBytes) : GM (GatewayResponse SignResult) :=
  private_key ← catch (on_resolver (resolve_nostr_private_key secret derivation_path));
  match private_key with
  | inr error => refuse queued error None
  | inl private_key =>
      event_id ← catch (lift (map_err map_domain_error (hex_bytes_to_array 32 event_id)));
      match event_id with
      | inr error => refuse queued error None
      | inl event_id => finish_nostr queued (sign_nostr_event_id private_key event_id)
      end
  end.

Definition sign_nostr_raw (queued : OperationStatus) (secret : SecretRef) (derivation_path : DerivationPath)
    (payload : RawMessagePayload) : GM (GatewayResponse SignResult) :=
  private_key ← catch (on_resolver (resolve_nostr_private_key secret derivation_path));
  match private_key with
  | inr error => refuse queued error None
  | inl private_key =>
      message ← lift (match payload with
                      | Raw_Utf8 value => Ok (string_bytes value)
                      | Raw_Hex bytes => hex_bytes_to_vec bytes
                      end);
      finish_nostr queued (sign_nostr_message private_key message)
  end.

(** [Gateway::sign]. *)
Definition sign (fuel : nat) (request : SignRequest) : GM (GatewayResponse SignResult) :=
  queued ← begin_operation Sign;
  _ ← set_operation (os_id queued) (os_kind queued) Op_Running None;
  _ ← guard_operation queued (map_err map_domain_error (sign_request_validate request));
  _ ← match sign_request_chain_id request with
      | Some chain_id =>
          backend ← asks gw_backend;
          guard_operation queued (ensure_chain_matches backend chain_id)
      | None => mret tt
      end;
  let provenance := sign_provenance request in
  match request with
  | SR_StarkHash secret key_domain derivation_path _ _ hash _
  | SR_StarkRawMessage secret key_domain derivation_path hash _ =>
      sign_stark fuel queued provenance secret key_domain derivation_path hash
  | SR_NostrEvent secret derivation_path event_id => sign_nostr_event queued secret derivation_path event_id
  | SR_NostrRawMessage secret derivation_path payload => sign_nostr_raw queued secret derivation_path payload
  end.

(** ** What signing promises *)

(** What the resolver answers to a Stark or a Nostr request in state [g]. *)
Definition stark_key_answer (request : SignRequest) (g : Gateway) : Felt + GatewayError :=
  fst (resolve_private_key (sign_request_secret request) (sign_request_key_domain request)
         (sign_request_path request) (gw_secret_resolver g)).
Definition nostr_key_answer (request : SignRequest) (g : Gateway) : list Z + GatewayError :=
  fst (resolve_nostr_private_key (sign_request_secret request) (sign_request_path request) (gw_secret_resolver g)).

(** The field element a Stark request signs. *)
Definition stark_hash_of (request : SignRequest) : option FeltHex :=
  match request with
  | SR_StarkHash _ _ _ _ _ hash _ | SR_StarkRawMessage _ _ _ hash _ => Some hash
  | _ => None
  end.

(** The bytes a Nostr request signs. *)
Definition nostr_message_of (request : SignRequest) : option (outcome DomainError (list Z)) :=
  match request with
  | SR_NostrEvent _ _ event_id => Some (hex_bytes_to_array 32 event_id)
  | SR_NostrRawMessage _ _ (Raw_Hex bytes) => Some (hex_bytes_to_vec bytes)
  | SR_NostrRawMessage _ _ (Raw_Utf8 text) => Some (Ok (string_bytes text))
  | _ => None
  end.

(** The request opted in to signing a bare hash, if it does sign one. *)
Definition raw_hash_allowed (request : SignRequest) : Prop :=
  match request with
  | SR_StarkHash _ _ _ _ _ _ allow | SR_StarkRawMessage _ _ _ _ allow => allow = true
  | _ => True
  end.

(** The requests a gateway on [chain] may sign. *)
Definition signable (request : SignRequest) (chain : ChainId) : Prop :=
  coin_type (sign_request_path request) = expected_coin_type (sign_request_key_domain request)
  /\ raw_hash_allowed request
  /\ (forall c, sign_request_chain_id request = Some c -> c = chain).

(** The reply is the signature the request asked for. *)
Definition signature_of (fuel : nat) (request : SignRequest) (g : Gateway) (value : SignResult) : Prop :=
  (exists key hash s,
     stark_key_answer request g = inl key /\ stark_hash_of request = Some (felt_hex_from_felt hash)
     /\ sign_stark_hash fuel key hash = Some (Ok s)
     /\ value = StarkEcdsa (felt_hex_from_felt (ss_public_key s)) (felt_hex_from_felt (ss_r s))
                  (felt_hex_from_felt (ss_s s)))
  \/ (exists key message s,
     nostr_key_answer request g = inl key /\ nostr_message_of request = Some (Ok message)
     /\ sign_nostr_message key message = Ok s
     /\ value = NostrBip340 (hex_bytes_from_bytes (ns_public_key s)) (hex_bytes_from_bytes (ns_signature s))).

(** Signing leaves the chain alone. *)
Definition sign_good (fuel : nat) (request : SignRequest) (g : Gateway) (resp : GatewayResponse SignResult)
    (g' : Gateway) : Prop :=
  gw_backend g' = gw_backend g
  /\ signable request (backend_chain_id (gw_backend g))
  /\ signature_of fuel request g (resp_value resp)
  /\ os_state (resp_operation resp) = Op_Completed
  /\ os_provenance (resp_operation resp) = sign_provenance request.

Definition sign_bad (g : Gateway) (_ : GatewayError) (g' : Gateway) : Prop := gw_backend g' = gw_backend g.

(** For a valid key, some nonce among the first [fuel] is accepted for the hash at hand. *)
Definition signing_ends (fuel : nat) (request : SignRequest) (g : Gateway) : Prop :=
  forall key hash, stark_key_answer request g = inl key -> stark_hash_of request = Some (felt_hex_from_felt hash) ->
    1 <= felt_val key < CurveOrder -> exists n, (n < fuel)%nat /\ pass key hash n <> inl InvalidK.

(** ** Proofs *)
Context `{!StarkLaws, !StarkCryptoLaws, !FeltExtrasLaws, !ClockLaws C}.
Context (retention : OperationRetentionPolicy).
Abbreviation gateway_ok := (gateway_ok retention).

Lemma first_pass k hash n :
  pass k hash n <> inl InvalidK ->
  exists m, (m <= n)%nat /\ pass k hash m <> inl InvalidK /\ forall i, (i < m)%nat -> pass k hash i = inl InvalidK.
Proof.
  assert (forall i, pass k hash i = inl InvalidK \/ pass k hash i <> inl InvalidK) as Hdec
    by (intros i; destruct (pass k hash i) as [[]|]; auto).
  induction n as [n IH] using lt_wf_ind. intros Hn.
  assert (forall m, (m <= n)%nat ->
    (exists i, (i < m)%nat /\ pass k hash i <> inl InvalidK) \/ (forall i, (i < m)%nat -> pass k hash i = inl InvalidK))
    as Hscan.
  { induction m as [|m IHm]; intros Hm; [right; lia|].
    destruct IHm as [(i & Hi & Hp)|Hall]; [lia|left; exists i; split; [lia|done]|].
    destruct (Hdec m) as [Hp|Hp]; [right|left; exists m; split; [lia|done]].
    intros i Hi. destruct (decide (i = m)) as [->|]; [done|]. apply Hall. lia. }
  destruct (Hscan n (le_n n)) as [(i & Hi & Hp)|Hall]; [|by exists n].
  destruct (IH i Hi Hp) as (m & Hm & Hrest). exists m. split; [lia|done].
Qed.

(** Signing returns: a key out of range is an error, and for a valid one the loop
    ends when a nonce within the fuel is good. *)
Lemma sign_stark_hash_returns fuel k hash :
  (1 <= felt_val k < CurveOrder -> exists n, (n < fuel)%nat /\ pass k hash n <> inl InvalidK) ->
  exists r, sign_stark_hash fuel k hash = Some r /\ r <> Panic.
Proof.
  intros Hends. unfold sign_stark_hash. destruct (validate_stark_private_key k) as [[]|e|] eqn:Hv.
  - apply validate_stark_private_key_Ok in Hv. destruct (Hends Hv) as (n & Hf & Hn). destruct (first_pass k hash n Hn) as (m & Hm & Hp & Hall).
    change (@None Felt) with (pass_seed 0). replace fuel with (m + Datatypes.S (fuel - m - 1))%nat by lia.
    rewrite sign_loop_skip, Nat.add_0_l, sign_loop_pass by done.
    destruct (get_public_key_valid k Hv) as (g & a & _ & _ & ->).
    destruct (pass k hash m) as [[]|[r s]]; [eauto|done|]. cbn. eauto.
  - eauto.
  - unfold validate_stark_private_key, reject_if in Hv. by destruct (_ || _).
Qed.

(** The common shape of a branch's result. *)
Definition branch_post (n : Z) (good : GatewayResponse SignResult -> Prop) (g : Gateway)
    (r : GatewayResult (GatewayResponse SignResult)) (g' : Gateway) : Prop :=
  gateway_ok g' /\ room n g' /\
  match r with
  | Ok resp =>
      recorded (resp_operation resp) g' /\ os_kind (resp_operation resp) = Sign
      /\ gw_backend g' = gw_backend g /\ good resp
  | Err e => rejected e g' /\ gw_backend g' = gw_backend g
  | Panic => False
  end.

Lemma refuse_branch queued e provenance good n g0 g :
  gateway_ok g -> room (n + 1) g -> 0 <= n -> gw_backend g = gw_backend g0 ->
  wp (refuse queued e provenance) (branch_post n good g0) g.
Proof.
  intros Hg Hr Hn Hb. eapply wp_mono; [by apply (refuse_spec retention _ _ _ n)|].
  intros r g1 (Hg1 & Hr1 & -> & Hrej & Hb1). split_and!; try done. congruence.
Qed.

Lemma respond_branch queued provenance value (good : GatewayResponse SignResult -> Prop) n g0 g :
  gateway_ok g -> room (n + 1) g -> 0 <= n -> gw_backend g = gw_backend g0 -> os_kind queued = Sign ->
  (forall resp, resp_value resp = value -> os_state (resp_operation resp) = Op_Completed ->
    os_provenance (resp_operation resp) = provenance -> good resp) ->
  wp (respond queued Op_Completed provenance value) (branch_post n good g0) g.
Proof.
  intros Hg Hr Hn Hb Hk Hgood. eapply wp_mono; [by apply (respond_spec retention _ _ _ _ n)|].
  intros r g1 (Hg1 & Hr1 & Hb1 & resp & -> & Hrec & Hval & Hk1 & Hst & Hpr).
  split_and!; try done; [congruence|congruence|]. by apply Hgood.
Qed.

(** Reading a key: an error is a refusal, a key goes on. *)
Lemma with_key {A} (ask : S -> (A + GatewayError) * S) (body : A -> GM (GatewayResponse SignResult)) queued good n g :
  gateway_ok g -> room (n + 1) g -> 0 <= n ->
  (forall key g1, fst (ask (gw_secret_resolver g)) = inl key -> gateway_ok g1 -> room (n + 1) g1 ->
    gw_backend g1 = gw_backend g -> wp (body key) (branch_post n good g) g1) ->
  wp (k ← catch (on_resolver ask);
      match k with inr error => refuse queued error None | inl key => body key end) (branch_post n good g) g.
Proof.
  intros Hg Hr Hn Hbody. apply wp_bind, wp_catch. eapply wp_mono; [apply on_resolver_spec|].
  intros r g1 (Ho & Hb & ->). destruct (outside_ok retention _ _ _ Ho Hg Hr) as [Hg1 Hr1].
  destruct (fst (ask (gw_secret_resolver g))) as [key|e] eqn:Ha; [by apply Hbody|]. by apply refuse_branch.
Qed.

Lemma finish_nostr_spec queued signed (good : GatewayResponse SignResult -> Prop) n g0 g :
  gateway_ok g -> room (n + 1) g -> 0 <= n -> os_kind queued = Sign -> gw_backend g = gw_backend g0 ->
  signed <> Panic ->
  (forall s resp, signed = Ok s ->
    resp_value resp = NostrBip340 (hex_bytes_from_bytes (ns_public_key s)) (hex_bytes_from_bytes (ns_signature s)) ->
    os_state (resp_operation resp) = Op_Completed -> os_provenance (resp_operation resp) = None -> good resp) ->
  wp (finish_nostr queued signed) (branch_post n good g0) g.
Proof.
  intros Hg Hr Hn Hk Hb Hp Hgood. unfold finish_nostr. destruct signed as [s|e|]; [| |done].
  - apply respond_branch; try done. intros resp. by apply Hgood.
  - by apply refuse_branch.
Qed.

(** The guards: a request that passes them is signable. *)
Lemma sign_guards request queued (rest : GM (GatewayResponse SignResult)) good n g :
  sign_request_ok request -> gateway_ok g -> room (n + 1) g -> 0 <= n ->
  (signable request (backend_chain_id (gw_backend g)) -> wp rest (branch_post n good g) g) ->
  wp (_ ← guard_operation queued (map_err map_domain_error (sign_request_validate request));
      _ ← match sign_request_chain_id request with
          | Some chain_id =>
              backend ← asks gw_backend;
              guard_operation queued (ensure_chain_matches backend chain_id)
          | None => mret tt
          end;
      rest) (branch_post n good g) g.
Proof.
  intros Hok Hg Hr Hn Hrest. pose proof (sign_request_validate_total request Hok) as Htot.
  destruct (sign_request_validate request) as [u|e|] eqn:Hv; [| |done]; cbn [map_err]; apply wp_bind.
  2:{ eapply wp_mono; [by apply (guard_operation_spec retention _ _ n)|].
      intros [u|e'|] g1; [by intros [_ [=]]| |done]. intros (_ & Hg1 & Hr1 & Hrej & Hb & _). by split_and!. }
  destruct (sign_request_validate_Ok request u Hv) as [Hcoin Hraw].
  assert (raw_hash_allowed request) as Hallow by by destruct request.
  eapply wp_mono; [by apply (guard_operation_spec retention _ _ n)|].
  intros [u'|e'|] g1; [intros [-> _]|by intros [[=] _]|done]. apply wp_bind.
  destruct (sign_request_chain_id request) as [c|] eqn:Hc.
  2:{ apply Hrest. split_and!; [done|done|]. congruence. }
  apply wp_bind. unfold wp at 1, asks. cbn [fst snd].
  assert (ensure_chain_matches (gw_backend g) c <> Panic) as Hp
    by (unfold ensure_chain_matches; by destruct (decide _)).
  eapply wp_mono; [by apply (guard_operation_spec retention _ _ n)|].
  intros [u''|e'|] g1; [intros [-> Hch]| |done].
  2:{ intros (_ & Hg1 & Hr1 & Hrej & Hb & _). by split_and!. }
  apply Hrest. split_and!; [done|done|]. intros c' Hc'. unfold ensure_chain_matches in Hch.
  destruct (decide _) as [|Heq]; [done|]. apply dec_stable in Heq. congruence.
Qed.

(** What a branch must establish of its reply. *)
Definition signed_reply (fuel : nat) (request : SignRequest) (g : Gateway) (resp : GatewayResponse SignResult) : Prop :=
  signable request (backend_chain_id (gw_backend g)) /\ signature_of fuel request g (resp_value resp)
  /\ os_state (resp_operation resp) = Op_Completed
  /\ os_provenance (resp_operation resp) = sign_provenance request.

Lemma sign_stark_spec fuel request queued secret kd path hash n g g1 :
  signable request (backend_chain_id (gw_backend g)) -> signing_ends fuel request g ->
  stark_hash_of request = Some hash -> felt_hex_ok hash ->
  secret = sign_request_secret request -> stark_key_domain kd = sign_request_key_domain request ->
  path = sign_request_path request ->
  gateway_ok g1 -> room (n + 1) g1 -> 0 <= n -> os_kind queued = Sign ->
  gw_secret_resolver g1 = gw_secret_resolver g ->
  wp (sign_stark fuel queued (sign_provenance request) secret kd path hash)
     (branch_post n (signed_reply fuel request g) g1) g1.
Proof.
  intros Hsig Hends Hh [h ->] -> Hkd -> Hg1 Hr1 Hn Hk Hs. apply with_key; [done..|].
  intros key g2 Ha Hg2 Hr2 Hb2. rewrite Hkd, Hs in Ha. apply wp_bind, wp_lift. rewrite to_from_felt.
  destruct (sign_stark_hash_returns fuel key h (Hends key h Ha Hh)) as (r & Hr' & Hnp). rewrite Hr'.
  destruct r as [signed|e|]; [| |done].
  - apply respond_branch; try done. intros resp Hval Hst Hpr. split_and!; [done| |done|done].
    left. exists key, h, signed. by rewrite Hval.
  - by apply refuse_branch.
Qed.

Lemma nostr_branch fuel request queued key message n g g1 g2 :
  signable request (backend_chain_id (gw_backend g)) -> nostr_key_answer request g = inl key ->
  nostr_message_of request = Some (Ok message) -> sign_provenance request = None ->
  gateway_ok g2 -> room (n + 1) g2 -> 0 <= n -> os_kind queued = Sign -> gw_backend g2 = gw_backend g1 ->
  wp (finish_nostr queued (sign_nostr_message key message))
     (branch_post n (signed_reply fuel request g) g1) g2.
Proof.
  intros Hsig Ha Hmsg Hpr Hg2 Hr2 Hn Hk Hb2. apply finish_nostr_spec; try done.
  - apply sign_nostr_message_total.
  - intros s resp Hsigned Hval Hst Hpr'. split_and!; [done| |done|congruence].
    right. by exists key, message, s.
Qed.

Lemma sign_spec fuel request n g :
  sign_request_ok request -> signing_ends fuel request g -> gateway_ok g -> room (n + 3) g -> 0 <= n ->
  wp (sign fuel request) (fun r g' => gateway_ok g' /\ room n g' /\
    tracked_post Sign (sign_good fuel request g) (sign_bad g) g r g') g.
Proof.
  intros Hok Hends Hg Hr Hn. unfold sign. apply tracked_spec; [done..|].
  intros queued g1 Hg1 Hr1 (Hb & Hs & _) Hk. apply (wp_mono _ (branch_post n (signed_reply fuel request g) g1)).
  2:{ intros r g2 Hp. unfold sign_good, sign_bad. rewrite <- Hb. unfold branch_post, signed_reply in Hp. rewrite <- Hb in Hp.
      exact Hp. }
  apply (sign_guards request queued _ (signed_reply fuel request g)); [done..|].
  rewrite Hb. intros Hsig.
  destruct request as [secret kd path chain dom hash allow|secret kd path hash allow|secret path ev|secret path payload].
  - by apply sign_stark_spec.
  - by apply sign_stark_spec.
  - unfold sign_nostr_event. apply with_key; [done..|]. intros key g2 Ha Hg2 Hr2 Hb2. rewrite Hs in Ha.
    apply wp_bind, wp_catch, wp_lift. pose proof (hex_bytes_to_array_total 32 ev Hok) as Htot.
    destruct (hex_bytes_to_array 32 ev) as [id|e|] eqn:Hid; cbn [map_err]; [| |done].
    + rewrite sign_event_is_message. apply nostr_branch; try done. cbn [nostr_message_of]. by rewrite Hid.
    + by apply refuse_branch.
  - unfold sign_nostr_raw. apply with_key; [done..|]. intros key g2 Ha Hg2 Hr2 Hb2. rewrite Hs in Ha.
    apply wp_bind, wp_lift. destruct payload as [bytes|text]; [|by apply nostr_branch].
    destruct (hex_bytes_to_vec_ok (E := DomainError) bytes Hok) as (bs & Hbs & _).
    assert (hex_bytes_to_vec (E := GatewayError) bytes = Ok bs) as ->.
    { revert Hbs. unfold hex_bytes_to_vec. destruct (hex_decode _); congruence. }
    apply nostr_branch; try done. cbn [nostr_message_of]. by rewrite Hbs.
Qed.
End signing.
