(* ===== verification/Wait.v ===== *)
(** * Waiting for acceptance

    crates/gateway/src/backend/wait.rs: polling a submitted transaction until it
    is accepted, reverted, or a deadline passes.

    Time is the interface [Timed]: reading the clock, sleeping, and
    [tokio::time::timeout] around a future, over the same world the RPC calls
    move.  [TimedLaws] states that time does not go back, that sleeping takes at
    least as long as asked, and that a timeout either returns the future's result
    or gives up.  Instants and durations are in milliseconds. *)

From stdpp Require Import base option list numbers strings.
From Stdlib Require Import ZArith Lia.
From S2P Require Import Prelude StarkLib StarkModel Types Text Domain Primitives Requests Fee Provider Gateway.

#[local] Open Scope string_scope.
#[local] Open Scope list_scope.
#[local] Open Scope Z_scope.

Class Timed (W : Type) : Type := {
  instant_now : W -> Z * W;
  (* the largest instant [checked_add] can represent *)
  instant_max : Z;
  sleep : Z -> W -> W;
  timeout : forall A, Z -> (W -> A * W) -> W -> option A * W }.
#[global] Arguments timeout {W _ A}.

Class TimedLaws (W : Type) `{!Timed W} : Type := {
  elapsed : W -> Z;
  instant_now_law w : elapsed w <= fst (instant_now w) /\ elapsed (snd (instant_now w)) = fst (instant_now w);
  sleep_law d w : 0 <= d -> elapsed w + d <= elapsed (sleep d w);
  timeout_result {A} d (f : W -> A * W) w a w' : timeout d f w = (Some a, w') -> f w = (a, w');
  timeout_forward {A} d (f : W -> A * W) w :
    elapsed w <= elapsed (snd (f w)) -> elapsed w <= elapsed (snd (timeout d f w)) }.

Inductive TransactionObservation : Type := Obs_Pending | Obs_Accepted | Obs_Reverted (reason : string).

Definition classify_execution (finality_status : TransactionFinalityStatus) (execution_result : ExecutionResult)
    : TransactionObservation :=
  match execution_result with
  | RevertedExec reason => Obs_Reverted reason
  | Succeeded => match finality_status with
                 | Fin_PreConfirmed => Obs_Pending
                 | Fin_AcceptedOnL2 | Fin_AcceptedOnL1 => Obs_Accepted
                 end
  end.

Definition classify_transaction_status (status : TransactionStatus) : TransactionObservation :=
  match status with
  | Status_Received | Status_Candidate => Obs_Pending
  | Status_PreConfirmed execution => classify_execution Fin_PreConfirmed execution
  | Status_AcceptedOnL2 execution => classify_execution Fin_AcceptedOnL2 execution
  | Status_AcceptedOnL1 execution => classify_execution Fin_AcceptedOnL1 execution
  end.

Definition classify_receipt (receipt : TransactionReceipt) : TransactionObservation :=
  classify_execution (receipt_finality_status receipt) (receipt_execution_result receipt).

Definition is_transaction_hash_not_found (error : ProviderError) : bool :=
  match error with PE_StarknetError SE_TransactionHashNotFound => true | _ => false end.

Section wait.
Context `{StarkTypes, !ErrorText} {W : Type} `{!Provider W, !Timed W}.

Definition observe_transaction (tx_hash : Felt) (w : W) : Result TransactionObservation * W :=
  match rpc_get_transaction_receipt tx_hash w with
  | (inl receipt, w) => (Ok (classify_receipt receipt), w)
  | (inr receipt_error, w) =>
      match rpc_get_transaction_status tx_hash w with
      | (inl status, w) => (Ok (classify_transaction_status status), w)
      | (inr status_error, w) =>
          (if is_transaction_hash_not_found receipt_error && is_transaction_hash_not_found status_error
           then Ok Obs_Pending
           else Err (RpcError "failed to query transaction {tx_hash:#x}: receipt error: {}; status error: {}"), w)
      end
  end.

(** [deadline.saturating_duration_since(Instant::now())]. *)
Definition remaining_at (deadline now : Z) : Z := Z.max 0 (deadline - now).

Definition await_before_deadline {A} (deadline : Z) (future : W -> Result A * W) (timeout_message : string) (w : W)
    : Result A * W :=
  let '(now, w) := instant_now w in
  match timeout (remaining_at deadline now) future w with
  | (Some r, w) => (r, w)
  | (None, w) => (Err (Timeout timeout_message), w)
  end.

Definition not_accepted_message : string := "transaction {} not accepted within {}ms".

(** The polling loop; [fuel] bounds the polls, and [None] says that it ran out. *)
Fixpoint wait_loop (fuel : nat) (tx_hash : Felt) (deadline interval : Z) (w : W) : option (Result unit * W) :=
  match fuel with
  | O => None
  | Datatypes.S fuel =>
      let '(now, w) := instant_now w in
      if deadline <=? now then Some (Err (Timeout not_accepted_message), w)
      else
        match await_before_deadline deadline (observe_transaction tx_hash) not_accepted_message w with
        | (Ok Obs_Pending, w) =>
            let '(now, w) := instant_now w in
            let remaining := remaining_at deadline now in
            wait_loop fuel tx_hash deadline interval (sleep (Z.min interval remaining) w)
        | (Ok Obs_Accepted, w) => Some (Ok tt, w)
        | (Ok (Obs_Reverted _), w) =>
            Some (Err (TransactionReverted "transaction {tx_hash:#x} reverted: {reason}"), w)
        | (Err e, w) => Some (Err e, w)
        | (Panic, w) => Some (Panic, w)
        end
  end.

Definition wait_for_acceptance (fuel : nat) (tx_hash : Felt) (poll_interval_ms timeout_ms : Z) (w : W)
    : option (Result unit * W) :=
  let '(now, w) := instant_now w in
  if instant_max <? now + timeout_ms
  then Some (Err (Timeout "wait timeout_ms={timeout_ms} exceeds the schedulable clock range"), w)
  else wait_loop fuel tx_hash (now + timeout_ms) poll_interval_ms w.

(** RPC calls take time forward. *)
Definition rpc_forward `{!TimedLaws W} : Prop :=
  forall tx w, elapsed w <= elapsed (snd (rpc_get_transaction_receipt tx w))
    /\ elapsed w <= elapsed (snd (rpc_get_transaction_status tx w)).

(** State [w'] is the one after seeing the transaction like this, no earlier
    than [w]. *)
Definition observed `{!TimedLaws W} (tx_hash : Felt) (o : TransactionObservation) (w w' : W) : Prop :=
  exists w1, observe_transaction tx_hash w1 = (Ok o, w') /\ elapsed w <= elapsed w1.

(** What a wait from [w] that ended in [w'] may report: acceptance or a revert
    only right after seeing it, otherwise a timeout or an RPC failure. *)
Definition wait_post `{!TimedLaws W} (tx : Felt) (w : W) (r : Result unit) (w' : W) : Prop :=
  match r with
  | Ok _ => observed tx Obs_Accepted w w'
  | Err (TransactionReverted _) => exists reason, observed tx (Obs_Reverted reason) w w'
  | Err e => (exists m, e = Timeout m) \/ (exists m, e = RpcError m)
  | Panic => False
  end.

(** ** Proofs *)
Context `{!TimedLaws W}.

Lemma wait_post_weaken tx w w1 r w' : elapsed w <= elapsed w1 -> wait_post tx w1 r w' -> wait_post tx w r w'.
Proof.
  assert (forall o, elapsed w <= elapsed w1 -> observed tx o w1 w' -> observed tx o w w') as Hobs.
  { intros o Hle (w2 & Hw2 & Hle2). exists w2. split; [done|lia]. }
  intros Hle. destruct r as [u|e|]; cbn [wait_post]; [by apply Hobs| |done].
  destruct e; try done. intros [reason Hr]. exists reason. by apply Hobs.
Qed.

Lemma observe_forward tx w : rpc_forward -> elapsed w <= elapsed (snd (observe_transaction tx w)).
Proof.
  intros Hf. unfold observe_transaction. destruct (Hf tx w) as [Hr _].
  destruct (rpc_get_transaction_receipt tx w) as [[receipt|e] w1]; cbn [snd] in *; [done|].
  destruct (Hf tx w1) as [_ Hs]. destruct (rpc_get_transaction_status tx w1) as [[status|e'] w2]; cbn [snd] in *; lia.
Qed.

Lemma observe_total tx w : fst (observe_transaction tx w) <> Panic.
Proof.
  unfold observe_transaction. destruct (rpc_get_transaction_receipt tx w) as [[receipt|e] w1]; [done|].
  destruct (rpc_get_transaction_status tx w1) as [[status|e'] w2]; [done|]. by destruct (_ && _).
Qed.

(** What a bounded observation can be. *)
Lemma await_cases deadline tx w :
  rpc_forward ->
  let '(r, w') := await_before_deadline deadline (observe_transaction tx) not_accepted_message w in
  elapsed w <= elapsed w'
  /\ match r with
     | Ok o => observed tx o w w'
     | Err e => (exists m, e = Timeout m) \/ (exists m, e = RpcError m)
     | Panic => False
     end.
Proof.
  intros Hf. unfold await_before_deadline. destruct (instant_now_law w) as [Hnow Hel].
  destruct (instant_now w) as [now w1]. cbn [fst snd] in *.
  pose proof (timeout_forward (remaining_at deadline now) (observe_transaction tx) w1 (observe_forward tx w1 Hf)) as Hfw.
  destruct (timeout (remaining_at deadline now) (observe_transaction tx) w1) as [[r|] w2] eqn:Ht; cbn [snd] in Hfw.
  - apply timeout_result in Ht. split; [lia|]. destruct r as [o|e|].
    + exists w1. split; [done|lia].
    + right. revert Ht. unfold observe_transaction.
      destruct (rpc_get_transaction_receipt tx w1) as [[receipt|e1] w3]; [done|].
      destruct (rpc_get_transaction_status tx w3) as [[status|e2] w4]; [done|].
      destruct (_ && _); [done|]. intros [= <- _]. eauto.
    + pose proof (observe_total tx w1) as Hp. by rewrite Ht in Hp.
  - split; [lia|]. left. eauto.
Qed.

(** Each poll that finds the transaction pending uses up an interval of the time
    that is left, or all of it. *)
Lemma wait_loop_ends tx deadline interval : rpc_forward -> 0 < interval -> forall fuel w,
  (0 < fuel)%nat -> Z.max 0 (deadline - elapsed w) <= interval * (Z.of_nat fuel - 1) ->
  exists r w', wait_loop fuel tx deadline interval w = Some (r, w')
    /\ wait_post tx w r w'.
Proof.
  intros Hf Hi. induction fuel as [|fuel IH]; intros w Hpos Hfuel; [lia|]. cbn [wait_loop].
  destruct (instant_now_law w) as [Hnow Hel]. destruct (instant_now w) as [now w1]. cbn [fst snd] in *.
  destruct (Z.leb_spec deadline now) as [Hd|Hd]; [eexists _, _; split; [reflexivity|]; left; eauto|].
  pose proof (await_cases deadline tx w1 Hf) as Hawait.
  destruct (await_before_deadline deadline (observe_transaction tx) not_accepted_message w1) as [r w2].
  destruct Hawait as [Hfw Hr]. destruct r as [[| |reason]|e|]; [| | | |done].
  2,3: destruct Hr as (w3 & Hw3 & Hle); eexists _, _; (split; [reflexivity|]).
  2: by exists w3; split; [|lia].
  2: by exists reason, w3; split; [|lia].
  2:{ destruct Hr as [[m ->]|[m ->]]; eexists _, _; (split; [reflexivity|]); [left|right]; by exists m. }
  destruct (instant_now_law w2) as [Hnow2 Hel2]. destruct (instant_now w2) as [now2 w3]. cbn [fst snd] in *.
  assert (1 <= Z.of_nat fuel) as Hf1 by nia.
  pose proof (sleep_law (Z.min interval (Z.max 0 (deadline - now2))) w3 ltac:(lia)) as Hsleep.
  destruct (IH (sleep (Z.min interval (remaining_at deadline now2)) w3)) as (r & w' & Hrun & Hpost); [lia| |].
  { unfold remaining_at. assert (interval <= interval * Z.of_nat fuel) by nia. lia. }
  eexists _, _. split; [exact Hrun|]. unfold remaining_at in *. eapply wait_post_weaken, Hpost. lia.
Qed.
End wait.

(** Polls that are enough for every wait policy the gateway admits. *)
Definition wait_fuel : nat := 3601.

Lemma wait_for_acceptance_ends `{StarkTypes, !ErrorText} {W : Type} `{!Provider W, !Timed W, !TimedLaws W} tx policy w :
  rpc_forward -> validate_wait_mode (WaitForAcceptance policy) = Ok tt -> 0 <= timeout_ms policy ->
  exists r w', wait_for_acceptance wait_fuel tx (poll_interval_ms policy) (timeout_ms policy) w = Some (r, w')
    /\ wait_post tx w r w'.
Proof.
  intros Hf (Hpoll & _ & Hmax)%validate_wait_mode_bounds Ht. unfold wait_for_acceptance.
  destruct (instant_now_law w) as [Hnow Hel]. destruct (instant_now w) as [now w1]. cbn [fst snd] in *.
  destruct (instant_max <? now + timeout_ms policy).
  { eexists _, _. split; [reflexivity|]. left. by eexists. }
  unfold MIN_WAIT_POLL_INTERVAL_MS, MAX_WAIT_TIMEOUT_MS in *.
  destruct (wait_loop_ends tx (now + timeout_ms policy) (poll_interval_ms policy) Hf ltac:(lia) wait_fuel w1)
    as (r & w' & Hrun & Hpost); [unfold wait_fuel; lia|rewrite Hel; change (Z.of_nat wait_fuel) with 3601; lia|].
  eexists _, _. split; [exact Hrun|]. eapply wait_post_weaken, Hpost. lia.
Qed.

(** C10: Under every wait policy the gateway admits, the acceptance wait ends within 3601
    polls; it reports acceptance or a revert only right after observing it, and otherwise a
    timeout or an RPC failure. *)
Theorem wait_terminates `{StarkTypes, !ErrorText} {W : Type} `{!Provider W, !Timed W, !TimedLaws W} tx policy w :
  rpc_forward -> validate_wait_mode (WaitForAcceptance policy) = Ok tt -> 0 <= timeout_ms policy ->
  exists r w', wait_for_acceptance wait_fuel tx (poll_interval_ms policy) (timeout_ms policy) w = Some (r, w')
    /\ wait_post tx w r w'.
Proof. apply wait_for_acceptance_ends. Qed.

(** ** Witness *)

(** A world that is only a time; calls take 10 ms, and a transaction is accepted
    from the 600th millisecond on. *)
#[local] Instance demo_timed : Timed Z := {|
  instant_now t := (t, t); instant_max := u64_MAX; sleep d t := t + Z.max 0 d;
  timeout A d f t := (Some (fst (f t)), snd (f t)) |}.

#[local] Instance demo_timed_laws : TimedLaws Z.
Proof.
  refine {| elapsed t := t |}.
  - intros t. cbn. lia.
  - intros d t Hd. cbn [sleep demo_timed]. lia.
  - intros A d f t a t'. cbn. intros [= <- <-]. by destruct (f t).
  - intros A d f t Hf. exact Hf.
Defined.

#[local] Instance demo_error_text : ErrorText := {| starknet_error_text _ := ""; typed_error_text _ := "" |}.

#[local] Instance demo_provider : @Provider model_types Z := {|
  rpc_get_transaction_receipt _ t := (inr (PE_StarknetError SE_TransactionHashNotFound), t + 10);
  rpc_get_transaction_status _ t :=
    (if t <? 600 then inr (PE_StarknetError SE_TransactionHashNotFound) else inl (Status_AcceptedOnL2 Succeeded), t + 10);
  rpc_get_class_hash_at _ _ t := (inr (PE_StarknetError SE_ContractNotFound), t + 10);
  rpc_get_nonce _ _ t := (inl (mk 0), t + 10);
  rpc_call _ _ t := (inl [mk 7; mk 1], t + 10);
  rpc_block_hash_and_number t := (inl (mk 1, 2), t + 10);
  rpc_get_block_with_tx_hashes _ t := (inl (PreConfirmedBlock 3), t + 10);
  factory_new _ _ _ t := (inl tt, t);
  deploy_estimate_fee _ t := (inl {| est_l1_gas := (1, 1); est_l2_gas := (1, 1); est_l1_data_gas := (1, 1) |}, t);
  deploy_send _ t := (inl (mk 77), t);
  selector_balance_of := mk 11; selector_balance_of_camel := mk 12 |}.

Lemma demo_rpc_forward : @rpc_forward model_types Z demo_provider demo_timed demo_timed_laws.
Proof. intros tx t. cbn. lia. Qed.

Lemma wait_terminates_witness :
  exists w', wait_for_acceptance wait_fuel (mk 77 : @Felt model_types) 250 5000 0 = Some (Ok tt, w')
    /\ observed (mk 77 : @Felt model_types) Obs_Accepted 0 w'.
Proof.
  assert (exists w', wait_for_acceptance wait_fuel (mk 77 : @Felt model_types) 250 5000 0 = Some (Ok tt, w')) as [w' Hw]
    by (eexists; vm_compute; reflexivity).
  destruct (wait_terminates (mk 77 : @Felt model_types) {| poll_interval_ms := 250; timeout_ms := 5000 |} 0
    demo_rpc_forward ltac:(reflexivity) ltac:(cbn; lia)) as (r & w'' & Hr & Hpost).
  cbn [poll_interval_ms timeout_ms] in Hr. rewrite Hw in Hr. injection Hr as <- <-.
  exists w'. split; [exact Hw|exact Hpost].
Defined.
