(* ===== verification/StarknetBackend.v ===== *)
(** * The Starknet backend

    crates/gateway/src/backend/deploy.rs and starknet.rs: the default
    implementation of the gateway's backend over a JSON-RPC provider, with the
    network presets of crates/common/src/network.rs and the chain identifiers of
    crates/common/src/chain.rs.

    [BM] is the state and error monad of the backend's methods over the world [W]
    of [Provider] and [Timed].  [WorldLaws] says what the safety of deployment
    relies on: only sending a deployment submits one. *)

From stdpp Require Import base option list numbers strings.
From Stdlib Require Import ZArith Lia.
From S2P Require Import Prelude StarkLib StarkModel Types Scalar Text Domain Primitives StarkSigning AccountClass.
From S2P Require Import Requests GatewayErrors Fee Provider Gateway GatewayAccounts Wait.

#[local] Open Scope string_scope.
#[local] Open Scope list_scope.
#[local] Open Scope Z_scope.

(** ** Chains and networks *)
Section chain.
Context `{StarkTypes}.

(** A Cairo short string. *)
Definition short_string (s : string) : Felt := felt_of_Z (be_value (string_bytes s)).

(** [ChainId::as_felt] and [ChainId::from_felt]. *)
Definition chain_as_felt (c : ChainId) : Felt :=
  match c with Mainnet => short_string "SN_MAIN" | Sepolia => short_string "SN_SEPOLIA" end.

Definition chain_from_felt `{EqDecision Felt} (felt : Felt) : Result ChainId :=
  let mainnet := short_string "SN_MAIN" in
  let sepolia := short_string "SN_SEPOLIA" in
  if decide (felt = mainnet) then Ok Mainnet
  else if decide (felt = sepolia) then Ok Sepolia
  else Err (DeserializationError "Unknown chain ID: {:#x}").
End chain.

Record NetworkPreset : Type := {
  np_chain_id : ChainId; np_rpc_url : string; np_explorer_base_url : string; np_name : string }.

Definition network_mainnet : NetworkPreset :=
  {| np_chain_id := Mainnet; np_rpc_url := "https://api.cartridge.gg/x/starknet/mainnet";
     np_explorer_base_url := "https://voyager.online"; np_name := "Starknet Mainnet" |}.
Definition network_sepolia : NetworkPreset :=
  {| np_chain_id := Sepolia; np_rpc_url := "https://api.cartridge.gg/x/starknet/sepolia";
     np_explorer_base_url := "https://sepolia.voyager.online"; np_name := "Starknet Sepolia" |}.
Definition network_devnet : NetworkPreset :=
  {| np_chain_id := Sepolia; np_rpc_url := "http://127.0.0.1:5050";
     np_explorer_base_url := "http://localhost:3000"; np_name := "Devnet" |}.
Definition explorer_tx_url (n : NetworkPreset) (hash : string) : string :=
  np_explorer_base_url n +:+ "/tx/" +:+ hash.

(** ** Deployment errors *)
Definition is_already_deployed_validation_failure (message : string) : bool :=
  let lower := map to_lower (string_bytes message) in
  str_contains (string_bytes "contractaddress has already been deployed") lower
  || str_contains (string_bytes "already been deployed") lower
  || str_contains (string_bytes "alreadydeployed") lower.

Definition indicates_already_deployed (message : string) : bool := is_already_deployed_validation_failure message.

Definition map_deploy_textual_starknet_error (message : string) (fallback_code : GatewayErrorCode) (retryable : bool)
    : GatewayError :=
  if indicates_already_deployed message then map_kms_error (AlreadyDeployed message)
  else gateway_error_new fallback_code retryable (Some message).

Section deploy_errors.
Context `{ErrorText}.

Definition map_deploy_starknet_error (error : StarknetError) : GatewayError :=
  match error with
  | SE_ClassHashNotFound => map_kms_error (InvalidClassHash "ClassHashNotFound")
  | SE_ContractNotFound => map_kms_error (ContractNotFound "ContractNotFound")
  | SE_InsufficientAccountBalance | SE_InsufficientResourcesForValidate =>
      map_kms_error (InsufficientFeeBalance (starknet_error_text error))
  | SE_ValidationFailure message => map_deploy_textual_starknet_error message Code_InvalidRequest false
  | SE_UnexpectedError message => map_deploy_textual_starknet_error message Code_RpcDegraded true
  | other => gateway_error_new Code_InvalidRequest false (Some (starknet_error_text other))
  end.

Definition map_deploy_provider_error (error : ProviderError) : GatewayError :=
  match error with
  | PE_StarknetError error => map_deploy_starknet_error error
  | other => map_provider_error other
  end.

Definition map_deploy_submission_error (error : AccountFactoryError) : GatewayError :=
  match error with
  | AF_Provider error => map_deploy_provider_error error
  | AF_Signing text => map_kms_error (CryptoError text)
  | AF_FeeOutOfRange => gateway_error_new Code_InvalidRequest false (Some "fee calculation overflow")
  end.
End deploy_errors.

(** ** Deployment checks *)
Section deploy.
Context `{StarkTypes, !StarkCrypto, !FeltFromHex, !ErrorText}.

Definition validate_open_zeppelin_descriptor (account : AccountDescriptor) (derived_public_key : Felt)
    : GatewayResult unit :=
  public_key ← felt_hex_to_felt (ad_public_key account);
  _ ← reject_if (bool_decide (public_key <> derived_public_key))
        (gateway_error_new Code_InvalidRequest false
           (Some "account descriptor public key does not match the provided private key"));
  actual_calldata ← collect (map felt_hex_to_felt (ad_constructor_calldata account));
  _ ← reject_if (bool_decide (actual_calldata <> [public_key]))
        (gateway_error_new Code_ConstructorCalldataMismatch false
           (Some "OpenZeppelin deploy descriptor must use constructor calldata [public_key]"));
  deployer_address ← felt_hex_to_felt (ad_deployer_address account);
  _ ← reject_if (bool_decide (deployer_address <> felt_of_Z 0))
        (gateway_error_new Code_InvalidRequest false
           (Some "OpenZeppelin deploy descriptor must use deployer_address = 0x0"));
  Ok tt.

(** The builder's setters. *)
Definition with_tip (d : AccountDeployment) (tip : Z) : AccountDeployment :=
  mk_AccountDeployment (dep_class_hash d) (dep_chain_id d) (dep_secret d) (dep_salt d) (Some tip) (dep_bounds d).
Definition with_bounds (d : AccountDeployment) (bounds : ProposedResourceBounds) : AccountDeployment :=
  mk_AccountDeployment (dep_class_hash d) (dep_chain_id d) (dep_secret d) (dep_salt d) (dep_tip d) (Some bounds).

Definition pin_deployment_tip (deployment : AccountDeployment) (ceiling : option ResourceBoundsCeiling)
    : AccountDeployment :=
  with_tip deployment (match ceiling with Some c => rbc_max_tip c | None => DEFAULT_TIP end).

Definition bound_deployment (deployment : AccountDeployment) (estimate : FeeEstimate)
    (ceiling : ResourceBoundsCeiling) : GatewayResult AccountDeployment :=
  bounds ← map_err (fun _ => gateway_error_new Code_InvalidRequest false (Some "fee ceiling: {error}"))
    (admit_estimate ceiling (est_l1_gas estimate) (est_l2_gas estimate) (est_l1_data_gas estimate));
  Ok (with_bounds (with_tip deployment (rbc_max_tip ceiling)) bounds).

(** ** The backend *)
Record StarknetGatewayBackend : Type := {
  sgb_network : NetworkPreset; sgb_deploy_fee_ceiling : option ResourceBoundsCeiling }.

Definition backend_new (network : NetworkPreset) : StarknetGatewayBackend :=
  {| sgb_network := network; sgb_deploy_fee_ceiling := None |}.

Definition with_deploy_fee_ceiling (b : StarknetGatewayBackend) (ceiling : ResourceBoundsCeiling)
    : StarknetGatewayBackend :=
  {| sgb_network := sgb_network b; sgb_deploy_fee_ceiling := Some ceiling |}.

Context {W : Type} `{!Provider W, !Timed W}.

Definition BM (A : Type) : Type := W -> GatewayResult A * W.

#[export] Instance BM_ret : MRet BM := fun A a w => (Ok a, w).
#[export] Instance BM_bind : MBind BM := fun A A' f m w =>
  match m w with
  | (Ok a, w) => f a w
  | (Err e, w) => (Err e, w)
  | (Panic, w) => (Panic, w)
  end.

Definition pure {A} (r : GatewayResult A) : BM A := fun w => (r, w).

(** [call.await.map_err(convert)?]. *)
Definition call {A E} (convert : E -> GatewayError) (f : W -> (A + E) * W) : BM A := fun w =>
  let '(r, w) := f w in (match r with inl a => Ok a | inr e => Err (convert e) end, w).

(** [match call.await { Ok(..) => .., Err(..) => .. }]. *)
Definition attempt {A E} (f : W -> (A + E) * W) : BM (A + E) := fun w => let '(r, w) := f w in (Ok r, w).

Context (b : StarknetGatewayBackend).

Definition starknet_check_deployed (address : FeltHex) (block : BlockSelector) : BM bool :=
  address ← pure (felt_hex_to_felt address);
  block ← pure (to_block_id block);
  found ← attempt (rpc_get_class_hash_at block (core_felt_to_rs address));
  match found with
  | inl _ => mret true
  | inr error => if is_contract_not_found error then mret false else pure (Err (map_provider_error error))
  end.

Definition submit_open_zeppelin_deploy (private_key : Felt) (account : AccountDescriptor) : BM Felt :=
  class_hash ← pure (felt_hex_to_felt (ad_class_hash account));
  let secret := core_felt_to_rs private_key in
  let chain_id := core_felt_to_rs (chain_as_felt (prov_chain_id (ad_provenance account))) in
  _ ← call (fun text => map_kms_error (CryptoError text)) (factory_new (core_felt_to_rs class_hash) chain_id secret);
  salt ← pure (felt_hex_to_felt (ad_salt account));
  let deployment := pin_deployment_tip
    (mk_AccountDeployment (core_felt_to_rs class_hash) chain_id secret (core_felt_to_rs salt) None None)
    (sgb_deploy_fee_ceiling b) in
  deployment ← match sgb_deploy_fee_ceiling b with
    | Some ceiling =>
        estimate ← call map_deploy_submission_error (deploy_estimate_fee deployment);
        pure (bound_deployment deployment estimate ceiling)
    | None => mret deployment
    end;
  call map_deploy_submission_error (deploy_send deployment).

(** [deploy_open_zeppelin] up to the submission: [None] says that the account is
    deployed already. *)
Definition deploy_open_zeppelin_submit (private_key : Felt) (account : AccountDescriptor) : BM (option Felt) :=
  let chain_id := prov_chain_id (ad_provenance account) in
  _ ← pure (reject_if (bool_decide (chain_id <> np_chain_id (sgb_network b)))
        (gateway_error_new Code_ChainMismatch false
           (Some "account descriptor targets {}, backend is configured for {}")));
  derived_public_key ← pure (map_err map_kms_error (stark_public_key private_key));
  _ ← pure (validate_open_zeppelin_descriptor account derived_public_key);
  deployed ← starknet_check_deployed (ad_address account) Block_Latest;
  if deployed : bool then mret None
  else submitted_hash ← submit_open_zeppelin_deploy private_key account; mret (Some submitted_hash).

(** The whole of [deploy_open_zeppelin]; [None] says that [fuel] polls were not
    enough. *)
Definition starknet_deploy_open_zeppelin (fuel : nat) (private_key : Felt) (account : AccountDescriptor)
    (mode : DeployMode) (w : W) : option (GatewayResult DeployExecution * W) :=
  match deploy_open_zeppelin_submit private_key account w with
  | (Ok None, w) => Some (Ok AlreadyDeployedExec, w)
  | (Ok (Some submitted_hash), w) =>
      let tx_hash := felt_hex_from_felt (rs_felt_to_core submitted_hash) in
      match mode with
      | SubmitOnly => Some (Ok (SubmittedExec tx_hash), w)
      | WaitForAcceptance wait =>
          '(r, w) ← wait_for_acceptance fuel submitted_hash (poll_interval_ms wait) (timeout_ms wait) w;
          Some (match map_err map_kms_error r with
                | Ok _ => Ok (AcceptedExec tx_hash) | Err e => Err e | Panic => Panic
                end, w)
      end
  | (Err e, w) => Some (Err e, w)
  | (Panic, w) => Some (Panic, w)
  end.

(** ** Queries *)
Definition starknet_nonce (address : FeltHex) (block : BlockSelector) : BM FeltHex :=
  block ← pure (to_block_id block);
  address ← pure (felt_hex_to_felt address);
  nonce ← call map_provider_error (rpc_get_nonce block (core_felt_to_rs address));
  mret (felt_hex_from_felt (rs_felt_to_core nonce)).

Definition call_erc20_balance_with_selector_fallback (primary_call : FunctionCall) (block_id : BlockId)
    (fallback_call : FunctionCall) : BM (list Felt) :=
  response ← attempt (rpc_call primary_call block_id);
  match response with
  | inl result => mret result
  | inr primary_error =>
      if is_entrypoint_not_found primary_error
      then call (fun _ => provider_transport_error
             "failed calling balance_of after typed entrypoint-not-found fallback: primary={primary_error}; fallback={}")
             (rpc_call fallback_call block_id)
      else pure (Err (map_provider_error primary_error))
  end.

(** [BigUint::to_string] of a number of at most 512 bits. *)
Definition biguint_to_string (z : Z) : string := bytes_string (print_onto 155 z []).

(** The balance text of an ERC-20 response. *)
Definition balance_of_response (result : list Felt) : GatewayResult string :=
  match result with
  | [] => Err (gateway_error_new Code_ProviderTransport true (Some "empty balance response for token {}"))
  | low :: rest =>
      let low := rs_felt_to_biguint low in
      let high := match rest with high :: _ => rs_felt_to_biguint high | [] => 0 end in
      Ok (biguint_to_string (Z.shiftl high 128 + low))
  end.

Definition starknet_token_balance (address : FeltHex) (token : TrackedToken) (block : BlockSelector) : BM string :=
  token_address ← pure (felt_hex_to_felt (token_address token));
  account_address ← pure (felt_hex_to_felt address);
  block_id ← pure (to_block_id block);
  let call_of selector := {| fc_contract_address := core_felt_to_rs token_address;
    fc_entry_point_selector := selector; fc_calldata := [core_felt_to_rs account_address] |} in
  result ← call_erc20_balance_with_selector_fallback (call_of selector_balance_of) block_id
    (call_of selector_balance_of_camel);
  pure (balance_of_response result).

Definition starknet_block_metadata (block : BlockSelector) : BM SnapshotBlockMetadata :=
  match block with
  | Block_Latest =>
      '(block_hash, block_number) ← call map_provider_error rpc_block_hash_and_number;
      mret {| sbm_selector := block; sbm_block_hash := Some (felt_hex_from_felt (rs_felt_to_core block_hash));
              sbm_block_number := Some block_number |}
  | _ =>
      id ← pure (to_block_id block);
      block_info ← call map_provider_error (rpc_get_block_with_tx_hashes id);
      let '(block_hash, block_number) :=
        match block_info with
        | FullBlock block_hash block_number =>
            (Some (felt_hex_from_felt (rs_felt_to_core block_hash)), Some block_number)
        | PreConfirmedBlock block_number => (None, Some block_number)
        end in
      mret {| sbm_selector := block; sbm_block_hash := block_hash; sbm_block_number := block_number |}
  end.
End deploy.

(** ** What submits a deployment *)

(** [sent] lists the deployments submitted so far: sending adds one, whatever the
    answer, and nothing else does. *)
Class WorldLaws `{StarkTypes} (W : Type) `{!Provider W, !Timed W} : Type := {
  sent : W -> list AccountDeployment;
  sent_send d w : sent (snd (deploy_send d w)) = sent w ++ [d];
  sent_receipt tx w : sent (snd (rpc_get_transaction_receipt tx w)) = sent w;
  sent_status tx w : sent (snd (rpc_get_transaction_status tx w)) = sent w;
  sent_class_hash id a w : sent (snd (rpc_get_class_hash_at id a w)) = sent w;
  sent_factory c i s w : sent (snd (factory_new c i s w)) = sent w;
  sent_estimate d w : sent (snd (deploy_estimate_fee d w)) = sent w;
  sent_now w : sent (snd (instant_now w)) = sent w;
  sent_sleep d w : sent (sleep d w) = sent w;
  sent_timeout {A} d (f : W -> A * W) w :
    (forall w, sent (snd (f w)) = sent w) -> sent (snd (timeout d f w)) = sent w }.

Section sending.
Context `{StarkTypes, !StarkCrypto, !FeltFromHex, !ErrorText} {W : Type} `{!Provider W, !Timed W, !WorldLaws W}.

Lemma observe_sends_nothing tx w : sent (snd (observe_transaction tx w)) = sent w.
Proof.
  unfold observe_transaction. pose proof (sent_receipt tx w) as Hr.
  destruct (rpc_get_transaction_receipt tx w) as [[receipt|e] w1]; cbn [snd] in *; [done|].
  pose proof (sent_status tx w1) as Hs. destruct (rpc_get_transaction_status tx w1) as [[status|e'] w2]; cbn [snd] in *;
    congruence.
Qed.

Lemma wait_loop_sends_nothing tx deadline interval fuel w r w' :
  wait_loop fuel tx deadline interval w = Some (r, w') -> sent w' = sent w.
Proof.
  revert w. induction fuel as [|fuel IH]; intros w; cbn [wait_loop]; [done|].
  pose proof (sent_now w) as Hn. destruct (instant_now w) as [now w1]. cbn [snd] in Hn.
  destruct (deadline <=? now); [by intros [= _ <-]|]. unfold await_before_deadline.
  pose proof (sent_now w1) as Hn1. destruct (instant_now w1) as [now1 w2]. cbn [snd] in Hn1.
  pose proof (sent_timeout (remaining_at deadline now1) (observe_transaction tx) w2 (observe_sends_nothing tx)) as Ht.
  destruct (timeout (remaining_at deadline now1) (observe_transaction tx) w2) as [[[[| |reason]|e|]|] w3]; cbn [snd] in Ht;
    [|intros [= _ <-]; congruence..].
  pose proof (sent_now w3) as Hn3. destruct (instant_now w3) as [now3 w4]. cbn [snd] in Hn3.
  intros ->%IH. rewrite sent_sleep. congruence.
Qed.

Lemma wait_sends_nothing tx fuel poll limit w r w' :
  wait_for_acceptance fuel tx poll limit w = Some (r, w') -> sent w' = sent w.
Proof.
  unfold wait_for_acceptance. pose proof (sent_now w) as Hn. destruct (instant_now w) as [now w1]. cbn [snd] in Hn.
  destruct (instant_max <? now + limit); [by intros [= _ <-]|]. intros ->%wait_loop_sends_nothing. done.
Qed.

Lemma check_deployed_run `{!StarkLaws} (address : Felt) w :
  starknet_check_deployed (felt_hex_from_felt address) Block_Latest w
  = (match fst (rpc_get_class_hash_at Id_Latest address w) with
     | inl _ => Ok true
     | inr e => if is_contract_not_found e then Ok false else Err (map_provider_error e)
     end, snd (rpc_get_class_hash_at Id_Latest address w)).
Proof.
  unfold starknet_check_deployed. unfold mbind, BM_bind, pure, attempt. rewrite to_from_felt.
  cbn [to_block_id]. rewrite (proj1 (core_rs_felt address)).
  destruct (rpc_get_class_hash_at Id_Latest address w) as [[f|e] w1]; cbn [fst snd]; [done|].
  by destruct (is_contract_not_found e).
Qed.
End sending.

(** ** Deployment *)
Definition within (c : ResourceBoundsCeiling) (p : ProposedResourceBounds) : Prop :=
  bound_le (prb_l1_gas p) (rbc_l1_gas c) /\ bound_le (prb_l2_gas p) (rbc_l2_gas c)
  /\ bound_le (prb_l1_data_gas p) (rbc_l1_data_gas c).

(** A deployment of this account that a backend with this ceiling may send. *)
Definition deployment_sound `{StarkTypes} (ceiling : option ResourceBoundsCeiling) (class_hash : Felt) (chain : ChainId)
    (private_key salt : Felt) (d : AccountDeployment) : Prop :=
  dep_class_hash d = class_hash /\ dep_chain_id d = chain_as_felt chain /\ dep_secret d = private_key
  /\ dep_salt d = salt
  /\ match ceiling with
     | None => dep_tip d = Some DEFAULT_TIP /\ dep_bounds d = None
     | Some c => dep_tip d = Some (rbc_max_tip c) /\ exists p, dep_bounds d = Some p /\ within c p
     end.

Section deployment.
Context `{StarkLaws, !StarkCrypto, !StarkCryptoLaws, !FeltFromHex, !ErrorText}.

(** The descriptor of these values. *)
Definition descriptor_of (address public_key class_hash salt : Felt) (calldata : list Felt) (deployer : Felt)
    (provenance : Provenance) : AccountDescriptor :=
  {| ad_address := felt_hex_from_felt address; ad_public_key := felt_hex_from_felt public_key;
     ad_class_hash := felt_hex_from_felt class_hash; ad_salt := felt_hex_from_felt salt;
     ad_constructor_calldata := map felt_hex_from_felt calldata; ad_deployer_address := felt_hex_from_felt deployer;
     ad_provenance := provenance |}.

Lemma collect_to_felt {E} (l : list Felt) : collect (map felt_hex_to_felt (map felt_hex_from_felt l)) = Ok (E := E) l.
Proof. induction l as [|f l IH]; cbn [map collect]; [done|]. by rewrite to_from_felt, IH. Qed.

Lemma stark_public_key_no_panic k : stark_public_key k <> Panic.
Proof.
  destruct (stark_public_key_correct k) as [Hin Hout]. destruct (decide (1 <= felt_val k < CurveOrder)) as [Hk|Hk].
  - by destruct (Hin Hk) as (g & a & _ & _ & ->).
  - by rewrite (Hout Hk).
Qed.

Lemma validate_descriptor_cases address pk class salt calldata deployer prov derived :
  let r := validate_open_zeppelin_descriptor (descriptor_of address pk class salt calldata deployer prov) derived in
  (r = Ok tt /\ derived = pk /\ calldata = [pk] /\ deployer = felt_of_Z 0)
  \/ (exists e, r = Err e) /\ ~ (derived = pk /\ calldata = [pk] /\ deployer = felt_of_Z 0).
Proof.
  unfold validate_open_zeppelin_descriptor. cbn [descriptor_of ad_public_key ad_constructor_calldata ad_deployer_address].
  rewrite collect_to_felt, !to_from_felt. cbn [mbind outcome_bind]. unfold reject_if.
  destruct (decide (pk <> derived)) as [Hpk|Hpk].
  { rewrite (bool_decide_eq_true_2 _ Hpk). right. split; [by eexists|]. intros (? & _). by subst. }
  rewrite (bool_decide_eq_false_2 _ Hpk). destruct (decide (calldata <> [pk])) as [Hc|Hc].
  { rewrite (bool_decide_eq_true_2 _ Hc). right. split; [by eexists|]. by intros (_ & ? & _). }
  rewrite (bool_decide_eq_false_2 _ Hc). destruct (decide (deployer <> felt_of_Z 0)) as [Hd|Hd].
  { rewrite (bool_decide_eq_true_2 _ Hd). right. split; [by eexists|]. by intros (_ & _ & ?). }
  rewrite (bool_decide_eq_false_2 _ Hd). left. split; [done|].
  apply dec_stable in Hpk, Hc, Hd. done.
Qed.

Lemma bound_deployment_cases d estimate c :
  bound_deployment d estimate c = Err (gateway_error_new Code_InvalidRequest false (Some "fee ceiling: {error}"))
  \/ exists p, bound_deployment d estimate c = Ok (with_bounds (with_tip d (rbc_max_tip c)) p) /\ within c p.
Proof.
  unfold bound_deployment.
  destruct (admit_estimate c (est_l1_gas estimate) (est_l2_gas estimate) (est_l1_data_gas estimate)) as [p|e|] eqn:Ha;
    cbn [map_err mbind outcome_bind].
  - right. exists p. split; [done|]. apply admit_estimate_Ok in Ha as (_ & _ & Hle & ->). exact Hle.
  - by left.
  - by apply admit_estimate_total in Ha.
Qed.
Context {W : Type} `{!Provider W, !Timed W, !WorldLaws W} (b : StarknetGatewayBackend).

(** A submission either sends nothing and fails, or sends one sound
    deployment. *)
Lemma submit_cases sk address pk class salt calldata deployer prov w :
  let '(r, w') := submit_open_zeppelin_deploy b sk (descriptor_of address pk class salt calldata deployer prov) w in
  (sent w' = sent w /\ exists e, r = Err e)
  \/ exists d, sent w' = sent w ++ [d] /\ r <> Panic
     /\ deployment_sound (sgb_deploy_fee_ceiling b) class (prov_chain_id prov) sk salt d.
Proof.
  unfold submit_open_zeppelin_deploy, mbind, BM_bind, pure, call.
  cbn [descriptor_of ad_class_hash ad_salt ad_provenance]. rewrite !to_from_felt, !(fun f => proj1 (core_rs_felt f)).
  pose proof (sent_factory class (chain_as_felt (prov_chain_id prov)) sk w) as Hf.
  destruct (factory_new class (chain_as_felt (prov_chain_id prov)) sk w) as [[u|text] w1]; cbn [snd] in Hf; [|eauto].
  unfold deployment_sound. destruct (sgb_deploy_fee_ceiling b) as [c|]; cbn [pin_deployment_tip].
  - set (d := pin_deployment_tip _ (Some c)). pose proof (sent_estimate d w1) as He.
    destruct (deploy_estimate_fee d w1) as [[estimate|e] w2]; cbn [snd] in He; [|left; split; [congruence|eauto]].
    destruct (bound_deployment_cases d estimate c) as [->|(p & -> & Hp)]; [left; split; [congruence|eauto]|].
    set (d' := with_bounds _ p). pose proof (sent_send d' w2) as Hs.
    destruct (deploy_send d' w2) as [[hash|e] w3]; cbn [snd] in Hs;
      (right; eexists; split; [rewrite Hs, He, Hf; reflexivity|]; split; [done|]; split_and!; try reflexivity;
       exists p; split; [reflexivity|exact Hp]).
  - unfold mret, BM_ret. set (d := pin_deployment_tip _ None). pose proof (sent_send d w1) as Hs.
    destruct (deploy_send d w1) as [[hash|e] w3]; cbn [snd] in Hs;
      (right; eexists; split; [rewrite Hs, Hf; reflexivity|]; split; [done|]; split_and!; reflexivity).
Qed.

(** The account at [address] has no contract in state [w]. *)
Definition undeployed (address : Felt) (w : W) : Prop :=
  fst (rpc_get_class_hash_at Id_Latest address w) = inr (PE_StarknetError SE_ContractNotFound).

(** When a deployment with this key may be sent. *)
Definition deployable (sk address pk : Felt) (calldata : list Felt) (deployer : Felt) (prov : Provenance) (w : W) : Prop :=
  prov_chain_id prov = np_chain_id (sgb_network b) /\ stark_public_key sk = Ok pk /\ calldata = [pk]
  /\ deployer = felt_of_Z 0 /\ undeployed address w.

Lemma deploy_submit_cases sk address pk class salt calldata deployer prov w :
  let '(r, w') := deploy_open_zeppelin_submit b sk (descriptor_of address pk class salt calldata deployer prov) w in
  (sent w' = sent w /\ ((exists e, r = Err e) \/ r = Ok None))
  \/ exists d, sent w' = sent w ++ [d] /\ r <> Panic /\ r <> Ok None
     /\ deployable sk address pk calldata deployer prov w
     /\ deployment_sound (sgb_deploy_fee_ceiling b) class (prov_chain_id prov) sk salt d.
Proof.
  unfold deploy_open_zeppelin_submit. cbn [descriptor_of ad_provenance ad_address].
  set (account := descriptor_of _ _ _ _ _ _ _).
  unfold mbind, BM_bind at 1, pure at 1, reject_if.
  destruct (decide (prov_chain_id prov = np_chain_id (sgb_network b))) as [Hc|Hc].
  2:{ rewrite bool_decide_eq_true_2 by done. eauto. }
  rewrite bool_decide_eq_false_2 by (by intros ?).
  unfold BM_bind at 1, pure at 1. pose proof (stark_public_key_no_panic sk) as Hp.
  destruct (stark_public_key sk) as [derived|e|] eqn:Hsk; [| |done]; cbn [map_err]; [|eauto].
  unfold BM_bind at 1, pure at 1.
  destruct (validate_descriptor_cases address pk class salt calldata deployer prov derived)
    as [(Hv & -> & Hcd & Hd)|[[e Hv] _]]; unfold account; rewrite Hv; [|eauto].
  unfold BM_bind at 1, mret, BM_ret. change (ad_address _) with (felt_hex_from_felt address). rewrite check_deployed_run.
  pose proof (sent_class_hash Id_Latest address w) as Hw.
  destruct (fst (rpc_get_class_hash_at Id_Latest address w)) as [f|e] eqn:Hat; [eauto|].
  destruct (is_contract_not_found e) eqn:He; [|eauto].
  assert (deployable sk address pk calldata deployer prov w) as Hdep.
  { split_and!; [done..|]. unfold undeployed. rewrite Hat. by destruct e as [[]| | |]. }
  unfold BM_bind. pose proof (submit_cases sk address pk class salt calldata deployer prov
    (snd (rpc_get_class_hash_at Id_Latest address w))) as Hs.
  destruct (submit_open_zeppelin_deploy _ _ _ _) as [r w']. destruct Hs as [[Hs [e' ->]]|(d & Hs & Hr & Hd')].
  - left. split; [congruence|eauto].
  - rewrite Hw in Hs. destruct r as [h|e'|]; [| |done]; (right; exists d; split_and!; [exact Hs|done..|exact Hd']).
Qed.
End deployment.

(** ** Properties *)

(** C9: Deploying an account through the Starknet backend with an admitted wait policy ends
    without panicking and submits at most one transaction: only for the backend's chain, a key
    whose public key is the descriptor's, constructor calldata [public_key], no deployer and an
    address that is not deployed; the transaction deploys exactly that account with the pinned
    tip, and under a ceiling its resource bounds are within it. *)
Theorem starknet_deploy_safe `{StarkLaws, !StarkCrypto, !StarkCryptoLaws, !FeltFromHex, !ErrorText} {W : Type}
    `{!Provider W, !Timed W, !TimedLaws W, !WorldLaws W} b sk address pk class salt calldata deployer prov mode w :
  rpc_forward -> validate_wait_mode mode = Ok tt ->
  (forall wait, mode = WaitForAcceptance wait -> 0 <= timeout_ms wait) ->
  exists r w',
    starknet_deploy_open_zeppelin b wait_fuel sk (descriptor_of address pk class salt calldata deployer prov) mode w
      = Some (r, w')
    /\ r <> Panic
    /\ ((sent w' = sent w /\ (r = Ok AlreadyDeployedExec \/ exists e, r = Err e))
        \/ exists d, sent w' = sent w ++ [d] /\ r <> Ok AlreadyDeployedExec
           /\ deployable b sk address pk calldata deployer prov w
           /\ deployment_sound (sgb_deploy_fee_ceiling b) class (prov_chain_id prov) sk salt d).
Proof.
  intros Hf Hmode Hpos. unfold starknet_deploy_open_zeppelin.
  pose proof (deploy_submit_cases b sk address pk class salt calldata deployer prov w) as Hs.
  destruct (deploy_open_zeppelin_submit _ _ _ w) as [r w1].
  destruct Hs as [[Hs [[e ->]| ->]]|(d & Hs & Hr & Hr' & Hdep & Hd)].
  1,2: (eexists _, _; split; [reflexivity|]; split; [done|]; left; split; [exact Hs|eauto]).
  destruct r as [[hash|]|e|]; [|done| |done].
  2:{ eexists _, _. split; [reflexivity|]. split; [done|]. right. by exists d. }
  destruct mode as [|wait]; [eexists _, _; split; [reflexivity|]; split; [done|]; right; by exists d|].
  destruct (wait_for_acceptance_ends hash wait w1 Hf Hmode (Hpos wait eq_refl)) as (r & w' & Hrun & Hpost).
  rewrite Hrun. pose proof (wait_sends_nothing _ _ _ _ _ _ _ Hrun) as Hw. cbn [mbind option_bind].
  eexists _, _. split; [reflexivity|].
  split; [destruct r; cbn [map_err]; done|]. right. exists d. rewrite Hw. split; [exact Hs|].
  split; [|done]. by destruct r.
Qed.

(** The balance reported for an ERC-20 response of canonical felts is the 256-bit
    value of its two words, in decimal. *)
Theorem balance_text_value `{StarkLaws} low high rest :
  exists text, balance_of_response (low :: high :: rest) = Ok text
    /\ digits (string_bytes text)
    /\ dec_value (string_bytes text) = felt_val high * 2 ^ 128 + felt_val low.
Proof.
  assert (forall f : Felt, rs_felt_to_biguint f = felt_val f) as Hval.
  { reflexivity. }
  unfold balance_of_response. rewrite !Hval, Z.shiftl_mul_pow2 by lia. eexists. split; [reflexivity|].
  unfold biguint_to_string. pose proof (felt_val_range low) as Hl. pose proof (felt_val_range high) as Hh.
  destruct (print_onto_spec 155 (felt_val high * 2 ^ 128 + felt_val low)) as (Hd & Hv & _).
  { split; [lia|]. apply (Z.lt_le_trans _ (2 ^ 512)); [|vm_compute; discriminate].
    assert (felt_prime <= 2 ^ 256) by (vm_compute; discriminate). nia. }
  rewrite string_bytes_string; [done|]. eapply Forall_impl; [exact Hd|].
  intros c ?%is_digit_range. unfold byte_ok. lia.
Qed.

(** Chain identifiers survive the trip through field elements. *)
Theorem chain_id_roundtrip `{StarkLaws} `{!EqDecision Felt} c : chain_from_felt (chain_as_felt c) = Ok c.
Proof.
  unfold chain_from_felt. destruct c; cbn [chain_as_felt]; [by rewrite decide_True|].
  rewrite decide_False, decide_True; [done|done|]. intros Heq%(f_equal felt_val).
  unfold short_string in Heq. rewrite !felt_of_Z_val in Heq by (vm_compute; discriminate).
  vm_compute in Heq. discriminate.
Qed.

(** The heuristic that recognises an account that exists already. *)
Example already_deployed_messages :
  map indicates_already_deployed
    ["Requested ContractAddress has already been deployed"; "Validation failed: alreadyDeployed";
     "Invalid transaction nonce of contract at address 0x123"] = [true; true; false].
Proof. vm_compute. reflexivity. Qed.

(** ** Witness *)

(** A world of a time and the deployments sent: nothing is deployed, the fees are
    fixed, and a transaction is accepted from the 600th millisecond on. *)
Definition demo_world : Type := Z * list (@AccountDeployment model_types).

#[local] Instance demo_world_timed : Timed demo_world := {|
  instant_now w := (fst w, w); instant_max := u64_MAX; sleep d w := (fst w + Z.max 0 d, snd w);
  timeout A d f w := (Some (fst (f w)), snd (f w)) |}.

#[local] Instance demo_world_timed_laws : TimedLaws demo_world.
Proof.
  refine {| elapsed w := fst w |}.
  - intros w. cbn. lia.
  - intros d w Hd. cbn [sleep demo_world_timed fst]. lia.
  - intros A d f w a w'. cbn. intros [= <- <-]. by destruct (f w).
  - intros A d f w Hf. exact Hf.
Defined.

#[local] Instance demo_world_text : ErrorText := {| starknet_error_text _ := ""; typed_error_text _ := "" |}.

#[local] Instance demo_world_provider : @Provider model_types demo_world := {|
  rpc_get_transaction_receipt _ w := (inr (PE_StarknetError SE_TransactionHashNotFound), w);
  rpc_get_transaction_status _ w :=
    (if fst w <? 600 then inr (PE_StarknetError SE_TransactionHashNotFound) else inl (Status_AcceptedOnL2 Succeeded), w);
  rpc_get_class_hash_at _ _ w := (inr (PE_StarknetError SE_ContractNotFound), w);
  rpc_get_nonce _ _ w := (inl (mk 0), w);
  rpc_call _ _ w := (inl [mk 7; mk 1], w);
  rpc_block_hash_and_number w := (inl (mk 1, 2), w);
  rpc_get_block_with_tx_hashes _ w := (inl (PreConfirmedBlock 3), w);
  factory_new _ _ _ w := (inl tt, w);
  deploy_estimate_fee _ w := (inl {| est_l1_gas := (1, 1); est_l2_gas := (1, 1); est_l1_data_gas := (1, 1) |}, w);
  deploy_send d w := (inl (mk 77), (fst w, snd w ++ [d]));
  selector_balance_of := mk 11; selector_balance_of_camel := mk 12 |}.

#[local] Instance demo_world_laws : @WorldLaws model_types demo_world demo_world_provider demo_world_timed.
Proof. refine {| sent w := snd w |}; try reflexivity. intros A d f w Hf. apply Hf. Defined.

#[local] Existing Instance model_stark_crypto.
#[local] Existing Instance model_stark_crypto_laws.
#[local] Existing Instance model_felt_from_hex.

Definition demo_ceiling : ResourceBoundsCeiling :=
  let one := {| mb_max_amount := 10; mb_max_price_per_unit := 10 |} in
  {| rbc_l1_gas := one; rbc_l2_gas := one; rbc_l1_data_gas := one; rbc_max_tip := 3 |}.

Definition demo_provenance : Provenance :=
  {| prov_chain_id := Sepolia; prov_key_domain := StarknetAccount;
     prov_derivation_path := {| coin_type := 9004; account_index := 0; address_index := 0 |}; prov_class_hash := None |}.

(** A deployment that waits: either it failed before sending, or one deployment
    was sent with the ceiling's tip. *)
Lemma starknet_deploy_safe_witness :
  exists pk r w', stark_public_key (mk 1 : @Felt model_types) = Ok pk
    /\ starknet_deploy_open_zeppelin (with_deploy_fee_ceiling (backend_new network_sepolia) demo_ceiling) wait_fuel (mk 1)
         (descriptor_of (mk 5) pk (mk 6) pk [pk] (mk 0) demo_provenance)
         (WaitForAcceptance {| poll_interval_ms := 250; timeout_ms := 5000 |}) ((0, []) : demo_world) = Some (r, w')
    /\ r <> Panic
    /\ (snd w' = [] \/ exists d : @AccountDeployment model_types, snd w' = [d] /\ dep_tip d = Some 3).
Proof.
  destruct (proj1 (stark_public_key_total (mk 1 : @Felt model_types))) as [pk Hpk].
  { rewrite model_felt_val by (vm_compute; split; congruence). vm_compute. split; congruence. }
  destruct (starknet_deploy_safe (with_deploy_fee_ceiling (backend_new network_sepolia) demo_ceiling)
    (mk 1 : @Felt model_types) (mk 5 : @Felt model_types) pk (mk 6 : @Felt model_types) pk [pk] (mk 0 : @Felt model_types)
    demo_provenance
    (WaitForAcceptance {| poll_interval_ms := 250; timeout_ms := 5000 |}) ((0, []) : demo_world))
    as (r & w' & Hrun & Hp & Hcase).
  { intros tx w. cbn. lia. }
  { reflexivity. }
  { intros wait [= <-]. cbn. lia. }
  exists pk, r, w'. split_and!; [exact Hpk|exact Hrun|exact Hp|].
  destruct Hcase as [[Hs _]|(d & Hs & _ & _ & _ & _ & _ & _ & Ht & _)]; [left; exact Hs|].
  right. exists d. split; [exact Hs|exact Ht].
Defined.
