(* ===== verification/Multisig.v ===== *)
(** * Multisig contracts

    crates/kms/src/multisig.rs (deployment descriptors) and crates/client/src/multisig/
    codec.rs and types.rs (transaction ids, coordination messages, calldata, responses).

    An [Address] is the field element it wraps.  ECDSA and Keccak are interfaces; the
    JSON forms that serde derives are not modelled. *)

From stdpp Require Import base option list numbers strings.
From Stdlib Require Import ZArith Lia.
From S2P Require Import Prelude StarkLib StarkModel Types Scalar TxHash Text Domain Primitives AccountClass.
From S2P Require Import Requests Fee Provider Gateway GatewayAccounts Wait StarknetBackend.

#[local] Open Scope string_scope.
#[local] Open Scope list_scope.
#[local] Open Scope Z_scope.

(** ** Deployment (kms) *)
Section deployment.
Context `{FeltExtras}.

Record OpenZeppelinMultisig : Type := { ozm_class_hash : Felt }.

Record OzMultisigDeploymentDescriptor : Type := mk_OzMultisigDeploymentDescriptor {
  omd_address : Felt; omd_class_hash : Felt; omd_salt : Felt; omd_constructor_calldata : list Felt;
  omd_deployer_address : Felt; omd_quorum : Z; omd_signers : list Felt }.

(** The loop over the signers with the set of those seen. *)
Fixpoint check_signers (seen signers : list Felt) : Result unit :=
  match signers with
  | [] => Ok tt
  | signer :: signers =>
      _ ← reject_if (bool_decide (signer = felt_of_Z 0)) (MultisigError "signer address cannot be zero");
      _ ← reject_if (bool_decide (signer ∈ seen)) (MultisigError "duplicate signer address {signer:#x}");
      check_signers (signer :: seen) signers
  end.

Definition validate_multisig_config (quorum : Z) (signers : list Felt) : Result unit :=
  _ ← reject_if (quorum =? 0) (MultisigError "quorum must be greater than zero");
  _ ← reject_if (length signers =? 0)%nat (MultisigError "at least one signer is required");
  _ ← reject_if (Z.of_nat (length signers) <? quorum) (MultisigError "quorum {quorum} exceeds signer count {}");
  check_signers [] signers.

Definition build_constructor_calldata (quorum : Z) (signers : list Felt) : Result (list Felt) :=
  _ ← validate_multisig_config quorum signers;
  Ok ([felt_of_Z quorum; felt_of_Z (Z.of_nat (length signers))] ++ signers).

Definition multisig_deployment_descriptor (m : OpenZeppelinMultisig) (quorum : Z) (signers : list Felt) (salt_policy : SaltPolicy)
    : Result OzMultisigDeploymentDescriptor :=
  constructor_calldata ← build_constructor_calldata quorum signers;
  salt ← match salt_policy with
         | SaltExplicit salt => Ok salt
         | SaltZero => Ok (felt_of_Z 0)
         | SaltPublicKey => Err (MultisigError "public-key salt policy is invalid for multisig deployments")
         end;
  let deployer_address := felt_of_Z 0 in
  address ← calculate_contract_address salt (ozm_class_hash m) constructor_calldata deployer_address;
  Ok (mk_OzMultisigDeploymentDescriptor address (ozm_class_hash m) salt constructor_calldata deployer_address quorum signers).
End deployment.

(** ** Messages (types.rs) *)
Class StarknetKeccak `{StarkTypes} : Type := { starknet_keccak : list Z -> Felt }.

(** [SigningKey::sign] and [ecdsa_verify]; [None] is an error. *)
Class StarkEcdsa `{StarkTypes} : Type := {
  key_public : Felt -> Felt;
  key_sign : Felt -> Felt -> option (Felt * Felt);
  ecdsa_verify : Felt -> Felt -> Felt -> Felt -> option bool }.
Class StarkEcdsaLaws `{StarkEcdsa} : Prop := {
  key_sign_verifies key hash r s : key_sign key hash = Some (r, s) -> ecdsa_verify (key_public key) hash r s = Some true }.

Section messages.
Context `{StarkTypes}.

Record MultisigCall : Type := mk_MultisigCall { mc_to : Felt; mc_selector : Felt; mc_calldata : list Felt }.

(** The [starknet-rs] call. *)
Record RsCall : Type := mk_RsCall { rc_to : Felt; rc_selector : Felt; rc_calldata : list Felt }.

Definition from_starknet_call (call : RsCall) : MultisigCall :=
  mk_MultisigCall (rs_felt_to_core (rc_to call)) (rs_felt_to_core (rc_selector call))
    (map rs_felt_to_core (rc_calldata call)).

Definition to_starknet_call (call : MultisigCall) : RsCall :=
  mk_RsCall (core_felt_to_rs (mc_to call)) (core_felt_to_rs (mc_selector call)) (map core_felt_to_rs (mc_calldata call)).

Inductive MultisigTransactionState : Type := Mts_NotFound | Mts_Pending | Mts_Confirmed | Mts_Executed.

Record MultisigTopic : Type := mk_MultisigTopic { mt_multisig : Felt; mt_chain_id : ChainId; mt_transaction_id : Felt }.

Definition felt_to_hex (felt : Felt) : string := bytes_string (px ++ hex_print 64 (felt_val felt)).

(** [MultisigTopic::key]. *)
Definition topic_key (t : MultisigTopic) : string :=
  chain_name (mt_chain_id t) +:+ ":" +:+ felt_to_hex (mt_multisig t) +:+ ":" +:+ felt_to_hex (mt_transaction_id t).

Record MultisigProposal : Type := mk_MultisigProposal {
  mp_multisig : Felt; mp_chain_id : ChainId; mp_transaction_id : Felt; mp_calls : list MultisigCall; mp_salt : Felt;
  mp_proposer : Felt; mp_memo : option string }.

Record MultisigSignerNotice : Type := mk_MultisigSignerNotice {
  sn_multisig : Felt; sn_chain_id : ChainId; sn_transaction_id : Felt; sn_signer : Felt }.

Record MultisigExecutionNotice : Type := mk_MultisigExecutionNotice {
  en_multisig : Felt; en_chain_id : ChainId; en_transaction_id : Felt; en_executor : Felt }.

Inductive MultisigCoordinationMessage : Type :=
| Msg_Proposal (proposal : MultisigProposal) | Msg_Confirmation (notice : MultisigSignerNotice)
| Msg_Revocation (notice : MultisigSignerNotice) | Msg_Execution (notice : MultisigExecutionNotice).

Definition proposal_topic (p : MultisigProposal) : MultisigTopic :=
  mk_MultisigTopic (mp_multisig p) (mp_chain_id p) (mp_transaction_id p).
Definition signer_notice_topic (n : MultisigSignerNotice) : MultisigTopic :=
  mk_MultisigTopic (sn_multisig n) (sn_chain_id n) (sn_transaction_id n).
Definition execution_notice_topic (n : MultisigExecutionNotice) : MultisigTopic :=
  mk_MultisigTopic (en_multisig n) (en_chain_id n) (en_transaction_id n).

Definition message_topic (m : MultisigCoordinationMessage) : MultisigTopic :=
  match m with
  | Msg_Proposal p => proposal_topic p
  | Msg_Confirmation n | Msg_Revocation n => signer_notice_topic n
  | Msg_Execution n => execution_notice_topic n
  end.

Definition message_claimed_actor (m : MultisigCoordinationMessage) : Felt :=
  match m with
  | Msg_Proposal p => mp_proposer p
  | Msg_Confirmation n | Msg_Revocation n => sn_signer n
  | Msg_Execution n => en_executor n
  end.

Definition kind_felt (m : MultisigCoordinationMessage) : Felt :=
  felt_of_Z match m with Msg_Proposal _ => 1 | Msg_Confirmation _ => 2 | Msg_Revocation _ => 3 | Msg_Execution _ => 4 end.

Definition MULTISIG_COORDINATION_SCHEMA_VERSION : Z := 1.

Record SignedMultisigCoordinationMessage : Type := mk_SignedMessage {
  sm_version : Z; sm_message : MultisigCoordinationMessage; sm_signature : list Felt }.

Inductive MultisigCoordinationEnvelope : Type :=
| Env_Signed (signed : SignedMultisigCoordinationMessage) | Env_Unsigned (message : MultisigCoordinationMessage).

Definition envelope_message (e : MultisigCoordinationEnvelope) : MultisigCoordinationMessage :=
  match e with Env_Signed signed => sm_message signed | Env_Unsigned message => message end.
Definition envelope_topic (e : MultisigCoordinationEnvelope) : MultisigTopic := message_topic (envelope_message e).
Definition as_signed (e : MultisigCoordinationEnvelope) : option SignedMultisigCoordinationMessage :=
  match e with Env_Signed signed => Some signed | Env_Unsigned _ => None end.

(** ** Hashing (codec.rs) *)
Definition pedersen_update (state value : Felt) : Felt := pedersen_hash state value.

Definition update_call (state : Felt) (call : MultisigCall) : Felt :=
  let state := pedersen_update state (mc_to call) in
  let state := pedersen_update state (mc_selector call) in
  let state := pedersen_update state (felt_of_Z (Z.of_nat (length (mc_calldata call)))) in
  fold_left pedersen_update (mc_calldata call) state.

Definition hash_transaction_batch (calls : list MultisigCall) (salt : Felt) : Felt :=
  let state := felt_of_Z 0 in
  let state := pedersen_update state (felt_of_Z (Z.of_nat (length calls))) in
  let state := fold_left update_call calls state in
  pedersen_update state salt.

Definition hash_transaction (call : MultisigCall) (salt : Felt) : Felt := hash_transaction_batch [call] salt.

Definition COORDINATION_DOMAIN_TAG : list Z := string_bytes "krusty-kms.multisig.notice.v1".

Context `{!FeltExtras, !StarknetKeccak}.

Definition memo_hash (memo : option string) : Felt :=
  match memo with None => felt_of_Z 0 | Some memo => rs_felt_to_core (starknet_keccak (string_bytes memo)) end.

Definition coordination_payload_hash (m : MultisigCoordinationMessage) : Felt :=
  match m with
  | Msg_Proposal p =>
      let state := pedersen_update (felt_of_Z 0) (mp_proposer p) in
      pedersen_update state (memo_hash (mp_memo p))
  | Msg_Confirmation n | Msg_Revocation n => pedersen_update (felt_of_Z 0) (sn_signer n)
  | Msg_Execution n => pedersen_update (felt_of_Z 0) (en_executor n)
  end.

Definition coordination_message_hash (m : MultisigCoordinationMessage) : Felt :=
  let topic := message_topic m in
  let state := felt_of_Z 0 in
  let state := pedersen_update state (from_bytes_be_slice COORDINATION_DOMAIN_TAG) in
  let state := pedersen_update state (chain_as_felt (mt_chain_id topic)) in
  let state := pedersen_update state (mt_multisig topic) in
  let state := pedersen_update state (mt_transaction_id topic) in
  let state := pedersen_update state (kind_felt m) in
  pedersen_update state (coordination_payload_hash m).

(** ** Calldata (codec.rs) *)
Definition serialize_single_call_args (call : MultisigCall) (salt : Felt) : list Felt :=
  [core_felt_to_rs (mc_to call); core_felt_to_rs (mc_selector call);
   core_felt_to_rs (felt_of_Z (Z.of_nat (length (mc_calldata call))))]
  ++ map core_felt_to_rs (mc_calldata call) ++ [core_felt_to_rs salt].

Definition serialize_call_span (calls : list MultisigCall) : list Felt :=
  core_felt_to_rs (felt_of_Z (Z.of_nat (length calls)))
  :: flat_map (fun call => [core_felt_to_rs (mc_to call); core_felt_to_rs (mc_selector call);
                            core_felt_to_rs (felt_of_Z (Z.of_nat (length (mc_calldata call))))]
                           ++ map core_felt_to_rs (mc_calldata call)) calls.

Definition serialize_batch_call_args (calls : list MultisigCall) (salt : Felt) : list Felt :=
  serialize_call_span calls ++ [core_felt_to_rs salt].

Definition serialize_quorum_and_signers (new_quorum : Z) (signers : list Felt) : list Felt :=
  [core_felt_to_rs (felt_of_Z new_quorum); core_felt_to_rs (felt_of_Z (Z.of_nat (length signers)))]
  ++ map core_felt_to_rs signers.

(** ** Responses (codec.rs) *)
Definition read_felt (result : list Felt) : Result Felt :=
  ok_or (rs_felt_to_core <$> head result) (DeserializationError "empty response from {name}").

Definition read_bool (result : list Felt) : Result bool :=
  value ← read_felt result; Ok (negb (bool_decide (value = felt_of_Z 0))).

Definition read_u32 (result : list Felt) : Result Z :=
  value ← read_felt result; Ok (be_value (take 4 (drop 28 (to_bytes_be value)))).

Definition read_u64 (result : list Felt) : Result Z :=
  value ← read_felt result; Ok (be_value (take 8 (drop 24 (to_bytes_be value)))).

(** [usize] has 64 bits. *)
Definition read_usize (result : Felt) : Result Z :=
  Ok (be_value (take 8 (drop 24 (to_bytes_be (rs_felt_to_core result))))).

(** [checks] says whether the build traps integer overflow: the debug profile does, the
    workspace's release profile does not for this crate. *)
Definition read_address_span (checks : bool) (result : list Felt) : Result (list Felt) :=
  match result with
  | [] => Err (DeserializationError "empty response from {name}")
  | first :: rest =>
      count ← read_usize first;
      expected ← (if checks && (u64_MAX <? count + 1) then Panic else Ok ((count + 1) mod 2 ^ 64));
      _ ← reject_if (negb (Z.of_nat (length result) =? expected))
            (DeserializationError "unexpected {name} response length: expected {}, got {}");
      Ok (map rs_felt_to_core rest)
  end.

Definition read_transaction_state (result : list Felt) : Result MultisigTransactionState :=
  value ← read_u32 result;
  if value =? 0 then Ok Mts_NotFound
  else if value =? 1 then Ok Mts_Pending
  else if value =? 2 then Ok Mts_Confirmed
  else if value =? 3 then Ok Mts_Executed
  else Err (DeserializationError "unknown multisig transaction state {value}").

(** ** Validation (types.rs) *)

(** [MultisigProposal::new]. *)
Definition proposal_new (multisig : Felt) (chain_id : ChainId) (calls : list MultisigCall) (salt proposer : Felt)
    (memo : option string) : MultisigProposal :=
  mk_MultisigProposal multisig chain_id (hash_transaction_batch calls salt) calls salt proposer memo.

Definition validate_transaction_id (p : MultisigProposal) : Result unit :=
  let expected := hash_transaction_batch (mp_calls p) (mp_salt p) in
  reject_if (bool_decide (expected <> mp_transaction_id p))
    (MultisigError "proposal transaction id {} does not match computed id {}").

(** [SignedMultisigCoordinationMessage::new]. *)
Definition signed_message_new (message : MultisigCoordinationMessage) (signature : list Felt)
    : Result SignedMultisigCoordinationMessage :=
  _ ← reject_if (length signature =? 0)%nat
        (MultisigError "signed coordination message requires a non-empty signature");
  Ok (mk_SignedMessage MULTISIG_COORDINATION_SCHEMA_VERSION message signature).

Definition validate_structure (s : SignedMultisigCoordinationMessage) : Result unit :=
  _ ← reject_if (negb (sm_version s =? MULTISIG_COORDINATION_SCHEMA_VERSION))
        (MultisigError "unsupported signed coordination schema version {} (expected {})");
  _ ← reject_if (length (sm_signature s) =? 0)%nat
        (MultisigError "signed coordination message carries an empty signature");
  match sm_message s with
  | Msg_Proposal p => validate_transaction_id p
  | _ => Ok tt
  end.

Definition validate_envelope_payload (e : MultisigCoordinationEnvelope) : Result unit :=
  _ ← match e with Env_Signed signed => validate_structure signed | Env_Unsigned _ => Ok tt end;
  match envelope_message e with
  | Msg_Proposal p => validate_transaction_id p
  | _ => Ok tt
  end.

#[export] Instance MultisigTopic_eq_dec : EqDecision MultisigTopic.
Proof. solve_decision. Defined.

Definition validate_incoming_envelope (topic : MultisigTopic) (e : MultisigCoordinationEnvelope) : Result unit :=
  _ ← reject_if (bool_decide (envelope_topic e <> topic))
        (MultisigError "coordination message topic does not match the subscribed topic");
  validate_envelope_payload e.

Context `{!StarkEcdsa}.

Definition sign_with_stark_key (message : MultisigCoordinationMessage) (key : Felt)
    : Result SignedMultisigCoordinationMessage :=
  let hash := coordination_message_hash message in
  '(r, s) ← ok_or (key_sign key (core_felt_to_rs hash)) (MultisigError "{error}");
  signed_message_new message [rs_felt_to_core r; rs_felt_to_core s].

Definition verify_with_stark_public_key (signed : SignedMultisigCoordinationMessage) (public_key : Felt) : Result unit :=
  _ ← validate_structure signed;
  match sm_signature signed with
  | [r; s] =>
      let hash := core_felt_to_rs (coordination_message_hash (sm_message signed)) in
      match ecdsa_verify (core_felt_to_rs public_key) hash (core_felt_to_rs r) (core_felt_to_rs s) with
      | Some true => Ok tt
      | Some false =>
          Err (MultisigError "coordination message signature does not verify against the given public key")
      | None => Err (MultisigError "coordination message signature verification failed: {error}")
      end
  | _ => Err (MultisigError "expected a Stark [r, s] signature, got {} felts")
  end.
End messages.

(** ** Deployment is exact *)
Section deployment_lemmas.
Context `{FeltExtras}.

Lemma check_signers_Ok seen signers :
  check_signers seen signers = Ok tt <->
  NoDup signers /\ (forall s, s ∈ signers -> s ∉ seen) /\ felt_of_Z 0 ∉ signers.
Proof.
  revert seen; induction signers as [|x signers IH]; intros seen; cbn [check_signers].
  { split; [|done]. intros _. split; [constructor|]. split; [by intros s ?%elem_of_nil|apply not_elem_of_nil]. }
  unfold reject_if. rewrite NoDup_cons, not_elem_of_cons.
  destruct (bool_decide_reflect (x = felt_of_Z 0)) as [->|Hz]; cbn [mbind outcome_bind].
  { split; [discriminate|]. intros (_ & _ & Hne & _). by destruct Hne. }
  destruct (bool_decide_reflect (x ∈ seen)) as [Hs|Hs]; cbn [mbind outcome_bind].
  { split; [discriminate|]. intros (_ & Hd & _). destruct (Hd x); [by left|done]. }
  rewrite IH. split.
  - intros (Hnd & Hd & Hnz). split_and!; [|exact Hnd| |congruence|exact Hnz].
    + intros Hin. destruct (Hd x Hin). by left.
    + intros s [->|Hin]%elem_of_cons; [exact Hs|]. intros Hin'. destruct (Hd s Hin). by right.
  - intros ([Hx Hnd] & Hd & Hne & Hnz). split_and!; [exact Hnd| |exact Hnz].
    intros s Hin [->|Hin']%elem_of_cons; [done|]. destruct (Hd s); [by right|done].
Qed.

(** What a multisig needs: a quorum of distinct non-zero signers. *)
Definition multisig_config_ok (quorum : Z) (signers : list Felt) : Prop :=
  1 <= quorum <= Z.of_nat (length signers) /\ NoDup signers /\ felt_of_Z 0 ∉ signers.

Lemma validate_multisig_config_Ok quorum signers :
  0 <= quorum -> validate_multisig_config quorum signers = Ok tt <-> multisig_config_ok quorum signers.
Proof.
  intros Hq. unfold validate_multisig_config, multisig_config_ok, reject_if.
  destruct (Z.eqb_spec quorum 0) as [->|Hq0]; cbn [mbind outcome_bind]; [split; [done|lia]|].
  destruct (Nat.eqb_spec (length signers) 0) as [Hl|Hl]; cbn [mbind outcome_bind]; [split; [done|lia]|].
  destruct (Z.ltb_spec (Z.of_nat (length signers)) quorum) as [Hlt|Hge]; cbn [mbind outcome_bind]; [split; [done|lia]|].
  rewrite check_signers_Ok. split.
  - intros (Hnd & _ & Hnz). split_and!; done || lia.
  - intros (_ & Hnd & Hnz). split_and!; [done| |done]. intros s _. apply not_elem_of_nil.
Qed.
End deployment_lemmas.

(** A multisig can be described exactly when its configuration is sound and its salt
    does not come from a public key; the descriptor's address is that of the very
    class, salt and calldata it carries. *)
Theorem multisig_deployment_exact `{FeltExtrasLaws, !StarkLaws} m quorum signers policy :
  0 <= quorum ->
  ((exists d, multisig_deployment_descriptor m quorum signers policy = Ok d) <->
   multisig_config_ok quorum signers /\ policy <> SaltPublicKey)
  /\ forall d, multisig_deployment_descriptor m quorum signers policy = Ok d ->
     calculate_contract_address (omd_salt d) (omd_class_hash d) (omd_constructor_calldata d) (felt_of_Z 0) = Ok (omd_address d)
     /\ omd_constructor_calldata d = [felt_of_Z quorum; felt_of_Z (Z.of_nat (length signers))] ++ signers
     /\ omd_signers d = signers /\ omd_quorum d = quorum.
Proof.
  intros Hq. pose proof (validate_multisig_config_Ok quorum signers Hq) as Hv.
  unfold multisig_deployment_descriptor, build_constructor_calldata.
  destruct (validate_multisig_config quorum signers) as [[]|e|]; cbn [mbind outcome_bind].
  2,3: split; [|done]; split; [by intros [d ?]|]; by intros [Hc%Hv _].
  pose proof (proj1 Hv eq_refl) as Hc.
  destruct policy as [| |salt]; cbn [mbind outcome_bind];
    [by split; [split; [intros [d ?]|intros [_ ?]]|]| |];
    (split; [split; [by split|]; intros _; eexists; reflexivity|]; intros d [= <-]; cbn; done).
Qed.

(** ** Transaction ids *)
Section ids.
Context `{StarkLaws}.

Definition call_felts (c : MultisigCall) : list Felt :=
  [mc_to c; mc_selector c; felt_of_Z (Z.of_nat (length (mc_calldata c)))] ++ mc_calldata c.

(** The felts of a batch, as a contract receives and hashes them. *)
Definition batch_felts (calls : list MultisigCall) (salt : Felt) : list Felt :=
  [felt_of_Z (Z.of_nat (length calls))] ++ flat_map call_felts calls ++ [salt].

Lemma map_core_felt_to_rs l : map core_felt_to_rs l = l.
Proof. rewrite <- (map_id l) at 2. apply map_ext. intros f. apply core_rs_felt. Qed.

Lemma map_rs_felt_to_core l : map rs_felt_to_core l = l.
Proof. rewrite <- (map_id l) at 2. apply map_ext. intros f. apply core_rs_felt. Qed.

Lemma fold_update_call calls state :
  fold_left update_call calls state = fold_left pedersen_hash (flat_map call_felts calls) state.
Proof.
  revert state; induction calls as [|c calls IH]; intros state; [done|]. cbn [fold_left flat_map].
  rewrite IH, fold_left_app. reflexivity.
Qed.

Lemma hash_transaction_batch_chain calls salt : hash_transaction_batch calls salt = chain_end (batch_felts calls salt).
Proof.
  unfold hash_transaction_batch, chain_end, batch_felts. cbn [app fold_left]. rewrite fold_update_call, fold_left_app. reflexivity.
Qed.

(** The id is the hash of the calldata that submits and executes the batch. *)
Lemma serialize_batch_felts calls salt : serialize_batch_call_args calls salt = batch_felts calls salt.
Proof.
  unfold serialize_batch_call_args, serialize_call_span, batch_felts. rewrite !(fun f => proj1 (core_rs_felt f)). cbn [app]. f_equal.
  f_equal. induction calls as [|c calls IH]; [done|]. cbn [flat_map].
  by rewrite IH, !(fun f => proj1 (core_rs_felt f)), map_core_felt_to_rs.
Qed.

Definition batch_ok (calls : list MultisigCall) : Prop :=
  Z.of_nat (length calls) <= u64_MAX /\ Forall (fun c => Z.of_nat (length (mc_calldata c)) <= u64_MAX) calls.

Lemma length_felt_inj (n1 n2 : nat) :
  Z.of_nat n1 <= u64_MAX -> Z.of_nat n2 <= u64_MAX ->
  felt_of_Z (Z.of_nat n1) = felt_of_Z (Z.of_nat n2) -> n1 = n2.
Proof. intros H1 H2 Heq. apply felt_of_Z_inj in Heq; unfold u64_MAX, felt_prime in *; lia. Qed.

Lemma call_felts_inj calls1 calls2 r1 r2 :
  length calls1 = length calls2 ->
  Forall (fun c => Z.of_nat (length (mc_calldata c)) <= u64_MAX) calls1 ->
  Forall (fun c => Z.of_nat (length (mc_calldata c)) <= u64_MAX) calls2 ->
  flat_map call_felts calls1 ++ r1 = flat_map call_felts calls2 ++ r2 -> calls1 = calls2 /\ r1 = r2.
Proof.
  revert calls2; induction calls1 as [|[to1 sel1 cd1] calls1 IH]; intros [|[to2 sel2 cd2] calls2] Hlen; try done.
  rewrite !Forall_cons. cbn [flat_map call_felts app mc_to mc_selector mc_calldata length] in *. intros [H1 Hf1] [H2 Hf2].
  rewrite <- !app_assoc. intros [= -> -> Hl Heq]. apply length_felt_inj in Hl; [|done..].
  apply app_inj_1 in Heq as [-> Heq]; [|done]. destruct (IH calls2) as [-> ->]; [lia|done..].
Qed.

Lemma batch_felts_inj calls1 salt1 calls2 salt2 :
  batch_ok calls1 -> batch_ok calls2 -> batch_felts calls1 salt1 = batch_felts calls2 salt2 ->
  calls1 = calls2 /\ salt1 = salt2.
Proof.
  intros [Hn1 Hf1] [Hn2 Hf2]. unfold batch_felts. cbn [app]. intros [= Hl Heq]. apply length_felt_inj in Hl; [|done..].
  apply call_felts_inj in Heq as [-> Heq]; [|done..]. by injection Heq as ->.
Qed.

(** A chain is determined by its end, unless a pair of it collides or hashes to the
    initial state. *)
Lemma chain_inj_any l1 l2 :
  (forall p q, p ∈ chain_pairs (felt_of_Z 0) l1 -> q ∈ chain_pairs (felt_of_Z 0) l2 ->
     pedersen_pair p = pedersen_pair q -> p = q) ->
  (forall p, p ∈ chain_pairs (felt_of_Z 0) l1 ++ chain_pairs (felt_of_Z 0) l2 -> pedersen_pair p <> felt_of_Z 0) ->
  chain_end l1 = chain_end l2 -> l1 = l2.
Proof.
  revert l2; induction l1 as [|x l1 IH] using rev_ind; intros l2 Hinj Hz Heq.
  - destruct l2 as [|y l2 _] using rev_ind; [done|]. rewrite chain_end_snoc in Heq. rewrite chain_pairs_snoc in Hz.
    destruct (Hz (chain_end l2, y)); [rewrite !elem_of_app, list_elem_of_singleton; by right; right|]. by symmetry.
  - destruct l2 as [|y l2 _] using rev_ind.
    { rewrite chain_end_snoc in Heq. rewrite chain_pairs_snoc in Hz.
      destruct (Hz (chain_end l1, x)); [rewrite !elem_of_app, list_elem_of_singleton; by left; right|]. exact Heq. }
    rewrite !chain_pairs_snoc in Hinj. rewrite !chain_pairs_snoc in Hz. rewrite !chain_end_snoc in Heq.
    assert ((chain_end l1, x) = (chain_end l2, y)) as [= Hend ->].
    { apply Hinj; [apply elem_of_app; right; by apply list_elem_of_singleton..|done]. }
    f_equal. apply IH; [| |done].
    + intros p q Hp Hq. apply Hinj; apply elem_of_app; by left.
    + intros p Hp. apply Hz. rewrite !elem_of_app in *. tauto.
Qed.

(** Every pair that the id of a batch hashes. *)
Definition batch_pairs (calls : list MultisigCall) (salt : Felt) : list (Felt * Felt) :=
  chain_pairs (felt_of_Z 0) (batch_felts calls salt).

Lemma transaction_id_binding calls1 salt1 calls2 salt2 :
  batch_ok calls1 -> batch_ok calls2 ->
  coll_free pedersen_pair (batch_pairs calls1 salt1 ++ batch_pairs calls2 salt2) ->
  Forall (fun p => pedersen_pair p <> felt_of_Z 0) (batch_pairs calls1 salt1 ++ batch_pairs calls2 salt2) ->
  hash_transaction_batch calls1 salt1 = hash_transaction_batch calls2 salt2 ->
  calls1 = calls2 /\ salt1 = salt2.
Proof.
  intros Hb1 Hb2 Hcf Hz. rewrite !hash_transaction_batch_chain. intros Heq.
  apply batch_felts_inj; [done..|]. apply chain_inj_any in Heq; [done|..].
  - intros p q Hp Hq. apply (coll_free_spec _ _ _ _ Hcf); rewrite !elem_of_app; auto.
  - intros p Hp. rewrite Forall_forall in Hz. by apply Hz.
Qed.
End ids.

(** ** Signed messages are bound *)
Section binding.
Context `{StarkLaws, !FeltExtras, !StarknetKeccak}.

Definition message_memo (m : MultisigCoordinationMessage) : option string :=
  match m with Msg_Proposal p => mp_memo p | _ => None end.

Definition payload_felts (m : MultisigCoordinationMessage) : list Felt :=
  match m with
  | Msg_Proposal p => [mp_proposer p; memo_hash (mp_memo p)]
  | _ => [message_claimed_actor m]
  end.

Definition message_felts (m : MultisigCoordinationMessage) : list Felt :=
  let topic := message_topic m in
  [from_bytes_be_slice COORDINATION_DOMAIN_TAG; chain_as_felt (mt_chain_id topic); mt_multisig topic;
   mt_transaction_id topic; kind_felt m; chain_end (payload_felts m)].

Lemma coordination_message_hash_chain m : coordination_message_hash m = chain_end (message_felts m).
Proof. by destruct m. Qed.

(** Every pair that the hash of a message and the transaction id in it hash. *)
Definition message_pairs (m : MultisigCoordinationMessage) : list (Felt * Felt) :=
  chain_pairs (felt_of_Z 0) (message_felts m) ++ chain_pairs (felt_of_Z 0) (payload_felts m)
  ++ match m with Msg_Proposal p => batch_pairs (mp_calls p) (mp_salt p) | _ => [] end.

Definition message_ok (m : MultisigCoordinationMessage) : Prop :=
  match m with Msg_Proposal p => batch_ok (mp_calls p) | _ => True end.

Lemma chain_as_felt_inj c1 c2 : chain_as_felt c1 = chain_as_felt c2 -> c1 = c2.
Proof.
  intros Heq%(f_equal felt_val). destruct c1, c2; try done;
    cbn [chain_as_felt] in Heq; unfold short_string in Heq;
    rewrite !felt_of_Z_val in Heq by (vm_compute; discriminate); vm_compute in Heq; discriminate.
Qed.

Lemma kind_felt_inj m1 m2 :
  kind_felt m1 = kind_felt m2 ->
  match m1, m2 with
  | Msg_Proposal _, Msg_Proposal _ | Msg_Confirmation _, Msg_Confirmation _
  | Msg_Revocation _, Msg_Revocation _ | Msg_Execution _, Msg_Execution _ => True
  | _, _ => False
  end.
Proof.
  intros Heq. destruct m1, m2; try exact I; unfold kind_felt in Heq;
    apply felt_of_Z_inj in Heq; (discriminate || (vm_compute; split; congruence)).
Qed.

Lemma validate_transaction_id_Ok p :
  validate_transaction_id p = Ok tt <-> mp_transaction_id p = hash_transaction_batch (mp_calls p) (mp_salt p).
Proof. unfold validate_transaction_id, reject_if. case_bool_decide as Hd; split; congruence. Qed.

Lemma validate_structure_Ok s :
  validate_structure s = Ok tt <->
  sm_version s = MULTISIG_COORDINATION_SCHEMA_VERSION /\ sm_signature s <> []
  /\ forall p, sm_message s = Msg_Proposal p -> mp_transaction_id p = hash_transaction_batch (mp_calls p) (mp_salt p).
Proof.
  unfold validate_structure, reject_if.
  destruct (Z.eqb_spec (sm_version s) MULTISIG_COORDINATION_SCHEMA_VERSION) as [->|Hv]; cbn [negb mbind outcome_bind];
    [|split; [discriminate|by intros [? _]]].
  destruct (sm_signature s) as [|r sig] eqn:Hsig; cbn [length Nat.eqb mbind outcome_bind];
    [split; [discriminate|by intros (_ & ? & _)]|].
  destruct (sm_message s) as [p|n|n|n] eqn:Hm; [rewrite validate_transaction_id_Ok| | |];
    (split; [intros Hid; split_and!; [done|done|]; intros p' [= <-] || (intros [= ]); done|by intros (_ & _ & Hp); auto]).
Qed.

Lemma chain_pieces_inj (l1 l2 : list Felt) (ps1 ps2 : list (Felt * Felt)) :
  coll_free pedersen_pair (ps1 ++ ps2) -> Forall (fun p => pedersen_pair p <> felt_of_Z 0) (ps1 ++ ps2) ->
  chain_pairs (felt_of_Z 0) l1 ⊆ ps1 -> chain_pairs (felt_of_Z 0) l2 ⊆ ps2 ->
  chain_end l1 = chain_end l2 -> l1 = l2.
Proof.
  intros Hcf Hz Hs1 Hs2. apply chain_inj_any.
  - intros p q Hp Hq. apply (coll_free_spec _ _ _ _ Hcf); rewrite elem_of_app; auto.
  - intros p Hp. rewrite Forall_forall in Hz. apply Hz. rewrite elem_of_app in *. destruct Hp; auto.
Qed.

Lemma felts_pairs m : chain_pairs (felt_of_Z 0) (message_felts m) ⊆ message_pairs m.
Proof. intros p Hp. apply elem_of_app. by left. Qed.

Lemma payload_pairs m : chain_pairs (felt_of_Z 0) (payload_felts m) ⊆ message_pairs m.
Proof. intros p Hp. unfold message_pairs. rewrite !elem_of_app. by right; left. Qed.

Lemma proposal_pairs p : chain_pairs (felt_of_Z 0) (batch_felts (mp_calls p) (mp_salt p)) ⊆ message_pairs (Msg_Proposal p).
Proof. intros q Hq. unfold message_pairs. rewrite !elem_of_app. by right; right. Qed.

Lemma message_hash_inj m1 m2 :
  (forall p, m1 = Msg_Proposal p -> mp_transaction_id p = hash_transaction_batch (mp_calls p) (mp_salt p)) ->
  (forall p, m2 = Msg_Proposal p -> mp_transaction_id p = hash_transaction_batch (mp_calls p) (mp_salt p)) ->
  message_ok m1 -> message_ok m2 ->
  coll_free pedersen_pair (message_pairs m1 ++ message_pairs m2) ->
  Forall (fun p => pedersen_pair p <> felt_of_Z 0) (message_pairs m1 ++ message_pairs m2) ->
  (memo_hash (message_memo m1) = memo_hash (message_memo m2) -> message_memo m1 = message_memo m2) ->
  coordination_message_hash m1 = coordination_message_hash m2 -> m1 = m2.
Proof.
  intros Hid1 Hid2 Hok1 Hok2 Hcf Hz Hmemo. rewrite !coordination_message_hash_chain. intros Heq.
  pose proof (fun l1 l2 => chain_pieces_inj l1 l2 _ _ Hcf Hz) as Hinj.
  apply Hinj in Heq; [|apply felts_pairs..].
  unfold message_felts in Heq.
  assert (chain_end (payload_felts m1) = chain_end (payload_felts m2)) as Hp by congruence.
  apply Hinj in Hp; [|apply payload_pairs..].
  assert (kind_felt m1 = kind_felt m2) as Hk%kind_felt_inj by congruence.
  assert (mt_chain_id (message_topic m1) = mt_chain_id (message_topic m2)) as Hc by (apply chain_as_felt_inj; congruence).
  assert (mt_multisig (message_topic m1) = mt_multisig (message_topic m2)) as Ha by congruence.
  assert (mt_transaction_id (message_topic m1) = mt_transaction_id (message_topic m2)) as Ht by congruence.
  clear Heq. destruct m1 as [[]|[]|[]|[]], m2 as [[]|[]|[]|[]]; try done; cbn in *; try congruence.
  injection Hp as -> Hmh. apply Hmemo in Hmh. specialize (Hid1 _ eq_refl). specialize (Hid2 _ eq_refl). cbn in Hid1, Hid2.
  rewrite Hid1, Hid2, !hash_transaction_batch_chain in Ht. apply Hinj in Ht; [|apply (proposal_pairs (mk_MultisigProposal _ _ _ _ _ _ _))..].
  apply batch_felts_inj in Ht as [-> ->]; [|done..]. congruence.
Qed.
End binding.

(** Signed coordination messages are bound to their hash: two structurally valid messages
    with one hash are the same message, calls of a proposal included, when Pedersen neither
    collides on nor maps to zero the pairs hashed and the memos have distinct hashes. *)
Theorem multisig_message_binding `{StarkLaws, !FeltExtras, !StarknetKeccak} s1 s2 :
  validate_structure s1 = Ok tt -> validate_structure s2 = Ok tt ->
  message_ok (sm_message s1) -> message_ok (sm_message s2) ->
  coll_free pedersen_pair (message_pairs (sm_message s1) ++ message_pairs (sm_message s2)) ->
  Forall (fun p => pedersen_pair p <> felt_of_Z 0) (message_pairs (sm_message s1) ++ message_pairs (sm_message s2)) ->
  (memo_hash (message_memo (sm_message s1)) = memo_hash (message_memo (sm_message s2)) ->
     message_memo (sm_message s1) = message_memo (sm_message s2)) ->
  coordination_message_hash (sm_message s1) = coordination_message_hash (sm_message s2) <-> sm_message s1 = sm_message s2.
Proof.
  rewrite !validate_structure_Ok. intros (_ & _ & Hid1) (_ & _ & Hid2) Hok1 Hok2 Hcf Hz Hmemo.
  split; [by apply message_hash_inj|congruence].
Qed.

(** A message that was signed verifies under the signer's public key, if a proposal in it
    carries the id of its calls; it is rejected otherwise, whatever the signature. *)
Theorem multisig_sign_verify `{StarkEcdsaLaws, !StarkLaws, !FeltExtras, !StarknetKeccak} message key signed :
  sign_with_stark_key message key = Ok signed ->
  sm_message signed = message /\
  verify_with_stark_public_key signed (key_public key) =
    match message with Msg_Proposal p => validate_transaction_id p | _ => Ok tt end.
Proof.
  unfold sign_with_stark_key, verify_with_stark_public_key.
  destruct (key_sign key (core_felt_to_rs (coordination_message_hash message))) as [[r s]|] eqn:Hsign; [|done].
  cbn [ok_or mbind outcome_bind]. intros [= <-]. split; [done|].
  apply key_sign_verifies in Hsign. unfold validate_structure. cbn -[ecdsa_verify coordination_message_hash validate_transaction_id].
  destruct (match message with Msg_Proposal p => _ | _ => _ end) as [[]|e|] eqn:Hv; [|done..].
  cbn -[ecdsa_verify coordination_message_hash core_felt_to_rs rs_felt_to_core].
  rewrite (proj1 (core_rs_felt (key_public key))), !(proj1 (core_rs_felt (rs_felt_to_core _))),
    (proj2 (core_rs_felt r)), (proj2 (core_rs_felt s)).
  by rewrite Hsign.
Qed.

(** ** Responses *)
Section responses.
Context `{StarkLaws}.

(** The last [k] bytes of a felt are its value modulo [256^k]. *)
Lemma low_bytes_val (k : nat) (f : Felt) :
  (k <= 32)%nat -> be_value (take k (drop (32 - k) (to_bytes_be f))) = felt_val f mod 256 ^ Z.of_nat k.
Proof.
  intros Hk. pose proof (to_bytes_be_ok f) as Hb. pose proof (to_bytes_be_length f) as Hlen. unfold felt_val.
  set (bs := to_bytes_be f) in *.
  assert (length (drop (32 - k) bs) = k) as Hd by (rewrite length_drop; lia).
  rewrite take_ge by lia. rewrite <- (take_drop (32 - k) bs) at 2. rewrite be_value_app, Hd.
  rewrite Z.add_comm, Z.mod_add by lia. symmetry. apply Z.mod_small.
  pose proof (be_value_bound _ (Forall_drop _ (32 - k) _ Hb)) as Hv. by rewrite Hd in Hv.
Qed.

Lemma read_usize_val f : read_usize f = Ok (felt_val f mod 2 ^ 64).
Proof. unfold read_usize. rewrite (proj2 (core_rs_felt f)). by rewrite (low_bytes_val 8) by lia. Qed.

Lemma read_u32_val f rest : read_u32 (f :: rest) = Ok (felt_val f mod 2 ^ 32).
Proof.
  unfold read_u32, read_felt. cbn [head fmap option_fmap option_map ok_or mbind outcome_bind].
  rewrite (proj2 (core_rs_felt f)). by rewrite (low_bytes_val 4) by lia.
Qed.

(** A state word is read from its low 32 bits. *)
Lemma read_transaction_state_val f rest :
  read_transaction_state (f :: rest) =
  match felt_val f mod 2 ^ 32 with
  | 0 => Ok Mts_NotFound | 1 => Ok Mts_Pending | 2 => Ok Mts_Confirmed | 3 => Ok Mts_Executed
  | _ => Err (DeserializationError "unknown multisig transaction state {value}")
  end.
Proof.
  unfold read_transaction_state. rewrite read_u32_val. cbn [mbind outcome_bind].
  pose proof (Z.mod_pos_bound (felt_val f) (2 ^ 32)) as Hb.
  destruct (felt_val f mod 2 ^ 32) as [|[[p|p|]|[p|p|]|]|p]; reflexivity || (exfalso; lia).
Qed.
End responses.

(** [read_address_span] on every response: a span of addresses that announces its own
    length is read back and a wrong length is an error, except that a length word whose low
    64 bits are all ones panics in a build with overflow checks, since [count + 1] is
    computed before the lengths are compared. *)
Theorem read_address_span_exact `{StarkLaws} (checks : bool) (first : Felt) (rest : list Felt) :
  Z.of_nat (length rest) < u64_MAX ->
  read_address_span checks [] = Err (DeserializationError "empty response from {name}")
  /\ read_address_span checks (first :: rest) =
     (if checks && (felt_val first mod 2 ^ 64 =? u64_MAX) then Panic
      else if felt_val first mod 2 ^ 64 =? Z.of_nat (length rest) then Ok rest
      else Err (DeserializationError "unexpected {name} response length: expected {}, got {}"))
  /\ read_address_span checks (felt_of_Z (Z.of_nat (length rest)) :: rest) = Ok rest.
Proof.
  intros Hlen. split; [done|].
  assert (forall f, read_address_span checks (f :: rest) =
     (if checks && (felt_val f mod 2 ^ 64 =? u64_MAX) then Panic
      else if felt_val f mod 2 ^ 64 =? Z.of_nat (length rest) then Ok rest
      else Err (DeserializationError "unexpected {name} response length: expected {}, got {}"))) as Hspan.
  { intros f. unfold read_address_span. rewrite read_usize_val. cbn [mbind outcome_bind length].
    rewrite map_rs_felt_to_core. pose proof (Z.mod_pos_bound (felt_val f) (2 ^ 64)) as Hb.
    set (c := felt_val f mod 2 ^ 64) in *. unfold u64_MAX in *.
    assert ((2 ^ 64 - 1 <? c + 1) = (c =? 2 ^ 64 - 1)) as ->
      by (destruct (Z.ltb_spec (2 ^ 64 - 1) (c + 1)), (Z.eqb_spec c (2 ^ 64 - 1)); done || lia).
    destruct (checks && _) eqn:Hc; [done|]. cbn [mbind outcome_bind]. unfold reject_if.
    destruct (Z.eqb_spec c (2 ^ 64 - 1)) as [->|Hne].
    - change ((2 ^ 64 - 1 + 1) mod 2 ^ 64) with 0.
      destruct (Z.eqb_spec (Z.of_nat (S (length rest))) 0), (Z.eqb_spec (2 ^ 64 - 1) (Z.of_nat (length rest))); done || lia.
    - rewrite Z.mod_small by lia.
      destruct (Z.eqb_spec (Z.of_nat (S (length rest))) (c + 1)), (Z.eqb_spec c (Z.of_nat (length rest))); done || lia. }
  split; [apply Hspan|]. rewrite Hspan.
  rewrite felt_of_Z_small by (unfold u64_MAX, felt_prime in *; lia).
  rewrite Z.mod_small by (unfold u64_MAX in *; lia).
  rewrite (proj2 (Z.eqb_neq (Z.of_nat (length rest)) u64_MAX)) by lia. by rewrite andb_false_r, Z.eqb_refl.
Qed.

(** ** Witnesses *)
#[local] Existing Instance model_extras.
#[local] Existing Instance model_extras_laws.
#[local] Existing Instance coll_free_dec.

#[local] Instance model_keccak : @StarknetKeccak model_types := {| starknet_keccak bs := mk (be_value bs) |}.

Definition demo_call (amount : Z) : @MultisigCall model_types := mk_MultisigCall (mk 5) (mk 6) [mk 7; mk amount].

Definition demo_signed (amount : Z) : @SignedMultisigCoordinationMessage model_types :=
  mk_SignedMessage 1 (Msg_Proposal (proposal_new (mk 9) Sepolia [demo_call amount] (mk 3) (mk 4) (Some "rent"))) [mk 1; mk 2].

Lemma multisig_message_binding_witness :
  coordination_message_hash (sm_message (demo_signed 10)) <> coordination_message_hash (sm_message (demo_signed 11)).
Proof.
  intros Heq. apply (multisig_message_binding (demo_signed 10) (demo_signed 11)) in Heq.
  - apply (f_equal (fun m => match m with Msg_Proposal p => map (fun c => map felt_val (mc_calldata c)) (mp_calls p) | _ => [] end)) in Heq.
    vm_compute in Heq. discriminate Heq.
  - apply validate_structure_Ok. split; [done|]. split; [discriminate|]. by intros p [= <-].
  - apply validate_structure_Ok. split; [done|]. split; [discriminate|]. by intros p [= <-].
  - split; [|constructor; [|constructor]]; vm_compute; discriminate.
  - split; [|constructor; [|constructor]]; vm_compute; discriminate.
  - refine (bool_decide_eq_true_1 _ _). vm_compute. reflexivity.
  - refine (bool_decide_eq_true_1 _ _). vm_compute. reflexivity.
  - intros _. reflexivity.
Defined.

Lemma read_address_span_exact_witness :
  @read_address_span model_types true [mk 2; mk 8; mk 9] = Ok [mk 8; mk 9]
  /\ @read_address_span model_types true [mk (2 ^ 64 - 1)] = Panic
  /\ is_panic (@read_address_span model_types false [mk (2 ^ 64 - 1)]) = false.
Proof.
  split; [|split].
  - destruct (read_address_span_exact true (mk 2 : @Felt model_types) [mk 8; mk 9]) as (_ & Hr & _); [reflexivity|].
    etransitivity; [exact Hr|]. vm_compute. reflexivity.
  - destruct (read_address_span_exact true (mk (2 ^ 64 - 1) : @Felt model_types) []) as (_ & Hr & _); [reflexivity|].
    etransitivity; [exact Hr|]. vm_compute. reflexivity.
  - destruct (read_address_span_exact false (mk (2 ^ 64 - 1) : @Felt model_types) []) as (_ & Hr & _); [reflexivity|].
    etransitivity; [apply (f_equal is_panic Hr)|]. vm_compute. reflexivity.
Defined.
