(* ===== verification/MultisigContract.v ===== *)
(** * The multisig contract's client

    crates/client/src/multisig/contract.rs (reads and the authentication of signed
    messages) and actions.rs (the calls a signer submits).

    [CM] is the state and error monad of the asynchronous methods over the world of
    [Provider]; submissions go through a [WalletExecutor]. *)

From stdpp Require Import base option list numbers strings.
From Stdlib Require Import ZArith Lia.
From S2P Require Import Prelude StarkLib StarkModel Types Scalar TxHash Text Domain Primitives AccountClass.
From S2P Require Import Requests Fee Provider Gateway GatewayAccounts Wait StarknetBackend Multisig.

#[local] Open Scope string_scope.
#[local] Open Scope list_scope.
#[local] Open Scope Z_scope.

(** Selectors: [get_selector_from_name] of the entry points' names. *)
Class MultisigAbi `{StarkTypes} : Type := {
  GET_QUORUM : Felt; IS_SIGNER : Felt; GET_SIGNERS : Felt; IS_CONFIRMED : Felt; IS_CONFIRMED_BY : Felt;
  IS_EXECUTED : Felt; GET_SUBMITTED_BLOCK : Felt; GET_TRANSACTION_STATE : Felt; GET_TRANSACTION_CONFIRMATIONS : Felt;
  HASH_TRANSACTION : Felt; HASH_TRANSACTION_BATCH : Felt; ADD_SIGNERS : Felt; REMOVE_SIGNERS : Felt;
  REPLACE_SIGNER : Felt; CHANGE_QUORUM : Felt; SUBMIT_TRANSACTION : Felt; SUBMIT_TRANSACTION_BATCH : Felt;
  CONFIRM_TRANSACTION : Felt; REVOKE_CONFIRMATION : Felt; EXECUTE_TRANSACTION : Felt;
  EXECUTE_TRANSACTION_BATCH : Felt; IS_VALID_SIGNATURE : Felt }.

(** [trait WalletExecutor], what the multisig uses of it; a [Tx] is its hash. *)
Class WalletExecutor `{StarkTypes} (K : Type) : Type := {
  wallet_chain_id : K -> ChainId;
  wallet_execute : list RsCall -> K -> (Felt + KmsError) * K }.

Section contract.
Context `{StarkTypes, !FeltExtras, !StarknetKeccak, !ErrorText, !MultisigAbi} {W : Type} `{!Provider W}.

Record Multisig : Type := { ms_address : Felt; ms_chain_id : ChainId }.

Definition CM (A : Type) : Type := W -> Result A * W.
#[export] Instance CM_ret : MRet CM := fun A a w => (Ok a, w).
#[export] Instance CM_bind : MBind CM := fun A A' f m w =>
  match m w with
  | (Ok a, w) => f a w
  | (Err e, w) => (Err e, w)
  | (Panic, w) => (Panic, w)
  end.
Definition cm_pure {A} (r : Result A) : CM A := fun w => (r, w).
Definition cm_call {A} (f : W -> (A + ProviderError) * W) : CM A := fun w =>
  let '(r, w) := f w in (match r with inl a => Ok a | inr e => Err (rpc_error e) end, w).

Context (m : Multisig).

Definition call_at_block (contract selector : Felt) (calldata : list Felt) (block_id : BlockId) : CM (list Felt) :=
  cm_call (rpc_call {| fc_contract_address := core_felt_to_rs contract; fc_entry_point_selector := selector;
                       fc_calldata := calldata |} block_id).

(** [Multisig::call]. *)
Definition multisig_call (selector : Felt) (calldata : list Felt) : CM (list Felt) :=
  call_at_block (ms_address m) selector calldata Id_Latest.

(** [Multisig::proposal]. *)
Definition multisig_proposal (calls : list MultisigCall) (salt proposer : Felt) (memo : option string) : MultisigProposal :=
  proposal_new (ms_address m) (ms_chain_id m) calls salt proposer memo.

(** ** Reads *)
Definition get_quorum : CM Z := result ← multisig_call GET_QUORUM []; cm_pure (read_u32 result).
Definition is_signer (signer : Felt) : CM bool :=
  result ← multisig_call IS_SIGNER [core_felt_to_rs signer]; cm_pure (read_bool result).
Definition get_signers (checks : bool) : CM (list Felt) :=
  result ← multisig_call GET_SIGNERS []; cm_pure (read_address_span checks result).
Definition is_confirmed (id : Felt) : CM bool :=
  result ← multisig_call IS_CONFIRMED [core_felt_to_rs id]; cm_pure (read_bool result).
Definition is_confirmed_by (id signer : Felt) : CM bool :=
  result ← multisig_call IS_CONFIRMED_BY [core_felt_to_rs id; core_felt_to_rs signer]; cm_pure (read_bool result).
Definition is_executed (id : Felt) : CM bool :=
  result ← multisig_call IS_EXECUTED [core_felt_to_rs id]; cm_pure (read_bool result).
Definition get_submitted_block (id : Felt) : CM Z :=
  result ← multisig_call GET_SUBMITTED_BLOCK [core_felt_to_rs id]; cm_pure (read_u64 result).
Definition get_transaction_state (id : Felt) : CM MultisigTransactionState :=
  result ← multisig_call GET_TRANSACTION_STATE [core_felt_to_rs id]; cm_pure (read_transaction_state result).
Definition get_transaction_confirmations (id : Felt) : CM Z :=
  result ← multisig_call GET_TRANSACTION_CONFIRMATIONS [core_felt_to_rs id]; cm_pure (read_u32 result).
Definition hash_transaction_onchain (call : MultisigCall) (salt : Felt) : CM Felt :=
  result ← multisig_call HASH_TRANSACTION (serialize_single_call_args call salt); cm_pure (read_felt result).
Definition hash_transaction_batch_onchain (calls : list MultisigCall) (salt : Felt) : CM Felt :=
  result ← multisig_call HASH_TRANSACTION_BATCH (serialize_batch_call_args calls salt); cm_pure (read_felt result).

(** ** Authentication *)
Definition signature_calldata (signed : SignedMultisigCoordinationMessage) : list Felt :=
  [core_felt_to_rs (coordination_message_hash (sm_message signed));
   core_felt_to_rs (felt_of_Z (Z.of_nat (length (sm_signature signed))))]
  ++ map core_felt_to_rs (sm_signature signed).

Definition verify_signed_message (signed : SignedMultisigCoordinationMessage) : CM Felt :=
  _ ← cm_pure (validate_structure signed);
  let topic := message_topic (sm_message signed) in
  _ ← cm_pure (reject_if (bool_decide (mt_multisig topic <> ms_address m))
        (MultisigError "signed message targets multisig {} but this handle is {}"));
  _ ← cm_pure (reject_if (bool_decide (mt_chain_id topic <> ms_chain_id m))
        (MultisigError "signed message was created for chain {} but this handle is on {}"));
  head ← cm_call rpc_block_hash_and_number;
  let block_id := Id_Hash (fst head) in
  let actor := message_claimed_actor (sm_message signed) in
  signer_result ← call_at_block (ms_address m) IS_SIGNER [core_felt_to_rs actor] block_id;
  member ← cm_pure (read_bool signer_result);
  _ ← cm_pure (reject_if (negb member) (MultisigError "claimed actor {} is not a signer of multisig {}"));
  result ← call_at_block actor IS_VALID_SIGNATURE (signature_calldata signed) block_id;
  value ← cm_pure (read_felt result);
  if bool_decide (value = from_bytes_be_slice (string_bytes "VALID")) || bool_decide (value = felt_of_Z 1)
  then mret actor
  else cm_pure (Err (MultisigError "account {} rejected the coordination message signature")).

(** ** Actions *)
Definition call_to_multisig (selector : Felt) (calldata : list Felt) : RsCall :=
  mk_RsCall (core_felt_to_rs (ms_address m)) selector calldata.

Definition populate_add_signers (new_quorum : Z) (signers_to_add : list Felt) : RsCall :=
  call_to_multisig ADD_SIGNERS (serialize_quorum_and_signers new_quorum signers_to_add).
Definition populate_remove_signers (new_quorum : Z) (signers_to_remove : list Felt) : RsCall :=
  call_to_multisig REMOVE_SIGNERS (serialize_quorum_and_signers new_quorum signers_to_remove).
Definition populate_replace_signer (signer_to_remove signer_to_add : Felt) : RsCall :=
  call_to_multisig REPLACE_SIGNER [core_felt_to_rs signer_to_remove; core_felt_to_rs signer_to_add].
Definition populate_change_quorum (new_quorum : Z) : RsCall :=
  call_to_multisig CHANGE_QUORUM [core_felt_to_rs (felt_of_Z new_quorum)].
Definition populate_submit (call : MultisigCall) (salt : Felt) : RsCall :=
  call_to_multisig SUBMIT_TRANSACTION (serialize_single_call_args call salt).
Definition populate_submit_batch (calls : list MultisigCall) (salt : Felt) : RsCall :=
  call_to_multisig SUBMIT_TRANSACTION_BATCH (serialize_batch_call_args calls salt).
Definition populate_confirm (id : Felt) : RsCall := call_to_multisig CONFIRM_TRANSACTION [core_felt_to_rs id].
Definition populate_revoke (id : Felt) : RsCall := call_to_multisig REVOKE_CONFIRMATION [core_felt_to_rs id].
Definition populate_execute (call : MultisigCall) (salt : Felt) : RsCall :=
  call_to_multisig EXECUTE_TRANSACTION (serialize_single_call_args call salt).
Definition populate_execute_batch (calls : list MultisigCall) (salt : Felt) : RsCall :=
  call_to_multisig EXECUTE_TRANSACTION_BATCH (serialize_batch_call_args calls salt).

Context {K : Type} `{!WalletExecutor K}.

Definition run_wallet (calls : list RsCall) (k : K) : Result Felt * K :=
  let '(r, k) := wallet_execute calls k in (match r with inl tx => Ok tx | inr e => Err e end, k).

Definition submit_batch (calls : list MultisigCall) (salt : Felt) (k : K) : Result Felt * K :=
  run_wallet [populate_submit_batch calls salt] k.
Definition confirm (id : Felt) (k : K) : Result Felt * K := run_wallet [populate_confirm id] k.
Definition revoke (id : Felt) (k : K) : Result Felt * K := run_wallet [populate_revoke id] k.
Definition execute_batch (calls : list MultisigCall) (salt : Felt) (k : K) : Result Felt * K :=
  run_wallet [populate_execute_batch calls salt] k.

(** The checks of [confirm_proposal]. *)
Definition check_proposal (proposal : MultisigProposal) (wallet_chain : ChainId) : Result unit :=
  _ ← validate_transaction_id proposal;
  _ ← reject_if (bool_decide (mp_multisig proposal <> ms_address m))
        (MultisigError "proposal targets multisig {} but this handle is {}");
  _ ← reject_if (bool_decide (mp_chain_id proposal <> ms_chain_id m))
        (MultisigError "proposal was created for chain {} but this handle is on {}");
  reject_if (bool_decide (wallet_chain <> ms_chain_id m))
    (MultisigError "wallet chain {} does not match multisig chain {}").

Definition confirm_proposal (proposal : MultisigProposal) (k : K) : Result Felt * K :=
  match check_proposal proposal (wallet_chain_id k) with
  | Ok _ => confirm (mp_transaction_id proposal) k
  | Err e => (Err e, k)
  | Panic => (Panic, k)
  end.
End contract.

(** ** What a confirmation signs *)
Section confirmation.
Context `{StarkLaws, !FeltExtras, !StarknetKeccak, !MultisigAbi} {K : Type} `{!WalletExecutor K}.

(** A proposal that this handle and this wallet may confirm. *)
Definition confirmable (m : Multisig) (p : MultisigProposal) (k : K) : Prop :=
  mp_transaction_id p = hash_transaction_batch (mp_calls p) (mp_salt p)
  /\ mp_multisig p = ms_address m /\ mp_chain_id p = ms_chain_id m /\ wallet_chain_id k = ms_chain_id m.

Lemma check_proposal_spec m p k :
  (check_proposal m p (wallet_chain_id k) = Ok tt /\ confirmable m p k)
  \/ ((exists e, check_proposal m p (wallet_chain_id k) = Err (MultisigError e)) /\ ~ confirmable m p k).
Proof.
  unfold check_proposal, confirmable, validate_transaction_id, reject_if.
  repeat match goal with |- context [bool_decide ?P] => destruct (bool_decide_reflect P) end; cbn [mbind outcome_bind].
  all: try (right; split; [by eexists|]; intros (? & ? & ? & ?); congruence).
  left. split; [done|]. repeat match goal with Hn : ~ (_ <> _) |- _ => apply dec_stable in Hn end. split_and!; congruence.
Qed.
End confirmation.

(** C13: Confirming a coordinator's proposal signs nothing but the confirmation, at this
    multisig, of the id of the proposal's own calls on the wallet's chain; any other proposal
    is refused with the wallet untouched. The id is the hash of the calldata that submits and
    executes those calls, and no other calls have it unless Pedersen collides on, or maps to
    zero, one of the pairs hashed. *)
Theorem confirm_proposal_safe `{StarkLaws, !FeltExtras, !StarknetKeccak, !MultisigAbi} {K} `{!WalletExecutor K}
    (m : Multisig) (p : MultisigProposal) (k : K) :
  (confirmable m p k /\
   confirm_proposal m p k =
     run_wallet [mk_RsCall (ms_address m) CONFIRM_TRANSACTION [hash_transaction_batch (mp_calls p) (mp_salt p)]] k
   /\ chain_end (rc_calldata (populate_submit_batch m (mp_calls p) (mp_salt p))) = mp_transaction_id p
   /\ chain_end (rc_calldata (populate_execute_batch m (mp_calls p) (mp_salt p))) = mp_transaction_id p
   /\ forall calls salt,
        batch_ok calls -> batch_ok (mp_calls p) ->
        coll_free pedersen_pair (batch_pairs calls salt ++ batch_pairs (mp_calls p) (mp_salt p)) ->
        Forall (fun q => pedersen_pair q <> felt_of_Z 0) (batch_pairs calls salt ++ batch_pairs (mp_calls p) (mp_salt p)) ->
        hash_transaction_batch calls salt = mp_transaction_id p -> calls = mp_calls p /\ salt = mp_salt p)
  \/ (~ confirmable m p k /\ exists e, confirm_proposal m p k = (Err (MultisigError e), k)).
Proof.
  destruct (check_proposal_spec m p k) as [[Hc Hok]|[[e Hc] Hno]]; [left|right; split; [done|]]; unfold confirm_proposal;
    rewrite Hc; [|by exists e].
  split; [exact Hok|]. destruct Hok as (Hid & _).
  cbn [populate_submit_batch populate_execute_batch call_to_multisig rc_calldata].
  rewrite serialize_batch_felts, <- hash_transaction_batch_chain, Hid. split_and!; [|done..|].
  - unfold confirm, populate_confirm, call_to_multisig. by rewrite !(fun f => proj1 (core_rs_felt f)).
  - intros calls salt Hb1 Hb2 Hcf Hz. by apply transaction_id_binding.
Qed.

(** ** What authenticates a message *)
Section authentication.
Context `{StarkLaws, !FeltExtras, !StarknetKeccak, !ErrorText, !MultisigAbi} {W : Type} `{!Provider W}.

(** Both answers that authenticate [signed] at the block [hash]: the multisig counts the
    claimed actor among its signers and the actor's account accepts the signature. *)
Definition answers_at (m : Multisig) (signed : SignedMultisigCoordinationMessage) (hash : Felt) (w1 w3 : W) : Prop :=
  let actor := message_claimed_actor (sm_message signed) in
  exists member w2 verdict rest rest',
    rpc_call {| fc_contract_address := ms_address m; fc_entry_point_selector := IS_SIGNER; fc_calldata := [actor] |}
      (Id_Hash hash) w1 = (inl (member :: rest), w2)
    /\ member <> felt_of_Z 0
    /\ rpc_call {| fc_contract_address := actor; fc_entry_point_selector := IS_VALID_SIGNATURE;
                   fc_calldata := [coordination_message_hash (sm_message signed);
                                   felt_of_Z (Z.of_nat (length (sm_signature signed)))] ++ sm_signature signed |}
         (Id_Hash hash) w2 = (inl (verdict :: rest'), w3)
    /\ (verdict = from_bytes_be_slice (string_bytes "VALID") \/ verdict = felt_of_Z 1).

Lemma cm_guard_Ok {A B} (r : Result A) (f : A -> CM (W := W) B) w b w' :
  (cm_pure r ≫= f) w = (Ok b, w') <-> exists a, r = Ok a /\ f a w = (Ok b, w').
Proof. unfold mbind, CM_bind, cm_pure. destruct r as [a|e|]; split;
  [by exists a|by intros (a' & [= <-] & Hf)|done|by intros (a' & [=] & _)|done|by intros (a' & [=] & _)]. Qed.

Lemma cm_reject_Ok {B} (c : bool) e (f : unit -> CM (W := W) B) w b w' :
  (cm_pure (reject_if c e) ≫= f) w = (Ok b, w') <-> c = false /\ f tt w = (Ok b, w').
Proof. rewrite cm_guard_Ok. destruct c; cbn [reject_if]; split;
  [by intros ([] & [=] & _)|by intros [[=] _]|by intros ([] & _ & Hf)|by intros [_ Hf]; exists tt]. Qed.

Lemma cm_step_Ok {A B} (g : W -> (A + ProviderError) * W) (f : A -> CM (W := W) B) w b w' :
  (cm_call g ≫= f) w = (Ok b, w') <-> exists a w1, g w = (inl a, w1) /\ f a w1 = (Ok b, w').
Proof. unfold mbind, CM_bind, cm_call. destruct (g w) as [[a|e] w1]; split;
  [by exists a, w1|by intros (a' & w2 & [= <- <-] & Hf)|done|by intros (a' & w2 & [=] & _)]. Qed.

Lemma read_felt_Ok result f : read_felt result = Ok f <-> exists rest, result = f :: rest.
Proof.
  destruct result as [|g rest]; cbn.
  - split; [done|]. by intros [rest ?].
  - rewrite (proj2 (core_rs_felt g)). split; [intros [= ->]; by exists rest|by intros [rest' [= -> _]]].
Qed.

Lemma read_bool_Ok result : read_bool result = Ok true <-> exists f rest, result = f :: rest /\ f <> felt_of_Z 0.
Proof.
  unfold read_bool. destruct (read_felt result) as [f|e|] eqn:Hr; cbn [mbind outcome_bind].
  - apply read_felt_Ok in Hr as [rest ->]. case_bool_decide as Hz; cbn [negb].
    + split; [done|]. by intros (f' & rest' & [= -> ->] & ?).
    + split; [by exists f, rest|done].
  - split; [done|]. intros (f & rest & -> & _). by destruct (proj2 (read_felt_Ok (f :: rest) f)); [eexists|].
  - split; [done|]. intros (f & rest & -> & _). by destruct (proj2 (read_felt_Ok (f :: rest) f)); [eexists|].
Qed.
End authentication.

(** C14: A signed message is authenticated as its claimed actor's exactly when it is well
    formed, names this multisig and chain, and, both read at the hash of one block, the
    multisig lists the actor as a signer and the actor's account accepts the signature over the
    message's hash. *)
Theorem signed_message_authentic `{StarkLaws, !FeltExtras, !StarknetKeccak, !ErrorText, !MultisigAbi} {W} `{!Provider W}
    (m : Multisig) (signed : SignedMultisigCoordinationMessage) (w w' : W) (actor : Felt) :
  verify_signed_message m signed w = (Ok actor, w') <->
  actor = message_claimed_actor (sm_message signed)
  /\ validate_structure signed = Ok tt
  /\ mt_multisig (message_topic (sm_message signed)) = ms_address m
  /\ mt_chain_id (message_topic (sm_message signed)) = ms_chain_id m
  /\ exists hash number w1, rpc_block_hash_and_number w = (inl (hash, number), w1) /\ answers_at m signed hash w1 w'.
Proof.
  unfold verify_signed_message, call_at_block, answers_at, signature_calldata. cbn zeta.
  rewrite !(fun f => proj1 (core_rs_felt f)), map_core_felt_to_rs. split.
  - intros ([] & Hv & Hr)%cm_guard_Ok. apply cm_reject_Ok in Hr as [Ha Hr]. apply cm_reject_Ok in Hr as [Hc Hr].
    apply bool_decide_eq_false in Ha, Hc. apply dec_stable in Ha, Hc.
    apply cm_step_Ok in Hr as ([hash number] & w1 & Hh & Hr). apply cm_step_Ok in Hr as (r1 & w2 & Hs & Hr).
    apply cm_guard_Ok in Hr as (b & Hb & Hr). apply cm_reject_Ok in Hr as [->%negb_false_iff Hr].
    apply read_bool_Ok in Hb as (member & rest & -> & Hm).
    apply cm_step_Ok in Hr as (r2 & w3 & Hs' & Hr). apply cm_guard_Ok in Hr as (v & Hv' & Hr).
    apply read_felt_Ok in Hv' as [rest' ->].
    destruct (_ || _) eqn:Hval; [|discriminate Hr]. injection Hr as <- <-.
    apply orb_true_iff in Hval. rewrite !bool_decide_eq_true in Hval.
    split_and!; [done..|]. exists hash, number, w1. split; [done|]. by exists member, w2, v, rest, rest'.
  - intros (-> & Hv & Ha & Hc & hash & number & w1 & Hh & member & w2 & v & rest & rest' & Hs & Hm & Hs' & Hval).
    apply cm_guard_Ok. exists tt. split; [done|]. apply cm_reject_Ok. split; [by apply bool_decide_eq_false; intros []|].
    apply cm_reject_Ok. split; [by apply bool_decide_eq_false; intros []|].
    apply cm_step_Ok. exists (hash, number), w1. split; [done|]. apply cm_step_Ok. eexists _, w2. split; [exact Hs|].
    apply cm_guard_Ok. exists true. split; [apply read_bool_Ok; by exists member, rest|].
    apply cm_reject_Ok. split; [done|]. apply cm_step_Ok. eexists _, w'. split; [exact Hs'|].
    apply cm_guard_Ok. exists v. split; [apply read_felt_Ok; by exists rest'|].
    destruct (_ || _) eqn:Hor; [done|]. apply orb_false_iff in Hor as [Hn1%bool_decide_eq_false Hn2%bool_decide_eq_false].
    by destruct Hval.
Qed.

(** ** Witnesses *)
#[local] Existing Instance model_extras.
#[local] Existing Instance model_extras_laws.
#[local] Existing Instance coll_free_dec.
#[local] Existing Instance model_keccak.
#[local] Existing Instance demo_world_text.

#[local] Instance demo_abi : @MultisigAbi model_types := {|
  GET_QUORUM := mk 101; IS_SIGNER := mk 102; GET_SIGNERS := mk 103; IS_CONFIRMED := mk 104; IS_CONFIRMED_BY := mk 105;
  IS_EXECUTED := mk 106; GET_SUBMITTED_BLOCK := mk 107; GET_TRANSACTION_STATE := mk 108;
  GET_TRANSACTION_CONFIRMATIONS := mk 109; HASH_TRANSACTION := mk 110; HASH_TRANSACTION_BATCH := mk 111;
  ADD_SIGNERS := mk 112; REMOVE_SIGNERS := mk 113; REPLACE_SIGNER := mk 114; CHANGE_QUORUM := mk 115;
  SUBMIT_TRANSACTION := mk 116; SUBMIT_TRANSACTION_BATCH := mk 117; CONFIRM_TRANSACTION := mk 118;
  REVOKE_CONFIRMATION := mk 119; EXECUTE_TRANSACTION := mk 120; EXECUTE_TRANSACTION_BATCH := mk 121;
  IS_VALID_SIGNATURE := mk 122 |}.

(** A wallet on a chain, with the calls it executed. *)
#[local] Instance demo_wallet : @WalletExecutor model_types (ChainId * list (@RsCall model_types)) := {|
  wallet_chain_id k := fst k; wallet_execute calls k := (inl (mk 77), (fst k, snd k ++ calls)) |}.

Definition demo_multisig : @Multisig model_types := {| ms_address := mk 9; ms_chain_id := Sepolia |}.

Definition demo_proposal : @MultisigProposal model_types :=
  proposal_new (mk 9) Sepolia [demo_call 10] (mk 3) (mk 4) (Some "rent").

Lemma confirm_proposal_safe_witness :
  confirm_proposal demo_multisig demo_proposal (Sepolia, []) =
    (Ok (mk 77), (Sepolia, [mk_RsCall (mk 9) (mk 118) [hash_transaction_batch [demo_call 10] (mk 3)]]))
  /\ (forall calls salt, batch_ok calls ->
        coll_free pedersen_pair (batch_pairs calls salt ++ batch_pairs [demo_call 10] (mk 3)) ->
        Forall (fun q => pedersen_pair q <> felt_of_Z 0) (batch_pairs calls salt ++ batch_pairs [demo_call 10] (mk 3)) ->
        hash_transaction_batch calls salt = mp_transaction_id demo_proposal -> calls = [demo_call 10])
  /\ exists e, confirm_proposal demo_multisig demo_proposal (Mainnet, []) = (Err (MultisigError e), (Mainnet, [])).
Proof.
  destruct (confirm_proposal_safe demo_multisig demo_proposal (Sepolia, [])) as [(_ & Hrun & _ & _ & Hbind)|[Hno _]].
  - split; [exact Hrun|]. split.
    + intros calls salt Hok Hcf Hz Heq. destruct (Hbind calls salt) as [Hcalls _]; try assumption.
      split; [|constructor; [|constructor]]; vm_compute; discriminate.
    + destruct (confirm_proposal_safe demo_multisig demo_proposal (Mainnet, [])) as [[(_ & _ & _ & [=]) _]|[_ He]].
      exact He.
  - destruct Hno. split; [reflexivity|]. split; [reflexivity|]. split; reflexivity.
Defined.

(** A chain that answers every call with one. *)
#[local] Instance demo_answering_provider : @Provider model_types unit := {|
  rpc_get_transaction_receipt _ w := (inr (PE_StarknetError SE_TransactionHashNotFound), w);
  rpc_get_transaction_status _ w := (inr (PE_StarknetError SE_TransactionHashNotFound), w);
  rpc_get_class_hash_at _ _ w := (inr (PE_StarknetError SE_ContractNotFound), w);
  rpc_get_nonce _ _ w := (inl (mk 0), w);
  rpc_call _ _ w := (inl [mk 1], w);
  rpc_block_hash_and_number w := (inl (mk 1, 2), w);
  rpc_get_block_with_tx_hashes _ w := (inl (PreConfirmedBlock 3), w);
  factory_new _ _ _ w := (inl tt, w);
  deploy_estimate_fee _ w := (inl {| est_l1_gas := (1, 1); est_l2_gas := (1, 1); est_l1_data_gas := (1, 1) |}, w);
  deploy_send d w := (inl (mk 77), w);
  selector_balance_of := mk 11; selector_balance_of_camel := mk 12 |}.

Lemma signed_message_authentic_witness :
  verify_signed_message demo_multisig (demo_signed 10) tt = (Ok (mk 4), tt).
Proof.
  apply (signed_message_authentic demo_multisig (demo_signed 10) tt tt (mk 4)). split; [reflexivity|]. split.
  { apply validate_structure_Ok. split; [done|]. split; [discriminate|]. by intros p [= <-]. }
  split; [reflexivity|]. split; [reflexivity|]. exists (mk 1), 2, tt. split; [reflexivity|].
  exists (mk 1), tt, (mk 1), [], []. split; [reflexivity|]. split; [|split; [reflexivity|by right]].
  intros Heq. apply (f_equal felt_val) in Heq. vm_compute in Heq. discriminate Heq.
Defined.
