(* ===== verification/Coordinator.v ===== *)
(** * Multisig coordinators

    crates/client/src/multisig/in_memory.rs, http.rs, nats.rs, the payload limits of
    multisig.rs and the subject tokens of encoding.rs.

    [EnvelopeJson] is serde_json with the derived forms of the message types,
    [HttpClient] the HTTP client with its base URL, [NatsClient] the NATS client and
    [Broadcast] tokio's channels.  A lock is held by one call at a time, so a call of the
    in-memory coordinator is one step.  Not modelled: building the HTTP client (its
    resolver and redirect policy are in [Ssrf]) and the streams of subscriptions beyond
    what one received item becomes. *)

From stdpp Require Import base option list gmap numbers strings.
From Stdlib Require Import ZArith Lia.
From S2P Require Import Prelude StarkLib StarkModel Types Scalar TxHash Text Domain Primitives AccountClass.
From S2P Require Import Requests StarknetBackend Ssrf Multisig.

#[local] Open Scope string_scope.
#[local] Open Scope list_scope.
#[local] Open Scope Z_scope.

Definition MAX_COORDINATOR_PAYLOAD_BYTES : Z := 1024 * 1024.
Definition MAX_COORDINATOR_ENVELOPE_BYTES : Z := MAX_COORDINATOR_PAYLOAD_BYTES - 2.
Definition MAX_COORDINATOR_RESPONSE_BYTES : Z := MAX_COORDINATOR_PAYLOAD_BYTES.
Definition MAX_COORDINATOR_ENVELOPES : nat := 1024.

(** serde_json: values, whether one has a [version] key, the derived decoders and
    encoders, and the elements of an array with whether the text ends properly after
    them. *)
Class EnvelopeJson `{StarkTypes} : Type := {
  JsonValue : Type;
  json_value : list Z -> option JsonValue;
  json_elements : list Z -> option (list JsonValue * bool);
  has_version : JsonValue -> bool;
  signed_of_value : JsonValue -> option SignedMultisigCoordinationMessage;
  message_of_value : JsonValue -> option MultisigCoordinationMessage;
  signed_to_vec : SignedMultisigCoordinationMessage -> option (list Z);
  message_to_vec : MultisigCoordinationMessage -> option (list Z) }.

(** The derived forms are read back; only a signed message has a [version]; an element
    between brackets is an array. *)
Class EnvelopeJsonLaws `{EnvelopeJson} : Prop := {
  signed_json_back s bytes : signed_to_vec s = Some bytes ->
    exists v, json_value bytes = Some v /\ has_version v = true /\ signed_of_value v = Some s;
  message_json_back m bytes : message_to_vec m = Some bytes ->
    exists v, json_value bytes = Some v /\ has_version v = false /\ message_of_value v = Some m;
  json_singleton bytes v : json_value bytes = Some v -> json_elements ([91] ++ bytes ++ [93]) = Some ([v], true) }.

(** A response by its announced length and its chunks; an error ends the body. *)
Record HttpResponse : Type := { content_length : option Z; chunks : list (list Z + string) }.

(** [post] and [get] at the messages URL; an error stands for any failure up to the
    status check. *)
Class HttpClient (K : Type) : Type := {
  http_post : list Z -> K -> (unit + string) * K;
  http_get : list (string * string) -> K -> (HttpResponse + string) * K }.

Class NatsClient (K : Type) : Type := {
  nats_publish : string -> list Z -> K -> (unit + string) * K;
  nats_flush : K -> (unit + string) * K }.

(** A channel of a capacity and what [recv] may return. *)
Class Broadcast `{StarkTypes} (C : Type) : Type := {
  channel : Z -> C;
  channel_send : MultisigCoordinationEnvelope -> C -> C }.
Inductive RecvResult `{StarkTypes} : Type :=
| Received (envelope : MultisigCoordinationEnvelope) | Lagged (count : Z) | Closed.

Section coordinators.
Context `{StarkTypes, !FeltExtras, !StarknetKeccak, !EnvelopeJson}.

(** ** Payloads *)
Definition envelope_of_value (value : JsonValue) : option MultisigCoordinationEnvelope :=
  if has_version value then Env_Signed <$> signed_of_value value else Env_Unsigned <$> message_of_value value.

Definition envelope_to_vec (e : MultisigCoordinationEnvelope) : option (list Z) :=
  match e with Env_Signed signed => signed_to_vec signed | Env_Unsigned message => message_to_vec message end.

Definition encode_coordinator_payload (envelope : MultisigCoordinationEnvelope) : Result (list Z) :=
  payload ← ok_or (envelope_to_vec envelope) (MultisigError "{error}");
  _ ← reject_if (MAX_COORDINATOR_ENVELOPE_BYTES <? Z.of_nat (length payload))
        (MultisigError "coordination envelope serializes to {} bytes, above the {} byte limit every receiver applies");
  Ok payload.

(** ** HTTP *)
Definition append_response_chunk (body chunk : list Z) : Result (list Z) :=
  _ ← reject_if (Z.max 0 (MAX_COORDINATOR_RESPONSE_BYTES - Z.of_nat (length body)) <? Z.of_nat (length chunk))
        (MultisigError "coordinator response exceeds the {} byte limit");
  Ok (body ++ chunk).

Fixpoint read_chunks (body : list Z) (cs : list (list Z + string)) : Result (list Z) :=
  match cs with
  | [] => Ok body
  | inr error :: _ => Err (MultisigError error)
  | inl chunk :: cs => body ← append_response_chunk body chunk; read_chunks body cs
  end.

Definition read_bounded_response (response : HttpResponse) : Result (list Z) :=
  _ ← reject_if (match content_length response with
                 | Some length => MAX_COORDINATOR_RESPONSE_BYTES <? length
                 | None => false
                 end)
        (MultisigError "coordinator response exceeds the {} byte limit");
  read_chunks [] (chunks response).

(** The visitor of [BoundedEnvelopes]; an element that is no envelope is an error. *)
Fixpoint visit_seq (envelopes : list MultisigCoordinationEnvelope) (sequence : list JsonValue)
    : option (list MultisigCoordinationEnvelope) :=
  match sequence with
  | [] => Some envelopes
  | value :: sequence =>
      envelope ← envelope_of_value value;
      if (length envelopes =? MAX_COORDINATOR_ENVELOPES)%nat then None
      else visit_seq (envelopes ++ [envelope]) sequence
  end.

Definition decode_envelopes (body : list Z) : Result (list MultisigCoordinationEnvelope) :=
  ok_or ('(sequence, ended) ← json_elements body;
         envelopes ← visit_seq [] sequence;
         if (ended : bool) then Some envelopes else None)
    (MultisigError "{error}").

(** The loop of receive-side checks. *)
Fixpoint validate_all (topic : MultisigTopic) (envelopes : list MultisigCoordinationEnvelope) : Result unit :=
  match envelopes with
  | [] => Ok tt
  | envelope :: envelopes => _ ← validate_incoming_envelope topic envelope; validate_all topic envelopes
  end.

Definition query_pairs (topic : MultisigTopic) : list (string * string) :=
  [("multisig", felt_to_hex (mt_multisig topic)); ("chain_id", chain_name (mt_chain_id topic));
   ("transaction_id", felt_to_hex (mt_transaction_id topic))].

Definition http_coordinator_publish {K} `{!HttpClient K} (envelope : MultisigCoordinationEnvelope) (k : K)
    : Result unit * K :=
  match (_ ← validate_envelope_payload envelope; encode_coordinator_payload envelope) with
  | Ok payload =>
      let '(sent, k) := http_post payload k in
      (match sent with inl _ => Ok tt | inr error => Err (MultisigError error) end, k)
  | Err e => (Err e, k)
  | Panic => (Panic, k)
  end.

Definition http_coordinator_messages {K} `{!HttpClient K} (topic : MultisigTopic) (k : K)
    : Result (list MultisigCoordinationEnvelope) * K :=
  let '(answer, k) := http_get (query_pairs topic) k in
  (match answer with
   | inr error => Err (MultisigError error)
   | inl response =>
       body ← read_bounded_response response;
       envelopes ← decode_envelopes body;
       _ ← validate_all topic envelopes;
       Ok envelopes
   end, k).

(** ** NATS *)
(** [trim_start_matches("0x")] and [trim_end_matches('.')]. *)
Fixpoint trim_start_0x (l : list Z) : list Z :=
  match l with
  | a :: b :: l' => if (a =? 48) && (b =? 120) then trim_start_0x l' else l
  | _ => l
  end.

Definition felt_subject_token (felt : Felt) : string := bytes_string (trim_start_0x (string_bytes (felt_to_hex felt))).
Definition address_subject_token (address : Felt) : string := felt_subject_token address.

Definition subject_for (subject_prefix : string) (topic : MultisigTopic) : string :=
  bytes_string (trim_end_dots (string_bytes subject_prefix)) +:+ "." +:+ chain_name (mt_chain_id topic)
  +:+ "." +:+ address_subject_token (mt_multisig topic) +:+ "." +:+ felt_subject_token (mt_transaction_id topic).

(** [NatsMultisigCoordinator::new] keeps the trimmed prefix. *)
Definition nats_new (subject_prefix : string) : string := bytes_string (trim_end_dots (string_bytes subject_prefix)).

Definition nats_coordinator_publish {K} `{!NatsClient K} (prefix : string) (envelope : MultisigCoordinationEnvelope) (k : K)
    : Result unit * K :=
  match validate_envelope_payload envelope with
  | Err e => (Err e, k)
  | Panic => (Panic, k)
  | Ok _ =>
      let subject := subject_for prefix (envelope_topic envelope) in
      match encode_coordinator_payload envelope with
      | Err e => (Err e, k)
      | Panic => (Panic, k)
      | Ok payload =>
          match nats_publish subject payload k with
          | (inr error, k) => (Err (MultisigError error), k)
          | (inl _, k) =>
              match nats_flush k with
              | (inr error, k) => (Err (MultisigError error), k)
              | (inl _, k) => (Ok tt, k)
              end
          end
      end
  end.

Definition decode_subscribed_payload (topic : MultisigTopic) (payload : list Z) : Result MultisigCoordinationEnvelope :=
  _ ← reject_if (MAX_COORDINATOR_PAYLOAD_BYTES <? Z.of_nat (length payload))
        (MultisigError "coordinator message exceeds the {} byte limit");
  parsed ← ok_or (value ← json_value payload; envelope_of_value value) (MultisigError "{error}");
  _ ← validate_incoming_envelope topic parsed;
  Ok parsed.

(** ** In memory *)
Context {C : Type} `{!Broadcast C}.

Record InMemoryMultisigCoordinator : Type := mk_InMemory {
  im_messages : gmap string (list MultisigCoordinationEnvelope);
  im_subscriptions : gmap string C }.

(** [InMemoryMultisigCoordinator::new]. *)
Definition in_memory_new : InMemoryMultisigCoordinator := mk_InMemory ∅ ∅.

Definition topic_sender (key : string) (st : InMemoryMultisigCoordinator) : C * InMemoryMultisigCoordinator :=
  match im_subscriptions st !! key with
  | Some sender => (sender, st)
  | None => let sender := channel 128 in (sender, mk_InMemory (im_messages st) (<[key := sender]> (im_subscriptions st)))
  end.

Definition in_memory_publish (envelope : MultisigCoordinationEnvelope) (st : InMemoryMultisigCoordinator)
    : Result unit * InMemoryMultisigCoordinator :=
  match validate_envelope_payload envelope with
  | Err e => (Err e, st)
  | Panic => (Panic, st)
  | Ok _ =>
      let key := topic_key (envelope_topic envelope) in
      let st := mk_InMemory (<[key := default [] (im_messages st !! key) ++ [envelope]]> (im_messages st)) (im_subscriptions st) in
      let '(sender, st) := topic_sender key st in
      (Ok tt, mk_InMemory (im_messages st) (<[key := channel_send envelope sender]> (im_subscriptions st)))
  end.

(** [messages]. *)
Definition in_memory_messages (topic : MultisigTopic) (st : InMemoryMultisigCoordinator)
    : Result (list MultisigCoordinationEnvelope) := Ok (default [] (im_messages st !! topic_key topic)).

(** [subscribe] up to the stream. *)
Definition in_memory_subscribe (topic : MultisigTopic) (st : InMemoryMultisigCoordinator) : C * InMemoryMultisigCoordinator :=
  topic_sender (topic_key topic) st.

(** What a received item becomes in the stream; [None] ends it. *)
Definition stream_item (r : RecvResult) : option (Result MultisigCoordinationEnvelope) :=
  match r with
  | Received envelope => Some (Ok envelope)
  | Lagged count => Some (Err (MultisigError "in-memory multisig subscription lagged by {count} messages"))
  | Closed => None
  end.
End coordinators.

(** ** Topics have their own keys *)
Section topics.
Context `{StarkLaws}.

Lemma string_bytes_app s1 s2 : string_bytes (s1 +:+ s2) = string_bytes s1 ++ string_bytes s2.
Proof. induction s1 as [|c s1 IH]; [reflexivity|]. change (String c s1 +:+ s2) with (String c (s1 +:+ s2)).
  unfold string_bytes in *. cbn [String.list_ascii_of_string map app]. by rewrite IH. Qed.

Lemma hex_print_bytes n z : Forall byte_ok (hex_print n z).
Proof.
  revert z; induction n as [|n IH]; intros z; [constructor|]. cbn [hex_print]. apply Forall_app. split; [apply IH|].
  constructor; [|constructor]. pose proof (Z.mod_pos_bound z 16). unfold hex_digit, byte_ok. destruct (_ <? _); lia.
Qed.

Lemma felt_hex_bytes f : string_bytes (felt_to_hex f) = px ++ hex_print 64 (felt_val f).
Proof.
  unfold felt_to_hex. apply string_bytes_string, Forall_app. split; [|apply hex_print_bytes].
  repeat constructor; discriminate.
Qed.

Lemma hex64_inj f g : hex_print 64 (felt_val f) = hex_print 64 (felt_val g) -> f = g.
Proof.
  intros Heq%(f_equal hex_value). pose proof (felt_val_range f). pose proof (felt_val_range g).
  pose proof prime_lt_hex64.
  destruct (hex_print_spec 64 (felt_val f)) as (_ & _ & _ & Hf); [lia|].
  destruct (hex_print_spec 64 (felt_val g)) as (_ & _ & _ & Hg); [lia|].
  apply felt_val_inj. rewrite Hf, Hg, !Z.mod_small in Heq by lia. exact Heq.
Qed.

Lemma hex64_length f : length (hex_print 64 (felt_val f)) = 64%nat.
Proof. apply hex_print_spec, felt_val_range. Qed.

(** Three fields behind separators, the chain's name first. *)
Lemma fields_inj c1 c2 (sep : Z) (a1 b1 a2 b2 : list Z) :
  sep <> 77 -> sep <> 83 -> length a1 = length a2 ->
  string_bytes (chain_name c1) ++ [sep] ++ a1 ++ [sep] ++ b1 = string_bytes (chain_name c2) ++ [sep] ++ a2 ++ [sep] ++ b2 ->
  c1 = c2 /\ a1 = a2 /\ b1 = b2.
Proof.
  intros Hm Hs Hlen Heq. destruct c1, c2; cbn in Heq; try discriminate Heq; (split; [done|]).
  all: injection Heq as Heq; apply app_inj_1 in Heq as [-> Heq]; [|done]; by injection Heq as ->.
Qed.

Lemma topic_key_inj t1 t2 : topic_key t1 = topic_key t2 -> t1 = t2.
Proof.
  destruct t1 as [a1 c1 x1], t2 as [a2 c2 x2]. unfold topic_key. cbn [mt_multisig mt_chain_id mt_transaction_id].
  intros Heq%(f_equal string_bytes). rewrite !string_bytes_app, !felt_hex_bytes in Heq.
  apply (fields_inj c1 c2 58) in Heq as (-> & Ha & Hx); [|lia|lia|by rewrite !length_app, !hex64_length].
  apply app_inv_head, hex64_inj in Ha as ->. by apply app_inv_head, hex64_inj in Hx as ->.
Qed.
End topics.

(** ** The in-memory coordinator is a log *)
Section log.
Context `{StarkLaws, !FeltExtras, !StarknetKeccak, !EnvelopeJson} {C : Type} `{!Broadcast C}.

Inductive CoordinatorOp : Type :=
| Op_Publish (envelope : MultisigCoordinationEnvelope) | Op_Messages (topic : MultisigTopic) | Op_Subscribe (topic : MultisigTopic).

Inductive CoordinatorOut : Type :=
| Out_Publish (r : Result unit) | Out_Messages (r : Result (list MultisigCoordinationEnvelope)) | Out_Subscribe.

Definition in_memory_step (op : CoordinatorOp) (st : InMemoryMultisigCoordinator (C := C))
    : CoordinatorOut * InMemoryMultisigCoordinator :=
  match op with
  | Op_Publish envelope => let '(r, st) := in_memory_publish envelope st in (Out_Publish r, st)
  | Op_Messages topic => (Out_Messages (in_memory_messages topic st), st)
  | Op_Subscribe topic => (Out_Subscribe, snd (in_memory_subscribe topic st))
  end.

(** The specification: one log of the valid envelopes in the order of publication, read
    by topic. *)
Definition log_step (op : CoordinatorOp) (log : list MultisigCoordinationEnvelope)
    : CoordinatorOut * list MultisigCoordinationEnvelope :=
  match op with
  | Op_Publish envelope =>
      let r := validate_envelope_payload envelope in
      (Out_Publish r, match r with Ok _ => log ++ [envelope] | _ => log end)
  | Op_Messages topic => (Out_Messages (Ok (filter (fun e => envelope_topic e = topic) log)), log)
  | Op_Subscribe topic => (Out_Subscribe, log)
  end.

Fixpoint run_ops {S} (step : CoordinatorOp -> S -> CoordinatorOut * S) (ops : list CoordinatorOp) (s : S)
    : list CoordinatorOut :=
  match ops with
  | [] => []
  | op :: ops => let '(out, s) := step op s in out :: run_ops step ops s
  end.

Definition log_sim (st : InMemoryMultisigCoordinator (C := C)) (log : list MultisigCoordinationEnvelope) : Prop :=
  forall topic, default [] (im_messages st !! topic_key topic) = filter (fun e => envelope_topic e = topic) log.

Lemma topic_sender_messages key (st : InMemoryMultisigCoordinator (C := C)) :
  im_messages (snd (topic_sender key st)) = im_messages st.
Proof. unfold topic_sender. by destruct (im_subscriptions st !! key). Qed.

Lemma log_sim_push st log envelope :
  log_sim st log ->
  log_sim (mk_InMemory (<[topic_key (envelope_topic envelope) :=
                          default [] (im_messages st !! topic_key (envelope_topic envelope)) ++ [envelope]]> (im_messages st))
             (im_subscriptions st)) (log ++ [envelope]).
Proof.
  intros Hsim topic. cbn [im_messages]. rewrite filter_app, filter_cons, filter_nil.
  destruct (decide (envelope_topic envelope = topic)) as [<-|Hne].
  - rewrite lookup_insert_eq. cbn [default from_option]. by rewrite Hsim.
  - rewrite lookup_insert_ne by (intros Heq%topic_key_inj; congruence). by rewrite Hsim, app_nil_r.
Qed.

Lemma in_memory_step_sim op st log :
  log_sim st log -> fst (in_memory_step op st) = fst (log_step op log)
  /\ log_sim (snd (in_memory_step op st)) (snd (log_step op log)).
Proof.
  intros Hsim. destruct op as [envelope|topic|topic]; cbn [in_memory_step log_step].
  - unfold in_memory_publish. destruct (validate_envelope_payload envelope) as [[]|e|]; [|done..]. cbn zeta.
    destruct (topic_sender _ _) as [sender st'] eqn:Hs. cbn [fst snd]. split; [done|].
    intros topic. cbn [im_messages]. pose proof (f_equal (fun x => im_messages (snd x)) Hs) as Hm.
    cbv beta in Hm. rewrite topic_sender_messages in Hm. cbn [snd] in Hm. rewrite <- Hm. by apply log_sim_push.
  - split; [|done]. cbn [fst]. unfold in_memory_messages. by rewrite Hsim.
  - split; [done|]. cbn [snd]. intros t. unfold in_memory_subscribe. rewrite topic_sender_messages. apply Hsim.
Qed.

Lemma run_ops_sim ops st log :
  log_sim st log -> run_ops in_memory_step ops st = run_ops log_step ops log.
Proof.
  revert st log; induction ops as [|op ops IH]; intros st log Hsim; [done|]. cbn [run_ops].
  destruct (in_memory_step_sim op st log Hsim) as [Hout Hsim'].
  destruct (in_memory_step op st) as [o st'], (log_step op log) as [o' log']. cbn [fst snd] in Hout, Hsim'.
  rewrite Hout. f_equal. by apply IH.
Qed.
End log.

(** The in-memory coordinator refines a log: on every sequence of operations its answers
    are those of one list of the valid envelopes, in the order of publication and read by
    topic. *)
Theorem in_memory_refines_log `{StarkLaws, !FeltExtras, !StarknetKeccak, !EnvelopeJson} {C} `{!Broadcast C} ops :
  run_ops (in_memory_step (C := C)) ops in_memory_new = run_ops log_step ops [].
Proof. apply run_ops_sim. intros topic. unfold in_memory_new. cbn [im_messages]. by rewrite lookup_empty. Qed.

(** ** Receiving and sending *)
Section transports.
Context `{StarkLaws, !FeltExtras, !StarknetKeccak, !EnvelopeJson}.

(** An envelope of [topic] that is well formed: a proposal's id is that of its calls and
    a signed message has the schema version and a signature. *)
Definition acceptable (topic : MultisigTopic) (e : MultisigCoordinationEnvelope) : Prop :=
  envelope_topic e = topic
  /\ (forall p, envelope_message e = Msg_Proposal p -> mp_transaction_id p = hash_transaction_batch (mp_calls p) (mp_salt p))
  /\ (forall s, e = Env_Signed s -> sm_version s = MULTISIG_COORDINATION_SCHEMA_VERSION /\ sm_signature s <> []).

Lemma validate_envelope_payload_Ok e :
  validate_envelope_payload e = Ok tt <->
  (forall p, envelope_message e = Msg_Proposal p -> mp_transaction_id p = hash_transaction_batch (mp_calls p) (mp_salt p))
  /\ (forall s, e = Env_Signed s -> sm_version s = MULTISIG_COORDINATION_SCHEMA_VERSION /\ sm_signature s <> []).
Proof.
  assert (forall msg, match msg with Msg_Proposal p => validate_transaction_id p | _ => Ok tt end = Ok tt <->
            forall p, msg = Msg_Proposal p -> mp_transaction_id p = hash_transaction_batch (mp_calls p) (mp_salt p)) as Hmsg.
  { intros [p|n|n|n]; [rewrite validate_transaction_id_Ok|..]; (split; [intros Hp p' [= <-] || intros _ p' [=]; done|auto]). }
  unfold validate_envelope_payload. destruct e as [s|msg]; cbn [envelope_message].
  - pose proof (validate_structure_Ok s) as Hs.
    destruct (validate_structure s) as [[]|e|]; cbn [mbind outcome_bind]; [rewrite Hmsg|..].
    + destruct Hs as [Hs _]. destruct (Hs eq_refl) as (Hv & Hsig & _). split; [|by intros [? _]].
      intros Hp. split; [done|]. by intros s' [= <-].
    + split; [done|]. intros [Hp Hv]. destruct (Hv s eq_refl). destruct Hs as [_ Hs]. by discriminate Hs.
    + split; [done|]. intros [Hp Hv]. destruct (Hv s eq_refl). destruct Hs as [_ Hs]. by discriminate Hs.
  - cbn [mbind outcome_bind]. rewrite Hmsg. split; [|by intros [? _]]. intros Hp. split; [done|]. by intros s [=].
Qed.

Lemma validate_incoming_envelope_Ok topic e : validate_incoming_envelope topic e = Ok tt <-> acceptable topic e.
Proof.
  unfold validate_incoming_envelope, acceptable, reject_if.
  destruct (bool_decide_reflect (envelope_topic e <> topic)) as [Hne|Heq]; cbn [mbind outcome_bind].
  - split; [done|]. by intros [? _].
  - rewrite validate_envelope_payload_Ok. apply dec_stable in Heq. tauto.
Qed.

Lemma validate_all_Ok topic es : validate_all topic es = Ok tt <-> Forall (acceptable topic) es.
Proof.
  induction es as [|e es IH]; cbn [validate_all]; [by split|].
  rewrite Forall_cons, <- IH, <- validate_incoming_envelope_Ok.
  destruct (validate_incoming_envelope topic e) as [[]|x|]; cbn [mbind outcome_bind]; [tauto|..]; (split; [done|by intros [? _]]).
Qed.

Lemma visit_seq_length acc vs es :
  (length acc <= MAX_COORDINATOR_ENVELOPES)%nat -> visit_seq acc vs = Some es -> (length es <= MAX_COORDINATOR_ENVELOPES)%nat.
Proof.
  revert acc; induction vs as [|v vs IH]; intros acc Hacc; cbn [visit_seq]; [by intros [= <-]|].
  destruct (envelope_of_value v) as [e|]; [|done]. cbn [mbind option_bind].
  destruct (Nat.eqb_spec (length acc) MAX_COORDINATOR_ENVELOPES); [done|]. apply IH. rewrite length_app. cbn [length]. lia.
Qed.

Lemma read_chunks_Ok cs body out :
  Z.of_nat (length body) <= MAX_COORDINATOR_RESPONSE_BYTES -> read_chunks body cs = Ok out ->
  Z.of_nat (length out) <= MAX_COORDINATOR_RESPONSE_BYTES.
Proof.
  revert body; induction cs as [|[chunk|error] cs IH]; intros body Hb; cbn [read_chunks]; [by intros [= <-]| |done].
  unfold append_response_chunk, reject_if. destruct (Z.ltb_spec (Z.max 0 (MAX_COORDINATOR_RESPONSE_BYTES - Z.of_nat (length body)))
    (Z.of_nat (length chunk))); cbn [mbind outcome_bind]; [done|]. apply IH. rewrite length_app. lia.
Qed.

(** A body within the limit is read whole, however it is cut. *)
Lemma read_chunks_all cs body :
  Z.of_nat (length (body ++ concat cs)) <= MAX_COORDINATOR_RESPONSE_BYTES ->
  read_chunks body (map inl cs) = Ok (body ++ concat cs).
Proof.
  revert body; induction cs as [|chunk cs IH]; intros body; cbn [concat map read_chunks]; [by rewrite app_nil_r|].
  intros Hlen. unfold append_response_chunk, reject_if.
  assert (Z.of_nat (length body) + Z.of_nat (length chunk) <= MAX_COORDINATOR_RESPONSE_BYTES)
    by (rewrite !length_app in Hlen; lia).
  destruct (Z.ltb_spec (Z.max 0 (MAX_COORDINATOR_RESPONSE_BYTES - Z.of_nat (length body))) (Z.of_nat (length chunk))); [lia|].
  cbn [mbind outcome_bind]. rewrite IH; [by rewrite <- app_assoc|]. by rewrite <- app_assoc.
Qed.

Lemma encode_coordinator_payload_Ok e payload :
  encode_coordinator_payload e = Ok payload <->
  envelope_to_vec e = Some payload /\ Z.of_nat (length payload) <= MAX_COORDINATOR_ENVELOPE_BYTES.
Proof.
  unfold encode_coordinator_payload, reject_if. destruct (envelope_to_vec e) as [bs|]; cbn [ok_or mbind outcome_bind].
  - destruct (Z.ltb_spec MAX_COORDINATOR_ENVELOPE_BYTES (Z.of_nat (length bs))); cbn [mbind outcome_bind].
    + split; [done|]. intros [[= <-] ?]. lia.
    + split; [by intros [= <-]|]. by intros [[= <-] _].
  - split; [done|]. by intros [? _].
Qed.

Lemma envelope_json_back `{!EnvelopeJsonLaws} e bytes :
  envelope_to_vec e = Some bytes -> exists v, json_value bytes = Some v /\ envelope_of_value v = Some e.
Proof.
  unfold envelope_of_value. destruct e as [s|m]; cbn [envelope_to_vec].
  - intros (v & Hv & Hver & Hs)%signed_json_back. exists v. by rewrite Hver, Hs.
  - intros (v & Hv & Hver & Hs)%message_json_back. exists v. by rewrite Hver, Hs.
Qed.
End transports.

(** C15: Nothing a coordinator sends is accepted unchecked: history over HTTP comes from at
    most 1 MiB and 1024 envelopes, each of the topic asked for and well formed, and a NATS
    payload is at most 1 MiB and one such envelope. *)
Theorem coordinator_receive_safe `{StarkLaws, !FeltExtras, !StarknetKeccak, !EnvelopeJson} {K} `{!HttpClient K}
    (topic : MultisigTopic) :
  (forall (k k' : K) envelopes, http_coordinator_messages topic k = (Ok envelopes, k') ->
     (length envelopes <= MAX_COORDINATOR_ENVELOPES)%nat /\ Forall (acceptable topic) envelopes
     /\ exists response body, http_get (query_pairs topic) k = (inl response, k')
        /\ read_bounded_response response = Ok body /\ Z.of_nat (length body) <= 1048576
        /\ decode_envelopes body = Ok envelopes)
  /\ (forall payload envelope, decode_subscribed_payload topic payload = Ok envelope ->
        Z.of_nat (length payload) <= 1048576 /\ acceptable topic envelope).
Proof.
  split.
  - intros k k' es. unfold http_coordinator_messages. destruct (http_get (query_pairs topic) k) as [[response|error] k1]; [|done].
    destruct (read_bounded_response response) as [body|e|] eqn:Hbody; [|done..]. cbn [mbind outcome_bind].
    destruct (decode_envelopes body) as [es'|e|] eqn:Hes; [|done..]. cbn [mbind outcome_bind].
    destruct (validate_all topic es') as [[]|e|] eqn:Hv; [|done..]. cbn [mbind outcome_bind]. intros [= <- <-].
    split; [|split; [by apply validate_all_Ok|]].
    + unfold decode_envelopes in Hes. destruct (json_elements body) as [[vs ended]|]; [|done]. cbn [mbind option_bind] in Hes.
      destruct (visit_seq [] vs) as [es|] eqn:Hvis; [|done]. cbn [mbind option_bind] in Hes. destruct ended; [|done].
      injection Hes as <-. apply (visit_seq_length [] vs); [cbn; lia|done].
    + exists response, body. split_and!; [done|done| |done]. unfold read_bounded_response in Hbody.
      destruct (reject_if _ _) as [[]|e|]; [|done..]. cbn [mbind outcome_bind] in Hbody.
      by apply read_chunks_Ok in Hbody.
  - intros payload e. unfold decode_subscribed_payload, reject_if.
    destruct (Z.ltb_spec MAX_COORDINATOR_PAYLOAD_BYTES (Z.of_nat (length payload))) as [Hlt|Hle]; [done|]. cbn [mbind outcome_bind].
    destruct (ok_or _ _) as [e'|x|]; [|done..]. cbn [mbind outcome_bind].
    destruct (validate_incoming_envelope topic e') as [[]|x|] eqn:Hv; [|done..]. cbn [mbind outcome_bind]. intros [= <-].
    split; [exact Hle|by apply validate_incoming_envelope_Ok].
Qed.

(** What is published can be received: a payload that publish sends over NATS decodes for
    its topic to the envelope, and one posted over HTTP, returned alone in an array and in any
    chunks, is the history of its topic. *)
Theorem publish_deliverable `{StarkLaws, !FeltExtras, !StarknetKeccak, !EnvelopeJson, !EnvelopeJsonLaws}
    {N} `{!NatsClient N} {K} `{!HttpClient K} (envelope : MultisigCoordinationEnvelope) :
  (forall prefix (n n' : N), nats_coordinator_publish prefix envelope n = (Ok tt, n') ->
     exists payload n1, nats_publish (subject_for prefix (envelope_topic envelope)) payload n = (inl tt, n1)
       /\ nats_flush n1 = (inl tt, n')
       /\ decode_subscribed_payload (envelope_topic envelope) payload = Ok envelope)
  /\ (forall k k' : K, http_coordinator_publish envelope k = (Ok tt, k') ->
     exists payload, http_post payload k = (inl tt, k') /\
       forall (k1 k2 : K) cl cs,
         concat cs = [91] ++ payload ++ [93] -> cl = None \/ cl = Some (Z.of_nat (length (concat cs))) ->
         http_get (query_pairs (envelope_topic envelope)) k1 = (inl {| content_length := cl; chunks := map inl cs |}, k2) ->
         http_coordinator_messages (envelope_topic envelope) k1 = (Ok [envelope], k2)).
Proof.
  split.
  - intros prefix n n'. unfold nats_coordinator_publish.
    destruct (validate_envelope_payload envelope) as [[]|x|] eqn:Hv; [|done..].
    destruct (encode_coordinator_payload envelope) as [payload|x|] eqn:He; [|done..].
    destruct (nats_publish _ payload n) as [[[]|error] n1] eqn:Hn; [|done].
    destruct (nats_flush n1) as [[[]|error] n2] eqn:Hf; [|done]. intros [= <-]. exists payload, n1. do 2 (split; [done|]).
    apply encode_coordinator_payload_Ok in He as [He Hlen]. destruct (envelope_json_back _ _ He) as (v & Hjson & Henv).
    unfold decode_subscribed_payload, reject_if.
    destruct (Z.ltb_spec MAX_COORDINATOR_PAYLOAD_BYTES (Z.of_nat (length payload)));
      [unfold MAX_COORDINATOR_ENVELOPE_BYTES in Hlen; lia|]. cbn [mbind outcome_bind].
    rewrite Hjson. cbn [mbind option_bind]. rewrite Henv. cbn [ok_or mbind outcome_bind].
    unfold validate_incoming_envelope. rewrite bool_decide_eq_false_2 by auto. cbn [reject_if mbind outcome_bind].
    by rewrite Hv.
  - intros k k'. unfold http_coordinator_publish.
    destruct (validate_envelope_payload envelope) as [[]|x|] eqn:Hv; [|done..]. cbn [mbind outcome_bind].
    destruct (encode_coordinator_payload envelope) as [payload|x|] eqn:He; [|done..].
    destruct (http_post payload k) as [[[]|error] k1] eqn:Hp; [|done]. intros [= <-]. exists payload. split; [done|].
    intros k2 k3 cl cs Hcs Hcl Hget. unfold http_coordinator_messages. rewrite Hget. f_equal.
    apply encode_coordinator_payload_Ok in He as [He Hlen]. destruct (envelope_json_back _ _ He) as (v & Hjson & Henv).
    assert (Z.of_nat (length (concat cs)) <= MAX_COORDINATOR_RESPONSE_BYTES) as Hbound.
    { rewrite Hcs, !length_app. cbn [length]. unfold MAX_COORDINATOR_ENVELOPE_BYTES, MAX_COORDINATOR_RESPONSE_BYTES in *. lia. }
    unfold read_bounded_response. cbn [content_length chunks].
    rewrite (read_chunks_all cs []) by exact Hbound. cbn [app].
    assert (match cl with Some length => MAX_COORDINATOR_RESPONSE_BYTES <? length | None => false end = false) as ->.
    { destruct Hcl as [->| ->]; [done|]. by apply Z.ltb_ge. }
    cbn [reject_if mbind outcome_bind]. rewrite Hcs. unfold decode_envelopes. rewrite (json_singleton _ _ Hjson).
    cbn [mbind option_bind visit_seq]. rewrite Henv. cbn [mbind option_bind length app Nat.eqb MAX_COORDINATOR_ENVELOPES visit_seq ok_or outcome_bind].
    cbn [validate_all]. unfold validate_incoming_envelope. rewrite bool_decide_eq_false_2 by auto.
    cbn [reject_if mbind outcome_bind]. by rewrite Hv.
Qed.

(** ** Witnesses *)
#[local] Existing Instance model_extras.
#[local] Existing Instance model_extras_laws.
#[local] Existing Instance model_keccak.

Definition demo_notice : @MultisigCoordinationMessage model_types :=
  Msg_Confirmation (mk_MultisigSignerNotice (mk 9) Sepolia (mk 5) (mk 4)).
Definition demo_envelope : @MultisigCoordinationEnvelope model_types := Env_Unsigned demo_notice.
Definition demo_notice_topic : @MultisigTopic model_types := envelope_topic demo_envelope.

Definition is_demo_notice (m : @MultisigCoordinationMessage model_types) : bool :=
  match m with
  | Msg_Confirmation n => bool_decide (sn_multisig n = mk 9) && bool_decide (sn_chain_id n = Sepolia)
                          && bool_decide (sn_transaction_id n = mk 5) && bool_decide (sn_signer n = mk 4)
  | _ => false
  end.

Lemma is_demo_notice_eq m : is_demo_notice m = true -> m = demo_notice.
Proof.
  destruct m as [p|[a c t s]|n|n]; cbn -[bool_decide]; [done| |done..]. rewrite !andb_true_iff, !bool_decide_eq_true.
  by intros [[[-> ->] ->] ->].
Qed.

(** A codec of one message, the byte 110. *)
#[local] Instance demo_envelope_json : @EnvelopeJson model_types := {|
  JsonValue := unit;
  json_value bs := if decide (bs = [110]) then Some tt else None;
  json_elements bs := if decide (bs = [91; 110; 93]) then Some ([tt], true) else None;
  has_version _ := false; signed_of_value _ := None; message_of_value _ := Some demo_notice;
  signed_to_vec _ := None; message_to_vec m := if is_demo_notice m then Some [110] else None |}.

#[local] Instance demo_envelope_json_laws : @EnvelopeJsonLaws model_types demo_envelope_json.
Proof.
  constructor.
  - intros s bytes [=].
  - intros m bytes. cbn. destruct (is_demo_notice m) eqn:Hm; [|done]. intros [= <-]. exists tt.
    split; [done|]. split; [done|]. by rewrite (is_demo_notice_eq m Hm).
  - intros bytes []. cbn -[decide]. destruct (decide (bytes = [110])) as [->|]; done.
Qed.

(** A log of the payloads sent, and a server that returns the notice in two chunks. *)
#[local] Instance demo_http : HttpClient (list (list Z)) := {|
  http_post payload k := (inl tt, k ++ [payload]);
  http_get _ k := (inl {| content_length := Some 3; chunks := [inl [91; 110]; inl [93]] |}, k) |}.
#[local] Instance demo_nats : NatsClient (list (list Z)) := {|
  nats_publish _ payload k := (inl tt, k ++ [payload]); nats_flush k := (inl tt, k) |}.
#[local] Instance demo_broadcast : @Broadcast model_types (list (@MultisigCoordinationEnvelope model_types)) := {|
  channel _ := []; channel_send e c := c ++ [e] |}.

Lemma in_memory_refines_log_witness :
  run_ops (in_memory_step (C := list (@MultisigCoordinationEnvelope model_types)))
    [Op_Subscribe demo_notice_topic; Op_Publish demo_envelope; Op_Messages demo_notice_topic] in_memory_new
  = [Out_Subscribe; Out_Publish (Ok tt); Out_Messages (Ok [demo_envelope])].
Proof. rewrite in_memory_refines_log. cbn -[filter decide]. rewrite filter_cons, decide_True by reflexivity. reflexivity. Defined.

Lemma coordinator_receive_safe_witness :
  http_coordinator_messages demo_notice_topic [[1]] = (Ok [demo_envelope], [[1]])
  /\ Forall (acceptable demo_notice_topic) [demo_envelope].
Proof.
  assert (http_coordinator_messages demo_notice_topic [[1]] = (Ok [demo_envelope], [[1]])) as Hm.
  { unfold http_coordinator_messages. reflexivity. }
  split; [exact Hm|].
  destruct (coordinator_receive_safe (K := list (list Z)) demo_notice_topic) as [Hh _].
  by destruct (Hh _ _ _ Hm) as (_ & Hacc & _).
Defined.

Lemma publish_deliverable_witness :
  http_coordinator_messages demo_notice_topic [[110]] = (Ok [demo_envelope], [[110]])
  /\ decode_subscribed_payload demo_notice_topic [110] = Ok demo_envelope.
Proof.
  destruct (publish_deliverable (N := list (list Z)) (K := list (list Z)) demo_envelope) as [Hn Hh]. split.
  - destruct (Hh [] [[110]]) as (payload & Hp & Hmsg); [reflexivity|].
    assert (payload = [110]) as -> by (cbn in Hp; congruence).
    apply (Hmsg [[110]] [[110]] (Some 3) [[91; 110]; [93]]); [reflexivity|by right|reflexivity].
  - destruct (Hn "p" [] [[110]]) as (payload & n1 & Hp & Hf & Hd); [reflexivity|].
    assert (payload = [110]) as -> by (cbn in Hp, Hf; congruence). exact Hd.
Defined.
