(* ===== verification/Events.v ===== *)
(** * Tongo events

    crates/client/src/events.rs (typed events, their parsers and the readers) and
    events/pagination.rs (the budgets of a query over untrusted pages).

    Felts of starknet-rs and starknet-types-core are the field elements they hold.
    [EventProvider] is the node's [get_events], [EventAbi] the event selectors; time is
    [Timed], counted in milliseconds.  [tokio::join!] runs its readers in turn. *)

From stdpp Require Import base option list sorting numbers strings.
From Stdlib Require Import ZArith Lia.
From S2P Require Import Prelude StarkLib StarkModel Types Scalar Curve Serialization TxHash Text Domain Primitives.
From S2P Require Import Requests Provider Gateway Wait StarknetBackend Multisig.

#[local] Open Scope string_scope.
#[local] Open Scope list_scope.
#[local] Open Scope Z_scope.

(** ** Data *)
Section data.
Context `{StarkTypes}.

(** The fields of [EmittedEvent] that are read. *)
Record EmittedEvent : Type := mk_EmittedEvent {
  ev_block_number : option Z; ev_transaction_hash : Felt; ev_keys : list Felt; ev_data : list Felt }.

Record EventMetadata : Type := mk_EventMetadata { em_block_number : option Z; em_tx_hash : Felt }.
Definition meta (e : EmittedEvent) : EventMetadata := mk_EventMetadata (ev_block_number e) (ev_transaction_hash e).

Record CipherBalance : Type := mk_CipherBalance { cb_l : Proj; cb_r : Proj }.
Record AEBalance : Type := mk_AEBalance { ae_ciphertext : list Z; ae_nonce : list Z }.

Record FundEvent : Type := mk_FundEvent {
  fe_meta : EventMetadata; fe_to : Proj; fe_nonce : Z; fe_from : Felt; fe_amount : Z }.
Record OutsideFundEvent : Type := mk_OutsideFundEvent {
  oe_meta : EventMetadata; oe_to : Proj; oe_from : Felt; oe_amount : Z }.
Record WithdrawEvent : Type := mk_WithdrawEvent {
  we_meta : EventMetadata; we_from : Proj; we_nonce : Z; we_amount : Z; we_to : Felt }.
Record RagequitEvent : Type := mk_RagequitEvent {
  re_meta : EventMetadata; re_from : Proj; re_nonce : Z; re_amount : Z; re_to : Felt }.
Record RolloverEvent : Type := mk_RolloverEvent {
  ro_meta : EventMetadata; ro_to : Proj; ro_nonce : Z; ro_rollovered : CipherBalance }.
Record TransferEvent : Type := mk_TransferEvent {
  te_meta : EventMetadata; te_to : Proj; te_from : Proj; te_nonce : Z; te_transfer_balance : CipherBalance;
  te_transfer_balance_self : CipherBalance; te_hint_transfer : AEBalance; te_hint_leftover : AEBalance }.
Record BalanceDeclaredEvent : Type := mk_BalanceDeclaredEvent {
  bd_meta : EventMetadata; bd_from : Proj; bd_nonce : Z; bd_auditor_pub_key : Proj;
  bd_declared_cipher_balance : CipherBalance; bd_hint : AEBalance }.
Record TransferDeclaredEvent : Type := mk_TransferDeclaredEvent {
  td_meta : EventMetadata; td_from : Proj; td_to : Proj; td_nonce : Z; td_auditor_pub_key : Proj;
  td_declared_cipher_balance : CipherBalance; td_hint : AEBalance }.

Inductive TongoEvent : Type :=
| Ev_Fund (e : FundEvent) | Ev_OutsideFund (e : OutsideFundEvent) | Ev_Withdraw (e : WithdrawEvent)
| Ev_Ragequit (e : RagequitEvent) | Ev_Rollover (e : RolloverEvent) | Ev_Transfer (e : TransferEvent)
| Ev_BalanceDeclared (e : BalanceDeclaredEvent) | Ev_TransferDeclared (e : TransferDeclaredEvent).

(** [TongoEvent::block_number]. *)
Definition event_block_number (e : TongoEvent) : option Z :=
  em_block_number match e with
                  | Ev_Fund e => fe_meta e | Ev_OutsideFund e => oe_meta e | Ev_Withdraw e => we_meta e
                  | Ev_Ragequit e => re_meta e | Ev_Rollover e => ro_meta e | Ev_Transfer e => te_meta e
                  | Ev_BalanceDeclared e => bd_meta e | Ev_TransferDeclared e => td_meta e
                  end.

(** ** Parsers *)

(** [felts[i]] behind a length check. *)
Definition felt_at (felts : list Felt) (i : nat) : Result Felt := expect (felts !! i).

Definition parse_event_point (felts : list Felt) (offset : nat) : Result Proj :=
  _ ← reject_if (length felts <? offset + 2)%nat (DeserializationError "Not enough felts for point");
  x ← felt_at felts offset;
  y ← felt_at felts (offset + 1);
  ok_or (proj_from_affine (rs_felt_to_core x) (rs_felt_to_core y)) (DeserializationError "Invalid point in event data").

Definition parse_cipher_balance (felts : list Felt) (offset : nat) : Result CipherBalance :=
  l ← parse_event_point felts offset;
  r ← parse_event_point felts (offset + 2);
  Ok (mk_CipherBalance l r).

Definition felt_to_u128 (felt : Felt) : Z := be_value (take 16 (drop 16 (to_bytes_be felt))).
Definition felt_to_u64 (felt : Felt) : Z := be_value (take 8 (drop 24 (to_bytes_be felt))).

Definition get_felt (felts : list Felt) (index : nat) : Result Felt :=
  ok_or (felts !! index) (DeserializationError "Event data too short: need index {index}, got {} elements").

Definition parse_ae_balance (felts : list Felt) (offset : nat) : Result AEBalance :=
  _ ← reject_if (length felts <? offset + 6)%nat (DeserializationError "Not enough felts for AEBalance");
  limbs ← collect (map (fun i => f ← felt_at felts (offset + i); Ok (take 16 (drop 16 (to_bytes_be f)))) [0; 1; 2; 3]%nat);
  high ← felt_at felts (offset + 5);
  low ← felt_at felts (offset + 4);
  Ok (mk_AEBalance (concat limbs) (take 16 (drop 16 (to_bytes_be high)) ++ take 8 (drop 16 (to_bytes_be low)))).

Definition parse_fund_event (e : EmittedEvent) : Result FundEvent :=
  to ← parse_event_point (ev_keys e) 1;
  nonce ← get_felt (ev_data e) 0;
  from ← get_felt (ev_data e) 1;
  amount ← get_felt (ev_data e) 2;
  Ok (mk_FundEvent (meta e) to (felt_to_u64 nonce) (rs_felt_to_core from) (felt_to_u128 amount)).

Definition parse_outside_fund_event (e : EmittedEvent) : Result OutsideFundEvent :=
  to ← parse_event_point (ev_keys e) 1;
  from ← get_felt (ev_data e) 0;
  amount ← get_felt (ev_data e) 1;
  Ok (mk_OutsideFundEvent (meta e) to (rs_felt_to_core from) (felt_to_u128 amount)).

Definition parse_withdraw_event (e : EmittedEvent) : Result WithdrawEvent :=
  from ← parse_event_point (ev_keys e) 1;
  nonce ← get_felt (ev_data e) 0;
  amount ← get_felt (ev_data e) 1;
  to ← get_felt (ev_data e) 2;
  Ok (mk_WithdrawEvent (meta e) from (felt_to_u64 nonce) (felt_to_u128 amount) (rs_felt_to_core to)).

Definition parse_ragequit_event (e : EmittedEvent) : Result RagequitEvent :=
  from ← parse_event_point (ev_keys e) 1;
  nonce ← get_felt (ev_data e) 0;
  amount ← get_felt (ev_data e) 1;
  to ← get_felt (ev_data e) 2;
  Ok (mk_RagequitEvent (meta e) from (felt_to_u64 nonce) (felt_to_u128 amount) (rs_felt_to_core to)).

Definition parse_rollover_event (e : EmittedEvent) : Result RolloverEvent :=
  to ← parse_event_point (ev_keys e) 1;
  nonce ← get_felt (ev_data e) 0;
  rollovered ← parse_cipher_balance (ev_data e) 1;
  Ok (mk_RolloverEvent (meta e) to (felt_to_u64 nonce) rollovered).

Definition parse_transfer_event (e : EmittedEvent) : Result TransferEvent :=
  to ← parse_event_point (ev_keys e) 1;
  from ← parse_event_point (ev_keys e) 3;
  nonce ← get_felt (ev_data e) 0;
  transfer_balance ← parse_cipher_balance (ev_data e) 1;
  transfer_balance_self ← parse_cipher_balance (ev_data e) 5;
  hint_transfer ← parse_ae_balance (ev_data e) 9;
  hint_leftover ← parse_ae_balance (ev_data e) 15;
  Ok (mk_TransferEvent (meta e) to from (felt_to_u64 nonce) transfer_balance transfer_balance_self hint_transfer hint_leftover).

Definition parse_balance_declared_event (e : EmittedEvent) : Result BalanceDeclaredEvent :=
  from ← parse_event_point (ev_keys e) 1;
  nonce ← get_felt (ev_data e) 0;
  auditor ← parse_event_point (ev_data e) 1;
  declared ← parse_cipher_balance (ev_data e) 3;
  hint ← parse_ae_balance (ev_data e) 7;
  Ok (mk_BalanceDeclaredEvent (meta e) from (felt_to_u64 nonce) auditor declared hint).

Definition parse_transfer_declared_event (e : EmittedEvent) : Result TransferDeclaredEvent :=
  from ← parse_event_point (ev_keys e) 1;
  to ← parse_event_point (ev_keys e) 3;
  nonce ← get_felt (ev_data e) 0;
  auditor ← parse_event_point (ev_data e) 1;
  declared ← parse_cipher_balance (ev_data e) 3;
  hint ← parse_ae_balance (ev_data e) 7;
  Ok (mk_TransferDeclaredEvent (meta e) from to (felt_to_u64 nonce) auditor declared hint).

Definition point_to_rs_felts (point : Proj) : Result (Felt * Felt) :=
  affine ← ok_or (proj_to_affine point) (CryptoError "Invalid public key");
  Ok (core_felt_to_rs (aff_x affine), core_felt_to_rs (aff_y affine)).
Record EventFilter : Type := mk_EventFilter {
  ef_from_block : option BlockId; ef_to_block : option BlockId; ef_address : Felt; ef_keys : list (list Felt) }.

Record EventsPage : Type := mk_EventsPage {
  page_events : list EmittedEvent; page_token : option string }.
End data.

(** ** Pagination *)
Definition EVENT_PAGE_SIZE : Z := 100.
Definition MAX_EVENT_PAGES : Z := 1000.
Definition MAX_EVENTS_PER_QUERY : Z := 100000.
Definition MAX_EVENT_BYTES_PER_QUERY : Z := 32 * 1024 * 1024.
Definition MAX_CONTINUATION_TOKEN_BYTES : Z := 4 * 1024.
(** In milliseconds. *)
Definition EVENT_QUERY_TIMEOUT : Z := 60 * 1000.

(** [get_events] of the node, and the size of a page's JSON, [None] when it cannot be
    counted. *)
Class EventProvider `{StarkTypes} (W : Type) : Type := {
  rpc_get_events : EventFilter -> option string -> Z -> W -> (EventsPage + ProviderError) * W;
  serialized_size : list EmittedEvent -> option Z }.

Section pagination.
Context `{StarkTypes, !ErrorText} {W : Type} `{!Timed W, !EventProvider W}.

Record EventPaginationBudget : Type := mk_Budget {
  bu_pages : Z; bu_events : Z; bu_event_bytes : Z; bu_seen_tokens : list string }.
Definition budget_default : EventPaginationBudget := mk_Budget 0 0 0 [].

Definition start_page (b : EventPaginationBudget) : Result EventPaginationBudget :=
  _ ← reject_if (MAX_EVENT_PAGES <=? bu_pages b) (RpcError "event pagination exceeded the {MAX_EVENT_PAGES} page limit");
  Ok (mk_Budget (bu_pages b + 1) (bu_events b) (bu_event_bytes b) (bu_seen_tokens b)).

Definition checked_add_usize (a b : Z) : option Z := if u64_MAX <? a + b then None else Some (a + b).

Definition accept_page (events : list EmittedEvent) (next_token : option string) (b : EventPaginationBudget)
    : Result (option string * EventPaginationBudget) :=
  total ← ok_or (checked_add_usize (bu_events b) (Z.of_nat (length events))) (RpcError "event pagination count overflowed");
  _ ← reject_if (MAX_EVENTS_PER_QUERY <? total) (RpcError "event query exceeded the {MAX_EVENTS_PER_QUERY} event limit");
  page_bytes ← ok_or (serialized_size events) (RpcError "failed to size event page: {error}");
  total_bytes ← ok_or (checked_add_usize (bu_event_bytes b) page_bytes) (RpcError "event pagination byte count overflowed");
  _ ← reject_if (MAX_EVENT_BYTES_PER_QUERY <? total_bytes)
        (RpcError "event query exceeded the {MAX_EVENT_BYTES_PER_QUERY} serialized-byte limit");
  match next_token with
  | Some token =>
      _ ← reject_if (MAX_CONTINUATION_TOKEN_BYTES <? Z.of_nat (length (string_bytes token)))
            (RpcError "event continuation token exceeds the {MAX_CONTINUATION_TOKEN_BYTES} byte limit");
      _ ← reject_if (bool_decide (token ∈ bu_seen_tokens b)) (RpcError "RPC repeated an event continuation token");
      Ok (Some token, mk_Budget (bu_pages b) total total_bytes (token :: bu_seen_tokens b))
  | None => Ok (None, mk_Budget (bu_pages b) total total_bytes (bu_seen_tokens b))
  end.

Definition await_event_page {A} (deadline : Z) (future : W -> (A + ProviderError) * W) (w : W) : Result A * W :=
  let '(now, w) := instant_now w in
  let remaining := Z.max 0 (deadline - now) in
  if remaining =? 0 then (Err (Timeout "event query exceeded its {}ms deadline"), w)
  else
    match timeout remaining future w with
    | (None, w) => (Err (Timeout "event query exceeded its {}ms deadline"), w)
    | (Some (inr error), w) => (Err (rpc_error error), w)
    | (Some (inl page), w) => (Ok page, w)
    end.

(** The loop; [fuel] bounds the pages and [None] says that it ran out. *)
Fixpoint fetch_loop (fuel : nat) (filter : EventFilter) (deadline : Z) (all_events : list EmittedEvent)
    (continuation_token : option string) (budget : EventPaginationBudget) (w : W) : option (Result (list EmittedEvent)) * W :=
  match fuel with
  | O => (None, w)
  | S fuel =>
      match start_page budget with
      | Err e => (Some (Err e), w)
      | Panic => (Some Panic, w)
      | Ok budget =>
          match await_event_page deadline (rpc_get_events filter continuation_token EVENT_PAGE_SIZE) w with
          | (Err e, w) => (Some (Err e), w)
          | (Panic, w) => (Some Panic, w)
          | (Ok page, w) =>
              match accept_page (page_events page) (page_token page) budget with
              | Err e => (Some (Err e), w)
              | Panic => (Some Panic, w)
              | Ok (Some token, budget) =>
                  fetch_loop fuel filter deadline (all_events ++ page_events page) (Some token) budget w
              | Ok (None, budget) => (Some (Ok (all_events ++ page_events page)), w)
              end
          end
      end
  end.

(** The reader's contract address and the filter of a query. *)
Definition event_filter (contract_address : Felt) (keys : list (list Felt)) (from_block to_block : option Z) : EventFilter :=
  mk_EventFilter (Id_Number <$> from_block)
    (match to_block with Some n => Some (Id_Number n) | None => Some Id_Latest end) contract_address keys.

(** [Instant + Duration] panics beyond the largest instant. *)
Definition fetch_events (fuel : nat) (contract_address : Felt) (keys : list (list Felt)) (from_block to_block : option Z) (w : W)
    : option (Result (list EmittedEvent)) * W :=
  let filter := event_filter contract_address keys from_block to_block in
  let '(now, w) := instant_now w in
  if instant_max <? now + EVENT_QUERY_TIMEOUT then (Some Panic, w)
  else fetch_loop fuel filter (now + EVENT_QUERY_TIMEOUT) [] None budget_default w.
End pagination.

(** ** Readers *)
Class EventAbi `{StarkTypes} : Type := {
  FUND_EVENT : Felt; OUTSIDE_FUND_EVENT : Felt; WITHDRAW_EVENT : Felt; RAGEQUIT_EVENT : Felt; ROLLOVER_EVENT : Felt;
  TRANSFER_EVENT : Felt; BALANCE_DECLARED_EVENT : Felt; TRANSFER_DECLARED_EVENT : Felt }.

(** Descending by block number, events without one last; equal keys keep their order. *)
Definition block_le (a b : option Z) : bool :=
  match a, b with None, _ => true | Some _, None => false | Some x, Some y => x <=? y end.

Section readers.
Context `{StarkTypes, !ErrorText, !EventAbi} {W : Type} `{!Timed W, !EventProvider W}.

Definition ER (A : Type) : Type := W -> option (Result A) * W.

(** The steps the readers share: the key's coordinates, the query and the parsers. *)
Definition read_events {A} (fuel : nat) (address : Felt) (pub_key : Proj) (keys_of : Felt -> Felt -> list (list Felt))
    (parse : EmittedEvent -> Result A) (from_block to_block : option Z) : ER (list A) := fun w =>
  match point_to_rs_felts pub_key with
  | Err e => (Some (Err e), w)
  | Panic => (Some Panic, w)
  | Ok (kx, ky) =>
      let '(raw, w) := fetch_events fuel address (keys_of kx ky) from_block to_block w in
      ((fun r => raw ← r; collect (map parse raw)) <$> raw, w)
  end.

Definition keyed (selector kx ky : Felt) : list (list Felt) := [[selector]; [kx]; [ky]].
Definition keyed_second (selector kx ky : Felt) : list (list Felt) := [[selector]; []; []; [kx]; [ky]].

Context (fuel : nat) (contract_address : Felt) (pub_key : Proj) (from_block to_block : option Z).

Definition get_fund_events : ER (list FundEvent) :=
  read_events fuel contract_address pub_key (keyed FUND_EVENT) parse_fund_event from_block to_block.
Definition get_outside_fund_events : ER (list OutsideFundEvent) :=
  read_events fuel contract_address pub_key (keyed OUTSIDE_FUND_EVENT) parse_outside_fund_event from_block to_block.
Definition get_withdraw_events : ER (list WithdrawEvent) :=
  read_events fuel contract_address pub_key (keyed WITHDRAW_EVENT) parse_withdraw_event from_block to_block.
Definition get_ragequit_events : ER (list RagequitEvent) :=
  read_events fuel contract_address pub_key (keyed RAGEQUIT_EVENT) parse_ragequit_event from_block to_block.
Definition get_rollover_events : ER (list RolloverEvent) :=
  read_events fuel contract_address pub_key (keyed ROLLOVER_EVENT) parse_rollover_event from_block to_block.
Definition get_transfer_in_events : ER (list TransferEvent) :=
  read_events fuel contract_address pub_key (keyed TRANSFER_EVENT) parse_transfer_event from_block to_block.
Definition get_transfer_out_events : ER (list TransferEvent) :=
  read_events fuel contract_address pub_key (keyed_second TRANSFER_EVENT) parse_transfer_event from_block to_block.
Definition get_balance_declared_events : ER (list BalanceDeclaredEvent) :=
  read_events fuel contract_address pub_key (keyed BALANCE_DECLARED_EVENT) parse_balance_declared_event from_block to_block.
Definition get_transfer_declared_from_events : ER (list TransferDeclaredEvent) :=
  read_events fuel contract_address pub_key (keyed TRANSFER_DECLARED_EVENT) parse_transfer_declared_event from_block to_block.
Definition get_transfer_declared_to_events : ER (list TransferDeclaredEvent) :=
  read_events fuel contract_address pub_key (keyed_second TRANSFER_DECLARED_EVENT) parse_transfer_declared_event from_block to_block.

(** A reader's result as events of the enum. *)
Definition wrapped {A} (wrap : A -> TongoEvent) (read : ER (list A)) : ER (list TongoEvent) := fun w =>
  let '(r, w) := read w in ((fun r => events ← r; Ok (map wrap events)) <$> r, w).

(** Every reader runs before the first error is returned. *)
Fixpoint join_all (reads : list (ER (list TongoEvent))) (w : W) : list (option (Result (list TongoEvent))) * W :=
  match reads with
  | [] => ([], w)
  | read :: reads => let '(r, w) := read w in let '(rs, w) := join_all reads w in (r :: rs, w)
  end.

Fixpoint insert_event (e : TongoEvent) (l : list TongoEvent) : list TongoEvent :=
  match l with
  | [] => [e]
  | x :: l' => if block_le (event_block_number x) (event_block_number e) then e :: l else x :: insert_event e l'
  end.
Definition sort_by_block (l : list TongoEvent) : list TongoEvent := foldr insert_event [] l.

Definition all_readers : list (ER (list TongoEvent)) :=
  [wrapped Ev_Fund get_fund_events; wrapped Ev_OutsideFund get_outside_fund_events; wrapped Ev_Withdraw get_withdraw_events;
   wrapped Ev_Ragequit get_ragequit_events; wrapped Ev_Rollover get_rollover_events; wrapped Ev_Transfer get_transfer_in_events;
   wrapped Ev_Transfer get_transfer_out_events; wrapped Ev_BalanceDeclared get_balance_declared_events;
   wrapped Ev_TransferDeclared get_transfer_declared_from_events; wrapped Ev_TransferDeclared get_transfer_declared_to_events].

Definition get_all_events : ER (list TongoEvent) := fun w =>
  let '(results, w) := join_all all_readers w in
  (results ← mapM id results; Some (lists ← collect results; Ok (sort_by_block (concat lists))), w).
End readers.

(** ** Queries are bounded *)
Section bounded.
Context `{StarkTypes, !ErrorText} {W : Type} `{!Timed W, !TimedLaws W, !EventProvider W}.

(** Pages the node answered in turn, each under the token of the one before; only the last
    has no token, and no token repeats or is long. *)
Fixpoint chained (filter : EventFilter) (token : option string) (seen : list string) (pages : list EventsPage) : Prop :=
  match pages with
  | [] => False
  | p :: pages =>
      (exists w1 w2 : W, rpc_get_events filter token EVENT_PAGE_SIZE w1 = (inl p, w2)) /\
      match pages with
      | [] => page_token p = None
      | _ => exists t, page_token p = Some t /\ (t ∉ seen) /\ Z.of_nat (length (string_bytes t)) <= 4096
                       /\ chained filter (Some t) (t :: seen) pages
      end
  end.

Definition total_events (pages : list EventsPage) : list EmittedEvent := concat (map page_events pages).
Definition total_bytes (pages : list EventsPage) : Z := foldr Z.add 0 (map (fun p => default 0 (serialized_size (page_events p))) pages).

Lemma await_event_page_Ok {A} deadline (future : W -> (A + ProviderError) * W) w a w' :
  await_event_page deadline future w = (Ok a, w') -> exists w1 w2, future w1 = (inl a, w2).
Proof.
  unfold await_event_page. destruct (instant_now w) as [now w1]. destruct (_ =? 0); [done|].
  destruct (timeout _ future w1) as [[[x|e]|] w2] eqn:Ht; [|done..]. intros [= -> ->]. apply timeout_result in Ht. by exists w1, w'.
Qed.

Lemma await_event_page_no_panic {A} deadline (future : W -> (A + ProviderError) * W) w :
  fst (await_event_page deadline future w) <> Panic.
Proof.
  unfold await_event_page. destruct (instant_now w) as [now w1]. destruct (_ =? 0); [done|].
  by destruct (timeout _ future w1) as [[[x|e]|] w2].
Qed.

Lemma checked_add_usize_Some a b c : checked_add_usize a b = Some c -> c = a + b.
Proof. unfold checked_add_usize. by destruct (_ <? _); [|intros [= <-]]. Qed.

Lemma accept_page_Ok events next b t b' :
  accept_page events next b = Ok (t, b') ->
  t = next /\ bu_pages b' = bu_pages b /\ bu_events b' = bu_events b + Z.of_nat (length events)
  /\ bu_events b' <= MAX_EVENTS_PER_QUERY
  /\ bu_event_bytes b' = bu_event_bytes b + default 0 (serialized_size events)
  /\ bu_event_bytes b' <= MAX_EVENT_BYTES_PER_QUERY
  /\ match next with
     | Some token => (token ∉ bu_seen_tokens b) /\ Z.of_nat (length (string_bytes token)) <= 4096
                     /\ bu_seen_tokens b' = token :: bu_seen_tokens b
     | None => bu_seen_tokens b' = bu_seen_tokens b
     end.
Proof.
  unfold accept_page. intros Ha.
  apply bind_Ok in Ha as (total & Ht%ok_or_Ok%checked_add_usize_Some & Ha). apply bind_Ok in Ha as ([] & Hm%reject_if_Ok & Ha).
  apply bind_Ok in Ha as (bytes & Hb%ok_or_Ok & Ha). apply bind_Ok in Ha as (tb & Htb%ok_or_Ok%checked_add_usize_Some & Ha).
  apply bind_Ok in Ha as ([] & Hmb%reject_if_Ok & Ha). apply Z.ltb_ge in Hm, Hmb. rewrite Hb.
  destruct next as [token|].
  - apply bind_Ok in Ha as ([] & Hl%reject_if_Ok & Ha). apply bind_Ok in Ha as ([] & Hs%reject_if_Ok & [= <- <-]).
    apply Z.ltb_ge in Hl. apply bool_decide_eq_false in Hs. cbn. split_and!; done.
  - injection Ha as <- <-. cbn. split_and!; done.
Qed.

Lemma accept_page_no_panic events next b : accept_page events next b <> Panic.
Proof.
  unfold accept_page. destruct (checked_add_usize _ _); [|done]. cbn [ok_or mbind outcome_bind].
  destruct (_ <? z); [done|]. cbn [reject_if mbind outcome_bind]. destruct (serialized_size events); [|done].
  cbn [ok_or mbind outcome_bind]. destruct (checked_add_usize _ _); [|done]. cbn [ok_or mbind outcome_bind].
  destruct (_ <? _); [done|]. cbn [reject_if mbind outcome_bind]. destruct next; [|done].
  destruct (_ <? _); [done|]. cbn [reject_if mbind outcome_bind]. by destruct (bool_decide _).
Qed.

Lemma fetch_loop_spec fuel filter deadline all token b w :
  0 <= bu_pages b <= MAX_EVENT_PAGES -> MAX_EVENT_PAGES - bu_pages b < Z.of_nat fuel ->
  exists r w', fetch_loop fuel filter deadline all token b w = (Some r, w') /\ r <> Panic
    /\ forall out, r = Ok out -> exists pages, chained filter token (bu_seen_tokens b) pages
         /\ out = all ++ total_events pages /\ bu_pages b + Z.of_nat (length pages) <= MAX_EVENT_PAGES
         /\ bu_events b + Z.of_nat (length (total_events pages)) <= MAX_EVENTS_PER_QUERY
         /\ bu_event_bytes b + total_bytes pages <= MAX_EVENT_BYTES_PER_QUERY.
Proof.
  revert all token b w; induction fuel as [|fuel IH]; intros all token b w Hp Hf; [lia|]. cbn [fetch_loop].
  unfold start_page. destruct (Z.leb_spec MAX_EVENT_PAGES (bu_pages b)) as [Hge|Hlt]; cbn [reject_if mbind outcome_bind].
  { by do 2 eexists. }
  pose proof (await_event_page_no_panic deadline (rpc_get_events filter token EVENT_PAGE_SIZE) w) as Hnp.
  destruct (await_event_page _ _ w) as [[page|e|] w1] eqn:Hpage; [|by do 2 eexists|done].
  apply await_event_page_Ok in Hpage.
  pose proof (accept_page_no_panic (page_events page) (page_token page)
    (mk_Budget (bu_pages b + 1) (bu_events b) (bu_event_bytes b) (bu_seen_tokens b))) as Hna.
  destruct (accept_page _ _ _) as [[t b']|e|] eqn:Hacc; [|by do 2 eexists|done]. clear Hnp Hna.
  apply accept_page_Ok in Hacc as (Htok & Hbp & Hbe & Hbe' & Hbb & Hbb' & Hseen).
  cbn [bu_pages bu_events bu_event_bytes bu_seen_tokens] in *. destruct t as [t|].
  - rewrite <- Htok in Hseen. destruct Hseen as (Hns & Hlen & Hs').
    destruct (IH (all ++ page_events page) (Some t) b' w1) as (r & w2 & Hrun & Hnp & Hout); [lia|lia|].
    exists r, w2. split; [exact Hrun|]. split; [exact Hnp|]. intros out Hr.
    destruct (Hout out Hr) as (pages & Hch & -> & Hn & He & Hb). exists (page :: pages).
    rewrite Hs' in Hch. unfold total_events, total_bytes in *. cbn [map concat foldr length].
    rewrite !length_app in *. split_and!; [|by rewrite <- app_assoc|lia|lia|lia].
    cbn [chained]. split; [exact Hpage|]. destruct pages as [|p pages]; [done|].
    exists t. by split_and!.
  - exists (Ok (all ++ page_events page)), w1. split; [done|]. split; [done|]. intros out [= <-]. exists [page].
    unfold total_events, total_bytes. cbn [map concat foldr length chained]. rewrite app_nil_r.
    split_and!; [done|done|done|lia|lia|lia].
Qed.
End bounded.

(** C22: A query for events always ends within a thousand pages; when it succeeds it returns,
    in order, the events of pages the node answered in turn, each under the token of the one
    before and none repeated, within the budgets of pages, events and serialised bytes. *)
Theorem fetch_events_bounded `{StarkTypes, !ErrorText} {W} `{!Timed W, !TimedLaws W, !EventProvider W}
    (address : Felt) keys from_block to_block (w : W) :
  fst (instant_now w) + 60000 <= instant_max ->
  exists r w', fetch_events 1001 address keys from_block to_block w = (Some r, w') /\ r <> Panic
    /\ forall out, r = Ok out ->
         Z.of_nat (length out) <= 100000
         /\ exists pages, chained (W := W) (event_filter address keys from_block to_block) None [] pages
              /\ out = total_events pages /\ Z.of_nat (length pages) <= 1000 /\ total_bytes (W := W) pages <= 32 * 2 ^ 20.
Proof.
  intros Hmax. unfold fetch_events, EVENT_QUERY_TIMEOUT. destruct (instant_now w) as [now w1]. cbn [fst] in Hmax.
  destruct (Z.ltb_spec instant_max (now + 60 * 1000)); [lia|].
  destruct (fetch_loop_spec 1001 (event_filter address keys from_block to_block) (now + 60 * 1000) [] None budget_default w1)
    as (r & w' & Hrun & Hnp & Hout); [by vm_compute|by vm_compute|].
  exists r, w'. split; [exact Hrun|]. split; [exact Hnp|]. intros out Hr.
  destruct (Hout out Hr) as (pages & Hch & -> & Hn & He & Hb). unfold budget_default in *.
  cbn [bu_pages bu_events bu_event_bytes bu_seen_tokens app] in *.
  unfold MAX_EVENTS_PER_QUERY, MAX_EVENT_PAGES, MAX_EVENT_BYTES_PER_QUERY in *.
  split; [lia|]. exists pages. split_and!; done || lia.
Qed.

(** ** Events carry what the SDK wrote *)
Section layout.
Context `{StarkLaws}.

Lemma felt_at_app l1 l2 i : felt_at (l1 ++ l2) (length l1 + i) = felt_at l2 i.
Proof. unfold felt_at. rewrite lookup_app_r by lia. do 2 f_equal. lia. Qed.

Lemma parse_point_app l1 l2 i : parse_event_point (l1 ++ l2) (length l1 + i) = parse_event_point l2 i.
Proof.
  unfold parse_event_point. rewrite length_app.
  assert ((length l1 + length l2 <? length l1 + i + 2)%nat = (length l2 <? i + 2)%nat) as ->
    by (destruct (Nat.ltb_spec (length l1 + length l2) (length l1 + i + 2)), (Nat.ltb_spec (length l2) (i + 2)); done || lia).
  rewrite <- (Nat.add_assoc (length l1) i 1), !felt_at_app. done.
Qed.

Lemma parse_cipher_balance_app l1 l2 i : parse_cipher_balance (l1 ++ l2) (length l1 + i) = parse_cipher_balance l2 i.
Proof. unfold parse_cipher_balance. by rewrite <- (Nat.add_assoc (length l1) i 2), !parse_point_app. Qed.

Lemma parse_ae_balance_app l1 l2 i : parse_ae_balance (l1 ++ l2) (length l1 + i) = parse_ae_balance l2 i.
Proof.
  unfold parse_ae_balance. rewrite length_app.
  assert ((length l1 + length l2 <? length l1 + i + 6)%nat = (length l2 <? i + 6)%nat) as ->
    by (destruct (Nat.ltb_spec (length l1 + length l2) (length l1 + i + 6)), (Nat.ltb_spec (length l2) (i + 6)); done || lia).
  cbn [map]. rewrite <- !(Nat.add_assoc (length l1) i), !felt_at_app. done.
Qed.

(** The coordinates of a point parse to the point. *)
Lemma parse_point_coords p x y rest :
  serialize_projective_point p = Ok (x, y) -> exists q, parse_event_point (x :: y :: rest) 0 = Ok q /\ q ≡ p.
Proof.
  unfold serialize_projective_point. destruct (proj_to_affine p) as [a|] eqn:Ha; [|done]. intros [= <- <-].
  destruct (from_affine_valid _ _ _ (aff_on_curve a)) as (q & Hq & Hqa). exists q.
  unfold parse_event_point, felt_at. cbn [length Nat.ltb Nat.leb Nat.add reject_if lookup list_lookup expect mbind outcome_bind].
  rewrite !(fun f => proj2 (core_rs_felt f)), Hq. split; [done|]. apply to_affine_eq. by rewrite Ha.
Qed.

Lemma parse_cipher_felts c felts rest :
  serialize_cipher_balance c = Ok felts ->
  length felts = 4%nat /\ exists l r, parse_cipher_balance (felts ++ rest) 0 = Ok (mk_CipherBalance l r) /\ l ≡ ct_l c /\ r ≡ ct_r c.
Proof.
  unfold serialize_cipher_balance. intros Hs. apply bind_Ok in Hs as ([lx ly] & Hl & Hs).
  apply bind_Ok in Hs as ([rx ry] & Hr & [= <-]). split; [done|].
  destruct (parse_point_coords _ _ _ ([rx; ry] ++ rest) Hl) as (l & Hpl & Hel).
  destruct (parse_point_coords _ _ _ rest Hr) as (r & Hpr & Her). exists l, r. split; [|done].
  unfold parse_cipher_balance. cbn [app] in *. rewrite Hpl. cbn [mbind outcome_bind].
  pose proof (parse_point_app [lx; ly] (rx :: ry :: rest) 0) as Happ. cbn [app length Nat.add] in *.
  rewrite Happ, Hpr. done.
Qed.

(** The low half of a limb's felt is the limb. *)
Lemma limb_bytes bytes i :
  Forall byte_ok bytes -> (i + 16 <= length bytes)%nat ->
  take 16 (drop 16 (to_bytes_be (limb bytes i))) = take 16 (drop i bytes).
Proof.
  intros Hb Hi. rewrite <- (limb_val bytes i Hb Hi).
  pose proof (to_bytes_be_ok (limb bytes i)) as Hok. pose proof (to_bytes_be_length (limb bytes i)) as Hlen.
  assert (length (drop 16 (to_bytes_be (limb bytes i))) = 16%nat) as Hd by (rewrite length_drop; lia).
  rewrite take_ge by lia.
  pose proof (be_bytes_be_value (drop 16 (to_bytes_be (limb bytes i))) (Forall_drop _ _ _ Hok)) as Hbv. rewrite Hd in Hbv.
  rewrite <- Hbv at 1. pose proof (low_bytes_val 16 (limb bytes i)) as Hlow.
  rewrite take_ge in Hlow by (rewrite length_drop; lia). change (32 - 16)%nat with 16%nat in Hlow. rewrite Hlow by lia.
  assert (0 <= felt_val (limb bytes i) < 256 ^ Z.of_nat 16) as Hr; [|by rewrite Z.mod_small].
  assert (length (take 16 (drop i bytes)) = 16%nat) as Hl by (rewrite length_take, length_drop; lia).
  pose proof (be_value_bound _ (Forall_take _ 16 _ (Forall_drop _ i _ Hb))) as Hv. rewrite Hl in Hv.
  unfold limb. assert (256 ^ Z.of_nat 16 < felt_prime) by reflexivity. rewrite felt_of_Z_val, Z.mod_small; lia.
Qed.

Lemma parse_ae_felts ciphertext nonce felts rest :
  Forall byte_ok ciphertext -> Forall byte_ok nonce -> serialize_ae_balance ciphertext nonce = Ok felts ->
  length felts = 6%nat /\ parse_ae_balance (felts ++ rest) 0 = Ok (mk_AEBalance ciphertext nonce).
Proof.
  intros Hc Hn. unfold serialize_ae_balance. intros Hs. apply bind_Ok in Hs as ([] & Hlc%reject_if_Ok & Hs).
  apply bind_Ok in Hs as ([] & Hln%reject_if_Ok & Hs). apply negb_false_iff, Nat.eqb_eq in Hlc, Hln.
  set (padded := nonce ++ replicate 8 0) in Hs. cbn [bytes_to_u512 bytes_to_u256] in Hs. injection Hs as <-. split; [done|].
  assert (Forall byte_ok padded) as Hp by (apply Forall_app; split; [done|by apply Forall_replicate]).
  assert (length padded = 32%nat) as Hlp by (unfold padded; rewrite length_app, length_replicate; lia).
  unfold parse_ae_balance, felt_at. cbn [app length Nat.ltb Nat.leb Nat.add reject_if lookup list_lookup expect mbind outcome_bind map collect].
  rewrite !limb_bytes by (done || lia). cbn [concat]. rewrite app_nil_r.
  assert (take 8 (drop 16 (to_bytes_be (limb padded 16))) = drop 16 nonce) as ->.
  { rewrite <- (take_take _ 8 16), limb_bytes by (done || lia). rewrite take_take. change (8 `min` 16)%nat with 8%nat.
    unfold padded. rewrite drop_app_le by lia. rewrite take_app_le by (rewrite length_drop; lia). apply take_ge. rewrite length_drop. lia. }
  do 2 f_equal.
  - rewrite (take_ge (drop 48 ciphertext)) by (rewrite length_drop; lia).
    rewrite (chunk_step 32), (chunk_step 16), (chunk_step 0). apply drop_0.
  - rewrite drop_0. unfold padded. rewrite take_app_le by lia. apply take_drop.
Qed.
End layout.

(** ** Parsers never panic *)
Section total.
Context `{StarkTypes}.

Lemma felt_at_Some felts i : (i < length felts)%nat -> exists f, felt_at felts i = Ok f.
Proof. intros [f Hf]%lookup_lt_is_Some_2. exists f. unfold felt_at. by rewrite Hf. Qed.

Lemma parse_point_total felts offset : is_panic (parse_event_point felts offset) = false.
Proof.
  unfold parse_event_point. destruct (Nat.ltb_spec (length felts) (offset + 2)); [done|]. cbn [reject_if mbind outcome_bind].
  destruct (felt_at_Some felts offset) as [x ->]; [lia|]. destruct (felt_at_Some felts (offset + 1)) as [y ->]; [lia|].
  cbn [mbind outcome_bind]. by destruct (proj_from_affine _ _).
Qed.

Lemma parse_cipher_balance_total felts offset : is_panic (parse_cipher_balance felts offset) = false.
Proof.
  unfold parse_cipher_balance. pose proof (parse_point_total felts offset). pose proof (parse_point_total felts (offset + 2)).
  destruct (parse_event_point felts offset); [|done..]. by destruct (parse_event_point felts (offset + 2)).
Qed.

Lemma get_felt_total felts index : is_panic (get_felt felts index) = false.
Proof. unfold get_felt. by destruct (felts !! index). Qed.

Lemma parse_ae_balance_total felts offset : is_panic (parse_ae_balance felts offset) = false.
Proof.
  unfold parse_ae_balance. destruct (Nat.ltb_spec (length felts) (offset + 6)); [done|]. cbn [reject_if mbind outcome_bind map collect].
  destruct (felt_at_Some felts (offset + 0)) as [a ->]; [lia|]. destruct (felt_at_Some felts (offset + 1)) as [b ->]; [lia|].
  destruct (felt_at_Some felts (offset + 2)) as [c ->]; [lia|]. destruct (felt_at_Some felts (offset + 3)) as [d ->]; [lia|].
  cbn [mbind outcome_bind]. destruct (felt_at_Some felts (offset + 5)) as [e ->]; [lia|].
  by destruct (felt_at_Some felts (offset + 4)) as [f ->]; [lia|].
Qed.
End total.

Lemma bind_is_panic {E A B} (m : outcome E A) (f : A -> outcome E B) :
  is_panic m = false -> (forall a, is_panic (f a) = false) -> is_panic (m ≫= f) = false.
Proof. destruct m; cbn; auto. Qed.

Create HintDb total.
#[export] Hint Resolve parse_point_total parse_cipher_balance_total get_felt_total parse_ae_balance_total : total.

(** Short or malformed events are errors: no parser panics. *)
Theorem event_parsers_total `{StarkTypes} e :
  is_panic (parse_fund_event e) = false /\ is_panic (parse_outside_fund_event e) = false
  /\ is_panic (parse_withdraw_event e) = false /\ is_panic (parse_ragequit_event e) = false
  /\ is_panic (parse_rollover_event e) = false /\ is_panic (parse_transfer_event e) = false
  /\ is_panic (parse_balance_declared_event e) = false /\ is_panic (parse_transfer_declared_event e) = false.
Proof.
  split_and!;
    unfold parse_fund_event, parse_outside_fund_event, parse_withdraw_event, parse_ragequit_event, parse_rollover_event,
      parse_transfer_event, parse_balance_declared_event, parse_transfer_declared_event;
    repeat (apply bind_is_panic; [auto with total|intros ?]); reflexivity.
Qed.

(** ** Order *)
Section order.
Context `{StarkTypes}.

Lemma block_le_total a b : block_le a b = false -> block_le b a = true.
Proof. destruct a as [x|], b as [y|]; cbn; [|done..]. rewrite Z.leb_gt, Z.leb_le. lia. Qed.

Lemma block_le_trans a b c : block_le a b = true -> block_le b c = true -> block_le a c = true.
Proof. destruct a as [x|], b as [y|], c as [z|]; cbn; try done. rewrite !Z.leb_le. lia. Qed.

(** [e] is not followed by a later block. *)
Definition newest_first (e1 e2 : TongoEvent) : Prop := block_le (event_block_number e2) (event_block_number e1) = true.

Lemma insert_event_Permutation e l : insert_event e l ≡ₚ e :: l.
Proof.
  induction l as [|x l IH]; cbn [insert_event]; [done|]. destruct (block_le _ _); [done|].
  rewrite IH. apply Permutation_swap.
Qed.

Lemma insert_event_sorted e l : StronglySorted newest_first l -> StronglySorted newest_first (insert_event e l).
Proof.
  induction 1 as [|x l Hl IH Hx]; cbn [insert_event]; [by repeat constructor|].
  destruct (block_le _ _) eqn:Hle.
  - constructor; [by constructor|]. constructor; [exact Hle|]. eapply Forall_impl; [exact Hx|].
    intros y Hy. unfold newest_first in *. by eapply block_le_trans.
  - constructor; [exact IH|]. rewrite insert_event_Permutation. constructor; [|exact Hx].
    by apply block_le_total.
Qed.

(** Events of one block, in order. *)
Definition of_block (b : option Z) (l : list TongoEvent) : list TongoEvent := filter (fun e => event_block_number e = b) l.

Lemma insert_event_of_block e l b :
  of_block b (insert_event e l) = of_block b (e :: l).
Proof.
  induction l as [|x l IH]; cbn [insert_event]; [done|]. destruct (block_le _ _) eqn:Hle; [done|].
  unfold of_block in *. rewrite (filter_cons _ x), IH, !filter_cons.
  destruct (decide (event_block_number x = b)) as [Hx|], (decide (event_block_number e = b)) as [He|]; try done.
  rewrite Hx, He in Hle. destruct b as [n|]; cbn in Hle; [|done]. rewrite Z.leb_refl in Hle. done.
Qed.
End order.

(** The events are reordered newest first, unnumbered blocks last, and those of one block
    keep their order. *)
Theorem events_sorted `{StarkTypes} l :
  sort_by_block l ≡ₚ l /\ StronglySorted newest_first (sort_by_block l)
  /\ forall b, of_block b (sort_by_block l) = of_block b l.
Proof.
  unfold sort_by_block. split_and!.
  - induction l as [|e l IH]; cbn [foldr]; [done|]. by rewrite insert_event_Permutation, IH.
  - induction l as [|e l IH]; cbn [foldr]; [constructor|]. by apply insert_event_sorted.
  - intros b. induction l as [|e l IH]; cbn [foldr]; [done|]. rewrite insert_event_of_block.
    unfold of_block in *. rewrite !filter_cons, IH. done.
Qed.

(** C23: The parser of a transfer event returns what the SDK wrote: from the coordinates of
    both keys, the serialised ciphertexts and the packed hints it recovers the points, the
    nonce, the ciphertexts and the hint bytes. *)
Theorem transfer_event_delivers `{StarkLaws} selector to from c_to c_self nonce ct1 n1 ct2 n2 block tx :
  forall tx1 tx2 ty1 ty2 f1 f2 h1 h2,
  serialize_projective_point to = Ok (tx1, ty1) -> serialize_projective_point from = Ok (tx2, ty2) ->
  serialize_cipher_balance c_to = Ok f1 -> serialize_cipher_balance c_self = Ok f2 ->
  Forall byte_ok ct1 -> Forall byte_ok n1 -> Forall byte_ok ct2 -> Forall byte_ok n2 ->
  serialize_ae_balance ct1 n1 = Ok h1 -> serialize_ae_balance ct2 n2 = Ok h2 -> 0 <= nonce < 2 ^ 64 ->
  exists e, parse_transfer_event (mk_EmittedEvent block tx [selector; tx1; ty1; tx2; ty2]
              ([felt_of_Z nonce] ++ f1 ++ f2 ++ h1 ++ h2)) = Ok e
    /\ te_to e ≡ to /\ te_from e ≡ from /\ te_nonce e = nonce
    /\ cb_l (te_transfer_balance e) ≡ ct_l c_to /\ cb_r (te_transfer_balance e) ≡ ct_r c_to
    /\ cb_l (te_transfer_balance_self e) ≡ ct_l c_self /\ cb_r (te_transfer_balance_self e) ≡ ct_r c_self
    /\ te_hint_transfer e = mk_AEBalance ct1 n1 /\ te_hint_leftover e = mk_AEBalance ct2 n2.
Proof.
  intros tx1 tx2 ty1 ty2 f1 f2 h1 h2 Hto Hfrom Hf1 Hf2 Hb1 Hb2 Hb3 Hb4 Hh1 Hh2 Hn.
  destruct (parse_point_coords _ _ _ [tx2; ty2] Hto) as (p1 & Hp1 & He1).
  destruct (parse_point_coords _ _ _ [] Hfrom) as (p2 & Hp2 & He2).
  destruct (parse_cipher_felts _ _ (f2 ++ h1 ++ h2) Hf1) as (Hl1 & l1 & r1 & Hc1 & Hcl1 & Hcr1).
  destruct (parse_cipher_felts _ _ (h1 ++ h2) Hf2) as (Hl2 & l2 & r2 & Hc2 & Hcl2 & Hcr2).
  destruct (parse_ae_felts _ _ _ h2 Hb1 Hb2 Hh1) as (Hl3 & Ha1). destruct (parse_ae_felts _ _ _ [] Hb3 Hb4 Hh2) as (Hl4 & Ha2).
  rewrite app_nil_r in Ha2.
  unfold parse_transfer_event. cbn [ev_keys ev_data]. set (d0 := [felt_of_Z nonce]).
  pose proof (parse_point_app [selector] [tx1; ty1; tx2; ty2] 0) as Hk1.
  pose proof (parse_point_app [selector; tx1; ty1] [tx2; ty2] 0) as Hk2. cbn [length app Nat.add] in Hk1, Hk2.
  rewrite Hk1, Hp1. cbn [mbind outcome_bind]. rewrite Hk2, Hp2. cbn [mbind outcome_bind].
  unfold get_felt. change ((d0 ++ f1 ++ f2 ++ h1 ++ h2) !! 0%nat) with (Some (felt_of_Z nonce)). cbn [ok_or mbind outcome_bind].
  pose proof (parse_cipher_balance_app d0 (f1 ++ f2 ++ h1 ++ h2) 0) as Hd1. change (length d0 + 0)%nat with 1%nat in Hd1.
  rewrite Hd1, Hc1. cbn [mbind outcome_bind].
  pose proof (parse_cipher_balance_app (d0 ++ f1) (f2 ++ h1 ++ h2) 0) as Hd2.
  rewrite length_app, Hl1, <- app_assoc in Hd2. change (length d0 + 4 + 0)%nat with 5%nat in Hd2. rewrite Hd2, Hc2. cbn [mbind outcome_bind].
  pose proof (parse_ae_balance_app (d0 ++ f1 ++ f2) (h1 ++ h2) 0) as Hd3.
  rewrite !length_app, Hl1, Hl2, <- !app_assoc in Hd3. change (length d0 + (4 + 4) + 0)%nat with 9%nat in Hd3.
  rewrite Hd3, Ha1. cbn [mbind outcome_bind].
  pose proof (parse_ae_balance_app (d0 ++ f1 ++ f2 ++ h1) h2 0) as Hd4.
  rewrite !length_app, Hl1, Hl2, Hl3, <- !app_assoc in Hd4. change (length d0 + (4 + (4 + 6)) + 0)%nat with 15%nat in Hd4.
  rewrite Hd4, Ha2. cbn [mbind outcome_bind]. eexists. split; [reflexivity|]. cbn. split_and!; try done.
  unfold felt_to_u64. rewrite (low_bytes_val 8) by lia. rewrite felt_of_Z_small by (unfold felt_prime; lia). by apply Z.mod_small.
Qed.

(** ** Witnesses *)
#[local] Existing Instance demo_world_timed.
#[local] Existing Instance demo_world_timed_laws.
#[local] Existing Instance demo_world_text.

Definition demo_event (n : Z) : @EmittedEvent model_types := mk_EmittedEvent (Some n) (mk n) [mk 1] [mk 2].

(** A node with two pages. *)
#[local] Instance demo_event_provider : @EventProvider model_types demo_world := {|
  rpc_get_events _ token _ w :=
    (inl (match token with
          | None => mk_EventsPage [demo_event 1] (Some "next")
          | Some _ => mk_EventsPage [demo_event 2] None
          end), w);
  serialized_size l := Some (100 * Z.of_nat (length l)) |}.

Lemma fetch_events_bounded_witness :
  exists w', fetch_events 1001 (mk 9 : @Felt model_types) [] None None ((0, []) : demo_world)
             = (Some (Ok [demo_event 1; demo_event 2]), w')
    /\ exists pages, chained (W := demo_world) (event_filter (mk 9 : @Felt model_types) [] None None) None [] pages
       /\ [demo_event 1; demo_event 2] = total_events pages.
Proof.
  destruct (fetch_events_bounded (mk 9 : @Felt model_types) [] None None ((0, []) : demo_world)) as (r & w' & Hrun & _ & Hout);
    [by vm_compute|].
  assert (fetch_events 1001 (mk 9 : @Felt model_types) [] None None ((0, []) : demo_world)
    = (Some (Ok [demo_event 1; demo_event 2]), (0, []))) as Heq by reflexivity.
  rewrite Heq in Hrun. injection Hrun as <- <-. exists (0, []). split; [exact Heq|].
  destruct (Hout _ eq_refl) as (_ & pages & Hch & Hev & _). by exists pages.
Defined.

Lemma transfer_event_delivers_witness :
  exists (g : @Proj model_types) x y f h e,
    serialize_projective_point g = Ok (x, y) /\ serialize_cipher_balance {| ct_l := g; ct_r := g |} = Ok f
    /\ serialize_ae_balance (replicate 64 7) (replicate 24 9) = Ok h
    /\ parse_transfer_event (mk_EmittedEvent None (mk 1) [mk 0; x; y; x; y] ([felt_of_Z 5] ++ f ++ f ++ h ++ h)) = Ok e
    /\ te_nonce e = 5 /\ te_hint_transfer e = mk_AEBalance (replicate 64 7) (replicate 24 9).
Proof.
  destruct (generator_valid (StarkLaws := model_laws)) as [a Ha].
  destruct (from_affine_valid _ _ _ Ha) as (g & _ & Hg).
  assert (serialize_projective_point g = Ok (aff_x a, aff_y a)) as Hs by (unfold serialize_projective_point; by rewrite Hg).
  assert (serialize_cipher_balance {| ct_l := g; ct_r := g |} = Ok [aff_x a; aff_y a; aff_x a; aff_y a]) as Hc
    by (unfold serialize_cipher_balance; cbn [ct_l ct_r]; rewrite Hs; reflexivity).
  destruct (serialize_ae_balance (replicate 64 7) (replicate 24 9)) as [h|e|] eqn:Hh; [|discriminate Hh..].
  pose proof (transfer_event_delivers (mk 0 : @Felt model_types) g g {| ct_l := g; ct_r := g |} {| ct_l := g; ct_r := g |} 5
    (replicate 64 7) (replicate 24 9) (replicate 64 7) (replicate 24 9) None (mk 1 : @Felt model_types) _ _ _ _ _ _ h h Hs Hs Hc Hc) as Hdel.
  destruct Hdel as (e & He & _ & _ & Hn & _ & _ & _ & _ & Hhint & _); [by apply Forall_replicate..|exact Hh|exact Hh|lia|].
  exists g, (aff_x a), (aff_y a), [aff_x a; aff_y a; aff_x a; aff_y a], h, e. 
  split; [exact Hs|]. split; [exact Hc|]. split; [reflexivity|]. split; [exact He|]. split; [exact Hn|exact Hhint].
Defined.
