(* ===== verification/Runtime.v ===== *)
(** * The gateway as a whole

    The states a [Gateway] reaches by its public operations -- snapshot queries,
    status lookups, the account flows and signing -- and what holds in all of
    them.  The handlers are those of [Gateway], [GatewayAccounts] and
    [GatewaySigning]; each theorem is about a request from any such state. *)

From stdpp Require Import base option list numbers strings gmap.
From Stdlib Require Import ZArith Lia.
From S2P Require Import Prelude StarkLib StarkModel Types Scalar Serialization TxHash Text Domain Primitives.
From S2P Require Import Derivation StarkSigning NostrSigning AccountClass Requests GatewayErrors GatewayClasses Clock SnapshotCache.
From S2P Require Import OperationStore Gateway GatewayAccounts GatewaySigning.

#[local] Open Scope string_scope.
#[local] Open Scope list_scope.
#[local] Open Scope Z_scope.

Section runtime.
Context `{StarkLib.StarkTypes, !StarkCrypto, !FeltExtras, !FeltFromHex, !HexCodec, !Schnorr}.
Context {B S C R : Type} `{!GatewayBackend B, !DeployBackend B, !SecretResolver S, !Clock C, !Entropy R}.
Context `{!StarkLaws, !StarkCryptoLaws, !FeltExtrasLaws, !ClockLaws C}.
Context (retention : OperationRetentionPolicy).

Abbreviation Gateway := (@Gateway B S C R).
Abbreviation gateway_ok := (gateway_ok retention).

(** States reached from a new gateway by requests over validated values; [n]
    bounds the operation updates so far.  Signing is fueled, so its step asks
    for fuel that is enough. *)
Inductive gw_reachable : Z -> Gateway -> Prop :=
| reach_new backend secret_resolver clock entropy :
    clock_ok clock ->
    gw_reachable 0 (with_clock_and_retention backend secret_resolver clock entropy retention)
| reach_query n g request :
    gw_reachable n g -> gw_reachable (n + 3) (snd (query_account_snapshot request g))
| reach_status n g id :
    gw_reachable n g -> gw_reachable n (snd (operation_status id g))
| reach_derive n g request :
    gw_reachable n g -> derivation_request_ok request -> gw_reachable (n + 3) (snd (derive_account request g))
| reach_check n g request :
    gw_reachable n g -> derivation_request_ok request -> gw_reachable (n + 3) (snd (check_deployment request g))
| reach_deploy n g request :
    gw_reachable n g -> derivation_request_ok (da_derivation request) ->
    gw_reachable (n + 3) (snd (deploy_account request g))
| reach_sign n g fuel request :
    gw_reachable n g -> sign_request_ok request -> signing_ends fuel request g ->
    gw_reachable (n + 3) (snd (sign fuel request g)).

Lemma gw_reachable_ok n g :
  retention_ok retention -> gw_reachable n g ->
  0 <= n /\ forall m, 0 <= m -> 1 + n + m < u64_MAX -> gateway_ok g /\ room m g.
Proof.
  intros Hret. induction 1 as [backend resolver clock entropy Hc|n g request _ [Hn IH]|n g id _ [Hn IH]
    |n g request _ [Hn IH] Hq|n g request _ [Hn IH] Hq|n g request _ [Hn IH] Hq|n g fuel request _ [Hn IH] Hq He];
    (split; [lia|]); intros m Hm Hlt.
  1: { split; [by apply with_clock_ok|]. unfold room. cbn. lia. }
  2: { destruct (IH m) as [Hg Hr]; [lia|lia|].
       pose proof (operation_status_spec retention id m g Hg Hr) as (Hg' & Hr' & _). done. }
  all: destruct (IH (m + 3)) as [Hg Hr]; [lia|lia|].
  - pose proof (query_account_snapshot_spec retention request m g Hg Hr Hm) as [Hr' Hpost]. split; [apply Hpost|done].
  - pose proof (derive_account_spec retention request m g Hq Hg Hr Hm) as (Hg' & Hr' & _). done.
  - pose proof (check_deployment_spec retention request m g Hq Hg Hr Hm) as (Hg' & Hr' & _). done.
  - pose proof (deploy_account_spec retention request m g Hq Hg Hr Hm) as (Hg' & Hr' & _). done.
  - pose proof (sign_spec retention fuel request m g Hq He Hg Hr Hm) as (Hg' & Hr' & _). done.
Qed.

(** One more operation from a reachable state. *)
Lemma reachable_step n g :
  retention_ok retention -> gw_reachable n g -> n + 4 < u64_MAX -> gateway_ok g /\ room (0 + 3) g.
Proof.
  intros Hret Hreach Hn. destruct (gw_reachable_ok n g Hret Hreach) as [_ Hok]. apply Hok; lia.
Qed.

(** ** Properties *)

(** C5: From every reachable gateway state a snapshot query ends without panicking. When the OS
    gives no entropy for an operation id it is refused untracked and nothing else changes.
    Otherwise a reply is for a valid request, about the requested address and tokens, and
    tracked as Completed; it is either what the backend answered just now, which is then
    cached, or a cache entry within the clamped TTL and stale bounds, taken without asking the
    backend or, stale, because the backend failed. A refusal is tracked as Rejected with the
    same error: an invalid request before the backend is asked, or a failure of the backend
    that no cache entry could cover. *)
Theorem query_account_snapshot_correct request n g :
  retention_ok retention -> gw_reachable n g -> n + 4 < u64_MAX ->
  query_post retention request g (fst (query_account_snapshot request g)) (snd (query_account_snapshot request g)).
Proof.
  intros Hret Hreach Hn. destruct (reachable_step n g Hret Hreach Hn) as [Hg Hr].
  by apply (query_account_snapshot_spec retention request 0 g).
Qed.

(** C31: In every state reached by queries and status lookups both stores are within their
    bounds, each operation is filed under its own id, and each cache entry answers its key and
    was generated no later than the clock. *)
Theorem gateway_invariant n g :
  retention_ok retention -> gw_reachable n g -> n + 1 < u64_MAX ->
  (size (store_entries (gw_operations g)) <= ret_max_entries retention)%nat
  /\ (size (cache_entries (gw_snapshot_cache g)) <= DEFAULT_SNAPSHOT_CACHE_MAX_ENTRIES)%nat
  /\ (forall id e, store_entries (gw_operations g) !! id = Some e -> os_id (oe_status e) = id)
  /\ (forall k e, cache_entries (gw_snapshot_cache g) !! k = Some e ->
        answers k e /\ 0 <= entry_generated_at_ms e <= clock_floor (gw_clock g)).
Proof.
  intros Hret Hreach Hn. destruct (gw_reachable_ok n g Hret Hreach) as [_ Hok].
  destruct (Hok 0) as [[Hc Hs Hr Hceil [l Hl] He] _]; [lia|lia|].
  split_and!; [rewrite <- Hr; apply Hs| |intros id e Hl'; by apply (so_entry _ Hs id e)|done].
  destruct Hl as (Hnd & _ & -> & Hlen). by rewrite size_list_to_map, <- Hceil.
Qed.

(** C8: From every reachable gateway state derivation ends without panicking and without asking
    the backend. When the OS gives no entropy for an operation id it is refused untracked and
    nothing else changes. Otherwise it succeeds exactly on derivable requests: matching chain,
    Starknet domain and coin type, a resolved key in range and an admitted class; the
    descriptor's address is the contract address of the salt, class and constructor calldata it
    lists, and the status on record agrees with the reply. *)
Theorem derive_account_correct request n g :
  retention_ok retention -> gw_reachable n g -> n + 4 < u64_MAX -> derivation_request_ok request ->
  tracked_post DeriveAccount (derive_good request g) (derive_bad request g) g
    (fst (derive_account request g)) (snd (derive_account request g)).
Proof.
  intros Hret Hreach Hn Hq. destruct (reachable_step n g Hret Hreach Hn) as [Hg Hr].
  by apply (derive_account_spec retention request 0 g).
Qed.

(** From every reachable state a deployment check ends without panicking; a
    reply carries the descriptor [derive_account] gives and the backend's answer
    for its address; every refusal is on record. *)
Theorem check_deployment_correct request n g :
  retention_ok retention -> gw_reachable n g -> n + 4 < u64_MAX -> derivation_request_ok request ->
  tracked_post CheckDeployment (check_good request g) (fun _ _ => True) g
    (fst (check_deployment request g)) (snd (check_deployment request g)).
Proof.
  intros Hret Hreach Hn Hq. destruct (reachable_step n g Hret Hreach Hn) as [Hg Hr].
  by apply (check_deployment_spec retention request 0 g).
Qed.

(** C6: From every reachable gateway state a deploy ends without panicking. When the OS gives
    no entropy for an operation id it is refused untracked and nothing else changes. Otherwise
    it succeeds only for a derivable OpenZeppelin account with an admissible wait policy; the
    chain is then exactly where one deploy call, with the key and descriptor derived for the
    request, left it, and the reply and the recorded operation report what that call answered.
    A refusal is on record; it left the chain untouched if the request was not deployable, and
    is the answer of that one deploy call if it was. *)
Theorem deploy_account_correct request n g :
  retention_ok retention -> gw_reachable n g -> n + 4 < u64_MAX -> derivation_request_ok (da_derivation request) ->
  tracked_post DeployAccount (deploy_good request g) (deploy_bad request g) g
    (fst (deploy_account request g)) (snd (deploy_account request g)).
Proof.
  intros Hret Hreach Hn Hq. destruct (reachable_step n g Hret Hreach Hn) as [Hg Hr].
  by apply (deploy_account_spec retention request 0 g).
Qed.

(** C7: From every reachable gateway state, if for a valid key one of the first nonces within
    the fuel is accepted, signing ends without panicking and never touches the chain. When the
    OS gives no entropy for an operation id it is refused untracked and nothing else changes.
    Otherwise a reply is the signature of exactly the requested hash or message under the key
    the resolver gives for the request's own domain and path, only for requests on the domain's
    coin type, with the raw-hash opt-in and on the backend's chain, and carries that
    provenance, and a refusal is on record. *)
Theorem sign_correct fuel request n g :
  retention_ok retention -> gw_reachable n g -> n + 4 < u64_MAX ->
  sign_request_ok request -> signing_ends fuel request g ->
  tracked_post Sign (sign_good fuel request g) (sign_bad g) g
    (fst (sign fuel request g)) (snd (sign fuel request g)).
Proof.
  intros Hret Hreach Hn Hq He. destruct (reachable_step n g Hret Hreach Hn) as [Hg Hr].
  by apply (sign_spec retention fuel request 0 g).
Qed.
End runtime.

(** ** A concrete gateway

    A backend that is up or down (a deployment takes it down), a resolver that knows one key, the system
    clock over samples one second apart, a counter for entropy, and the
    textbook hexadecimal codec. *)
Definition demo_encode (bs : list Z) : string := bytes_string (flat_map (hex_print 2) bs).

Fixpoint unhex (l : list Z) : option (list Z) :=
  match l with
  | [] => Some []
  | a :: b :: l =>
      if is_hexdigit a && is_hexdigit b
      then option_map (cons (nibble a * 16 + nibble b)) (unhex l) else None
  | _ => None
  end.

Definition demo_decode (s : string) : option (list Z) := unhex (string_bytes s).

Lemma nibble_range c : is_hexdigit c = true -> 0 <= nibble c < 16.
Proof.
  intros Hc%is_hexdigit_spec. unfold nibble, is_digit, in_range.
  destruct (Z.leb_spec 48 c), (Z.leb_spec c 57), (Z.leb_spec 65 c), (Z.leb_spec c 70); cbn [andb]; lia.
Qed.

Lemma unhex_encode bs : Forall byte_ok bs -> unhex (flat_map (hex_print 2) bs) = Some bs.
Proof.
  induction 1 as [|b bs Hb _ IH]; [done|]. unfold byte_ok in Hb.
  change (flat_map (hex_print 2) (b :: bs))
    with (hex_digit (b / 16 mod 16) :: hex_digit (b mod 16) :: flat_map (hex_print 2) bs).
  cbn [unhex].
  destruct (hex_digit_spec (b / 16 mod 16)) as (-> & _ & ->); [apply Z.mod_pos_bound; lia|].
  destruct (hex_digit_spec (b mod 16)) as (-> & _ & ->); [apply Z.mod_pos_bound; lia|].
  cbn [andb]. rewrite IH. cbn [option_map]. f_equal. f_equal.
  rewrite (Z.mod_small (b / 16)) by (split; [apply Z.div_pos; lia|apply Z.div_lt_upper_bound; lia]).
  pose proof (Z.div_mod b 16). lia.
Qed.

Lemma encode_digits bs :
  Forall byte_ok bs -> hexdigits (flat_map (hex_print 2) bs) /\ length (flat_map (hex_print 2) bs) = (2 * length bs)%nat.
Proof.
  induction 1 as [|b bs Hb _ [IHd IHl]]; [by split; [constructor|]|]. cbn [flat_map].
  unfold byte_ok in Hb. destruct (hex_print_spec 2 b) as (Hd & _ & Hl & _); [lia|].
  split; [by apply Forall_app|]. rewrite length_app, Hl, IHl. cbn [length]. lia.
Qed.

Lemma unhex_digits l :
  hexdigits l -> (length l mod 2 = 0)%nat ->
  exists bs, unhex l = Some bs /\ Forall byte_ok bs /\ (2 * length bs = length l)%nat.
Proof.
  induction l as [[|a [|b l]] IH] using (well_founded_induction (well_founded_ltof _ (@length Z)));
    intros Hd Hev; [exists []; split; [reflexivity|split; [constructor|reflexivity]]|discriminate Hev|]. unfold hexdigits in Hd.
  rewrite !Forall_cons in Hd. destruct Hd as (Ha & Hb & Hd). cbn [length unhex] in *.
  destruct (IH l) as (bs & Hbs & Hok & Hlen); [unfold ltof; cbn; lia|done| |].
  { replace (Datatypes.S (Datatypes.S (length l))) with (length l + 1 * 2)%nat in Hev by lia.
    by rewrite Nat.Div0.mod_add in Hev. }
  rewrite Ha, Hb, Hbs. cbn [andb option_map]. eexists. split_and!; [done| |cbn [length]; lia].
  constructor; [|done]. pose proof (nibble_range a Ha). pose proof (nibble_range b Hb). unfold byte_ok. lia.
Qed.

#[local] Lemma demo_decode_encode bs : Forall byte_ok bs -> demo_decode (demo_encode bs) = Some bs.
Proof.
  intros Hb. unfold demo_decode, demo_encode. rewrite string_bytes_string; [by apply unhex_encode|].
  apply hexdigits_bytes, (proj1 (encode_digits bs Hb)).
Qed.

#[local] Lemma demo_encode_digits bs :
  Forall byte_ok bs ->
  hexdigits (string_bytes (demo_encode bs)) /\ length (string_bytes (demo_encode bs)) = (2 * length bs)%nat.
Proof.
  intros Hb. unfold demo_encode. pose proof (encode_digits bs Hb) as Hd.
  rewrite string_bytes_string; [exact Hd|]. apply hexdigits_bytes, (proj1 Hd).
Qed.

#[local] Lemma demo_decode_digits s :
  hexdigits (string_bytes s) -> (length (string_bytes s) mod 2 = 0)%nat ->
  exists bs, demo_decode s = Some bs /\ Forall byte_ok bs /\ (2 * length bs = length (string_bytes s))%nat.
Proof. apply unhex_digits. Qed.

#[local] Instance demo_hex : HexCodec :=
  {| hex_encode := demo_encode; hex_decode := demo_decode; hex_decode_encode := demo_decode_encode;
     hex_encode_digits := demo_encode_digits; hex_decode_digits := demo_decode_digits |}.

#[local] Instance demo_backend : GatewayBackend bool := {|
  backend_chain_id _ := Sepolia;
  check_deployed _ _ up := (if up : bool then inl true else inr (gateway_error_new Code_RpcDegraded true None), up);
  backend_nonce _ _ up := (inl (mk_FeltHex "0x7"), up);
  token_balance _ _ _ up := (inl "100", up);
  block_metadata _ up := (inr (gateway_error_new Code_RpcDegraded true None), up) |}.

#[local] Instance demo_entropy : Entropy nat := {| try_random_bytes n := (Some [Z.of_nat n], Datatypes.S n) |}.

Definition demo_samples (n : nat) : Z * Z := (Z.of_nat n * 1000000000, Z.of_nat n * 1000000000).

Lemma demo_samples_sorted n : snd (demo_samples n) <= snd (demo_samples (Datatypes.S n)).
Proof. cbn [demo_samples snd]. lia. Qed.

#[local] Instance demo_clock : Clock SystemClock := system_clock demo_samples.
#[local] Instance demo_clock_laws : ClockLaws SystemClock :=
  system_clock_laws demo_samples demo_samples_sorted.

#[local] Existing Instance model_extras.
#[local] Existing Instance model_extras_laws.
#[local] Existing Instance model_felt_from_hex.
#[local] Existing Instance model_stark_crypto.
#[local] Existing Instance model_stark_crypto_laws.
#[local] Existing Instance model_schnorr.

#[local] Instance demo_deploy : @DeployBackend model_types bool :=
  {| deploy_open_zeppelin _ _ _ up := (inl (SubmittedExec (mk_FeltHex "0x9")), false) |}.

#[local] Instance demo_resolver : @SecretResolver model_types unit := {|
  resolve_private_key _ _ _ s := (inl (mk 5), s);
  resolve_nostr_private_key := resolve_nostr_unsupported |}.

Definition demo_retention : OperationRetentionPolicy := mk_retention 86400000 4.

Definition demo_gateway : Gateway :=
  with_clock_and_retention true tt {| sc_anchor := None; sc_ticks := 0 |} 0%nat demo_retention.

Abbreviation demo_reach := (gw_reachable (B := bool) (S := unit) (C := SystemClock) (R := nat) demo_retention).

Lemma demo_reachable : demo_reach 0 demo_gateway.
Proof. apply reach_new. by intros a [=]. Qed.

Lemma demo_retention_ok : retention_ok demo_retention.
Proof. split; cbn; lia. Qed.

(** The second query of the same account is served from the cache. *)
Lemma query_account_snapshot_correct_witness :
  let g1 := snd (query_account_snapshot ex_request demo_gateway) in
  exists resp, fst (query_account_snapshot ex_request g1) = Ok resp
    /\ meta_status (snap_cache (resp_value resp)) = Hit /\ about ex_request (resp_value resp).
Proof.
  set (g1 := snd (query_account_snapshot ex_request demo_gateway)).
  pose proof (query_account_snapshot_correct demo_retention ex_request 3 g1
    demo_retention_ok (reach_query _ _ _ _ demo_reachable) ltac:(reflexivity)) as Hpost.
  destruct (is_ok_exists (fst (query_account_snapshot ex_request g1))) as [resp Hresp]; [by vm_compute|].
  exists resp. split; [exact Hresp|]. rewrite Hresp in Hpost. split; [|apply Hpost].
  enough (match fst (query_account_snapshot ex_request g1) with
          | Ok r => meta_status (snap_cache (resp_value r)) = Hit | _ => False end) as Hm
    by by rewrite Hresp in Hm.
  vm_compute. reflexivity.
Defined.

Lemma gateway_invariant_witness :
  let g1 := snd (query_account_snapshot ex_request demo_gateway) in
  size (cache_entries (gw_snapshot_cache g1)) = 1%nat
  /\ (size (cache_entries (gw_snapshot_cache g1)) <= DEFAULT_SNAPSHOT_CACHE_MAX_ENTRIES)%nat.
Proof.
  split; [by vm_compute|].
  apply (gateway_invariant demo_retention 3 _ demo_retention_ok
    (reach_query _ _ _ _ demo_reachable)). reflexivity.
Defined.

Definition demo_path : DerivationPath := {| coin_type := 9004; account_index := 0; address_index := 0 |}.

(** The default OpenZeppelin account of the demo key. *)
Definition demo_derivation : DerivationRequest :=
  mk_DerivationRequest (mk_SecretRef "wallet") StarknetAccount Sepolia demo_path
    (mk_AccountClassSpec Kind_OpenZeppelin None None false) Spec_PublicKey.

Lemma demo_derivation_ok : @derivation_request_ok model_types demo_derivation.
Proof. by split. Qed.

Lemma demo_derives : is_ok (fst (derive_account demo_derivation demo_gateway)) = true.
Proof. vm_compute. reflexivity. Qed.

Lemma derive_account_correct_witness :
  exists resp, fst (derive_account demo_derivation demo_gateway) = Ok resp
    /\ derive_good demo_derivation demo_gateway resp (snd (derive_account demo_derivation demo_gateway)).
Proof.
  destruct (is_ok_exists _ demo_derives) as [resp Hresp].
  pose proof (derive_account_correct demo_retention demo_derivation 0 demo_gateway
    demo_retention_ok demo_reachable ltac:(reflexivity) demo_derivation_ok) as Hpost.
  exists resp. split; [exact Hresp|]. rewrite Hresp in Hpost. apply Hpost.
Defined.

(** An account on a chain the backend is down for is refused with the backend's
    error, which is on record. *)
Lemma check_deployment_correct_witness :
  let g := with_clock_and_retention false tt {| sc_anchor := None; sc_ticks := 0 |} 0%nat demo_retention in
  exists e, fst (check_deployment demo_derivation g) = Err e
    /\ rejected e (snd (check_deployment demo_derivation g)).
Proof.
  set (g := with_clock_and_retention _ _ _ _ _).
  assert (demo_reach 0 g) as Hreach by (apply reach_new; by intros a [=]).
  pose proof (check_deployment_correct demo_retention demo_derivation 0 g
    demo_retention_ok Hreach ltac:(reflexivity) demo_derivation_ok) as Hpost.
  assert (match fst (check_deployment demo_derivation g) with Err _ => True | _ => False end) as Herr
    by (vm_compute; exact I).
  destruct (fst (check_deployment demo_derivation g)) as [resp|e|] eqn:Hr; [destruct Herr| |destruct Herr].
  exists e. split; [exact Hr|]. exact (proj1 Hpost).
Defined.

Lemma demo_deploys :
  is_ok (fst (deploy_account {| da_derivation := demo_derivation; da_mode := SubmitOnly |} demo_gateway)) = true.
Proof. vm_compute. reflexivity. Qed.

Lemma deploy_account_correct_witness :
  let request := {| da_derivation := demo_derivation; da_mode := SubmitOnly |} in
  exists resp, fst (deploy_account request demo_gateway) = Ok resp
    /\ deploy_good request demo_gateway resp (snd (deploy_account request demo_gateway))
    /\ gw_backend (snd (deploy_account request demo_gateway)) = false.
Proof.
  destruct (is_ok_exists _ demo_deploys) as [resp Hresp].
  pose proof (deploy_account_correct demo_retention {| da_derivation := demo_derivation; da_mode := SubmitOnly |}
    0 demo_gateway demo_retention_ok demo_reachable ltac:(reflexivity) demo_derivation_ok) as Hpost.
  exists resp. split; [exact Hresp|]. rewrite Hresp in Hpost. split; [apply Hpost|]. vm_compute. reflexivity.
Defined.

(** A transaction hash, with and without the raw-hash opt-in. *)
Definition demo_sign (allow : bool) : SignRequest :=
  SR_StarkHash (mk_SecretRef "wallet") SKD_StarknetAccount demo_path Sepolia TransactionHash
    (@felt_hex_from_felt model_types (mk 9)) allow.

Lemma demo_sign_ok allow : @sign_request_ok model_types (demo_sign allow).
Proof. by exists (mk 9). Qed.

Lemma demo_signing_ends allow : signing_ends 2 (demo_sign allow) demo_gateway.
Proof.
  intros key hash Hk Hh _. assert (key = mk 5) as -> by (cbn in Hk; congruence).
  assert (mk 9 = hash) as <-.
  { apply (from_felt_inj (H := model_types)). apply (inj Some). exact Hh. }
  exists 1%nat. split; [lia|]. vm_compute. discriminate.
Qed.

Lemma demo_signs : is_ok (fst (sign 2 (demo_sign true) demo_gateway)) = true
  /\ is_ok (fst (sign 2 (demo_sign false) demo_gateway)) = false.
Proof. split; vm_compute; reflexivity. Qed.

Lemma sign_correct_witness :
  (exists resp, fst (sign 2 (demo_sign true) demo_gateway) = Ok resp
    /\ sign_good 2 (demo_sign true) demo_gateway resp (snd (sign 2 (demo_sign true) demo_gateway)))
  /\ is_ok (fst (sign 2 (demo_sign false) demo_gateway)) = false.
Proof.
  split; [|exact (proj2 demo_signs)].
  destruct (is_ok_exists _ (proj1 demo_signs)) as [resp Hresp].
  pose proof (sign_correct demo_retention 2 (demo_sign true) 0 demo_gateway demo_retention_ok demo_reachable
    ltac:(reflexivity) (demo_sign_ok true) (demo_signing_ends true)) as Hpost.
  exists resp. split; [exact Hresp|]. rewrite Hresp in Hpost. apply Hpost.
Defined.
