(* ===== verification/NostrEnvelope.v ===== *)
(** * Nostr application envelopes

    crates/kms/src/nostr_application_data.rs: NIP-59 gift wraps.  A rumor (an
    unsigned event) is encrypted into a seal signed by the sender, and the seal
    into a gift wrap signed by a one-time key; opening checks each layer.

    Text is [string] in the events' fields and UTF-8 bytes where it is encrypted or
    hashed.  JSON is the interface [NostrJson]; the parsing of keys and signatures
    that k256 does before verifying is [SchnorrParse].  Random draws are the record
    [EnvelopeCoins]; a [None] draw is a failing entropy source. *)

From stdpp Require Import base option list numbers strings.
From Stdlib Require Import ZArith Lia.
From S2P Require Import Prelude Types Text Primitives Derivation NostrSigning Nip44 Requests Runtime.

#[local] Open Scope string_scope.
#[local] Open Scope list_scope.
#[local] Open Scope Z_scope.

Definition APPLICATION_DATA_KIND : Z := 30078.
Definition SEAL_KIND : Z := 13.
Definition GIFT_WRAP_KIND : Z := 1059.
Definition MAX_CONTENT_BYTES : Z := 32768.
Definition MAX_EVENT_JSON_BYTES : Z := 131070.
Definition MAX_IDENTIFIER_BYTES : Z := 128.
Definition TWO_DAYS_SECONDS : Z := 2 * 24 * 60 * 60.

Record NostrApplicationData : Type := {
  nad_content : string; nad_identifier : string; nad_sender_public_key : string }.

Record UnsignedEvent : Type := mk_UnsignedEvent {
  ue_id : string; ue_pubkey : string; ue_created_at : Z; ue_kind : Z; ue_tags : list (list string); ue_content : string }.

Record SignedEvent : Type := mk_SignedEvent {
  se_id : string; se_pubkey : string; se_created_at : Z; se_kind : Z; se_tags : list (list string); se_content : string;
  se_sig : string }.

(** ** The libraries *)

(** [serde_json]: the canonical array an event id hashes, and the objects. *)
Class NostrJson : Type := {
  canonical_json : string -> Z -> Z -> list (list string) -> string -> option (list Z);
  unsigned_to_json : UnsignedEvent -> option (list Z); unsigned_from_json : list Z -> option UnsignedEvent;
  signed_to_json : SignedEvent -> option (list Z); signed_from_json : list Z -> option SignedEvent }.

(** Times are [u64] and kinds [u16]. *)
Definition event_numbers_ok (created_at kind : Z) : Prop := 0 <= created_at <= u64_MAX /\ 0 <= kind < 2 ^ 16.

(** Text that JSON writes without escapes, and the length of tags made of it: two brackets
    and a comma for a tag, two quotes and a comma for a string. *)
Definition plain (c : Z) : Prop := 32 <= c <= 126 /\ c <> 34 /\ c <> 92.
Definition plain_text (s : string) : Prop := Forall plain (string_bytes s).
Definition text_size (s : string) : Z := zlen (string_bytes s).
Definition tag_size (tag : list string) : Z := foldr (fun s n => 3 + text_size s + n) 3 tag.
Definition tags_size (tags : list (list string)) : Z := foldr (fun tag n => tag_size tag + n) 0 tags.

(** The names and punctuation of an event's object take 75 bytes and its numbers at most 25. *)
Class NostrJsonLaws `{NostrJson} : Prop := {
  unsigned_json_roundtrip e text :
    event_numbers_ok (ue_created_at e) (ue_kind e) -> unsigned_to_json e = Some text -> unsigned_from_json text = Some e;
  unsigned_json_text e text : unsigned_to_json e = Some text -> Forall byte_ok text /\ utf8_valid text = true;
  signed_json_roundtrip e text :
    event_numbers_ok (se_created_at e) (se_kind e) -> signed_to_json e = Some text -> signed_from_json text = Some e;
  signed_json_text e text : signed_to_json e = Some text -> Forall byte_ok text /\ utf8_valid text = true /\ text <> [];
  signed_json_size e text :
    event_numbers_ok (se_created_at e) (se_kind e) ->
    Forall plain_text [se_id e; se_pubkey e; se_content e; se_sig e] -> Forall (Forall plain_text) (se_tags e) ->
    signed_to_json e = Some text ->
    zlen text <= 100 + text_size (se_id e) + text_size (se_pubkey e) + text_size (se_content e) + text_size (se_sig e)
                 + tags_size (se_tags e) }.

(** [VerifyingKey::from_slice] and [Signature::try_from]. *)
Class SchnorrParse : Type := { verifying_key_parses : list Z -> bool; signature_parses : list Z -> bool }.
Class SchnorrParseLaws `{Schnorr, SchnorrParse} : Prop := {
  schnorr_parses pk m sig :
    schnorr_verify_raw pk m sig = true -> verifying_key_parses pk = true /\ signature_parses sig = true }.

(** [hex::encode] writes lower-case digits. *)
Class HexLower `{HexCodec} : Prop := {
  hex_encode_lower bs : Forall byte_ok bs -> map to_lower (string_bytes (hex_encode bs)) = string_bytes (hex_encode bs) }.

(** ** Validation *)
Definition valid_identifier (identifier : string) : bool :=
  let bytes := string_bytes identifier in
  negb (zlen bytes =? 0) && (zlen bytes <=? MAX_IDENTIFIER_BYTES) && forallb (in_range 32 126) bytes.

Definition validate_content (content : string) : Result unit :=
  let n := zlen (string_bytes content) in
  reject_if ((n =? 0) || (MAX_CONTENT_BYTES <? n))
    (SerializationError "Nostr application data must be 1-32768 UTF-8 bytes").

Definition validate_nested_plaintext (value : list Z) : Result unit :=
  reject_if (negb (valid_plaintext value))
    (SerializationError "Nostr application data exceeds the nested envelope limit").

Section envelope.
Context `{HashFns, Schnorr, !Ecdh, !ChaCha, !Base64, !NostrJson, !SchnorrParse, !HexCodec}.

Definition is_lower_hex (byte : Z) : bool := is_digit byte || in_range 97 102 byte.

Definition decode_hex (n : nat) (value : string) : Result (list Z) :=
  let bytes := string_bytes value in
  _ ← reject_if (negb (length bytes =? n * 2)%nat || negb (forallb is_lower_hex bytes))
        (DeserializationError "Invalid Nostr {name}");
  decoded ← ok_or (hex_decode value) (HexError "{error}");
  to_array n decoded (DeserializationError "Invalid Nostr {name}").

(** ** Events *)
Definition event_id (public_key : string) (created_at kind : Z) (tags : list (list string)) (content : string)
    : Result (list Z) :=
  canonical ← ok_or (canonical_json public_key created_at kind tags content) (JsonError "{error}");
  Ok (sha256 canonical).

Definition unsigned_event (public_key : string) (created_at kind : Z) (tags : list (list string)) (content : string)
    : Result UnsignedEvent :=
  id ← event_id public_key created_at kind tags content;
  Ok (mk_UnsignedEvent (hex_encode id) public_key created_at kind tags content).

Definition signed_event (private_key : list Z) (created_at kind : Z) (tags : list (list string)) (content : string)
    : Result SignedEvent :=
  pk ← nostr_public_key private_key;
  let public_key := hex_encode pk in
  id ← event_id public_key created_at kind tags content;
  signature ← sign_nostr_event_id private_key id;
  Ok (mk_SignedEvent (hex_encode id) public_key created_at kind tags content (hex_encode (ns_signature signature))).

Definition verify_event (event : SignedEvent) : Result unit :=
  expected ← event_id (se_pubkey event) (se_created_at event) (se_kind event) (se_tags event) (se_content event);
  id ← decode_hex 32 (se_id event);
  _ ← reject_if (bool_decide (id <> expected)) (CryptoError "Nostr event id does not match its contents");
  public_key ← decode_hex 32 (se_pubkey event);
  signature_bytes ← decode_hex 64 (se_sig event);
  _ ← reject_if (negb (verifying_key_parses public_key)) (InvalidPublicKey "{error}");
  _ ← reject_if (negb (signature_parses signature_bytes)) (CryptoError "{error}");
  reject_if (negb (schnorr_verify_raw public_key expected signature_bytes))
    (CryptoError "Nostr event signature is invalid").

(** ** Draws *)
Record EnvelopeCoins : Type := {
  ec_seal_nonce : option (list Z); ec_seal_offset : option (list Z); ec_ephemeral : list (option (list Z));
  ec_wrap_nonce : option (list Z); ec_wrap_offset : option (list Z) }.

Definition randomized_past_timestamp (now : Z) (draw : option (list Z)) : Result Z :=
  bytes ← ok_or draw (CryptoError "Nostr entropy unavailable: {error}");
  let offset := be_value bytes mod (TWO_DAYS_SECONDS + 1) in
  Ok (Z.max 0 (now - offset)).

(** At most [tries] draws. *)
Fixpoint ephemeral_loop (tries : nat) (draws : list (option (list Z))) : Result (list Z) :=
  match tries, draws with
  | O, _ => Err (CryptoError "Could not generate a valid Nostr key")
  | S tries, Some candidate :: draws =>
      if is_ok (nostr_public_key candidate) then Ok candidate else ephemeral_loop tries draws
  | S _, _ => Err (CryptoError "Nostr entropy unavailable: {error}")
  end.

Definition ephemeral_private_key (draws : list (option (list Z))) : Result (list Z) := ephemeral_loop 8 draws.

(** ** Wrapping *)
Definition text_string (text : list Z) : string := bytes_string text.

Definition wrap_nostr_application_data_at (private_key : list Z) (recipient_public_key identifier content : string)
    (now : Z) (coins : EnvelopeCoins) : Result (list Z) :=
  _ ← validate_content content;
  _ ← reject_if (negb (valid_identifier identifier)) (SerializationError "Invalid Nostr application identifier");
  recipient ← decode_hex 32 recipient_public_key;
  pk ← nostr_public_key private_key;
  let sender_public_key := hex_encode pk in
  rumor ← unsigned_event sender_public_key now APPLICATION_DATA_KIND [["d"; identifier]] content;
  rumor_json ← ok_or (unsigned_to_json rumor) (JsonError "{error}");
  _ ← validate_nested_plaintext rumor_json;
  seal_content ← encrypt private_key recipient rumor_json (ec_seal_nonce coins);
  seal_time ← randomized_past_timestamp now (ec_seal_offset coins);
  seal ← signed_event private_key seal_time SEAL_KIND [] (text_string seal_content);
  seal_json ← ok_or (signed_to_json seal) (JsonError "{error}");
  _ ← validate_nested_plaintext seal_json;
  ephemeral ← ephemeral_private_key (ec_ephemeral coins);
  wrap_content ← encrypt ephemeral recipient seal_json (ec_wrap_nonce coins);
  wrap_time ← randomized_past_timestamp now (ec_wrap_offset coins);
  wrap ← signed_event ephemeral wrap_time GIFT_WRAP_KIND [["p"; recipient_public_key]] (text_string wrap_content);
  ok_or (signed_to_json wrap) (JsonError "{error}").

(** The same at the system's time, if its clock is past the epoch. *)
Definition wrap_nostr_application_data (private_key : list Z) (recipient_public_key identifier content : string)
    (clock : option Z) (coins : EnvelopeCoins) : Result (list Z) :=
  now ← ok_or clock (CryptoError "System clock is unavailable");
  wrap_nostr_application_data_at private_key recipient_public_key identifier content now coins.

(** ** Opening *)

(** [rumor.tags.len() != 1 || ..]: the identifier of a rumor's tags. *)
Definition rumor_identifier (tags : list (list string)) : option string :=
  match tags with
  | [[d; identifier]] => if decide (d = "d") then if valid_identifier identifier then Some identifier else None else None
  | _ => None
  end.

Definition check_rumor (rumor : UnsignedEvent) (seal_pubkey : string) : Result NostrApplicationData :=
  expected_id ← event_id (ue_pubkey rumor) (ue_created_at rumor) (ue_kind rumor) (ue_tags rumor) (ue_content rumor);
  _ ← reject_if (bool_decide (ue_id rumor <> hex_encode expected_id) || bool_decide (ue_pubkey rumor <> seal_pubkey)
                 || negb (ue_kind rumor =? APPLICATION_DATA_KIND))
        (DeserializationError "Invalid Nostr application rumor");
  identifier ← ok_or (rumor_identifier (ue_tags rumor)) (DeserializationError "Invalid Nostr application rumor");
  _ ← validate_content (ue_content rumor);
  Ok {| nad_content := ue_content rumor; nad_identifier := identifier; nad_sender_public_key := ue_pubkey rumor |}.

Definition open_seal (private_key seal_json : list Z) : Result NostrApplicationData :=
  seal ← ok_or (signed_from_json seal_json) (JsonError "{error}");
  _ ← verify_event seal;
  _ ← reject_if (negb (se_kind seal =? SEAL_KIND) || negb (bool_decide (se_tags seal = [])))
        (DeserializationError "Invalid Nostr seal");
  sender_public_key ← decode_hex 32 (se_pubkey seal);
  rumor_json ← decrypt private_key sender_public_key (string_bytes (se_content seal));
  rumor ← ok_or (unsigned_from_json rumor_json) (JsonError "{error}");
  check_rumor rumor (se_pubkey seal).

Definition open_nostr_application_data (private_key event_json : list Z) : Result NostrApplicationData :=
  _ ← reject_if ((zlen event_json =? 0) || (MAX_EVENT_JSON_BYTES <? zlen event_json))
        (DeserializationError "Invalid Nostr gift-wrap size");
  wrap ← ok_or (signed_from_json event_json) (JsonError "{error}");
  _ ← verify_event wrap;
  pk ← nostr_public_key private_key;
  let recipient_public_key := hex_encode pk in
  _ ← reject_if (negb (se_kind wrap =? GIFT_WRAP_KIND) || bool_decide (se_tags wrap <> [["p"; recipient_public_key]]))
        (DeserializationError "Invalid Nostr gift wrap");
  wrap_public_key ← decode_hex 32 (se_pubkey wrap);
  seal_json ← decrypt private_key wrap_public_key (string_bytes (se_content wrap));
  open_seal private_key seal_json.
End envelope.

(** ** Keys and hexadecimal fields *)
Section envelope_lemmas.
Context `{HashFnsLaws, Schnorr, !SchnorrLaws, !Ecdh, !EcdhLaws, !ChaCha, !ChaChaLaws, !Base64, !Base64Laws}.
Context `{!NostrJson, !NostrJsonLaws, !SchnorrParse, !SchnorrParseLaws, !HexCodec, !HexLower}.

Lemma lower_hex_digits l : hexdigits l -> map to_lower l = l -> forallb is_lower_hex l = true.
Proof.
  intros Hd Hl. apply forallb_forall. intros c Hin%list_elem_of_In. unfold hexdigits in Hd. rewrite Forall_forall in Hd.
  pose proof (proj1 (is_hexdigit_spec c) (Hd c Hin)) as Hc.
  assert (to_lower c = c) as Hlow by (apply list_elem_of_lookup in Hin as [i Hi];
    apply (f_equal (fun l => l !! i)) in Hl; rewrite list_lookup_fmap, Hi in Hl; by injection Hl).
  unfold is_lower_hex. apply orb_true_iff. unfold is_digit. rewrite !in_range_spec. unfold to_lower in Hlow.
  destruct (in_range 65 90 c) eqn:Hr; [lia|]. apply not_true_iff_false in Hr. rewrite in_range_spec in Hr. lia.
Qed.

Lemma decode_encode_hex n bs : length bs = n -> Forall byte_ok bs -> decode_hex n (hex_encode bs) = Ok bs.
Proof.
  intros Hn Hb. unfold decode_hex. destruct (hex_encode_digits bs Hb) as [Hd Hl].
  rewrite Hl, lower_hex_digits by (done || by apply hex_encode_lower).
  rewrite (proj2 (Nat.eqb_eq _ _)) by lia. cbn [negb orb reject_if mbind outcome_bind].
  rewrite hex_decode_encode by done. cbn [ok_or mbind outcome_bind]. unfold to_array.
  by rewrite (proj2 (Nat.eqb_eq _ _) Hn).
Qed.

Lemma nostr_public_key_bytes sk x : nostr_public_key sk = Ok x -> length x = 32%nat /\ Forall byte_ok x.
Proof.
  unfold nostr_public_key, parse_signing_key. destruct (schnorr_from_slice sk) as [k|]; [|done].
  intros [= <-]. apply schnorr_verifying_key_bytes.
Qed.

(** ** Signed events *)

(** The event's signature is by its public key, over the hash of its contents. *)
Definition authentic (e : SignedEvent) : Prop :=
  exists id pk sig, event_id (se_pubkey e) (se_created_at e) (se_kind e) (se_tags e) (se_content e) = Ok id
    /\ decode_hex 32 (se_pubkey e) = Ok pk /\ decode_hex 64 (se_sig e) = Ok sig
    /\ schnorr_verify_raw pk id sig = true.

Lemma event_id_bytes pk t k tags content id :
  event_id pk t k tags content = Ok id -> length id = 32%nat /\ Forall byte_ok id.
Proof.
  unfold event_id. destruct (canonical_json pk t k tags content) as [c|]; [|done]. cbn [ok_or mbind outcome_bind].
  intros Hs. assert (sha256 c = id) as <- by congruence. split; [apply sha256_length|apply sha256_ok].
Qed.

Lemma event_id_total pk t k tags content : event_id pk t k tags content <> Panic.
Proof. unfold event_id. by destruct (canonical_json pk t k tags content). Qed.

Lemma decode_hex_total n value : decode_hex n value <> Panic.
Proof.
  unfold decode_hex. destruct (_ || _); [done|]. cbn [reject_if mbind outcome_bind].
  destruct (hex_decode value) as [d|]; [|done]. cbn [ok_or mbind outcome_bind]. unfold to_array. by destruct (_ =? _)%nat.
Qed.

(** Verification accepts the authentic events whose id is their hash. *)
Lemma verify_event_Ok e :
  verify_event e = Ok tt ->
  authentic e /\ decode_hex 32 (se_id e)
    = event_id (se_pubkey e) (se_created_at e) (se_kind e) (se_tags e) (se_content e).
Proof.
  unfold verify_event, authentic. destruct (event_id _ _ _ _ _) as [id|?|]; [|done..]. cbn [mbind outcome_bind].
  destruct (decode_hex 32 (se_id e)) as [id'|?|]; [|done..]. cbn [mbind outcome_bind].
  destruct (bool_decide _) eqn:Hid; [done|]. apply bool_decide_eq_false, dec_stable in Hid as ->.
  cbn [reject_if mbind outcome_bind]. destruct (decode_hex 32 (se_pubkey e)) as [pk|?|]; [|done..]. cbn [mbind outcome_bind].
  destruct (decode_hex 64 (se_sig e)) as [sig|?|]; [|done..]. cbn [mbind outcome_bind].
  destruct (verifying_key_parses pk); [|done]. destruct (signature_parses sig); [|done]. cbn [negb reject_if mbind outcome_bind].
  destruct (schnorr_verify_raw pk id sig) eqn:Hv; [|done]. intros _. split; [|done]. by exists id, pk, sig.
Qed.

Lemma verify_event_total e : verify_event e <> Panic.
Proof.
  unfold verify_event. pose proof (event_id_total (se_pubkey e) (se_created_at e) (se_kind e) (se_tags e) (se_content e)).
  destruct (event_id _ _ _ _ _) as [id|?|]; [|done..]. cbn [mbind outcome_bind]. pose proof (decode_hex_total 32 (se_id e)).
  destruct (decode_hex 32 (se_id e)) as [id'|?|]; [|done..]. cbn [mbind outcome_bind].
  destruct (bool_decide _); [done|]. cbn [reject_if mbind outcome_bind]. pose proof (decode_hex_total 32 (se_pubkey e)).
  destruct (decode_hex 32 (se_pubkey e)) as [pk|?|]; [|done..]. cbn [mbind outcome_bind].
  pose proof (decode_hex_total 64 (se_sig e)). destruct (decode_hex 64 (se_sig e)) as [sig|?|]; [|done..].
  cbn [mbind outcome_bind]. by destruct (verifying_key_parses pk), (signature_parses sig), (schnorr_verify_raw pk id sig).
Qed.

(** The hexadecimal fields of an event are plain and of fixed length. *)
Lemma hex_encode_plain bs : Forall byte_ok bs -> plain_text (hex_encode bs) /\ text_size (hex_encode bs) = 2 * zlen bs.
Proof.
  intros [Hd Hl]%hex_encode_digits. split; [|unfold text_size, zlen; lia].
  eapply Forall_impl; [exact Hd|]. intros c Hc%is_hexdigit_spec. unfold plain. lia.
Qed.

Lemma signed_event_fields sk t k tags content e :
  signed_event sk t k tags content = Ok e ->
  (plain_text (se_id e) /\ text_size (se_id e) = 64) /\ (plain_text (se_pubkey e) /\ text_size (se_pubkey e) = 64)
  /\ (plain_text (se_sig e) /\ text_size (se_sig e) = 128).
Proof.
  unfold signed_event. destruct (nostr_public_key sk) as [x|?|] eqn:Hx; [|done..]. cbn [mbind outcome_bind].
  destruct (event_id (hex_encode x) t k tags content) as [id|?|] eqn:Hid; [|done..]. cbn [mbind outcome_bind].
  destruct (sign_nostr_event_id sk id) as [sig|?|] eqn:Hsig; [|done..]. cbn [mbind outcome_bind]. intros [= <-].
  rewrite sign_event_is_message in Hsig. apply sign_nostr_message_Ok in Hsig as (_ & _ & _ & Hsl & _ & Hsb).
  destruct (nostr_public_key_bytes sk x Hx) as [Hxl Hxb], (event_id_bytes _ _ _ _ _ _ Hid) as [Hil Hib].
  assert (forall bs n, length bs = n -> Forall byte_ok bs ->
    plain_text (hex_encode bs) /\ text_size (hex_encode bs) = 2 * Z.of_nat n) as Hfield.
  { intros bs n <- Hb. by apply hex_encode_plain. }
  exact (conj (Hfield id 32%nat Hil Hib) (conj (Hfield x 32%nat Hxl Hxb) (Hfield (ns_signature sig) 64%nat Hsl Hsb))).
Qed.

(** What is signed verifies. *)
Lemma signed_event_verifies sk t k tags content e :
  signed_event sk t k tags content = Ok e ->
  exists x, nostr_public_key sk = Ok x /\ verify_event e = Ok tt /\ decode_hex 32 (se_pubkey e) = Ok x
    /\ se_pubkey e = hex_encode x /\ se_created_at e = t /\ se_kind e = k /\ se_tags e = tags /\ se_content e = content.
Proof.
  unfold signed_event. destruct (nostr_public_key sk) as [x|?|] eqn:Hx; [|done..]. cbn [mbind outcome_bind].
  destruct (event_id (hex_encode x) t k tags content) as [id|?|] eqn:Hid; [|done..]. cbn [mbind outcome_bind].
  destruct (sign_nostr_event_id sk id) as [sig|?|] eqn:Hsig; [|done..]. cbn [mbind outcome_bind]. intros [= <-].
  rewrite sign_event_is_message in Hsig. apply sign_nostr_message_Ok in Hsig as (Hpk & Hver & _ & Hsl & _ & Hsb).
  destruct (nostr_public_key_bytes sk x Hx) as [Hxl Hxb], (event_id_bytes _ _ _ _ _ _ Hid) as [Hil Hib].
  replace (ns_public_key sig) with x in Hver by congruence. exists x.
  unfold verify_event. cbn [se_id se_pubkey se_created_at se_kind se_tags se_content se_sig].
  rewrite Hid, !decode_encode_hex by done. cbn [mbind outcome_bind].
  rewrite bool_decide_eq_false_2 by (intros Hne; by apply Hne). cbn [reject_if mbind outcome_bind].
  destruct (schnorr_parses x id (ns_signature sig) Hver) as [-> ->]. rewrite Hver. done.
Qed.

(** ** Draws *)
Definition draw_ok (n : nat) (draw : option (list Z)) : Prop :=
  forall bytes, draw = Some bytes -> length bytes = n /\ Forall byte_ok bytes.

Definition coins_ok (coins : EnvelopeCoins) : Prop :=
  draw_ok 32 (ec_seal_nonce coins) /\ draw_ok 8 (ec_seal_offset coins)
  /\ draw_ok 32 (ec_wrap_nonce coins) /\ draw_ok 8 (ec_wrap_offset coins).

Lemma ephemeral_loop_Ok tries draws sk : ephemeral_loop tries draws = Ok sk -> exists x, nostr_public_key sk = Ok x.
Proof.
  revert draws; induction tries as [|tries IH]; intros draws; [done|]. cbn [ephemeral_loop].
  destruct draws as [|[candidate|] draws]; [done| |done].
  destruct (nostr_public_key candidate) as [x|?|] eqn:Hx; cbn [is_ok]; [|apply IH..]. intros [= <-]. by exists x.
Qed.

Lemma randomized_past_timestamp_range now draw t :
  0 <= now <= u64_MAX -> draw_ok 8 draw -> randomized_past_timestamp now draw = Ok t -> 0 <= t <= u64_MAX.
Proof.
  intros Hnow Hdraw. unfold randomized_past_timestamp. destruct draw as [bytes|]; [|done]. cbn [ok_or mbind outcome_bind].
  intros [= <-]. pose proof (Z.mod_pos_bound (be_value bytes) (TWO_DAYS_SECONDS + 1) ltac:(unfold TWO_DAYS_SECONDS; lia)). lia.
Qed.

(** ** One layer *)

(** An event signed by one end around a text encrypted to the other, written as
    JSON: the other end reads the event back, it verifies, and its content decrypts
    to the text. *)
Lemma layer_opens sk1 sk2 x1 x2 t k tags text draw e json :
  nostr_public_key sk1 = Ok x1 -> nostr_public_key sk2 = Ok x2 -> event_numbers_ok t k -> draw_ok 32 draw ->
  Forall byte_ok text -> utf8_valid text = true ->
  (payload ← encrypt sk1 x2 text draw; signed_event sk1 t k tags (text_string payload)) = Ok e ->
  signed_to_json e = Some json ->
  signed_from_json json = Some e /\ verify_event e = Ok tt /\ se_kind e = k /\ se_tags e = tags
  /\ se_pubkey e = hex_encode x1 /\ decode_hex 32 (se_pubkey e) = Ok x1
  /\ decrypt sk2 x1 (string_bytes (se_content e)) = Ok text
  /\ Forall byte_ok json /\ utf8_valid json = true /\ json <> [].
Proof.
  intros Hx1 Hx2 Hnum Hdraw Hb Hu. unfold encrypt. destruct draw as [nonce|]; [|done]. cbn [ok_or mbind outcome_bind].
  destruct (Hdraw nonce eq_refl) as [Hn Hnb]. pose proof (encrypt_decrypt sk1 sk2 x1 x2 text nonce Hx1 Hx2 Hb Hu Hnb Hn) as Hrt.
  destruct (valid_plaintext text); [|by rewrite Hrt]. destruct Hrt as (payload & -> & Hdec & Hpb). cbn [mbind outcome_bind].
  intros Hs Hj. apply signed_event_verifies in Hs as (x & Hx & Hver & Hpk & Hhex & Ht & Hk & Htags & Hc).
  replace x with x1 in * by congruence. destruct (signed_json_text e json Hj) as (Hjb & Hju & Hjn).
  split_and!; try assumption.
  - apply (signed_json_roundtrip e json); [|exact Hj]. by rewrite Ht, Hk.
  - rewrite Hc. unfold text_string. rewrite string_bytes_string by done. exact Hdec.
Qed.

(** What encryption returns is base64, and what decrypts is short enough. *)
Lemma encrypt_plain sk peer text draw payload : encrypt sk peer text draw = Ok payload -> Forall plain payload.
Proof.
  unfold encrypt, encrypt_with_nonce. destruct draw as [nonce|]; [|done]. cbn [ok_or mbind outcome_bind].
  destruct (encrypt_payload sk peer text nonce) as [bytes|?|]; [|done..]. cbn [mbind outcome_bind]. intros [= <-].
  eapply Forall_impl; [apply base64_encode_alphabet|]. intros c Hc. cbn beta in Hc. unfold plain. lia.
Qed.

Lemma decrypt_size sk peer payload text : decrypt sk peer payload = Ok text -> zlen payload <= 87472.
Proof.
  unfold decrypt. destruct (in_bounds 132 87472 (zlen payload)) eqn:Hb; [|done]. intros _.
  unfold in_bounds in Hb. lia.
Qed.

(** A gift wrap fits the opener's limit. *)
Lemma layer_size sk1 sk2 x1 x2 t k text draw e json :
  nostr_public_key sk1 = Ok x1 -> nostr_public_key sk2 = Ok x2 -> event_numbers_ok t k -> draw_ok 32 draw ->
  Forall byte_ok text -> utf8_valid text = true ->
  (payload ← encrypt sk1 x2 text draw; signed_event sk1 t k [["p"; hex_encode x2]] (text_string payload)) = Ok e ->
  signed_to_json e = Some json -> zlen json <= MAX_EVENT_JSON_BYTES.
Proof.
  intros Hx1 Hx2 Hnum Hdraw Hb Hu Hs Hj. pose proof (nostr_public_key_bytes sk2 x2 Hx2) as [Hl2 Hb2].
  destruct (layer_opens sk1 sk2 x1 x2 t k _ text draw e json Hx1 Hx2 Hnum Hdraw Hb Hu Hs Hj)
    as (_ & _ & Hk & Ht & _ & _ & Hdec & _).
  apply bind_Ok in Hs as (payload & He & Hs). pose proof (signed_event_fields _ _ _ _ _ _ Hs) as (Hid & Hpk & Hsig).
  apply signed_event_verifies in Hs as (_ & _ & _ & _ & _ & Htime & _ & _ & Hc). apply decrypt_size in Hdec.
  destruct (hex_encode_plain x2 Hb2) as [Hxp Hxs].
  assert (plain_text (se_content e)) as Hcp.
  { apply encrypt_plain in He. rewrite Hc. unfold plain_text, text_string. rewrite string_bytes_string; [done|].
    eapply Forall_impl; [exact He|]. unfold plain, byte_ok. lia. }
  assert (tags_size [["p"; hex_encode x2]] = 74) as Hts.
  { cbn [tags_size tag_size foldr]. rewrite Hxs. unfold zlen. rewrite Hl2. reflexivity. }
  assert (zlen json <= 100 + text_size (se_id e) + text_size (se_pubkey e) + text_size (se_content e)
            + text_size (se_sig e) + tags_size (se_tags e)) as Hsize.
  { apply signed_json_size; [by rewrite Htime, Hk| | |exact Hj].
    - rewrite !Forall_cons, Forall_nil. tauto.
    - rewrite Ht, !Forall_cons, !Forall_nil. split_and!; try done.
      apply Forall_singleton. vm_compute. by split_and!. }
  rewrite Ht, Hts in Hsize. unfold MAX_EVENT_JSON_BYTES. unfold text_size in Hsize, Hid, Hpk, Hsig. lia.
Qed.

Lemma check_rumor_made x now identifier content rumor :
  unsigned_event (hex_encode x) now APPLICATION_DATA_KIND [["d"; identifier]] content = Ok rumor ->
  valid_identifier identifier = true -> validate_content content = Ok tt ->
  check_rumor rumor (hex_encode x)
  = Ok {| nad_content := content; nad_identifier := identifier; nad_sender_public_key := hex_encode x |}.
Proof.
  unfold unsigned_event. destruct (event_id _ _ _ _ _) as [id|?|] eqn:Hid; [|done..]. cbn [mbind outcome_bind].
  intros [= <-] Hident Hcontent. unfold check_rumor. cbn [ue_id ue_pubkey ue_created_at ue_kind ue_tags ue_content].
  rewrite Hid. cbn [mbind outcome_bind]. rewrite !bool_decide_eq_false_2 by (intros Hne; by apply Hne).
  rewrite Z.eqb_refl. cbn [negb orb reject_if mbind outcome_bind rumor_identifier]. rewrite decide_True by done.
  rewrite Hident. cbn [ok_or mbind outcome_bind]. by rewrite Hcontent.
Qed.
End envelope_lemmas.

(** ** Properties *)
Section envelope_properties.
Context `{HashFnsLaws, Schnorr, !SchnorrLaws, !Ecdh, !EcdhLaws, !ChaCha, !ChaChaLaws, !Base64, !Base64Laws}.
Context `{!NostrJson, !NostrJsonLaws, !SchnorrParse, !SchnorrParseLaws, !HexCodec, !HexLower}.

(** What a wrap is made of. *)
Definition made_of (sk1 : list Z) (x1 x2 : list Z) (identifier content : string) (now : Z) (coins : EnvelopeCoins)
    (rumor : UnsignedEvent) (rumor_json : list Z) (t1 : Z) (seal : SignedEvent) (seal_json eph : list Z) (t2 : Z)
    (wrap : SignedEvent) : Prop :=
  validate_content content = Ok tt /\ valid_identifier identifier = true
  /\ unsigned_event (hex_encode x1) now APPLICATION_DATA_KIND [["d"; identifier]] content = Ok rumor
  /\ unsigned_to_json rumor = Some rumor_json
  /\ randomized_past_timestamp now (ec_seal_offset coins) = Ok t1
  /\ (payload ← encrypt sk1 x2 rumor_json (ec_seal_nonce coins); signed_event sk1 t1 SEAL_KIND [] (text_string payload))
      = Ok seal
  /\ signed_to_json seal = Some seal_json
  /\ ephemeral_private_key (ec_ephemeral coins) = Ok eph
  /\ randomized_past_timestamp now (ec_wrap_offset coins) = Ok t2
  /\ (payload ← encrypt eph x2 seal_json (ec_wrap_nonce coins);
      signed_event eph t2 GIFT_WRAP_KIND [["p"; hex_encode x2]] (text_string payload)) = Ok wrap.

Lemma wrap_inv sk1 x1 x2 identifier content now coins json :
  nostr_public_key sk1 = Ok x1 -> length x2 = 32%nat -> Forall byte_ok x2 ->
  wrap_nostr_application_data_at sk1 (hex_encode x2) identifier content now coins = Ok json ->
  exists rumor rumor_json t1 seal seal_json eph t2 wrap,
    made_of sk1 x1 x2 identifier content now coins rumor rumor_json t1 seal seal_json eph t2 wrap
    /\ signed_to_json wrap = Some json.
Proof.
  intros Hx1 Hl2 Hb2. unfold wrap_nostr_application_data_at, made_of.
  destruct (validate_content content) as [[]|?|] eqn:Hcontent; [|done..].
  cbn [mbind outcome_bind]. destruct (valid_identifier identifier) eqn:Hident; [|done].
  cbn [negb reject_if mbind outcome_bind]. rewrite decode_encode_hex by done. cbn [mbind outcome_bind].
  rewrite Hx1. cbn [mbind outcome_bind].
  destruct (unsigned_event _ _ _ _ _) as [rumor|?|] eqn:Hrumor; [|done..]. cbn [mbind outcome_bind].
  destruct (unsigned_to_json rumor) as [rumor_json|] eqn:Hrj; [|done]. cbn [ok_or mbind outcome_bind].
  destruct (validate_nested_plaintext rumor_json); [|done..]. cbn [mbind outcome_bind].
  destruct (encrypt sk1 x2 rumor_json _) as [seal_content|?|] eqn:Hse; [|done..]. cbn [mbind outcome_bind].
  destruct (randomized_past_timestamp now (ec_seal_offset coins)) as [t1|?|] eqn:Ht1; [|done..]. cbn [mbind outcome_bind].
  destruct (signed_event sk1 t1 _ _ _) as [seal|?|] eqn:Hseal; [|done..]. cbn [mbind outcome_bind].
  destruct (signed_to_json seal) as [seal_json|] eqn:Hsj; [|done]. cbn [ok_or mbind outcome_bind].
  destruct (validate_nested_plaintext seal_json); [|done..]. cbn [mbind outcome_bind].
  destruct (ephemeral_private_key _) as [eph|?|] eqn:Heph; [|done..]. cbn [mbind outcome_bind].
  destruct (encrypt eph x2 seal_json _) as [wrap_content|?|] eqn:Hwe; [|done..]. cbn [mbind outcome_bind].
  destruct (randomized_past_timestamp now (ec_wrap_offset coins)) as [t2|?|] eqn:Ht2; [|done..]. cbn [mbind outcome_bind].
  destruct (signed_event eph t2 _ _ _) as [wrap|?|] eqn:Hwrap; [|done..]. cbn [mbind outcome_bind].
  destruct (signed_to_json wrap) as [text|] eqn:Hwj; [|done]. cbn [ok_or]. intros [= <-].
  exists rumor, rumor_json, t1, seal, seal_json, eph, t2, wrap. rewrite Hse, Hwe. cbn [mbind outcome_bind].
  rewrite Hseal, Hwrap. split_and!; first [assumption|reflexivity].
Qed.

Lemma open_seal_made sk1 sk2 x1 x2 identifier content now coins rumor rumor_json t1 seal seal_json eph t2 wrap :
  nostr_public_key sk1 = Ok x1 -> nostr_public_key sk2 = Ok x2 -> 0 <= now <= u64_MAX -> coins_ok coins ->
  made_of sk1 x1 x2 identifier content now coins rumor rumor_json t1 seal seal_json eph t2 wrap ->
  open_seal sk2 seal_json
  = Ok {| nad_content := content; nad_identifier := identifier; nad_sender_public_key := hex_encode x1 |}
  /\ Forall byte_ok seal_json /\ utf8_valid seal_json = true.
Proof.
  intros Hx1 Hx2 Hnow (Hn1 & Ho1 & _) (Hcontent & Hident & Hrumor & Hrj & Ht1 & Hseal & Hsj & _).
  destruct (unsigned_json_text rumor rumor_json Hrj) as [Hrb Hru].
  pose proof (randomized_past_timestamp_range now _ t1 Hnow Ho1 Ht1) as Hrange.
  destruct (layer_opens sk1 sk2 x1 x2 t1 SEAL_KIND [] rumor_json (ec_seal_nonce coins) seal seal_json)
    as (Hsf & Hsv & Hsk & Hst & Hsp & Hsd & Hsdec & Hsb & Hsu & _); try done.
  split; [|done]. unfold open_seal. rewrite Hsf. cbn [ok_or mbind outcome_bind]. rewrite Hsv. cbn [mbind outcome_bind].
  rewrite Hsk, Hst, Z.eqb_refl, bool_decide_eq_true_2 by done. cbn [negb orb reject_if mbind outcome_bind].
  rewrite Hsd. cbn [mbind outcome_bind]. rewrite Hsdec. cbn [mbind outcome_bind].
  rewrite (unsigned_json_roundtrip rumor rumor_json); [| |done].
  - cbn [ok_or mbind outcome_bind]. rewrite Hsp. by eapply check_rumor_made.
  - unfold unsigned_event in Hrumor. destruct (event_id _ _ _ _ _); [|done..]. by injection Hrumor as <-.
Qed.

(** C18: Application data that was wrapped for a recipient, with random draws of the right
    length, opens under the recipient's key to the same content and identifier and the sender's
    public key; in particular every gift wrap is within the size the opener accepts. *)
Theorem envelope_roundtrip sk1 sk2 x1 x2 identifier content now coins json :
  nostr_public_key sk1 = Ok x1 -> nostr_public_key sk2 = Ok x2 -> 0 <= now <= u64_MAX -> coins_ok coins ->
  wrap_nostr_application_data_at sk1 (hex_encode x2) identifier content now coins = Ok json ->
  open_nostr_application_data sk2 json
  = Ok {| nad_content := content; nad_identifier := identifier; nad_sender_public_key := hex_encode x1 |}.
Proof.
  intros Hx1 Hx2 Hnow Hcoins Hrun. destruct (nostr_public_key_bytes sk2 x2 Hx2) as [Hl2 Hb2].
  destruct (wrap_inv sk1 x1 x2 identifier content now coins json Hx1 Hl2 Hb2 Hrun)
    as (rumor & rumor_json & t1 & seal & seal_json & eph & t2 & wrap & Hmade & Hwj).
  destruct (open_seal_made sk1 sk2 x1 x2 identifier content now coins _ _ _ _ _ _ _ _ Hx1 Hx2 Hnow Hcoins Hmade)
    as (Hopen & Hsb & Hsu).
  destruct Hcoins as (_ & _ & Hn2 & Ho2), Hmade as (_ & _ & _ & _ & _ & _ & _ & Heph & Ht2 & Hwrap).
  destruct (ephemeral_loop_Ok _ _ _ Heph) as [xe Hxe].
  pose proof (randomized_past_timestamp_range now _ t2 Hnow Ho2 Ht2) as Hrange.
  destruct (layer_opens eph sk2 xe x2 t2 GIFT_WRAP_KIND [["p"; hex_encode x2]] seal_json (ec_wrap_nonce coins) wrap json)
    as (Hwf & Hwv & Hwk & Hwt & _ & Hwd & Hwdec & _ & _ & Hne); try done.
  assert (zlen json <= MAX_EVENT_JSON_BYTES) as Hsize by by eapply (layer_size eph sk2 xe x2 t2 GIFT_WRAP_KIND).
  unfold open_nostr_application_data.
  rewrite (proj2 (Z.eqb_neq _ _)) by (destruct json; [done|unfold zlen; cbn [length]; lia]).
  rewrite (proj2 (Z.ltb_ge _ _) Hsize). cbn [orb reject_if mbind outcome_bind]. rewrite Hwf. cbn [ok_or mbind outcome_bind].
  rewrite Hwv, Hx2. cbn [mbind outcome_bind]. rewrite Hwk, Hwt, Z.eqb_refl.
  rewrite bool_decide_eq_false_2 by (intros Hx; by apply Hx). cbn [negb orb reject_if mbind outcome_bind].
  rewrite Hwd. cbn [mbind outcome_bind]. rewrite Hwdec. cbn [mbind outcome_bind]. exact Hopen.
Qed.
(** A seal that was signed by [sender] and whose content the private key decrypts
    to a rumor by the same sender with this content and identifier. *)
Definition sealed_by (sk : list Z) (d : NostrApplicationData) (seal : SignedEvent) : Prop :=
  authentic seal /\ se_kind seal = SEAL_KIND /\ se_tags seal = [] /\ se_pubkey seal = nad_sender_public_key d
  /\ exists sender rumor_json rumor,
       decode_hex 32 (nad_sender_public_key d) = Ok sender
       /\ decrypt sk sender (string_bytes (se_content seal)) = Ok rumor_json
       /\ unsigned_from_json rumor_json = Some rumor
       /\ ue_pubkey rumor = nad_sender_public_key d /\ ue_kind rumor = APPLICATION_DATA_KIND
       /\ ue_tags rumor = [["d"; nad_identifier d]] /\ ue_content rumor = nad_content d.

Lemma validate_content_Ok content :
  validate_content content = Ok tt <-> 1 <= zlen (string_bytes content) <= MAX_CONTENT_BYTES.
Proof.
  unfold validate_content. rewrite reject_if_Ok, orb_false_iff, Z.eqb_neq, Z.ltb_ge. unfold zlen. lia.
Qed.

Lemma check_rumor_Ok rumor pk d :
  check_rumor rumor pk = Ok d ->
  ue_pubkey rumor = pk /\ nad_sender_public_key d = pk /\ ue_kind rumor = APPLICATION_DATA_KIND
  /\ ue_tags rumor = [["d"; nad_identifier d]] /\ ue_content rumor = nad_content d
  /\ valid_identifier (nad_identifier d) = true /\ 1 <= zlen (string_bytes (nad_content d)) <= MAX_CONTENT_BYTES.
Proof.
  unfold check_rumor. destruct (event_id _ _ _ _ _) as [id|?|]; [|done..]. cbn [mbind outcome_bind].
  destruct (_ || _) eqn:Hg; [done|]. cbn [reject_if mbind outcome_bind].
  apply orb_false_iff in Hg as [[_ Hpk%bool_decide_eq_false%dec_stable]%orb_false_iff Hk%negb_false_iff%Z.eqb_eq].
  destruct (rumor_identifier (ue_tags rumor)) as [identifier|] eqn:Hid; [|done]. cbn [ok_or mbind outcome_bind].
  destruct (validate_content (ue_content rumor)) as [[]|?|] eqn:Hc; [|done..]. cbn [mbind outcome_bind].
  intros [= <-]. cbn [nad_content nad_identifier nad_sender_public_key]. apply validate_content_Ok in Hc.
  unfold rumor_identifier in Hid. destruct (ue_tags rumor) as [|[|t0 [|t1 [|]]] [|]]; try done.
  destruct (decide (t0 = "d")) as [->|]; [|done]. destruct (valid_identifier t1) eqn:Hv; [|done].
  injection Hid as <-. done.
Qed.

Lemma open_seal_Ok sk seal_json d :
  open_seal sk seal_json = Ok d ->
  exists seal, signed_from_json seal_json = Some seal /\ sealed_by sk d seal
    /\ valid_identifier (nad_identifier d) = true /\ 1 <= zlen (string_bytes (nad_content d)) <= MAX_CONTENT_BYTES.
Proof.
  unfold open_seal. destruct (signed_from_json seal_json) as [seal|]; [|done]. cbn [ok_or mbind outcome_bind].
  destruct (verify_event seal) as [[]|?|] eqn:Hv; [|done..]. apply verify_event_Ok in Hv as [Hauth _].
  cbn [mbind outcome_bind]. destruct (_ || _) eqn:Hg; [done|]. cbn [reject_if mbind outcome_bind].
  apply orb_false_iff in Hg as [Hk%negb_false_iff%Z.eqb_eq Ht%negb_false_iff%bool_decide_eq_true].
  destruct (decode_hex 32 (se_pubkey seal)) as [sender|?|] eqn:Hs; [|done..]. cbn [mbind outcome_bind].
  destruct (decrypt sk sender _) as [rumor_json|?|] eqn:Hd; [|done..]. cbn [mbind outcome_bind].
  destruct (unsigned_from_json rumor_json) as [rumor|] eqn:Hr; [|done]. cbn [ok_or mbind outcome_bind].
  intros (Hpk & Hpk' & Hkind & Htags & Hcontent & Hident & Hlen)%check_rumor_Ok.
  exists seal. split; [done|]. split; [|done]. unfold sealed_by. rewrite Hpk'. split_and!; try done.
  by exists sender, rumor_json, rumor.
Qed.

Lemma open_seal_total sk seal_json : open_seal sk seal_json <> Panic.
Proof.
  unfold open_seal. destruct (signed_from_json seal_json) as [seal|]; [|done]. cbn [ok_or mbind outcome_bind].
  pose proof (verify_event_total seal). destruct (verify_event seal) as [[]|?|]; [|done..]. cbn [mbind outcome_bind].
  destruct (_ || _); [done|]. cbn [reject_if mbind outcome_bind]. pose proof (decode_hex_total 32 (se_pubkey seal)).
  destruct (decode_hex 32 (se_pubkey seal)) as [sender|?|]; [|done..]. cbn [mbind outcome_bind].
  pose proof (decrypt_total sk sender (string_bytes (se_content seal))).
  destruct (decrypt sk sender _) as [rumor_json|?|]; [|done..]. cbn [mbind outcome_bind].
  destruct (unsigned_from_json rumor_json) as [rumor|]; [|done]. cbn [ok_or mbind outcome_bind]. unfold check_rumor.
  pose proof (event_id_total (ue_pubkey rumor) (ue_created_at rumor) (ue_kind rumor) (ue_tags rumor) (ue_content rumor)).
  destruct (event_id _ _ _ _ _) as [id|?|]; [|done..]. cbn [mbind outcome_bind].
  destruct (_ || _); [done|]. cbn [reject_if mbind outcome_bind]. destruct (rumor_identifier _); [|done].
  cbn [ok_or mbind outcome_bind]. unfold validate_content. by destruct (_ || _).
Qed.

(** C17: Opening a gift wrap never panics; what it returns has bounded content and a valid
    identifier and is vouched for by its sender: the wrap is authentic and addressed to this
    key, and the seal inside is signed by the sender named and decrypts to a rumor of that
    sender with this content. *)
Theorem envelope_authentic sk x json :
  nostr_public_key sk = Ok x ->
  open_nostr_application_data sk json <> Panic
  /\ forall d, open_nostr_application_data sk json = Ok d ->
     1 <= zlen (string_bytes (nad_content d)) <= MAX_CONTENT_BYTES /\ valid_identifier (nad_identifier d) = true
     /\ exists wrap wrap_key seal_json seal,
          signed_from_json json = Some wrap /\ authentic wrap /\ se_kind wrap = GIFT_WRAP_KIND
          /\ se_tags wrap = [["p"; hex_encode x]] /\ decode_hex 32 (se_pubkey wrap) = Ok wrap_key
          /\ decrypt sk wrap_key (string_bytes (se_content wrap)) = Ok seal_json
          /\ signed_from_json seal_json = Some seal /\ sealed_by sk d seal.
Proof.
  intros Hx. unfold open_nostr_application_data. destruct (_ || _); [done|]. cbn [reject_if mbind outcome_bind].
  destruct (signed_from_json json) as [wrap|]; [|done]. cbn [ok_or mbind outcome_bind].
  pose proof (verify_event_total wrap). destruct (verify_event wrap) as [[]|?|] eqn:Hv; [|done..].
  apply verify_event_Ok in Hv as [Hauth _]. rewrite Hx. cbn [mbind outcome_bind].
  destruct (_ || _) eqn:Hg; [done|]. cbn [reject_if mbind outcome_bind].
  apply orb_false_iff in Hg as [Hk%negb_false_iff%Z.eqb_eq Ht%bool_decide_eq_false%dec_stable].
  pose proof (decode_hex_total 32 (se_pubkey wrap)).
  destruct (decode_hex 32 (se_pubkey wrap)) as [wrap_key|?|] eqn:Hw; [|done..]. cbn [mbind outcome_bind].
  pose proof (decrypt_total sk wrap_key (string_bytes (se_content wrap))).
  destruct (decrypt sk wrap_key _) as [seal_json|?|] eqn:Hd; [|done..]. cbn [mbind outcome_bind].
  split; [apply open_seal_total|]. intros d (seal & Hseal & Hby & Hident & Hlen)%open_seal_Ok.
  split_and!; try done || lia. by exists wrap, wrap_key, seal_json, seal.
Qed.
End envelope_properties.

(** ** Witnesses *)

(** A concrete encoding of events: each field with plain bytes as they are, the others as
    a backslash and two letters, ended by a quote. *)
Definition is_plain (c : Z) : bool := in_range 32 126 c && negb (c =? 34) && negb (c =? 92).
Definition escape (b : Z) : list Z := if is_plain b then [b] else [92; 65 + b / 16; 65 + b mod 16].
Definition letters (bs : list Z) : list Z := flat_map escape bs ++ [34].
Definition write_fields (fields : list (list Z)) : list Z := flat_map letters fields.

Fixpoint read_fields (l cur : list Z) : option (list (list Z)) :=
  match l with
  | [] => Some []
  | a :: l =>
      if a =? 34 then fields ← read_fields l []; Some (rev cur :: fields)
      else if a =? 92
      then match l with b :: c :: l => read_fields l ((b - 65) * 16 + (c - 65) :: cur) | _ => None end
      else read_fields l (a :: cur)
  end.

Lemma is_plain_spec c : is_plain c = true <-> plain c.
Proof.
  unfold is_plain, plain. rewrite !andb_true_iff, !negb_true_iff, in_range_spec, !Z.eqb_neq. tauto.
Qed.

Lemma read_letters bs rest cur :
  Forall byte_ok bs ->
  read_fields (letters bs ++ rest) cur = (fields ← read_fields rest []; Some ((rev cur ++ bs) :: fields)).
Proof.
  intros Hb. revert cur. unfold letters. induction Hb as [|b bs Hb _ IH]; intros cur.
  { cbn. by rewrite app_nil_r. }
  cbn [flat_map]. rewrite <- !(app_assoc (escape b)).
  assert (forall l, read_fields (escape b ++ l) cur = read_fields l (b :: cur)) as ->.
  { intros l. unfold escape. destruct (is_plain b) eqn:Hp.
    - apply is_plain_spec in Hp as (_ & H34 & H92). cbn [app read_fields].
      by rewrite (proj2 (Z.eqb_neq _ _) H34), (proj2 (Z.eqb_neq _ _) H92).
    - cbn [app read_fields Z.eqb Pos.eqb]. unfold byte_ok in Hb.
      replace ((65 + b / 16 - 65) * 16 + (65 + b mod 16 - 65)) with b by (pose proof (Z.div_mod b 16); lia). done. }
  rewrite IH. cbn [rev]. by rewrite <- app_assoc.
Qed.

Lemma read_write_fields fields : Forall (Forall byte_ok) fields -> read_fields (write_fields fields) [] = Some fields.
Proof.
  induction 1 as [|bs fields Hb _ IH]; [done|]. cbn [write_fields flat_map].
  rewrite read_letters by done. fold (write_fields fields). by rewrite IH.
Qed.

Lemma utf8_ascii l : Forall (fun c => 0 <= c < 128) l -> utf8_valid l = true.
Proof.
  induction 1 as [|c l Hc _ IH]; [done|]. cbn [utf8_valid].
  assert (in_range 0 0x7F c = true) as -> by (apply in_range_spec; lia). exact IH.
Qed.

Lemma write_fields_ascii fields :
  Forall (Forall byte_ok) fields -> Forall (fun c => 0 <= c < 128) (write_fields fields).
Proof.
  intros Hf. apply Forall_flat_map. eapply Forall_impl; [exact Hf|]. intros bs Hb.
  apply Forall_app. split; [|repeat constructor; lia]. apply Forall_flat_map.
  eapply Forall_impl; [exact Hb|]. intros b Hb'. unfold byte_ok in Hb'. unfold escape.
  destruct (is_plain b) eqn:Hp; [apply is_plain_spec in Hp; unfold plain in Hp; repeat constructor; lia|].
  assert (0 <= b / 16 < 16) as Hq by (split; [apply Z.div_pos|apply Z.div_lt_upper_bound]; lia).
  pose proof (Z.mod_pos_bound b 16). repeat constructor; lia.
Qed.

(** Tags as fields: a marked field per element, an empty field after each tag. *)
Definition tag_fields (tags : list (list string)) : list (list Z) :=
  flat_map (fun tag => map (fun s => 49 :: string_bytes s) tag ++ [[]]) tags.

Fixpoint read_tags (fields : list (list Z)) (cur : list string) : option (list (list string)) :=
  match fields with
  | [] => Some []
  | [] :: fields => tags ← read_tags fields []; Some (rev cur :: tags)
  | (_ :: bs) :: fields => read_tags fields (bytes_string bs :: cur)
  end.

Lemma read_tag_fields tags : read_tags (tag_fields tags) [] = Some tags.
Proof.
  assert (forall tag cur rest, read_tags (map (fun s => 49 :: string_bytes s) tag ++ [] :: rest) cur
    = (tags ← read_tags rest []; Some ((rev cur ++ tag) :: tags))) as Htag.
  { induction tag as [|s tag IH]; intros cur rest; cbn [map app read_tags]; [by rewrite app_nil_r|].
    rewrite IH, bytes_string_bytes. cbn [rev]. by rewrite <- app_assoc. }
  induction tags as [|tag tags IH]; [done|]. cbn [tag_fields flat_map]. rewrite <- app_assoc. cbn [app].
  rewrite Htag. fold (tag_fields tags). by rewrite IH.
Qed.

Lemma string_bytes_ok s : Forall byte_ok (string_bytes s).
Proof.
  apply Forall_map, Forall_true. intros a. unfold byte_ok.
  pose proof (Ascii.N_ascii_bounded a). split; [apply N2Z.is_nonneg|lia].
Qed.

Definition event_fields (e : SignedEvent) : list (list Z) :=
  [string_bytes (se_id e); string_bytes (se_pubkey e); be_bytes 8 (se_created_at e); be_bytes 8 (se_kind e);
   string_bytes (se_content e); string_bytes (se_sig e)] ++ tag_fields (se_tags e).

Definition read_event (l : list Z) : option SignedEvent :=
  fields ← read_fields l [];
  match fields with
  | id :: pk :: t :: k :: content :: sig :: tags =>
      tags ← read_tags tags [];
      Some (mk_SignedEvent (bytes_string id) (bytes_string pk) (be_value t) (be_value k) tags (bytes_string content)
              (bytes_string sig))
  | _ => None
  end.

Lemma event_fields_ok e : Forall (Forall byte_ok) (event_fields e).
Proof.
  unfold event_fields. rewrite Forall_app. split.
  - rewrite !Forall_cons, Forall_nil. split_and!; first [apply string_bytes_ok|apply be_bytes_ok|done].
  - apply Forall_flat_map, Forall_true. intros tag. apply Forall_app. split; [|by repeat constructor].
    apply Forall_map, Forall_true. intros s. constructor; [unfold byte_ok; lia|apply string_bytes_ok].
Qed.

Lemma read_write_event e :
  event_numbers_ok (se_created_at e) (se_kind e) -> read_event (write_fields (event_fields e)) = Some e.
Proof.
  intros [Ht Hk]. unfold read_event. rewrite read_write_fields by apply event_fields_ok. cbn [mbind option_bind event_fields app].
  rewrite read_tag_fields. cbn [mbind option_bind]. rewrite !bytes_string_bytes, !be_value_be_bytes.
  unfold u64_MAX in Ht. rewrite !Z.mod_small by (change (256 ^ Z.of_nat 8) with (2 ^ 64); lia). by destruct e.
Qed.

(** Sizes: a byte takes at most three, a plain one takes one. *)
Lemma escape_size b : zlen (escape b) <= 3 /\ (plain b -> zlen (escape b) = 1).
Proof.
  unfold escape. destruct (is_plain b) eqn:Hp; [done|]. split; [done|]. intros Hb%is_plain_spec. congruence.
Qed.

Lemma letters_size bs : zlen (letters bs) <= 3 * zlen bs + 1.
Proof.
  unfold letters, zlen. rewrite length_app. induction bs as [|b bs IH]; [done|]. cbn [flat_map]. rewrite length_app.
  pose proof (proj1 (escape_size b)). unfold zlen in *. cbn [length] in *. lia.
Qed.

Lemma letters_plain bs : Forall plain bs -> zlen (letters bs) = zlen bs + 1.
Proof.
  unfold letters, zlen. rewrite length_app. induction 1 as [|b bs Hb _ IH]; [done|]. cbn [flat_map]. rewrite length_app.
  pose proof (proj2 (escape_size b) Hb). unfold zlen in *. cbn [length] in *. lia.
Qed.

Lemma write_fields_cons bs fields : zlen (write_fields (bs :: fields)) = zlen (letters bs) + zlen (write_fields fields).
Proof. unfold write_fields, zlen. cbn [flat_map]. rewrite length_app. lia. Qed.

Lemma write_fields_app f1 f2 : zlen (write_fields (f1 ++ f2)) = zlen (write_fields f1) + zlen (write_fields f2).
Proof. unfold write_fields, zlen. rewrite flat_map_app, length_app. lia. Qed.

Lemma write_tags_size tags :
  Forall (Forall plain_text) tags -> zlen (write_fields (tag_fields tags)) <= tags_size tags.
Proof.
  induction 1 as [|tag tags Htag _ IH]; [done|]. cbn [tag_fields flat_map tags_size foldr].
  fold (tag_fields tags) (tags_size tags). rewrite write_fields_app.
  enough (zlen (write_fields (map (fun s => 49 :: string_bytes s) tag ++ [[]])) <= tag_size tag) by lia.
  induction Htag as [|s tag Hs _ IHt]; [done|]. cbn [map app tag_size foldr]. fold (tag_size tag).
  rewrite write_fields_cons, letters_plain by (constructor; [unfold plain; lia|exact Hs]).
  unfold text_size, zlen in *. cbn [length]. lia.
Qed.

Lemma event_size e :
  Forall plain_text [se_id e; se_pubkey e; se_content e; se_sig e] -> Forall (Forall plain_text) (se_tags e) ->
  zlen (write_fields (event_fields e))
  <= 100 + text_size (se_id e) + text_size (se_pubkey e) + text_size (se_content e) + text_size (se_sig e)
     + tags_size (se_tags e).
Proof.
  rewrite !Forall_cons. intros (Hid & Hpk & Hc & Hs & _) Ht%write_tags_size. unfold event_fields.
  rewrite write_fields_app, !write_fields_cons.
  rewrite (letters_plain _ Hid), (letters_plain _ Hpk), (letters_plain _ Hc), (letters_plain _ Hs). change (write_fields []) with (@nil Z).
  pose proof (letters_size (be_bytes 8 (se_created_at e))). pose proof (letters_size (be_bytes 8 (se_kind e))).
  unfold text_size, zlen in *. rewrite !length_be_bytes in *. cbn [length]. lia.
Qed.

Definition sign_off (e : UnsignedEvent) : SignedEvent :=
  mk_SignedEvent (ue_id e) (ue_pubkey e) (ue_created_at e) (ue_kind e) (ue_tags e) (ue_content e) "".
Definition unsign (e : SignedEvent) : UnsignedEvent :=
  mk_UnsignedEvent (se_id e) (se_pubkey e) (se_created_at e) (se_kind e) (se_tags e) (se_content e).

#[local] Instance demo_nostr_json : NostrJson := {|
  canonical_json pk t k tags content := Some (write_fields (event_fields (mk_SignedEvent "" pk t k tags content "")));
  unsigned_to_json e := Some (write_fields (event_fields (sign_off e)));
  unsigned_from_json l := unsign <$> read_event l;
  signed_to_json e := Some (write_fields (event_fields e)); signed_from_json := read_event |}.

Lemma event_text e :
  let text := write_fields (event_fields e) in Forall byte_ok text /\ utf8_valid text = true /\ text <> [].
Proof.
  pose proof (write_fields_ascii _ (event_fields_ok e)) as Ha. split_and!; [|by apply utf8_ascii|].
  - eapply Forall_impl; [exact Ha|]. intros c Hc. cbn beta in Hc. unfold byte_ok. lia.
  - unfold write_fields, event_fields. cbn [flat_map app]. unfold letters at 1.
    destruct (flat_map escape (string_bytes (se_id e))); discriminate.
Qed.

#[local] Instance demo_nostr_json_laws : NostrJsonLaws.
Proof.
  split; cbn [unsigned_to_json unsigned_from_json signed_to_json signed_from_json demo_nostr_json].
  - intros e text Hnum Ht. apply (inj Some) in Ht as <-. rewrite read_write_event by exact Hnum. by destruct e.
  - intros e text Ht. apply (inj Some) in Ht as <-. by destruct (event_text (sign_off e)) as (? & ? & _).
  - intros e text Hnum Ht. apply (inj Some) in Ht as <-. by apply read_write_event.
  - intros e text Ht. apply (inj Some) in Ht as <-. apply event_text.
  - intros e text _ Hp Hts Ht. apply (inj Some) in Ht as <-. by apply event_size.
Qed.

#[local] Existing Instance demo_hex.
#[local] Existing Instance model_hashes.
#[local] Existing Instance model_hashes_laws.
#[local] Existing Instance model_schnorr.
#[local] Existing Instance model_schnorr_laws.
#[local] Existing Instance model_ecdh.
#[local] Existing Instance model_ecdh_laws.
#[local] Existing Instance model_chacha.
#[local] Existing Instance model_chacha_laws.
#[local] Existing Instance model_base64.
#[local] Existing Instance model_base64_laws.

#[local] Instance demo_parse : SchnorrParse := {| verifying_key_parses _ := true; signature_parses _ := true |}.
#[local] Instance demo_parse_laws : SchnorrParseLaws.
Proof. by split. Qed.

#[local] Instance demo_hex_lower : HexLower.
Proof.
  split. intros bs Hb. cbn [hex_encode demo_hex]. unfold demo_encode.
  rewrite string_bytes_string by (apply hexdigits_bytes, (proj1 (encode_digits bs Hb))).
  induction Hb as [|b bs Hb _ IH]; [done|]. cbn [flat_map]. unfold byte_ok in Hb.
  rewrite map_app, IH. f_equal. apply (hex_print_spec 2 b). lia.
Qed.

Definition demo_coins : EnvelopeCoins :=
  {| ec_seal_nonce := Some (replicate 32 9); ec_seal_offset := Some (replicate 8 1);
     ec_ephemeral := [Some (replicate 32 0); Some (replicate 31 0 ++ [4])];
     ec_wrap_nonce := Some (replicate 32 8); ec_wrap_offset := Some (replicate 8 2) |}.

Lemma demo_coins_ok : coins_ok demo_coins.
Proof.
  unfold coins_ok, demo_coins, draw_ok. cbn [ec_seal_nonce ec_seal_offset ec_wrap_nonce ec_wrap_offset].
  split_and!; intros bytes Hb; apply (inj Some) in Hb as <-; (split; [reflexivity|]); apply Forall_replicate;
    unfold byte_ok; lia.
Qed.

(** The second ephemeral draw is the first valid key. *)
Lemma envelope_roundtrip_witness :
  exists json,
    wrap_nostr_application_data_at (replicate 31 0 ++ [3]) (hex_encode (replicate 32 1)) "app" "hi" 1700000000 demo_coins
      = Ok json
    /\ open_nostr_application_data (replicate 31 0 ++ [5]) json
       = Ok {| nad_content := "hi"; nad_identifier := "app"; nad_sender_public_key := hex_encode (replicate 32 1) |}.
Proof.
  assert (nostr_public_key (replicate 31 0 ++ [3]) = Ok (replicate 32 1)) as Hx1 by (vm_compute; reflexivity).
  assert (nostr_public_key (replicate 31 0 ++ [5]) = Ok (replicate 32 1)) as Hx2 by (vm_compute; reflexivity).
  destruct (wrap_nostr_application_data_at (replicate 31 0 ++ [3]) (hex_encode (replicate 32 1)) "app" "hi" 1700000000
    demo_coins) as [json|e|] eqn:Hwrap; [|exfalso; revert Hwrap; vm_compute; discriminate..].
  exists json. split; [reflexivity|].
  refine (envelope_roundtrip _ _ _ _ "app" "hi" 1700000000 demo_coins json Hx1 Hx2 _ demo_coins_ok Hwrap).
  unfold u64_MAX. lia.
Defined.

Lemma envelope_authentic_witness :
  let sk := replicate 31 0 ++ [5] in
  let d := {| nad_content := "hi"; nad_identifier := "app"; nad_sender_public_key := hex_encode (replicate 32 1) |} in
  exists json seal, open_nostr_application_data sk json = Ok d /\ sealed_by sk d seal.
Proof.
  assert (nostr_public_key (replicate 31 0 ++ [5]) = Ok (replicate 32 1)) as Hx by (vm_compute; reflexivity).
  assert ((json ← wrap_nostr_application_data_at (replicate 31 0 ++ [3]) (hex_encode (replicate 32 1)) "app" "hi"
             1700000000 demo_coins; open_nostr_application_data (replicate 31 0 ++ [5]) json)
    = Ok {| nad_content := "hi"; nad_identifier := "app"; nad_sender_public_key := hex_encode (replicate 32 1) |}) as Hopen
    by (vm_compute; reflexivity).
  apply bind_Ok in Hopen as (json & _ & Hopen). exists json.
  destruct (proj2 (envelope_authentic _ _ json Hx) _ Hopen) as (_ & _ & wrap & key & seal_json & seal & Hall).
  exists seal. split; [exact Hopen|apply Hall].
Defined.
