(* ===== verification/Keystore.v ===== *)
(** * Encryption at rest

    crates/kms/src/encryption.rs (private keys and payloads under XChaCha20-Poly1305 with
    scrypt) and crates/kms/src/keystore.rs (the native keystore and the import of Web3
    Secret Storage).

    Text is its UTF-8 bytes.  scrypt is an argument, so that what it is asked to do can be
    stated; the ciphers are [Aead] and [AesCtr], hashing [Keccak], hexadecimal text
    [HexCodec] and serde_json [KeystoreJson].  Random salts and nonces are arguments.
    Zeroizing is not modelled. *)

From stdpp Require Import base option list numbers strings.
From Stdlib Require Import ZArith Lia Zdiv.
From S2P Require Import Prelude StarkLib Types Text Primitives Requests Strk20 Runtime.

#[local] Open Scope string_scope.
#[local] Open Scope list_scope.
#[local] Open Scope Z_scope.

Definition XNONCE_LEN : nat := 24.
Definition SCRYPT_N_MIN : Z := 2 ^ 10.
Definition SCRYPT_N_MAX : Z := 2 ^ 20.
Definition V3_DKLEN : nat := 32.
Definition V3_IV_LEN : nat := 16.
Definition SCRYPT_R_MAX : Z := 32.
Definition SCRYPT_P_MAX : Z := 16.
Definition SCRYPT_DKLEN_MIN : Z := 32.
Definition SCRYPT_DKLEN_MAX : Z := 64.
Definition SCRYPT_MEMORY_CEILING_BYTES : Z := 256 * 1024 * 1024.
Definition MAX_KEYSTORE_SALT_BYTES : nat := 128.

(** [ScryptParams::new] of log2 N, r and p, and the function itself: password, salt,
    parameters and output length; [None] is an error. *)
Record Scrypt : Type := {
  params_new : Z -> Z -> Z -> bool;
  scrypt : list Z -> list Z -> Z * Z * Z -> nat -> option (list Z) }.

(** XChaCha20-Poly1305 with a 32-byte key and a 24-byte nonce. *)
Class Aead : Type := {
  aead_encrypt : list Z -> list Z -> list Z -> option (list Z);
  aead_decrypt : list Z -> list Z -> list Z -> option (list Z) }.
Class AeadLaws `{Aead} : Prop := {
  aead_back key nonce plaintext ciphertext :
    aead_encrypt key nonce plaintext = Some ciphertext -> aead_decrypt key nonce ciphertext = Some plaintext;
  aead_bytes key nonce plaintext ciphertext :
    Forall byte_ok plaintext -> aead_encrypt key nonce plaintext = Some ciphertext -> Forall byte_ok ciphertext }.

(** AES-128 in counter mode. *)
Class AesCtr : Type := { apply_keystream : list Z -> list Z -> list Z -> list Z }.

(** The native keystore document. *)
Record NativeKeystore : Type := {
  nk_version : Z; nk_cipher : string; nk_kdf : string; nk_n : Z; nk_r : Z; nk_p : Z; nk_dklen : Z;
  nk_salt : string; nk_nonce : string; nk_ciphertext : string }.

(** serde_json: parsing, the value at a path of keys as an unsigned 64-bit integer or a
    string, and printing the document. *)
Class KeystoreJson : Type := {
  KsValue : Type;
  ks_parse : list Z -> option KsValue;
  as_u64 : KsValue -> list string -> option Z;
  as_str : KsValue -> list string -> option string;
  ks_print : NativeKeystore -> option (list Z) }.
Class KeystoreJsonLaws `{KeystoreJson} : Prop := {
  as_u64_range v path z : as_u64 v path = Some z -> 0 <= z < 2 ^ 64;
  ks_print_parse k text : ks_print k = Some text ->
    exists v, ks_parse text = Some v /\ as_u64 v ["version"] = Some (nk_version k)
      /\ as_u64 v ["crypto"; "kdfparams"; "n"] = Some (nk_n k)
      /\ as_str v ["crypto"; "kdfparams"; "salt"] = Some (nk_salt k)
      /\ as_str v ["crypto"; "nonce"] = Some (nk_nonce k)
      /\ as_str v ["crypto"; "ciphertext"] = Some (nk_ciphertext k) }.

(** [u32::is_power_of_two] and [u32::trailing_zeros]. *)
Definition is_power_of_two (n : Z) : bool := (0 <? n) && (n =? 2 ^ Z.log2 n).
Fixpoint pos_trailing_zeros (p : positive) : Z :=
  match p with xO p => 1 + pos_trailing_zeros p | _ => 0 end.
Definition trailing_zeros (n : Z) : Z := match n with Zpos p => pos_trailing_zeros p | _ => 32 end.

Section encryption.
Context (S : Scrypt) `{!Aead, !HexCodec}.

Record EncryptedKey : Type := { ek_nonce : list Z; ek_salt : list Z; ek_encrypted_key : list Z }.
Record EncryptedPayload : Type := { ep_nonce : list Z; ep_ciphertext : list Z }.

Definition xnonce (nonce : list Z) : Result (list Z) :=
  _ ← reject_if (negb (length nonce =? XNONCE_LEN)%nat)
        (DeserializationError "Invalid nonce length: expected {XNONCE_LEN} bytes, got {}");
  Ok nonce.

Definition scrypt_log_n (n : Z) : Result Z :=
  _ ← reject_if (negb ((SCRYPT_N_MIN <=? n) && (n <=? SCRYPT_N_MAX)) || negb (is_power_of_two n))
        (CryptoError "Invalid scrypt N={n}: must be a power of 2 in [{}, {}]");
  Ok (trailing_zeros n).

Definition derive_scrypt_key (password kdf_salt : list Z) (n : Z) : Result (list Z) :=
  log_n ← scrypt_log_n n;
  _ ← reject_if (negb (params_new S log_n 8 1)) (CryptoError "Invalid scrypt params: {e}");
  ok_or (scrypt S password kdf_salt (log_n, 8, 1) 32%nat) (CryptoError "Scrypt KDF failed: {e}").

(** [new_from_slice]: a key has 32 bytes. *)
Definition new_from_slice (key : list Z) : Result unit :=
  reject_if (negb (length key =? 32)%nat) (CryptoError "Invalid key: {e}").

Definition strip_0x (s : string) : string :=
  let bytes := string_bytes s in bytes_string (default bytes (strip_prefix px bytes)).

Definition encrypt_private_key (salt nonce_bytes : list Z) (private_key_hex : string) (password : list Z) (scrypt_n : Z)
    : Result EncryptedKey :=
  key ← derive_scrypt_key password salt scrypt_n;
  plaintext ← ok_or (hex_decode (strip_0x private_key_hex)) (CryptoError "Invalid hex: {e}");
  _ ← new_from_slice key;
  ciphertext ← ok_or (aead_encrypt key nonce_bytes plaintext) (CryptoError "Encryption failed: {e}");
  Ok {| ek_nonce := nonce_bytes; ek_salt := salt; ek_encrypted_key := ciphertext |}.

Definition decrypt_private_key (encrypted : EncryptedKey) (password : list Z) (scrypt_n : Z) : Result string :=
  nonce ← xnonce (ek_nonce encrypted);
  key ← derive_scrypt_key password (ek_salt encrypted) scrypt_n;
  _ ← new_from_slice key;
  plaintext ← ok_or (aead_decrypt key nonce (ek_encrypted_key encrypted)) (CryptoError "Decryption failed: {e}");
  Ok (hex_encode plaintext).

Definition encrypt_with_key (nonce_bytes plaintext key : list Z) : Result EncryptedPayload :=
  _ ← new_from_slice key;
  ciphertext ← ok_or (aead_encrypt key nonce_bytes plaintext) (CryptoError "Encryption failed: {e}");
  Ok {| ep_nonce := nonce_bytes; ep_ciphertext := ciphertext |}.

Definition decrypt_with_key (payload : EncryptedPayload) (key : list Z) : Result (list Z) :=
  _ ← new_from_slice key;
  nonce ← xnonce (ep_nonce payload);
  ok_or (aead_decrypt key nonce (ep_ciphertext payload)) (CryptoError "Decryption failed: {e}").
End encryption.

(** ** Keystores *)
Section keystore.
Context (S : Scrypt) `{!Aead, !AesCtr, !HexCodec, !Keccak, !KeystoreJson}.

Definition parse_u32_kdf_param (value : option Z) : Result Z :=
  n ← ok_or value (DeserializationError "Missing kdfparams.{field}");
  _ ← reject_if (2 ^ 32 <=? n) (DeserializationError "kdfparams.{field} exceeds u32 range (got {n})");
  Ok n.

(** [usize] has 64 bits. *)
Definition parse_usize_kdf_param (value : option Z) : Result Z :=
  n ← ok_or value (DeserializationError "Missing kdfparams.{field}");
  _ ← reject_if (2 ^ 64 <=? n) (DeserializationError "kdfparams.{field} exceeds usize range (got {n})");
  Ok n.

(** A hexadecimal field: missing, then malformed. *)
Definition hex_field (value : option string) : Result (list Z) :=
  text ← ok_or value (DeserializationError "Missing {field}");
  ok_or (hex_decode text) (DeserializationError "Invalid {field} hex: {e}").

Definition decode_salt (value : option string) : Result (list Z) :=
  salt ← hex_field value;
  _ ← reject_if (MAX_KEYSTORE_SALT_BYTES <? length salt)%nat (DeserializationError "kdfparams.salt is {} bytes (limit {})");
  Ok salt.

Definition saturating_mul_u64 (a b : Z) : Z := Z.min (a * b) (2 ^ 64 - 1).

Definition validate_scrypt_resource_params (n r p dklen : Z) : Result unit :=
  _ ← scrypt_log_n n;
  _ ← reject_if (negb ((1 <=? r) && (r <=? SCRYPT_R_MAX))) (DeserializationError "kdfparams.r={r} outside allowed range");
  _ ← reject_if (negb ((1 <=? p) && (p <=? SCRYPT_P_MAX))) (DeserializationError "kdfparams.p={p} outside allowed range");
  _ ← reject_if (negb ((SCRYPT_DKLEN_MIN <=? dklen) && (dklen <=? SCRYPT_DKLEN_MAX)))
        (DeserializationError "kdfparams.dklen={dklen} outside allowed range");
  let memory := saturating_mul_u64 (saturating_mul_u64 n r) 128 in
  reject_if (SCRYPT_MEMORY_CEILING_BYTES <? memory) (DeserializationError "scrypt params request ~{memory} bytes of memory").

Definition encrypt_keystore (salt nonce_bytes mnemonic password : list Z) (scrypt_n : Z) : Result (list Z) :=
  _ ← validate_scrypt_resource_params scrypt_n 8 1 32;
  key ← derive_scrypt_key S password salt scrypt_n;
  payload ← encrypt_with_key nonce_bytes mnemonic key;
  ok_or (ks_print {| nk_version := 1; nk_cipher := "xchacha20-poly1305"; nk_kdf := "scrypt"; nk_n := scrypt_n; nk_r := 8;
                     nk_p := 1; nk_dklen := 32; nk_salt := hex_encode salt; nk_nonce := hex_encode (ep_nonce payload);
                     nk_ciphertext := hex_encode (ep_ciphertext payload) |})
    (SerializationError "Failed to serialize keystore: {e}").

Definition decrypt_keystore (keystore_json password : list Z) : Result (list Z) :=
  v ← ok_or (ks_parse keystore_json) (DeserializationError "Invalid keystore JSON: {e}");
  version ← ok_or (as_u64 v ["version"]) (DeserializationError "Missing version field");
  _ ← reject_if (negb (version =? 1)) (DeserializationError "Unsupported keystore version: {version}");
  salt ← decode_salt (as_str v ["crypto"; "kdfparams"; "salt"]);
  n ← parse_u32_kdf_param (as_u64 v ["crypto"; "kdfparams"; "n"]);
  _ ← validate_scrypt_resource_params n 8 1 32;
  nonce ← hex_field (as_str v ["crypto"; "nonce"]);
  ciphertext ← hex_field (as_str v ["crypto"; "ciphertext"]);
  _ ← xnonce nonce;
  key ← derive_scrypt_key S password salt n;
  plaintext ← decrypt_with_key {| ep_nonce := nonce; ep_ciphertext := ciphertext |} key;
  _ ← reject_if (negb (utf8_valid plaintext)) (CryptoError "Decrypted keystore is not valid UTF-8: {e}");
  Ok plaintext.

(** [bytes[lo..hi]], a panic out of range. *)
Definition byte_slice (bytes : list Z) (lo hi : nat) : Result (list Z) :=
  if (hi <=? length bytes)%nat && (lo <=? hi)%nat then Ok (take (hi - lo) (drop lo bytes)) else Panic.

(** [Aes128Ctr::new_from_slices(..).expect(..)] and the keystream. *)
Definition aes_decrypt (aes_key iv ciphertext : list Z) : Result (list Z) :=
  if (length aes_key =? 16)%nat && (length iv =? 16)%nat then Ok (apply_keystream aes_key iv ciphertext) else Panic.

Definition decrypt_ethers_keystore (keystore_json password : list Z) : Result string :=
  v ← ok_or (ks_parse keystore_json) (DeserializationError "Invalid keystore JSON: {e}");
  version ← ok_or (as_u64 v ["version"]) (DeserializationError "Missing version field");
  _ ← reject_if (negb (version =? 3)) (DeserializationError "Expected ethers keystore version 3, got {version}");
  kdf ← ok_or (as_str v ["crypto"; "kdf"]) (DeserializationError "Missing kdf field");
  _ ← reject_if (negb (String.eqb kdf "scrypt")) (DeserializationError "Unsupported KDF: {kdf} (only scrypt is supported)");
  salt ← decode_salt (as_str v ["crypto"; "kdfparams"; "salt"]);
  n ← parse_u32_kdf_param (as_u64 v ["crypto"; "kdfparams"; "n"]);
  r ← parse_u32_kdf_param (as_u64 v ["crypto"; "kdfparams"; "r"]);
  p ← parse_u32_kdf_param (as_u64 v ["crypto"; "kdfparams"; "p"]);
  dklen ← parse_usize_kdf_param (as_u64 v ["crypto"; "kdfparams"; "dklen"]);
  _ ← validate_scrypt_resource_params n r p dklen;
  iv ← hex_field (as_str v ["crypto"; "cipherparams"; "iv"]);
  ciphertext ← hex_field (as_str v ["crypto"; "ciphertext"]);
  expected_mac ← hex_field (as_str v ["crypto"; "mac"]);
  _ ← reject_if (negb (length iv =? V3_IV_LEN)%nat) (DeserializationError "Invalid cipherparams.iv length");
  log_n ← scrypt_log_n n;
  _ ← reject_if (negb (params_new S log_n r p)) (CryptoError "Invalid scrypt params: {e}");
  derived_key ← ok_or (scrypt S password salt (log_n, r, p) (Z.to_nat dklen)) (CryptoError "Scrypt KDF failed: {e}");
  aes_key ← byte_slice derived_key 0 (V3_DKLEN / 2);
  mac_key ← byte_slice derived_key (V3_DKLEN / 2) V3_DKLEN;
  let computed_mac := keccak256 (mac_key ++ ciphertext) in
  _ ← reject_if (negb (bool_decide (computed_mac = expected_mac)))
        (CryptoError "MAC verification failed: wrong password or corrupted keystore");
  plaintext ← aes_decrypt aes_key iv ciphertext;
  Ok (hex_encode plaintext).
End keystore.

(** ** Parameters *)
Lemma trailing_zeros_pow (k : nat) : trailing_zeros (2 ^ Z.of_nat k) = Z.of_nat k.
Proof.
  induction k as [|k IH]; [done|]. rewrite Nat2Z.inj_succ, Z.pow_succ_r by lia.
  destruct (2 ^ Z.of_nat k) as [|p|p] eqn:Hp; [pose proof (Z.pow_pos_nonneg 2 (Z.of_nat k)); lia| |pose proof (Z.pow_nonneg 2 (Z.of_nat k)); lia].
  change (trailing_zeros (2 * Z.pos p)) with (1 + trailing_zeros (Z.pos p)). rewrite IH. lia.
Qed.

Lemma scrypt_log_n_Ok n k : scrypt_log_n n = Ok k <-> 10 <= k <= 20 /\ n = 2 ^ k.
Proof.
  unfold scrypt_log_n, is_power_of_two, SCRYPT_N_MIN, SCRYPT_N_MAX. rewrite bind_Ok. split.
  - intros ([] & Hr%reject_if_Ok & [= <-]). apply orb_false_iff in Hr as [Hb Hp].
    apply negb_false_iff, andb_true_iff in Hb as [Hlo%Z.leb_le Hhi%Z.leb_le].
    apply negb_false_iff, andb_true_iff in Hp as [_ Hp%Z.eqb_eq].
    assert (10 <= Z.log2 n <= 20) as Hl.
    { split; [change 10 with (Z.log2 (2 ^ 10))|change 20 with (Z.log2 (2 ^ 20))]; by apply Z.log2_le_mono. }
    assert (trailing_zeros n = Z.log2 n) as ->; [|by rewrite <- Hp].
    rewrite Hp at 1. rewrite <- (Z2Nat.id (Z.log2 n)) at 1 by lia. rewrite trailing_zeros_pow. lia.
  - intros [Hk ->]. exists tt. split.
    + apply reject_if_Ok. rewrite Z.log2_pow2 by lia. rewrite Z.eqb_refl.
      assert (2 ^ 10 <= 2 ^ k <= 2 ^ 20) as [Hlo Hhi] by (split; apply Z.pow_le_mono_r; lia).
      rewrite (proj2 (Z.leb_le _ _) Hlo), (proj2 (Z.leb_le _ _) Hhi), (proj2 (Z.ltb_lt 0 (2 ^ k))) by lia. done.
    + rewrite <- (Z2Nat.id k) at 1 by lia. rewrite trailing_zeros_pow. f_equal. lia.
Qed.

(** What scrypt may be asked for: at most 256 MiB of memory. *)
Definition kdf_bounded (salt : list Z) (log_n r p : Z) (len : nat) : Prop :=
  (length salt <= 128)%nat /\ 10 <= log_n <= 20 /\ 1 <= r <= 32 /\ 1 <= p <= 16 /\ (32 <= len <= 64)%nat
  /\ 128 * 2 ^ log_n * r <= 256 * 2 ^ 20.

Lemma validate_scrypt_Ok n r p dklen :
  validate_scrypt_resource_params n r p dklen = Ok tt <->
  exists k, n = 2 ^ k /\ 10 <= k <= 20 /\ 1 <= r <= 32 /\ 1 <= p <= 16 /\ 32 <= dklen <= 64
    /\ 128 * n * r <= 256 * 2 ^ 20.
Proof.
  unfold validate_scrypt_resource_params, SCRYPT_R_MAX, SCRYPT_P_MAX, SCRYPT_DKLEN_MIN, SCRYPT_DKLEN_MAX,
    SCRYPT_MEMORY_CEILING_BYTES, saturating_mul_u64. cbv zeta.
  setoid_rewrite bind_Ok. setoid_rewrite scrypt_log_n_Ok. setoid_rewrite bind_Ok. setoid_rewrite reject_if_Ok.
  setoid_rewrite bind_Ok. setoid_rewrite reject_if_Ok. setoid_rewrite bind_Ok. setoid_rewrite reject_if_Ok.
  setoid_rewrite negb_false_iff. setoid_rewrite andb_true_iff. setoid_rewrite Z.leb_le. setoid_rewrite Z.ltb_ge.
  split.
  - intros (k & [Hk ->] & [] & Hr & [] & Hp & [] & Hd & Hm). exists k.
    assert (0 < 2 ^ k) by (apply Z.pow_pos_nonneg; lia). split_and!; nia || lia.
  - intros (k & -> & Hk & Hr & Hp & Hd & Hm). exists k. split; [done|]. do 3 (exists tt; split; [lia|]).
    assert (0 < 2 ^ k) by (apply Z.pow_pos_nonneg; lia). lia.
Qed.

(** ** Round trips *)
Class ScryptLaws (S : Scrypt) : Prop := {
  scrypt_length password salt params len out : scrypt S password salt params len = Some out -> length out = len }.

Section roundtrips.
Context (S : Scrypt) `{!ScryptLaws S, !Aead, !AeadLaws, !HexCodec, !Keccak, !KeystoreJson, !KeystoreJsonLaws}.

Lemma derive_scrypt_key_length password salt n key : derive_scrypt_key S password salt n = Ok key -> length key = 32%nat.
Proof. unfold derive_scrypt_key. intros Hk. inv_ok. by eapply scrypt_length. Qed.

Lemma new_from_slice_32 key : length key = 32%nat -> new_from_slice key = Ok tt.
Proof. intros Hk. unfold new_from_slice. by rewrite Hk. Qed.

Lemma xnonce_24 nonce : length nonce = 24%nat -> xnonce nonce = Ok nonce.
Proof. intros Hn. unfold xnonce. by rewrite Hn. Qed.

Lemma payload_back nonce plaintext key payload :
  length nonce = 24%nat -> encrypt_with_key nonce plaintext key = Ok payload ->
  ep_nonce payload = nonce /\ decrypt_with_key payload key = Ok plaintext.
Proof.
  intros Hn. unfold encrypt_with_key, decrypt_with_key. intros He. inv_ok. split; [done|].
  match goal with Hs : new_from_slice _ = Ok _ |- _ => rewrite Hs end.
  cbn [mbind outcome_bind ep_nonce ep_ciphertext]. rewrite xnonce_24 by done. cbn [mbind outcome_bind].
  apply ok_or_Ok. by apply aead_back.
Qed.

Lemma hex_field_encode bs : Forall byte_ok bs -> hex_field (Some (hex_encode bs)) = Ok bs.
Proof. intros Hb. unfold hex_field. cbn [ok_or mbind outcome_bind]. by rewrite hex_decode_encode. Qed.

Lemma decode_salt_encode bs : Forall byte_ok bs -> (length bs <= 128)%nat -> decode_salt (Some (hex_encode bs)) = Ok bs.
Proof.
  intros Hb Hl. unfold decode_salt. rewrite hex_field_encode by done. cbn [mbind outcome_bind].
  unfold MAX_KEYSTORE_SALT_BYTES. destruct (Nat.ltb_spec 128 (length bs)); [lia|done].
Qed.

Lemma parse_u32_pow k : 0 <= k < 32 -> parse_u32_kdf_param (Some (2 ^ k)) = Ok (2 ^ k).
Proof.
  intros Hk. unfold parse_u32_kdf_param. cbn [ok_or mbind outcome_bind].
  assert (2 ^ k < 2 ^ 32) by (apply Z.pow_lt_mono_r; lia). destruct (Z.leb_spec (2 ^ 32) (2 ^ k)); [lia|done].
Qed.

Lemma keystore_back salt nonce mnemonic password n text :
  length salt = 16%nat -> Forall byte_ok salt -> length nonce = 24%nat -> Forall byte_ok nonce ->
  Forall byte_ok mnemonic -> utf8_valid mnemonic = true ->
  encrypt_keystore S salt nonce mnemonic password n = Ok text -> decrypt_keystore S text password = Ok mnemonic.
Proof.
  intros Hsl Hsb Hnl Hnb Hmb Hutf. unfold encrypt_keystore. intros He.
  apply bind_Ok in He as ([] & Hv & He). apply bind_Ok in He as (key & Hkey & He).
  apply bind_Ok in He as ([en ct] & Hp & He). apply ok_or_Ok, ks_print_parse in He as (v & Hparse & Hver & Hn & Hs & Hno & Hct).
  assert (Forall byte_ok ct) as Hcb.
  { unfold encrypt_with_key in Hp. inv_ok. by eapply aead_bytes. }
  destruct (payload_back _ _ _ _ Hnl Hp) as [Hen Hback]. cbn [ep_nonce ep_ciphertext] in *. subst en.
  cbn [nk_version nk_n nk_salt nk_nonce nk_ciphertext] in *.
  unfold decrypt_keystore. rewrite Hparse. cbn [ok_or mbind outcome_bind].
  rewrite Hver, Hn, Hs, Hno, Hct. cbn [ok_or mbind outcome_bind Z.eqb Pos.eqb negb reject_if].
  rewrite decode_salt_encode by (done || lia). cbn [mbind outcome_bind].
  destruct (proj1 (validate_scrypt_Ok n 8 1 32) Hv) as (k & -> & Hk & _).
  rewrite parse_u32_pow by lia. cbn [mbind outcome_bind]. rewrite Hv. cbn [mbind outcome_bind].
  rewrite !hex_field_encode by done. cbn [mbind outcome_bind]. rewrite xnonce_24 by done. cbn [mbind outcome_bind].
  rewrite Hkey. cbn [mbind outcome_bind]. rewrite Hback. cbn [mbind outcome_bind]. by rewrite Hutf.
Qed.
End roundtrips.

(** C21: Encryption at rest is undone by the same password: a mnemonic from the keystore it was
    written to and a private key's bytes from its bundle; the keystore can be written exactly
    for N a power of two from 2^10 to 2^18, when the primitives succeed. *)
Theorem keystore_roundtrip (S : Scrypt) `{!ScryptLaws S, !Aead, !AeadLaws, !HexCodec, !KeystoreJson, !KeystoreJsonLaws}
    salt nonce password n :
  length salt = 16%nat -> Forall byte_ok salt -> length nonce = 24%nat -> Forall byte_ok nonce ->
  (forall mnemonic text, Forall byte_ok mnemonic -> utf8_valid mnemonic = true ->
     encrypt_keystore S salt nonce mnemonic password n = Ok text -> decrypt_keystore S text password = Ok mnemonic)
  /\ (forall private_key_hex ek, encrypt_private_key S salt nonce private_key_hex password n = Ok ek ->
       exists bytes, hex_decode (strip_0x private_key_hex) = Some bytes
         /\ decrypt_private_key S ek password n = Ok (hex_encode bytes))
  /\ (forall mnemonic, (exists text, encrypt_keystore S salt nonce mnemonic password n = Ok text) ->
       exists k, 10 <= k <= 18 /\ n = 2 ^ k)
  /\ (forall mnemonic k, 10 <= k <= 18 -> n = 2 ^ k ->
       params_new S k 8 1 = true -> is_Some (scrypt S password salt (k, 8, 1) 32) ->
       (forall key, is_Some (aead_encrypt key nonce mnemonic)) -> (forall doc, is_Some (ks_print doc)) ->
       exists text, encrypt_keystore S salt nonce mnemonic password n = Ok text).
Proof.
  intros Hsl Hsb Hnl Hnb. split; [|split; [|split]].
  - intros mnemonic text Hmb Hutf. by apply keystore_back.
  - intros hexs ek. unfold encrypt_private_key. intros He. inv_ok.
    match goal with Hd : hex_decode _ = Some ?bs |- _ => exists bs; split; [exact Hd|] end.
    unfold decrypt_private_key. cbn [ek_nonce ek_salt ek_encrypted_key]. rewrite xnonce_24 by done. cbn [mbind outcome_bind].
    match goal with Hk : derive_scrypt_key _ _ _ _ = _ |- _ => rewrite Hk end. cbn [mbind outcome_bind].
    match goal with Hs : new_from_slice _ = Ok _ |- _ => rewrite Hs end. cbn [mbind outcome_bind].
    match goal with Hs : aead_encrypt _ _ _ = _ |- _ => apply aead_back in Hs; rewrite Hs end. done.
  - intros mnemonic [text He]. unfold encrypt_keystore in He. apply bind_Ok in He as ([] & Hv & _).
    apply validate_scrypt_Ok in Hv as (k & -> & Hk & _ & _ & _ & Hm). exists k. split; [|done].
    assert (~ 19 <= k); [|lia]. intros H19. pose proof (Z.pow_le_mono_r 2 19 k). lia.
  - intros mnemonic k Hk -> Hpn [key Hkey] Henc Hprint. unfold encrypt_keystore, derive_scrypt_key, encrypt_with_key.
    rewrite (proj2 (validate_scrypt_Ok (2 ^ k) 8 1 32)).
    2:{ exists k. pose proof (Z.pow_le_mono_r 2 k 18). split_and!; lia. }
    cbn [mbind outcome_bind]. rewrite (proj2 (scrypt_log_n_Ok (2 ^ k) k)) by (split; [lia|done]). cbn [mbind outcome_bind].
    rewrite Hpn. cbn [negb reject_if mbind outcome_bind]. rewrite Hkey. cbn [ok_or mbind outcome_bind].
    rewrite new_from_slice_32 by (by eapply scrypt_length). cbn [mbind outcome_bind].
    destruct (Henc key) as [ct ->]. cbn [ok_or mbind outcome_bind]. match goal with |- context [ks_print ?d] => destruct (Hprint d) as [text ->] end. by exists text.
Qed.

(** ** Imports stay within bounds *)
Section imports.
Context `{!Aead, !AesCtr, !HexCodec, !Keccak, !KeystoreJson, !KeystoreJsonLaws}.

(** Two functions that agree on everything within the bounds. *)
Definition agree_bounded (S1 S2 : Scrypt) : Prop :=
  forall password salt log_n r p len, kdf_bounded salt log_n r p len ->
    params_new S1 log_n r p = params_new S2 log_n r p
    /\ scrypt S1 password salt (log_n, r, p) len = scrypt S2 password salt (log_n, r, p) len.

Lemma bind_ext_Ok {E A B} (m : outcome E A) (f g : A -> outcome E B) :
  (forall a, m = Ok a -> f a = g a) -> (m ≫= f) = (m ≫= g).
Proof. destruct m as [a|e|]; cbn; auto. Qed.

Lemma decode_salt_bound value salt : decode_salt value = Ok salt -> (length salt <= 128)%nat.
Proof. unfold decode_salt, MAX_KEYSTORE_SALT_BYTES. intros Hd. inv_ok. by apply Nat.ltb_ge. Qed.

Lemma derive_scrypt_key_agree S1 S2 password salt n :
  agree_bounded S1 S2 -> (length salt <= 128)%nat -> validate_scrypt_resource_params n 8 1 32 = Ok tt ->
  derive_scrypt_key S1 password salt n = derive_scrypt_key S2 password salt n.
Proof.
  intros Hag Hs (k & -> & Hk & _ & _ & _ & Hm)%validate_scrypt_Ok. unfold derive_scrypt_key.
  rewrite (proj2 (scrypt_log_n_Ok (2 ^ k) k)) by done. cbn [mbind outcome_bind].
  destruct (Hag password salt k 8 1 32%nat) as [-> ->]; [unfold kdf_bounded; split_and!; lia|done].
Qed.

Lemma decrypt_keystore_agree S1 S2 text password :
  agree_bounded S1 S2 -> decrypt_keystore S1 text password = decrypt_keystore S2 text password.
Proof.
  intros Hag. unfold decrypt_keystore. do 3 (apply bind_ext_Ok; intros ? ?).
  apply bind_ext_Ok; intros salt Hs%decode_salt_bound. apply bind_ext_Ok; intros n _.
  apply bind_ext_Ok; intros [] Hv. do 3 (apply bind_ext_Ok; intros ? ?).
  by rewrite (derive_scrypt_key_agree S1 S2).
Qed.

Lemma decrypt_ethers_agree S1 S2 text password :
  agree_bounded S1 S2 -> decrypt_ethers_keystore S1 text password = decrypt_ethers_keystore S2 text password.
Proof.
  intros Hag. unfold decrypt_ethers_keystore. do 5 (apply bind_ext_Ok; intros ? ?).
  apply bind_ext_Ok; intros salt Hs%decode_salt_bound. apply bind_ext_Ok; intros n _. apply bind_ext_Ok; intros r _.
  apply bind_ext_Ok; intros p _. apply bind_ext_Ok; intros dklen _.
  apply bind_ext_Ok; intros [] (k & -> & Hk & Hr & Hp & Hd & Hm)%validate_scrypt_Ok.
  do 4 (apply bind_ext_Ok; intros ? ?). rewrite (proj2 (scrypt_log_n_Ok (2 ^ k) k)) by done. cbn [mbind outcome_bind].
  destruct (Hag password salt k r p (Z.to_nat dklen)) as [-> ->]; [unfold kdf_bounded; split_and!; lia|done].
Qed.

Lemma bind_no_panic_Ok {E A B} (m : outcome E A) (f : A -> outcome E B) :
  m <> Panic -> (forall a, m = Ok a -> f a <> Panic) -> (m ≫= f) <> Panic.
Proof. destruct m as [a|e|]; cbn; auto. Qed.

Lemma ok_or_no_panic {E A} (o : option A) (e : E) : ok_or o e <> Panic.
Proof. by destruct o. Qed.
Lemma reject_if_no_panic {E} b (e : E) : reject_if b e <> Panic.
Proof. by destruct b. Qed.
#[local] Hint Resolve ok_or_no_panic reject_if_no_panic bind_no_panic_Ok : core.

Ltac no_panic := repeat (apply bind_no_panic_Ok; [auto|intros ? ?]); auto; try discriminate.

Lemma hex_field_no_panic value : hex_field value <> Panic.
Proof. unfold hex_field. no_panic. Qed.
Lemma decode_salt_no_panic value : decode_salt value <> Panic.
Proof. unfold decode_salt. pose proof (hex_field_no_panic value). no_panic. Qed.
Lemma parse_u32_no_panic value : parse_u32_kdf_param value <> Panic.
Proof. unfold parse_u32_kdf_param. no_panic. Qed.
Lemma parse_usize_no_panic value : parse_usize_kdf_param value <> Panic.
Proof. unfold parse_usize_kdf_param. no_panic. Qed.
Lemma scrypt_log_n_no_panic n : scrypt_log_n n <> Panic.
Proof. unfold scrypt_log_n. no_panic. Qed.
#[local] Hint Resolve hex_field_no_panic decode_salt_no_panic parse_u32_no_panic parse_usize_no_panic scrypt_log_n_no_panic : core.

Lemma validate_scrypt_no_panic n r p dklen : validate_scrypt_resource_params n r p dklen <> Panic.
Proof. unfold validate_scrypt_resource_params. no_panic. Qed.
Lemma xnonce_no_panic nonce : xnonce nonce <> Panic.
Proof. unfold xnonce. no_panic. Qed.
Lemma derive_scrypt_key_no_panic S password salt n : derive_scrypt_key S password salt n <> Panic.
Proof. unfold derive_scrypt_key. no_panic. Qed.
Lemma new_from_slice_no_panic key : new_from_slice key <> Panic.
Proof. unfold new_from_slice. auto. Qed.
#[local] Hint Resolve validate_scrypt_no_panic xnonce_no_panic derive_scrypt_key_no_panic new_from_slice_no_panic : core.

Lemma decrypt_keystore_no_panic S text password : decrypt_keystore S text password <> Panic.
Proof. unfold decrypt_keystore, decrypt_with_key. no_panic. Qed.

Lemma byte_slice_len bytes lo hi : (lo <= hi <= length bytes)%nat -> exists out, byte_slice bytes lo hi = Ok out /\ length out = (hi - lo)%nat.
Proof.
  intros Hb. unfold byte_slice. rewrite (proj2 (Nat.leb_le hi (length bytes))), (proj2 (Nat.leb_le lo hi)) by lia.
  eexists. split; [done|]. rewrite length_take, length_drop. lia.
Qed.

Lemma decrypt_ethers_no_panic S `{!ScryptLaws S} text password : decrypt_ethers_keystore S text password <> Panic.
Proof.
  unfold decrypt_ethers_keystore. do 10 (apply bind_no_panic_Ok; [auto|intros ? ?]).
  apply bind_no_panic_Ok; [auto|]. intros [] (k & Hn & Hk & _ & _ & Hd & _)%validate_scrypt_Ok.
  apply bind_no_panic_Ok; [auto|]. intros iv _. do 2 (apply bind_no_panic_Ok; [auto|intros ? ?]).
  apply bind_no_panic_Ok; [auto|]. intros ? Hiv%reject_if_Ok. do 2 (apply bind_no_panic_Ok; [auto|intros ? ?]).
  apply bind_no_panic_Ok; [auto|]. intros dk Hdk%ok_or_Ok%scrypt_length.
  change (V3_DKLEN / 2)%nat with 16%nat. change V3_DKLEN with 32%nat.
  destruct (byte_slice_len dk 0 16) as (ak & -> & Hak); [lia|]. cbn [mbind outcome_bind].
  destruct (byte_slice_len dk 16 32) as (mk & -> & _); [lia|]. cbn [mbind outcome_bind]. cbv zeta.
  apply bind_no_panic_Ok; [auto|intros ? ?]. unfold aes_decrypt. apply negb_false_iff in Hiv.
  unfold V3_IV_LEN in Hiv. by rewrite Hiv, Hak.
Qed.
End imports.

(** The hexadecimal bytes at a path of a document. *)
Definition hex_at `{!HexCodec, !KeystoreJson} (v : KsValue) (path : list string) (bytes : list Z) : Prop :=
  exists text, as_str v path = Some text /\ hex_decode text = Some bytes.

(** What a Web3 document says, and that it says it within the bounds. *)
Definition web3_document `{!HexCodec, !KeystoreJson} (v : KsValue) (salt : list Z) (log_n r p dklen : Z)
    (iv ciphertext mac : list Z) : Prop :=
  as_u64 v ["version"] = Some 3 /\ as_str v ["crypto"; "kdf"] = Some "scrypt"
  /\ hex_at v ["crypto"; "kdfparams"; "salt"] salt
  /\ as_u64 v ["crypto"; "kdfparams"; "n"] = Some (2 ^ log_n) /\ as_u64 v ["crypto"; "kdfparams"; "r"] = Some r
  /\ as_u64 v ["crypto"; "kdfparams"; "p"] = Some p /\ as_u64 v ["crypto"; "kdfparams"; "dklen"] = Some dklen
  /\ hex_at v ["crypto"; "cipherparams"; "iv"] iv /\ length iv = 16%nat
  /\ hex_at v ["crypto"; "ciphertext"] ciphertext /\ hex_at v ["crypto"; "mac"] mac
  /\ kdf_bounded salt log_n r p (Z.to_nat dklen).

(** The document opens: its MAC is that of its ciphertext under the second half of the
    key derived with its own parameters, and the first half decrypts it. *)
Definition web3_opens `{!AesCtr, !HexCodec, !Keccak, !KeystoreJson} (S : Scrypt) (text password : list Z) (out : string) : Prop :=
  exists v salt log_n r p dklen iv ciphertext mac dk,
    ks_parse text = Some v /\ web3_document v salt log_n r p dklen iv ciphertext mac
    /\ params_new S log_n r p = true /\ scrypt S password salt (log_n, r, p) (Z.to_nat dklen) = Some dk
    /\ mac = keccak256 (take 16 (drop 16 dk) ++ ciphertext)
    /\ out = hex_encode (apply_keystream (take 16 dk) iv ciphertext).

Section web3.
Context `{!AesCtr, !HexCodec, !Keccak, !KeystoreJson, !KeystoreJsonLaws}.

Lemma hex_field_Ok value bytes :
  hex_field value = Ok bytes <-> exists text, value = Some text /\ hex_decode text = Some bytes.
Proof.
  unfold hex_field. rewrite bind_Ok. split.
  - intros (text & Ht%ok_or_Ok & Hd%ok_or_Ok). by exists text.
  - intros (text & -> & Hd). exists text. by rewrite Hd.
Qed.

Lemma decode_salt_Ok value salt :
  decode_salt value = Ok salt <-> (exists text, value = Some text /\ hex_decode text = Some salt) /\ (length salt <= 128)%nat.
Proof.
  unfold decode_salt, MAX_KEYSTORE_SALT_BYTES. rewrite bind_Ok. split.
  - intros (bs & Hs%hex_field_Ok & Hr). apply bind_Ok in Hr as (u & Hr%reject_if_Ok%Nat.ltb_ge & [= <-]). done.
  - intros [Hs%hex_field_Ok Hl]. exists salt. split; [done|]. by rewrite (proj2 (Nat.ltb_ge _ _) Hl).
Qed.

Lemma parse_u32_Ok value n : parse_u32_kdf_param value = Ok n <-> value = Some n /\ n < 2 ^ 32.
Proof.
  unfold parse_u32_kdf_param. rewrite bind_Ok. split.
  - intros (z & Hv%ok_or_Ok & Hr). apply bind_Ok in Hr as (u & Hr%reject_if_Ok%Z.leb_gt & [= <-]). done.
  - intros [-> Hl]. exists n. by rewrite (proj2 (Z.leb_gt _ _) Hl).
Qed.

Lemma parse_usize_Ok value n : parse_usize_kdf_param value = Ok n <-> value = Some n /\ n < 2 ^ 64.
Proof.
  unfold parse_usize_kdf_param. rewrite bind_Ok. split.
  - intros (z & Hv%ok_or_Ok & Hr). apply bind_Ok in Hr as (u & Hr%reject_if_Ok%Z.leb_gt & [= <-]). done.
  - intros [-> Hl]. exists n. by rewrite (proj2 (Z.leb_gt _ _) Hl).
Qed.

Lemma byte_slice_eq bytes lo hi : (lo <= hi <= length bytes)%nat -> byte_slice bytes lo hi = Ok (take (hi - lo) (drop lo bytes)).
Proof. intros Hb. unfold byte_slice. by rewrite (proj2 (Nat.leb_le hi (length bytes))), (proj2 (Nat.leb_le lo hi)) by lia. Qed.

Lemma decrypt_ethers_opens S `{!ScryptLaws S} text password out :
  decrypt_ethers_keystore S text password = Ok out -> web3_opens S text password out.
Proof.
  unfold decrypt_ethers_keystore, web3_opens, web3_document. intros Hd. apply bind_Ok in Hd as (v & Hparse%ok_or_Ok & Hd).
  apply bind_Ok in Hd as (version & Hver%ok_or_Ok & Hd). apply bind_Ok in Hd as (? & Hv3%reject_if_Ok & Hd).
  apply negb_false_iff, Z.eqb_eq in Hv3 as ->.
  apply bind_Ok in Hd as (kdf & Hkdf%ok_or_Ok & Hd). apply bind_Ok in Hd as (? & Hsc%reject_if_Ok & Hd).
  apply negb_false_iff, String.eqb_eq in Hsc as ->.
  apply bind_Ok in Hd as (salt & [Hs Hsl]%decode_salt_Ok & Hd). apply bind_Ok in Hd as (n & [Hn _]%parse_u32_Ok & Hd).
  apply bind_Ok in Hd as (r & [Hr' _]%parse_u32_Ok & Hd). apply bind_Ok in Hd as (p & [Hp' _]%parse_u32_Ok & Hd).
  apply bind_Ok in Hd as (dklen & [Hl' _]%parse_usize_Ok & Hd).
  apply bind_Ok in Hd as ([] & (k & -> & Hk & Hr & Hp & Hl & Hm)%validate_scrypt_Ok & Hd).
  apply bind_Ok in Hd as (iv & Hiv%hex_field_Ok & Hd). apply bind_Ok in Hd as (ct & Hct%hex_field_Ok & Hd).
  apply bind_Ok in Hd as (mac & Hmac%hex_field_Ok & Hd).
  apply bind_Ok in Hd as (? & Hil%reject_if_Ok & Hd). apply negb_false_iff, Nat.eqb_eq in Hil.
  rewrite (proj2 (scrypt_log_n_Ok (2 ^ k) k)) in Hd by done. cbn [mbind outcome_bind] in Hd.
  apply bind_Ok in Hd as (? & Hpn%reject_if_Ok%negb_false_iff & Hd). apply bind_Ok in Hd as (dk & Hdk%ok_or_Ok & Hd).
  pose proof (scrypt_length _ _ _ _ _ Hdk) as Hlen. change (V3_DKLEN / 2)%nat with 16%nat in Hd. change V3_DKLEN with 32%nat in Hd.
  rewrite !byte_slice_eq in Hd by lia. cbn [mbind outcome_bind] in Hd. cbv zeta in Hd.
  apply bind_Ok in Hd as (? & Heq%reject_if_Ok & Hd). apply negb_false_iff, bool_decide_eq_true in Heq.
  unfold aes_decrypt in Hd. destruct (_ && _) in Hd; [|done]. cbn [mbind outcome_bind] in Hd. injection Hd as <-.
  exists v, salt, k, r, p, dklen, iv, ct, mac, dk. unfold kdf_bounded, hex_at. split_and!; try done || lia.
Qed.

Lemma web3_opens_decrypts S `{!ScryptLaws S} text password out :
  web3_opens S text password out -> decrypt_ethers_keystore S text password = Ok out.
Proof.
  intros (v & salt & k & r & p & dklen & iv & ct & mac & dk & Hparse
    & (Hver & Hkdf & Hs & Hn & Hr & Hp & Hl & Hiv & Hil & Hct & Hmac & (Hsl & Hk & Hrb & Hpb & Hlb & Hm)) & Hpn & Hdk & Heq & ->).
  pose proof (scrypt_length _ _ _ _ _ Hdk) as Hlen. assert (32 <= dklen <= 64) as Hdl by lia.
  assert (2 ^ k < 2 ^ 32) as Hn32 by (apply Z.pow_lt_mono_r; lia).
  assert (r < 2 ^ 32 /\ p < 2 ^ 32 /\ dklen < 2 ^ 64) as (Hr32 & Hp32 & Hl64) by lia.
  unfold decrypt_ethers_keystore. rewrite Hparse. cbn [ok_or mbind outcome_bind]. rewrite Hver. cbn [ok_or mbind outcome_bind].
  cbn [Z.eqb Pos.eqb negb reject_if mbind outcome_bind]. rewrite Hkdf. cbn [ok_or mbind outcome_bind].
  change (String.eqb "scrypt" "scrypt") with true. cbn [negb reject_if mbind outcome_bind].
  rewrite (proj2 (decode_salt_Ok _ salt) (conj Hs Hsl)). cbn [mbind outcome_bind].
  rewrite (proj2 (parse_u32_Ok _ (2 ^ k)) (conj Hn Hn32)). cbn [mbind outcome_bind].
  rewrite (proj2 (parse_u32_Ok _ r) (conj Hr Hr32)). cbn [mbind outcome_bind].
  rewrite (proj2 (parse_u32_Ok _ p) (conj Hp Hp32)). cbn [mbind outcome_bind].
  rewrite (proj2 (parse_usize_Ok _ dklen) (conj Hl Hl64)). cbn [mbind outcome_bind].
  rewrite (proj2 (validate_scrypt_Ok (2 ^ k) r p dklen)) by (exists k; split_and!; lia). cbn [mbind outcome_bind].
  rewrite (proj2 (hex_field_Ok _ iv) Hiv), (proj2 (hex_field_Ok _ ct) Hct), (proj2 (hex_field_Ok _ mac) Hmac). cbn [mbind outcome_bind].
  rewrite Hil. cbn [V3_IV_LEN Nat.eqb negb reject_if mbind outcome_bind].
  rewrite (proj2 (scrypt_log_n_Ok (2 ^ k) k)) by done. cbn [mbind outcome_bind]. rewrite Hpn. cbn [negb reject_if mbind outcome_bind].
  rewrite Hdk. cbn [ok_or mbind outcome_bind]. change (V3_DKLEN / 2)%nat with 16%nat. change V3_DKLEN with 32%nat.
  rewrite !byte_slice_eq by lia. cbn [mbind outcome_bind]. cbv zeta. change (32 - 16)%nat with 16%nat.
  rewrite bool_decide_eq_true_2 by done. cbn [negb reject_if mbind outcome_bind]. unfold aes_decrypt.
  rewrite Hil, length_take, length_drop, Hlen. change (16 - 0)%nat with 16%nat. rewrite (Nat.min_l 16) by lia. done.
Qed.
End web3.

(** C20: Importing a keystore is safe on every input: neither format panics, scrypt is asked
    for nothing beyond 2^10 <= N <= 2^20, r <= 32, p <= 16, 64 output bytes, a 128-byte salt
    and 256 MiB (no other use of it can change a result), and a Web3 keystore gives a key
    exactly when its document is within these bounds and its own MAC field is that of its
    ciphertext under the second half of the key derived with its own salt and parameters; the
    key is the ciphertext decrypted under the first half and the document's iv. *)
Theorem keystore_import_safe `{!Aead, !AesCtr, !HexCodec, !Keccak, !KeystoreJson, !KeystoreJsonLaws} text password :
  (forall S, decrypt_keystore S text password <> Panic)
  /\ (forall S, ScryptLaws S -> decrypt_ethers_keystore S text password <> Panic)
  /\ (forall S1 S2, agree_bounded S1 S2 ->
       decrypt_keystore S1 text password = decrypt_keystore S2 text password
       /\ decrypt_ethers_keystore S1 text password = decrypt_ethers_keystore S2 text password)
  /\ (forall S out, ScryptLaws S ->
       decrypt_ethers_keystore S text password = Ok out <-> web3_opens S text password out).
Proof.
  split; [intros S; apply decrypt_keystore_no_panic|]. split; [intros S HS; by apply decrypt_ethers_no_panic|].
  split; [intros S1 S2 Hag; split; [by apply decrypt_keystore_agree|by apply decrypt_ethers_agree]|].
  intros S out HS. split; [by apply decrypt_ethers_opens|by apply web3_opens_decrypts].
Qed.

(** ** Witnesses *)
#[local] Existing Instance demo_hex.
#[local] Existing Instance demo_keccak.
#[export] Instance NativeKeystore_eq_dec : EqDecision NativeKeystore.
Proof. solve_decision. Defined.

Definition demo_scrypt : Scrypt :=
  {| params_new _ _ _ := true; scrypt password salt _ len := Some (take len (password ++ replicate len 7)) |}.
#[local] Instance demo_scrypt_laws : ScryptLaws demo_scrypt.
Proof. constructor. intros password salt params len out [= <-]. rewrite length_take, length_app, length_replicate. lia. Qed.

(** A tag of one byte. *)
#[local] Instance demo_aead : Aead := {|
  aead_encrypt key nonce plaintext := Some (plaintext ++ [9]);
  aead_decrypt key nonce ciphertext := Some (removelast ciphertext) |}.
#[local] Instance demo_aead_laws : AeadLaws.
Proof.
  constructor.
  - intros key nonce p c [= <-]. cbn. by rewrite removelast_last.
  - intros key nonce p c Hp [= <-]. apply Forall_app. split; [done|]. by repeat constructor.
Qed.
#[local] Instance demo_aes : AesCtr := {| apply_keystream key iv bytes := bytes |}.

Definition demo_document : NativeKeystore :=
  {| nk_version := 1; nk_cipher := "xchacha20-poly1305"; nk_kdf := "scrypt"; nk_n := 1024; nk_r := 8; nk_p := 1; nk_dklen := 32;
     nk_salt := hex_encode (replicate 16 1); nk_nonce := hex_encode (replicate 24 2);
     nk_ciphertext := hex_encode (string_bytes "seed" ++ [9]) |}.

(** The MAC of a Web3 document with the password "pw", whose derived key ends in sevens. *)
Definition demo_mac : string := hex_encode (keccak256 (replicate 16 7 ++ string_bytes "seed")).

(** A codec of that document and of a Web3 one with the same salt; the latter is [false]. *)
Definition demo_u64 (native : bool) (path : list string) : option Z :=
  if decide (path = ["version"]) then Some (if native then 1 else 3)
  else if decide (path = ["crypto"; "kdfparams"; "n"]) then Some 1024
  else if decide (path = ["crypto"; "kdfparams"; "r"]) then Some 8
  else if decide (path = ["crypto"; "kdfparams"; "p"]) then Some 1
  else if decide (path = ["crypto"; "kdfparams"; "dklen"]) then Some 32 else None.
Definition demo_str (native : bool) (path : list string) : option string :=
  if decide (path = ["crypto"; "kdfparams"; "salt"]) then Some (nk_salt demo_document)
  else if decide (path = ["crypto"; "nonce"]) then Some (nk_nonce demo_document)
  else if decide (path = ["crypto"; "ciphertext"])
  then Some (if native then nk_ciphertext demo_document else hex_encode (string_bytes "seed"))
  else if decide (path = ["crypto"; "kdf"]) then Some "scrypt"
  else if decide (path = ["crypto"; "cipherparams"; "iv"]) then Some (hex_encode (replicate 16 3))
  else if decide (path = ["crypto"; "mac"]) then Some demo_mac else None.

#[local] Instance demo_keystore_json : KeystoreJson := {|
  KsValue := bool;
  ks_parse text := if decide (text = [123]) then Some true else if decide (text = [51]) then Some false else None;
  as_u64 := demo_u64; as_str := demo_str;
  ks_print doc := if decide (doc = demo_document) then Some [123] else None |}.

#[local] Instance demo_keystore_json_laws : KeystoreJsonLaws.
Proof.
  constructor.
  - intros v path z. cbn [as_u64 demo_keystore_json]. unfold demo_u64.
    repeat (destruct (decide _); [intros [= <-]; destruct v; lia|]). done.
  - intros doc text. cbn [ks_print demo_keystore_json]. destruct (decide (doc = demo_document)) as [->|]; [|done].
    intros [= <-]. exists true. by repeat split.
Qed.

(** scrypt that refuses everything out of bounds, where [demo_scrypt] answers. *)
Definition strict_scrypt : Scrypt :=
  {| params_new log_n r p := (log_n <=? 20) && (r <=? 32) && (p <=? 16);
     scrypt password salt params len := if (len <=? 64)%nat then scrypt demo_scrypt password salt params len else None |}.

Lemma strict_agrees : agree_bounded demo_scrypt strict_scrypt.
Proof.
  intros password salt log_n r p len (_ & Hn & Hr & Hp & Hl & _). cbn [params_new scrypt strict_scrypt].
  rewrite (proj2 (Nat.leb_le len 64)) by lia. split; [|reflexivity].
  rewrite (proj2 (Z.leb_le log_n 20)), (proj2 (Z.leb_le r 32)), (proj2 (Z.leb_le p 16)) by lia. reflexivity.
Qed.

Lemma keystore_roundtrip_witness :
  exists text, encrypt_keystore demo_scrypt (replicate 16 1) (replicate 24 2) (string_bytes "seed") (string_bytes "pw") 1024 = Ok text
    /\ decrypt_keystore demo_scrypt text (string_bytes "pw") = Ok (string_bytes "seed").
Proof.
  exists [123]. assert (encrypt_keystore demo_scrypt (replicate 16 1) (replicate 24 2) (string_bytes "seed") (string_bytes "pw") 1024 = Ok [123]) as He
    by (vm_compute; reflexivity).
  split; [exact He|].
  apply (keystore_roundtrip demo_scrypt (replicate 16 1) (replicate 24 2) (string_bytes "pw") 1024); [reflexivity| |reflexivity| | | |exact He].
  - apply Forall_replicate. split; [discriminate|reflexivity].
  - apply Forall_replicate. split; [discriminate|reflexivity].
  - repeat (constructor; [split; [discriminate|reflexivity]|]). constructor.
  - reflexivity.
Defined.

(** The Web3 document opens, with either scrypt, and its MAC and fields are what the theorem says. *)
Lemma keystore_import_safe_witness :
  scrypt demo_scrypt [] [] (10, 8, 1) 65 <> scrypt strict_scrypt [] [] (10, 8, 1) 65
  /\ decrypt_ethers_keystore strict_scrypt [51] (string_bytes "pw") = Ok (hex_encode (string_bytes "seed"))
  /\ web3_opens demo_scrypt [51] (string_bytes "pw") (hex_encode (string_bytes "seed"))
  /\ decrypt_keystore demo_scrypt [51] (string_bytes "pw") <> Panic.
Proof.
  destruct (keystore_import_safe [51] (string_bytes "pw")) as (Hn & _ & Ha & Ho).
  assert (decrypt_ethers_keystore demo_scrypt [51] (string_bytes "pw") = Ok (hex_encode (string_bytes "seed"))) as Hd
    by (vm_compute; reflexivity).
  split; [vm_compute; discriminate|]. split; [|split].
  - rewrite <- (proj2 (Ha _ _ strict_agrees)). exact Hd.
  - apply Ho; [exact demo_scrypt_laws|exact Hd].
  - apply Hn.
Defined.
