(* ===== verification/LineReader.v ===== *)
(** * Bounded line reading

    crates/oracle/src/line_reader.rs: one newline-delimited line of the stdio
    transport, read from a buffered reader without keeping more than a bound.

    The reader is the sequence of buffers [fill_buf] will return: non-empty byte
    chunks or an I/O error, then end of input.  [read_line_spec] is the reading
    of the whole input at once; [read_line_chunking] shows that how the input is
    cut into buffers does not matter. *)

From stdpp Require Import base option list numbers.
From Stdlib Require Import ZArith Lia.
From S2P Require Import Prelude Text.

#[local] Open Scope Z_scope.

Inductive LimitedLine : Type :=
| Complete (line : list Z)
| TooLong
| InvalidUtf8.

Definition decode_line_utf8 (buf : list Z) : LimitedLine :=
  if utf8_valid buf then Complete buf else InvalidUtf8.

Section line_reader.
Context {IoError : Type}.

(** What the reader will yield. *)
Definition Reader : Type := list (list Z + IoError).

(** [reader.consume(n)] of the buffer on top. *)
Definition consume (n : nat) (available : list Z) (rest : Reader) : Reader :=
  match drop n available with
  | [] => rest
  | remaining => inl remaining :: rest
  end.

(** [if buf.last() == Some(&b'\r') { buf.pop(); }]. *)
Definition pop_cr (buf : list Z) : list Z :=
  match rev buf with
  | b :: r => if b =? 13 then rev r else buf
  | [] => buf
  end.

Lemma length_pop_cr buf : (length (pop_cr buf) <= length buf)%nat.
Proof.
  unfold pop_cr. pose proof (length_rev buf) as Hlen. destruct (rev buf) as [|b r]; [done|].
  cbn [length] in Hlen. destruct (b =? 13); rewrite ?length_rev; lia.
Qed.

(** The loop, from a buffer and the discard flag. *)
Fixpoint read_loop (max_bytes : nat) (buf : list Z) (discarded : bool) (reader : Reader)
    : outcome IoError (option LimitedLine) * Reader :=
  match reader with
  | inr e :: reader => (Err e, reader)
  | [] =>
      (Ok (if discarded then Some TooLong
           else match buf with [] => None | _ => Some (decode_line_utf8 buf) end), [])
  | inl available :: rest =>
      match position 10 available with
      | Some pos =>
          let chunk := take pos available in
          let over := (max_bytes <? length buf + length chunk)%nat in
          let reader := consume (pos + 1) available rest in
          (Ok (Some (if discarded || over then TooLong else decode_line_utf8 (pop_cr (buf ++ chunk)))),
           reader)
      | None =>
          if discarded then read_loop max_bytes buf true rest
          else if (max_bytes <? length buf + length available)%nat
          then read_loop max_bytes buf true rest
          else read_loop max_bytes (buf ++ available) false rest
      end
  end.

Definition read_line_limited (reader : Reader) (max_bytes : nat)
    : outcome IoError (option LimitedLine) * Reader :=
  read_loop max_bytes [] false reader.

(** ** Reading the whole input at once *)
Definition read_line_spec (max_bytes : nat) (bytes : list Z) : option LimitedLine * list Z :=
  match position 10 bytes with
  | Some pos =>
      let line := take pos bytes in
      (Some (if (max_bytes <? length line)%nat then TooLong else decode_line_utf8 (pop_cr line)),
       drop (pos + 1) bytes)
  | None =>
      (match bytes with
       | [] => None
       | _ => Some (if (max_bytes <? length bytes)%nat then TooLong else decode_line_utf8 bytes)
       end, [])
  end.

(** A reader with no I/O error over the given non-empty buffers. *)
Definition chunks (bss : list (list Z)) : Reader := map inl bss.

Lemma consume_chunks n l bss :
  Forall (fun l => l <> []) bss ->
  exists bss', consume n l (chunks bss) = chunks bss' /\ Forall (fun l => l <> []) bss'
    /\ concat bss' = drop n l ++ concat bss.
Proof.
  intros Hne. unfold consume. destruct (drop n l) as [|b l'] eqn:Hd.
  - by exists bss.
  - exists ((b :: l') :: bss). split_and!; [done| |done]. by constructor.
Qed.

Lemma read_loop_spec max bss : forall seen buf (discarded : bool),
  Forall (fun l => l <> []) bss -> position 10 seen = None ->
  (if discarded then (max < length seen)%nat else buf = seen /\ (length seen <= max)%nat) ->
  exists bss', read_loop max buf discarded (chunks bss)
               = (Ok (fst (read_line_spec max (seen ++ concat bss))), chunks bss')
    /\ Forall (fun l => l <> []) bss' /\ concat bss' = snd (read_line_spec max (seen ++ concat bss)).
Proof.
  induction bss as [|l bss IH]; intros seen buf discarded Hne Hseen Hinv;
    cbn [chunks map read_loop concat].
  - exists []. rewrite app_nil_r. unfold read_line_spec. rewrite Hseen. split_and!; [|done|done].
    cbn [fst]. do 2 f_equal. destruct discarded.
    + destruct seen; [cbn in Hinv; lia|]. by rewrite (proj2 (Nat.ltb_lt _ _)).
    + destruct Hinv as [-> Hle]. destruct seen; [done|]. by rewrite (proj2 (Nat.ltb_ge _ _)).
  - inversion Hne as [|? ? Hl Hne']; subst. change (map inl bss) with (chunks bss).
    destruct (position 10 l) as [pos|] eqn:Hpos.
    + pose proof (position_lt _ _ _ Hpos) as Hlt.
      destruct (consume_chunks (pos + 1) l bss Hne') as (bss' & Hcons & Hne'' & Hcat).
      exists bss'. rewrite Hcons. unfold read_line_spec.
      rewrite position_app, Hseen, position_app, Hpos. cbn [fmap option_fmap option_map fst snd].
      rewrite take_app_add, drop_app_ge, take_app_le by lia.
      rewrite length_app. split_and!; [|done|].
      * do 3 f_equal. destruct discarded; cbn [orb].
        -- by rewrite (proj2 (Nat.ltb_lt _ _)) by lia.
        -- by destruct Hinv as [-> _].
      * rewrite Hcat. replace (length seen + pos + 1 - length seen)%nat with (pos + 1)%nat by lia.
        by rewrite drop_app_le by lia.
    + assert (position 10 (seen ++ l) = None) as Hseen' by by rewrite position_app, Hseen, Hpos.
      rewrite app_assoc. pose proof (length_app seen l).
      destruct discarded; [|destruct (Nat.ltb_spec max (length buf + length l))].
      * apply IH; [done|done|lia].
      * apply IH; [done|done|]. destruct Hinv as [-> _]. lia.
      * destruct Hinv as [-> _]. apply IH; [done|done|]. split; [done|lia].
Qed.

(** A completed line is within the bound. *)
Lemma read_line_spec_bounded max bytes line :
  fst (read_line_spec max bytes) = Some (Complete line) -> (length line <= max)%nat.
Proof.
  unfold read_line_spec, decode_line_utf8. destruct (position 10 bytes) as [pos|]; cbn [fst].
  - destruct (Nat.ltb_spec max (length (take pos bytes))); [done|]. destruct (utf8_valid _); [|done].
    intros [= <-]. etransitivity; [apply length_pop_cr|done].
  - destruct bytes as [|a l]; [done|]. destruct (Nat.ltb_spec max (length (a :: l))); [done|].
    destruct (utf8_valid _); [|done]. by intros [= <-].
Qed.

(** ** Properties *)

(** C39: However the input is cut into buffers, reading a line returns what reading the whole
    input at once returns, and leaves the same rest; a completed line never exceeds the bound,
    and only empty input ends the stream. *)
Theorem read_line_chunking max bss :
  Forall (fun l => l <> []) bss ->
  let spec := read_line_spec max (concat bss) in
  exists bss', read_line_limited (chunks bss) max = (Ok (fst spec), chunks bss')
    /\ Forall (fun l => l <> []) bss' /\ concat bss' = snd spec
    /\ (forall line, fst spec = Some (Complete line) -> (length line <= max)%nat)
    /\ (fst spec = None <-> concat bss = []).
Proof.
  intros Hne spec. destruct (read_loop_spec max bss [] [] false Hne eq_refl) as (bss' & Hr & Hne' & Hc).
  { split; [done|cbn; lia]. }
  exists bss'. split_and!; [exact Hr|done|exact Hc|by apply read_line_spec_bounded|].
  subst spec. unfold read_line_spec. destruct (concat bss) as [|b l]; [done|].
  by destruct (position 10 (b :: l)).
Qed.

(** An I/O error ends the read at once, whatever was buffered. *)
Theorem read_line_io_error max buf discarded e rest bss :
  Forall (fun l => position 10 l = None) bss ->
  read_loop max buf discarded (chunks bss ++ inr e :: rest) = (Err e, rest).
Proof.
  intros Hall. revert buf discarded. induction Hall as [|l bss Hl _ IH]; intros buf discarded; [done|].
  cbn [chunks map app read_loop]. rewrite Hl. repeat case_match; apply IH.
Qed.
End line_reader.

(** "abc\r\nde" cut inside the first line. *)
Lemma read_line_chunking_witness :
  exists bss', read_line_limited (IoError := unit) (chunks [[97; 98]; [99; 13; 10; 100]; [101]]) 4
               = (Ok (Some (Complete [97; 98; 99])), chunks bss')
    /\ concat bss' = [100; 101].
Proof.
  destruct (read_line_chunking (IoError := unit) 4 [[97; 98]; [99; 13; 10; 100]; [101]])
    as (bss' & Hr & _ & Hc & _); [by repeat constructor|].
  exists bss'. split; [exact Hr|exact Hc].
Defined.

Lemma read_line_io_error_witness :
  read_loop 4 [] false (chunks [[97; 98]] ++ inr tt :: [inl [99]]) = (Err tt, [inl [99]]).
Proof. apply read_line_io_error. by repeat constructor. Defined.
