(* ===== verification/Oracle.v ===== *)
(** * The stdio oracle

    crates/oracle/src/stdio.rs and handler.rs, with the protocol types of
    crates/domain/src/oracle.rs: newline-delimited requests are read through the
    bounded line reader, dispatched to a handler, and answered by one line each.

    The server is proved against the interface [OracleHandler] (the source's
    trait); [gateway_handler] is the gateway's implementation of it and
    [gateway_handler_laws] discharges the interface's laws.  [serde_json] and the
    code it derives are the interface [OracleJson]. *)

From stdpp Require Import base option list numbers strings gmap.
From Stdlib Require Import ZArith Lia.
From S2P Require Import Prelude StarkLib StarkModel Types Scalar Serialization TxHash Text Domain Primitives.
From S2P Require Import Derivation StarkSigning NostrSigning AccountClass Requests GatewayErrors GatewayClasses Clock SnapshotCache.
From S2P Require Import OperationStore Gateway GatewayAccounts GatewaySigning Runtime LineReader.

#[local] Open Scope string_scope.
#[local] Open Scope list_scope.
#[local] Open Scope Z_scope.

(** ** The protocol *)
Record ProtocolVersion : Type := { pv_major : Z; pv_minor : Z }.
Definition V1_0 : ProtocolVersion := {| pv_major := 1; pv_minor := 0 |}.

#[export] Instance ProtocolVersion_eq_dec : EqDecision ProtocolVersion.
Proof. solve_decision. Defined.

Record RequestId : Type := mk_RequestId { request_id_str : string }.

(** [RequestId::new]. *)
Definition request_id_new (value : string) : outcome DomainError RequestId :=
  if is_blank (string_bytes value) then Err (EmptyField "request_id") else Ok (mk_RequestId value).

Record GetOperationStatusRequest : Type := { gos_operation_id : OperationId }.

Inductive OracleCommand : Type :=
| Cmd_GetProtocolInfo
| Cmd_DeriveAccount (payload : DerivationRequest)
| Cmd_CheckDeployment (payload : DerivationRequest)
| Cmd_DeployAccount (payload : DeployAccountRequest)
| Cmd_Sign (payload : SignRequest)
| Cmd_QueryAccountSnapshot (payload : AccountSnapshotRequest)
| Cmd_GetOperationStatus (payload : GetOperationStatusRequest).

Record OracleRequest : Type := mk_OracleRequest {
  or_version : ProtocolVersion; or_id : RequestId; or_confirm : bool; or_command : OracleCommand }.

Inductive OracleCommandName : Type :=
| Name_GetProtocolInfo | Name_DeriveAccount | Name_CheckDeployment | Name_DeployAccount | Name_Sign
| Name_QueryAccountSnapshot | Name_GetOperationStatus.

Record ProtocolInfo : Type := {
  pi_version : ProtocolVersion; pi_transport : string; pi_commands : list OracleCommandName }.

(** [ProtocolInfo::stdio_v1]. *)
Definition stdio_v1 : ProtocolInfo :=
  {| pi_version := V1_0; pi_transport := "stdio-jsonl";
     pi_commands := [Name_GetProtocolInfo; Name_DeriveAccount; Name_CheckDeployment; Name_DeployAccount;
                     Name_Sign; Name_QueryAccountSnapshot; Name_GetOperationStatus] |}.

Record TrackedCommandResult (T : Type) : Type := mk_tracked { tcr_operation : OperationStatus; tcr_value : T }.
#[global] Arguments mk_tracked {T}.
#[global] Arguments tcr_operation {T}.
#[global] Arguments tcr_value {T}.

Inductive OracleResult : Type :=
| Res_ProtocolInfo (info : ProtocolInfo)
| Res_DeriveAccount (result : TrackedCommandResult AccountDescriptor)
| Res_CheckDeployment (result : TrackedCommandResult CheckDeploymentResult)
| Res_DeployAccount (result : TrackedCommandResult DeployAccountResult)
| Res_Sign (result : TrackedCommandResult SignResult)
| Res_QueryAccountSnapshot (result : TrackedCommandResult AccountSnapshot)
| Res_GetOperationStatus (result : OperationLookupResult).

Inductive OracleOutcome : Type := Outcome_Ok (result : OracleResult) | Outcome_Error (error : GatewayError).

Record OracleResponse : Type := mk_OracleResponse {
  resp_version : ProtocolVersion; resp_id : option RequestId; resp_outcome : OracleOutcome }.

(** [trait OracleHandler]. *)
Class OracleHandler (H : Type) : Type := {
  h_protocol_info : H -> ProtocolInfo;
  h_derive_account : DerivationRequest -> H -> GResult (TrackedCommandResult AccountDescriptor) * H;
  h_check_deployment : DerivationRequest -> H -> GResult (TrackedCommandResult CheckDeploymentResult) * H;
  h_deploy_account : DeployAccountRequest -> H -> GResult (TrackedCommandResult DeployAccountResult) * H;
  h_sign : SignRequest -> H -> GResult (TrackedCommandResult SignResult) * H;
  h_query_account_snapshot : AccountSnapshotRequest -> H -> GResult (TrackedCommandResult AccountSnapshot) * H;
  h_get_operation_status : GetOperationStatusRequest -> H -> GResult OperationLookupResult * H }.

(** [serde_json::from_str::<OracleRequest>] and [serde_json::to_vec].  Compact
    JSON escapes control characters, so a response has no newline in it. *)
Class OracleJson : Type := {
  json_request : list Z -> option OracleRequest;
  json_response : OracleResponse -> list Z;
  json_response_one_line r : 10 ∉ json_response r }.

(** The writer half of the transport. *)
Class AsyncWrite (IoError W : Type) : Type := {
  write_all : list Z -> W -> outcome IoError unit * W;
  flush : W -> outcome IoError unit * W }.

Definition MAX_STDIO_LINE_BYTES : nat := 256 * 1024.
#[global] Opaque MAX_STDIO_LINE_BYTES.

(** ** The confirm gate *)
Definition confirm_gate_enabled (value : list Z) : bool :=
  let normalized := map to_lower (trim value) in
  negb (existsb (fun word => bool_decide (normalized = string_bytes word))
          [""; "0"; "false"; "no"; "off"; "n"; "disabled"]).

(** The variable [KRUSTY_ORACLE_REQUIRE_CONFIRM]: unset, or its bytes. *)
Definition require_confirm_env_enabled (env : option (list Z)) : bool :=
  match env with
  | None => false
  | Some value => if utf8_valid value then confirm_gate_enabled value else true
  end.

Definition require_confirm_if_enabled (env : option (list Z)) (request : OracleRequest) : option GatewayError :=
  if negb (require_confirm_env_enabled env) then None
  else
    let privileged := match or_command request with Cmd_Sign _ | Cmd_DeployAccount _ => true | _ => false end in
    if privileged && negb (or_confirm request)
    then Some (gateway_error_new Code_InvalidRequest false
           (Some "privileged command requires confirm=true when KRUSTY_ORACLE_REQUIRE_CONFIRM is set"))
    else None.

Section server.
Context {H W IoError : Type} `{!OracleHandler H, !OracleJson, !AsyncWrite IoError W}.
Context (env : option (list Z)).

(** ** Requests *)

(** A handler's result as an outcome; a panic of the handler is one of the
    server. *)
Definition as_outcome {A E} (wrap : A -> OracleResult) (r : GResult A * H) : outcome E OracleOutcome * H :=
  (match fst r with
   | Ok result => Ok (Outcome_Ok (wrap result))
   | Err error => Ok (Outcome_Error error)
   | Panic => Panic
   end, snd r).

(** The [match] on the command. *)
Definition run_command {E} (command : OracleCommand) (h : H) : outcome E OracleOutcome * H :=
  match command with
  | Cmd_GetProtocolInfo => (Ok (Outcome_Ok (Res_ProtocolInfo (h_protocol_info h))), h)
  | Cmd_DeriveAccount payload => as_outcome Res_DeriveAccount (h_derive_account payload h)
  | Cmd_CheckDeployment payload => as_outcome Res_CheckDeployment (h_check_deployment payload h)
  | Cmd_DeployAccount payload => as_outcome Res_DeployAccount (h_deploy_account payload h)
  | Cmd_Sign payload => as_outcome Res_Sign (h_sign payload h)
  | Cmd_QueryAccountSnapshot payload => as_outcome Res_QueryAccountSnapshot (h_query_account_snapshot payload h)
  | Cmd_GetOperationStatus payload => as_outcome Res_GetOperationStatus (h_get_operation_status payload h)
  end.

Definition handle_request {E} (request : OracleRequest) (h : H) : outcome E OracleResponse * H :=
  let response_id := Some (or_id request) in
  if decide (or_version request <> V1_0) then
    (Ok (mk_OracleResponse V1_0 response_id (Outcome_Error
       (gateway_error_new Code_UnsupportedProtocolVersion false (Some "unsupported protocol version {}.{}")))), h)
  else match require_confirm_if_enabled env request with
       | Some error => (Ok (mk_OracleResponse V1_0 response_id (Outcome_Error error)), h)
       | None =>
           let '(outcome, h) := run_command (or_command request) h in
           (o ← outcome; Ok (mk_OracleResponse V1_0 response_id o), h)
       end.

(** The response to a line that is not a request. *)
Definition line_error (message : string) : OracleResponse :=
  mk_OracleResponse V1_0 None (Outcome_Error (gateway_error_new Code_InvalidRequest false (Some message))).

Definition too_long_message : string := "request line exceeds maximum length of {MAX_STDIO_LINE_BYTES} bytes".

Definition handle_line {E} (line : list Z) (h : H) : outcome E OracleResponse * H :=
  if (MAX_STDIO_LINE_BYTES <? length line)%nat then (Ok (line_error too_long_message), h)
  else match json_request line with
       | Some request => handle_request request h
       | None => (Ok (line_error "invalid request JSON"), h)
       end.

(** ** The serving loop *)

(** Write one response line and flush. *)
Definition send (response : OracleResponse) (w : W) : outcome IoError unit * W :=
  let encoded := json_response response in
  match write_all encoded w with
  | (Ok _, w) =>
      match write_all [10] w with
      | (Ok _, w) => flush w
      | (r, w) => (r, w)
      end
  | (r, w) => (r, w)
  end.

(** The body of the loop for one read line; [None] is a skipped blank line. *)
Definition answer (line : LimitedLine) (h : H) : outcome IoError (option OracleResponse) * H :=
  match line with
  | TooLong => (Ok (Some (line_error too_long_message)), h)
  | InvalidUtf8 => (Ok (Some (line_error "request line is not valid UTF-8")), h)
  | Complete line =>
      if is_blank line then (Ok None, h)
      else let '(r, h) := handle_line line h in (response ← r; Ok (Some response), h)
  end.

(** [serve]; [fuel] bounds the lines read, and [None] says that it ran out. *)
Fixpoint serve (fuel : nat) (reader : Reader) (w : W) (h : H) : option (outcome IoError unit * W * H) :=
  match fuel with
  | O => None
  | Datatypes.S fuel =>
      match read_line_limited reader MAX_STDIO_LINE_BYTES with
      | (Err e, _) => Some (Err e, w, h)
      | (Panic, _) => Some (Panic, w, h)
      | (Ok None, _) => Some (Ok tt, w, h)
      | (Ok (Some line), reader) =>
          match answer line h with
          | (Ok None, h) => serve fuel reader w h
          | (Ok (Some response), h) =>
              match send response w with
              | (Ok _, w) => serve fuel reader w h
              | (Err e, w) => Some (Err e, w, h)
              | (Panic, w) => Some (Panic, w, h)
              end
          | (Err e, h) => Some (Err e, w, h)
          | (Panic, h) => Some (Panic, w, h)
          end
      end
  end.
End server.

(** ** The transport, on the whole input *)

(** The lines of the input, each with whether a newline ended it. *)
Fixpoint split_lines (line : list Z) (bytes : list Z) : list (list Z * bool) :=
  match bytes with
  | [] => match line with [] => [] | _ => [(line, false)] end
  | b :: bytes => if b =? 10 then (line, true) :: split_lines [] bytes else split_lines (line ++ [b]) bytes
  end.

Definition classify_line (max_bytes : nat) (l : list Z * bool) : LimitedLine :=
  let '(line, ended) := l in
  if (max_bytes <? length line)%nat then TooLong
  else decode_line_utf8 (if ended : bool then pop_cr line else line).

Definition input_lines (max_bytes : nat) (bytes : list Z) : list LimitedLine :=
  map (classify_line max_bytes) (split_lines [] bytes).

(** A line that is skipped rather than answered. *)
Definition skipped (line : LimitedLine) : bool :=
  match line with Complete line => is_blank line | _ => false end.

Definition render `{OracleJson} (responses : list OracleResponse) : list Z :=
  flat_map (fun r => json_response r ++ [10]) responses.

Lemma split_lines_ended pre rest acc :
  position 10 pre = None -> split_lines acc (pre ++ 10 :: rest) = (acc ++ pre, true) :: split_lines [] rest.
Proof.
  revert acc; induction pre as [|b pre IH]; intros acc Hp; cbn [app split_lines].
  - by rewrite app_nil_r.
  - cbn [position] in Hp. destruct (b =? 10); [done|].
    rewrite IH by (by destruct (position 10 pre)). by rewrite <- app_assoc.
Qed.

Lemma split_lines_open pre acc :
  position 10 pre = None ->
  split_lines acc pre = match acc ++ pre with [] => [] | l => [(l, false)] end.
Proof.
  revert acc; induction pre as [|b pre IH]; intros acc Hp; cbn [split_lines].
  - rewrite app_nil_r. by destruct acc.
  - cbn [position] in Hp. destruct (b =? 10); [done|].
    rewrite IH by (by destruct (position 10 pre)). by rewrite <- app_assoc.
Qed.

Lemma position_split c l pos :
  position c l = Some pos -> position c (take pos l) = None /\ l = take pos l ++ c :: drop (pos + 1) l.
Proof.
  revert pos; induction l as [|b l IH]; intros pos; cbn [position]; [done|].
  destruct (Z.eqb_spec b c) as [->|Hb]; [by intros [= <-]|].
  destruct (position c l) as [q|]; [|done]. intros [= <-]. destruct (IH q eq_refl) as [Hn Hl].
  cbn [take app position drop Nat.add]. rewrite (proj2 (Z.eqb_neq _ _) Hb), Hn. split; [done|]. by rewrite <- Hl.
Qed.

(** Reading one line takes the first of the input's lines. *)
Lemma input_lines_step max bytes :
  input_lines max bytes = match read_line_spec max bytes with
                          | (None, _) => []
                          | (Some line, rest) => line :: input_lines max rest
                          end.
Proof.
  unfold input_lines, read_line_spec. destruct (position 10 bytes) as [pos|] eqn:Hp.
  - destruct (position_split _ _ _ Hp) as [Hpre Hb]. rewrite Hb at 1. rewrite split_lines_ended by done. done.
  - rewrite split_lines_open by done. cbn [app]. by destruct bytes.
Qed.

(** ** What a handler promises the server

    An invariant with a budget of operation updates, and the commands it
    accepts: from a state within budget such a command does not panic. *)
Class OracleHandlerLaws (H : Type) `{!OracleHandler H} : Type := {
  h_inv : Z -> H -> Prop;
  h_ready : OracleCommand -> Prop;
  h_inv_le n m h : n <= m -> h_inv m h -> h_inv n h;
  h_step command n h :
    h_ready command -> 0 <= n -> h_inv (n + 3) h ->
    fst (run_command (E := unit) command h) <> Panic /\ h_inv n (snd (run_command (E := unit) command h)) }.

(** A writer that keeps what it is given. *)
#[local] Instance mem_writer {IoError} : AsyncWrite IoError (list Z) :=
  {| write_all bytes w := (Ok tt, w ++ bytes); flush w := (Ok tt, w) |}.

Section serving.
Context {H IoError : Type} `{!OracleHandler H, !OracleJson} (env : option (list Z)).

(** The server's replies to a list of lines. *)
Fixpoint session (lines : list LimitedLine) (h : H) : outcome IoError (list OracleResponse) * H :=
  match lines with
  | [] => (Ok [], h)
  | line :: lines =>
      match answer env line h with
      | (Ok r, h) =>
          let '(rs, h) := session lines h in
          (rs ← rs; Ok (match r with Some r => r :: rs | None => rs end), h)
      | (Err e, h) => (Err e, h)
      | (Panic, h) => (Panic, h)
      end
  end.

(** Serving any buffering of the input is answering its lines in order. *)
Lemma serve_session : forall fuel bss w h responses h',
  Forall (fun l => l <> []) bss ->
  session (input_lines MAX_STDIO_LINE_BYTES (concat bss)) h = (Ok responses, h') ->
  (length (input_lines MAX_STDIO_LINE_BYTES (concat bss)) < fuel)%nat ->
  serve (IoError := IoError) env fuel (chunks bss) w h = Some (Ok tt, w ++ render responses, h').
Proof.
  induction fuel as [|fuel IH]; intros bss w h responses h' Hne Hsess Hfuel; [lia|].
  destruct (read_loop_spec (IoError := IoError) MAX_STDIO_LINE_BYTES bss [] [] false Hne eq_refl)
    as (bss' & Hread & Hne' & Hcat).
  { split; [reflexivity|apply Nat.le_0_l]. }
  cbn [serve]. unfold read_line_limited. rewrite Hread. cbn [app] in *.
  rewrite input_lines_step in Hsess, Hfuel.
  destruct (read_line_spec MAX_STDIO_LINE_BYTES (concat bss)) as [[line|] rest]; cbn [fst snd] in *.
  2:{ cbn [session] in Hsess. injection Hsess as <- <-. unfold render. cbn [flat_map]. by rewrite app_nil_r. }
  cbn [session length] in Hsess, Hfuel. rewrite <- Hcat in Hsess, Hfuel.
  destruct (answer env line h) as [[r|e|] h1]; [| |by injection Hsess]; [|by injection Hsess].
  destruct (session (input_lines MAX_STDIO_LINE_BYTES (concat bss')) h1) as [[rs|e|] h2] eqn:Hrest; try done.
  cbn [mbind outcome_bind] in Hsess. injection Hsess as <- <-.
  destruct r as [r|]; [|by apply (IH _ _ _ _ _ Hne' Hrest); lia].
  cbn [send write_all flush mem_writer]. rewrite (IH _ _ _ _ _ Hne' Hrest) by lia.
  unfold render. cbn [flat_map]. by rewrite !app_assoc.
Qed.

(** The reply to a line: the protocol version, and the id of its request. *)
Definition replies_to (line : LimitedLine) (response : OracleResponse) : Prop :=
  resp_version response = V1_0
  /\ resp_id response = match line with
                        | Complete line => option_map or_id (json_request line)
                        | _ => None
                        end.

Lemma split_render rs : map fst (split_lines [] (render rs)) = map json_response rs
  /\ Forall (fun l => snd l = true) (split_lines [] (render rs)).
Proof.
  induction rs as [|r rs [IH IHe]]; [done|]. unfold render. cbn [flat_map]. rewrite <- app_assoc. cbn [app].
  assert (position 10 (json_response r) = None) as Hp.
  { pose proof (json_response_one_line r) as Hn. induction (json_response r) as [|b l IHl]; [done|].
    rewrite not_elem_of_cons in Hn. destruct Hn as [Hb Hl]. cbn [position].
    rewrite (proj2 (Z.eqb_neq b 10)) by congruence. by rewrite (IHl Hl). }
  rewrite split_lines_ended by done. cbn [map fst app]. fold (render rs). rewrite IH. split; [done|]. by constructor.
Qed.

Context `{!OracleHandlerLaws H}.

(** [run_command] does not depend on the caller's error type, and has no error
    of its own. *)
Lemma run_command_any {E} command (h : H) :
  run_command (E := E) command h
  = (match fst (run_command (E := unit) command h) with
     | Ok o => Ok o | _ => Panic end, snd (run_command (E := unit) command h)).
Proof.
  destruct command; cbn [run_command as_outcome fst snd]; [done|..]; unfold as_outcome; cbn [fst snd].
  all: match goal with |- context [fst ?m] => destruct m as [[r|e|] h'] end; done.
Qed.

Lemma run_command_no_err command (h : H) e : fst (run_command (E := unit) command h) <> Err e.
Proof.
  destruct command; cbn [run_command as_outcome fst snd]; [done|..]; unfold as_outcome; cbn [fst snd].
  all: match goal with |- context [fst ?m] => destruct m as [[r|e'|] h'] end; done.
Qed.

Lemma run_command_Ok {E} command n (h : H) :
  h_ready command -> 0 <= n -> h_inv (n + 3) h ->
  exists o, fst (run_command (E := E) command h) = Ok o /\ h_inv n (snd (run_command (E := E) command h)).
Proof.
  intros Hc Hn Hh. destruct (h_step command n h Hc Hn Hh) as [Hp Hinv]. rewrite run_command_any. cbn [fst snd].
  pose proof (run_command_no_err command h) as He.
  destruct (fst (run_command (E := unit) command h)) as [o|e|]; [eauto|by destruct (He e)|done].
Qed.

Lemma handle_request_Ok {E} request n (h : H) :
  h_ready (or_command request) -> 0 <= n -> h_inv (n + 3) h ->
  exists response, fst (handle_request (E := E) env request h) = Ok response
    /\ h_inv n (snd (handle_request (E := E) env request h))
    /\ resp_version response = V1_0 /\ resp_id response = Some (or_id request).
Proof.
  intros Hc Hn Hh. unfold handle_request. assert (h_inv n h) as Hle by (eapply h_inv_le, Hh; lia).
  destruct (decide _); [by eexists|]. destruct (require_confirm_if_enabled env request) as [e|]; [by eexists|].
  destruct (run_command_Ok (E := E) (or_command request) n h Hc Hn Hh) as (o & Ho & Hinv).
  destruct (run_command (or_command request) h) as [r h']. cbn [fst snd] in *. rewrite Ho. by eexists.
Qed.

(** A line the reader can hand over. *)
Definition within_bound (line : LimitedLine) : Prop :=
  match line with Complete line => (length line <= MAX_STDIO_LINE_BYTES)%nat | _ => True end.

(** Every line is answered or skipped, never a panic. *)
Lemma answer_Ok line n (h : H) :
  (forall l request, json_request l = Some request -> h_ready (or_command request)) ->
  within_bound line -> 0 <= n -> h_inv (n + 3) h ->
  exists r h', answer (IoError := IoError) env line h = (Ok r, h') /\ h_inv n h'
    /\ match r with None => skipped line = true | Some r => skipped line = false /\ replies_to line r end.
Proof.
  intros Hready Hb Hn Hh. assert (h_inv n h) as Hle by (eapply h_inv_le, Hh; lia).
  unfold answer, replies_to. destruct line as [line| |]; [|by eexists _, _..].
  cbn [skipped]. destruct (is_blank line); [by eexists _, _|]. unfold handle_line. cbn [within_bound] in Hb.
  rewrite (proj2 (Nat.ltb_ge _ _) Hb). destruct (json_request line) as [request|] eqn:Hreq; [|by eexists _, _].
  destruct (handle_request_Ok (E := IoError) request n h (Hready _ _ Hreq) Hn Hh) as (resp & Hr & Hinv & Hver & Hid).
  destruct (handle_request env request h) as [r h']. cbn [fst snd] in *. rewrite Hr.
  eexists _, h'. split; [done|]. by split.
Qed.

Lemma session_Ok lines n (h : H) :
  (forall l request, json_request l = Some request -> h_ready (or_command request)) ->
  Forall within_bound lines -> 0 <= n -> h_inv (n + 3 * Z.of_nat (length lines)) h ->
  exists responses h', session lines h = (Ok responses, h') /\ h_inv n h'
    /\ Forall2 replies_to (List.filter (fun l => negb (skipped l)) lines) responses.
Proof.
  intros Hready Hb Hn. revert h. induction Hb as [|line lines Hl Hb IH]; intros h Hh.
  { exists [], h. split; [done|]. split; [|constructor]. eapply h_inv_le, Hh. lia. }
  cbn [length] in Hh. destruct (answer_Ok line (n + 3 * Z.of_nat (length lines)) h Hready Hl) as (r & h1 & Ha & Hinv & Hr);
    [lia|eapply h_inv_le, Hh; lia|].
  destruct (IH h1 Hinv) as (rs & h2 & Hs & Hinv2 & Hall). cbn [session List.filter]. rewrite Ha, Hs.
  cbn [mbind outcome_bind]. destruct r as [r|].
  - destruct Hr as [-> Hr]. exists (r :: rs), h2. cbn [negb]. split; [done|]. split; [done|]. by constructor.
  - rewrite Hr. by exists rs, h2.
Qed.

Lemma input_lines_bounded bytes : Forall within_bound (input_lines MAX_STDIO_LINE_BYTES bytes).
Proof.
  apply Forall_map, Forall_true. intros [line ended]. cbn [classify_line].
  destruct (Nat.ltb_spec MAX_STDIO_LINE_BYTES (length line)); [done|]. unfold decode_line_utf8.
  destruct (utf8_valid _); [|done]. cbn [within_bound]. destruct ended; [|done].
  etransitivity; [apply length_pop_cr|done].
Qed.
End serving.

(** ** Properties of the server *)

(** Over any handler that keeps its promises, serving ends at the end of the
    input however it is buffered, without a panic, and the output is one line
    for each line that is not blank, in order, under its request's id. *)
Theorem serve_correct {H IoError} `{!OracleHandler H, !OracleJson, !OracleHandlerLaws H} env fuel bss w (h : H) n :
  let lines := input_lines MAX_STDIO_LINE_BYTES (concat bss) in
  Forall (fun l => l <> []) bss ->
  (forall l request, json_request l = Some request -> h_ready (or_command request)) ->
  0 <= n -> h_inv (n + 3 * Z.of_nat (length lines)) h -> (length lines < fuel)%nat ->
  exists responses h',
    serve (IoError := IoError) env fuel (chunks bss) w h = Some (Ok tt, w ++ render responses, h')
    /\ h_inv n h'
    /\ Forall2 replies_to (List.filter (fun l => negb (skipped l)) lines) responses
    /\ map fst (split_lines [] (render responses)) = map json_response responses.
Proof.
  intros lines Hne Hready Hn Hh Hfuel.
  destruct (session_Ok (IoError := IoError) env lines n h Hready (input_lines_bounded _) Hn Hh)
    as (responses & h' & Hs & Hinv & Hall).
  exists responses, h'. split; [by apply serve_session|]. split; [done|]. split; [done|]. apply split_render.
Qed.

(** The documented ways to leave the gate off. *)
Definition opt_out_words : list string := [""; "0"; "false"; "no"; "off"; "n"; "disabled"].

Definition opted_out (value : list Z) : Prop :=
  utf8_valid value = true /\ exists word, word ∈ opt_out_words /\ map to_lower (trim value) = string_bytes word.

Lemma require_confirm_env_off value : require_confirm_env_enabled (Some value) = false <-> opted_out value.
Proof.
  unfold require_confirm_env_enabled, opted_out, confirm_gate_enabled. destruct (utf8_valid value); [|by split; [|intros []]].
  rewrite negb_false_iff, existsb_exists. fold opt_out_words. split.
  - intros (word & Hin & Hw%bool_decide_eq_true_1). split; [done|]. exists word. by rewrite list_elem_of_In.
  - intros (_ & word & Hin & Hw). exists word. rewrite <- list_elem_of_In. split; [done|]. by apply bool_decide_eq_true_2.
Qed.

(** C32: With KRUSTY_ORACLE_REQUIRE_CONFIRM set to anything but the documented opt-outs, also
    to bytes that are not UTF-8, an unconfirmed sign or deploy request is answered with an
    error under its id and leaves the handler untouched. *)
Theorem confirm_gate_safe {H E} `{!OracleHandler H} value request (h : H) :
  ~ opted_out value ->
  (match or_command request with Cmd_Sign _ | Cmd_DeployAccount _ => True | _ => False end) ->
  or_confirm request = false ->
  exists e, handle_request (E := E) (Some value) request h
            = (Ok (mk_OracleResponse V1_0 (Some (or_id request)) (Outcome_Error e)), h)
    /\ err_retryable e = false.
Proof.
  intros Hout Hcmd Hconf. rewrite <- require_confirm_env_off, not_false_iff_true in Hout.
  unfold handle_request, require_confirm_if_enabled. rewrite Hout, Hconf. cbn [negb].
  destruct (decide _); [by eexists|]. destruct (or_command request); done || by eexists.
Qed.

(** ** The gateway as a handler *)
Section gateway_handler.
Context `{StarkLib.StarkTypes, !StarkCrypto, !FeltExtras, !FeltFromHex, !HexCodec, !Schnorr}.
Context {B S C R : Type} `{!GatewayBackend B, !DeployBackend B, !SecretResolver S, !Clock C, !Entropy R}.

Abbreviation Gateway := (@Gateway B S C R).

Definition tracked_result {T} (value : GatewayResponse T) : TrackedCommandResult T :=
  mk_tracked (resp_operation value) (resp_value value).

(** [.map(tracked_result)]. *)
Definition map_tracked {T} (r : GatewayResult (GatewayResponse T) * Gateway)
    : GResult (TrackedCommandResult T) * Gateway :=
  (v ← fst r; Ok (tracked_result v), snd r).

(** [impl OracleHandler for Gateway]; [fuel] is the signing loop's. *)
Definition gateway_handler (fuel : nat) : OracleHandler Gateway :=
  {| h_protocol_info _ := stdio_v1;
     h_derive_account request g := map_tracked (derive_account request g);
     h_check_deployment request g := map_tracked (check_deployment request g);
     h_deploy_account request g := map_tracked (deploy_account request g);
     h_sign request g := map_tracked (sign fuel request g);
     h_query_account_snapshot request g := map_tracked (query_account_snapshot request g);
     h_get_operation_status request g := operation_status (gos_operation_id request) g |}.

(** Commands over validated values. *)
Definition command_ok (command : OracleCommand) : Prop :=
  match command with
  | Cmd_DeriveAccount request | Cmd_CheckDeployment request => derivation_request_ok request
  | Cmd_DeployAccount request => derivation_request_ok (da_derivation request)
  | Cmd_Sign request => sign_request_ok request
  | _ => True
  end.

(** Every valid key has, for every hash, an accepted nonce among the first [fuel]. *)
Definition signs_within (fuel : nat) : Prop :=
  forall key hash, 1 <= felt_val key < CurveOrder -> exists n, (n < fuel)%nat /\ pass key hash n <> inl InvalidK.

Context `{!StarkLaws, !StarkCryptoLaws, !FeltExtrasLaws, !ClockLaws C}.
Context (retention : OperationRetentionPolicy) (fuel : nat) (Hfuel : signs_within fuel).

Lemma map_tracked_outcome {T} (wrap : TrackedCommandResult T -> OracleResult)
    (r : GatewayResult (GatewayResponse T) * Gateway) (P : Gateway -> Prop) :
  fst r <> Panic -> P (snd r) ->
  fst (as_outcome (E := unit) wrap (map_tracked r)) <> Panic /\ P (snd (as_outcome (E := unit) wrap (map_tracked r))).
Proof. destruct r as [[v|e|] g]; cbn; by auto. Qed.

Lemma tracked_no_panic {A} kind good bad g (r : GatewayResult (GatewayResponse A)) (g' : Gateway) :
  tracked_post kind good bad g r g' -> r <> Panic.
Proof. unfold tracked_post. destruct (fst _) as [bs|]; [by intros Hp ->|by intros [-> _]]. Qed.

Lemma gateway_step command n (g : Gateway) :
  command_ok command -> 0 <= n -> gateway_ok retention g /\ room (n + 3) g ->
  fst (run_command (OracleHandler0 := gateway_handler fuel) (E := unit) command g) <> Panic
  /\ (gateway_ok retention (snd (run_command (OracleHandler0 := gateway_handler fuel) (E := unit) command g))
      /\ room n (snd (run_command (OracleHandler0 := gateway_handler fuel) (E := unit) command g))).
Proof.
  intros Hc Hn [Hg Hr]. destruct command as [|request|request|request|request|request|[id]];
    cbn [run_command command_ok h_derive_account h_check_deployment h_deploy_account h_sign h_query_account_snapshot
         h_get_operation_status gateway_handler] in *.
  - split; [done|]. split; [done|]. cbn [snd]. eapply room_le, Hr; lia.
  - destruct (derive_account_spec retention request n g Hc Hg Hr Hn) as (Hg' & Hr' & Hp%tracked_no_panic).
    by apply (map_tracked_outcome _ _ (fun g => gateway_ok retention g /\ room n g)).
  - destruct (check_deployment_spec retention request n g Hc Hg Hr Hn) as (Hg' & Hr' & Hp%tracked_no_panic).
    by apply (map_tracked_outcome _ _ (fun g => gateway_ok retention g /\ room n g)).
  - destruct (deploy_account_spec retention request n g Hc Hg Hr Hn) as (Hg' & Hr' & Hp%tracked_no_panic).
    by apply (map_tracked_outcome _ _ (fun g => gateway_ok retention g /\ room n g)).
  - assert (signing_ends fuel request g) as He by (intros key hash _ _; apply Hfuel).
    destruct (sign_spec retention fuel request n g Hc He Hg Hr Hn) as (Hg' & Hr' & Hp%tracked_no_panic).
    by apply (map_tracked_outcome _ _ (fun g => gateway_ok retention g /\ room n g)).
  - destruct (query_account_snapshot_spec retention request n g Hg Hr Hn) as (Hr' & Hg' & Hp).
    apply (map_tracked_outcome _ _ (fun g => gateway_ok retention g /\ room n g)); [|done].
    intros Heq. rewrite Heq in Hp. destruct (fst (try_random_bytes _)); [done|by destruct Hp].
  - destruct (operation_status_spec retention id n g Hg) as (Hg' & Hr' & _ & now & _ & Hst);
      [eapply room_le, Hr; lia|].
    cbn [gos_operation_id]. unfold as_outcome. cbn [fst snd]. by rewrite Hst.
Qed.

Definition gateway_handler_laws : @OracleHandlerLaws Gateway (gateway_handler fuel).
Proof.
  refine (@Build_OracleHandlerLaws Gateway (gateway_handler fuel)
    (fun n g => gateway_ok retention g /\ room n g) command_ok _ gateway_step).
  intros n m g Hle [Hg Hr]. split; [done|]. by eapply room_le.
Defined.
End gateway_handler.

(** C12: Over a gateway in any reachable state, with a signature library that accepts one of
    the first sign_fuel nonces for every valid key and a writer that does not fail, the stdio
    oracle serves any input, however buffered, to its end without panicking, and writes one
    response line for each line that is not blank, in order, under the id of its request. *)
Theorem oracle_serves_gateway `{StarkLib.StarkTypes, !StarkCrypto, !FeltExtras, !FeltFromHex, !HexCodec, !Schnorr}
    {B S C R IoError : Type}
    `{!GatewayBackend B, !DeployBackend B, !SecretResolver S, !Clock C, !Entropy R, !OracleJson}
    `{!StarkLaws, !StarkCryptoLaws, !FeltExtrasLaws, !ClockLaws C}
    retention sign_fuel env fuel bss w n (g : @Gateway B S C R) :
  let lines := input_lines MAX_STDIO_LINE_BYTES (concat bss) in
  retention_ok retention -> signs_within sign_fuel -> gw_reachable retention n g ->
  Forall (fun l => l <> []) bss ->
  (forall l request, json_request l = Some request -> command_ok (or_command request)) ->
  n + 3 * Z.of_nat (length lines) + 1 < u64_MAX -> (length lines < fuel)%nat ->
  exists responses g',
    serve (OracleHandler0 := gateway_handler sign_fuel) (IoError := IoError) env fuel (chunks bss) w g
    = Some (Ok tt, w ++ render responses, g')
    /\ gateway_ok retention g'
    /\ Forall2 replies_to (List.filter (fun l => negb (skipped l)) lines) responses
    /\ map fst (split_lines [] (render responses)) = map json_response responses.
Proof.
  intros lines Hret Hsign Hreach Hne Hjson Hn Hfuel. subst lines.
  destruct (gw_reachable_ok retention n g Hret Hreach) as [Hn0 Hok].
  destruct (serve_correct (OracleHandler0 := gateway_handler sign_fuel) (IoError := IoError)
    (OracleHandlerLaws0 := gateway_handler_laws retention sign_fuel Hsign) env fuel bss w g 0 Hne Hjson)
    as (responses & g' & Hs & [Hg' _] & Hrest); [lia|cbn [h_inv gateway_handler_laws]; apply Hok; lia|done|].
  by exists responses, g'.
Qed.

(** ** Witnesses *)
#[local] Existing Instance demo_hex.
#[local] Existing Instance demo_backend.
#[local] Existing Instance demo_entropy.
#[local] Existing Instance demo_clock.
#[local] Existing Instance demo_clock_laws.
#[local] Existing Instance model_extras.
#[local] Existing Instance model_extras_laws.
#[local] Existing Instance model_felt_from_hex.
#[local] Existing Instance model_stark_crypto.
#[local] Existing Instance model_stark_crypto_laws.
#[local] Existing Instance model_schnorr.
#[local] Existing Instance demo_deploy.
#[local] Existing Instance demo_resolver.

(** A codec that reads "p" as a request for the protocol's description and "s"
    as an unconfirmed signing request, and prints "{}". *)
Definition demo_request (confirm : bool) (command : OracleCommand) : OracleRequest :=
  mk_OracleRequest V1_0 (mk_RequestId "req-1") confirm command.

Definition demo_json_request (l : list Z) : option OracleRequest :=
  if decide (l = string_bytes "p") then Some (demo_request false Cmd_GetProtocolInfo)
  else if decide (l = string_bytes "s") then Some (demo_request false (Cmd_Sign (demo_sign true)))
  else None.

Lemma demo_json_one_line (r : OracleResponse) : 10 ∉ string_bytes "{}".
Proof. apply (bool_decide_unpack _). vm_compute. exact I. Qed.

#[local] Instance demo_json : OracleJson :=
  {| json_request := demo_json_request; json_response _ := string_bytes "{}";
     json_response_one_line := demo_json_one_line |}.

Lemma demo_json_ok l request :
  json_request l = Some request -> @command_ok model_types (or_command request).
Proof.
  cbn [json_request demo_json]. unfold demo_json_request.
  destruct (decide _); [by intros [= <-]|]. destruct (decide _); [|done]. intros Heq.
  apply (inj Some) in Heq as <-. apply demo_sign_ok.
Qed.

Lemma demo_signs_within : @signs_within model_types model_stark_crypto 2.
Proof.
  intros key hash _. exists 1%nat. split; [lia|]. unfold pass. cbn [ecdsa_sign rfc6979_generate_k model_stark_crypto].
  rewrite decide_False; [discriminate|]. apply (bool_decide_unpack _). vm_compute. exact I.
Qed.

Lemma serve_correct_witness :
  exists responses g', serve (OracleHandler0 := gateway_handler 2) (IoError := unit) None 10
      (chunks [string_bytes "p"; [10; 32; 10]; string_bytes "x"]) [] demo_gateway
    = Some (Ok tt, render responses, g') /\ length responses = 2%nat.
Proof.
  destruct (serve_correct (OracleHandler0 := gateway_handler 2) (IoError := unit)
    (OracleHandlerLaws0 := gateway_handler_laws demo_retention 2 demo_signs_within) None 10
    [string_bytes "p"; [10; 32; 10]; string_bytes "x"] [] demo_gateway 0) as (responses & g' & Hs & _ & Hall & _).
  - by repeat constructor.
  - exact demo_json_ok.
  - lia.
  - apply (gw_reachable_ok demo_retention 0 demo_gateway demo_retention_ok demo_reachable); vm_compute; done.
  - apply Nat.ltb_lt. vm_compute. reflexivity.
  - exists responses, g'. split; [exact Hs|]. apply Forall2_length in Hall. rewrite <- Hall. vm_compute. reflexivity.
Defined.

(** A description, a blank line and garbage: two responses. *)
Lemma oracle_serves_gateway_witness :
  exists responses g', serve (OracleHandler0 := gateway_handler 2) (IoError := unit) None 10
      (chunks [string_bytes "p"; [10; 32; 10]; string_bytes "x"]) [] demo_gateway
    = Some (Ok tt, render responses, g') /\ length responses = 2%nat.
Proof.
  destruct (oracle_serves_gateway (IoError := unit) demo_retention 2 None 10
    [string_bytes "p"; [10; 32; 10]; string_bytes "x"] [] 0 demo_gateway) as (responses & g' & Hs & _ & Hall & _).
  - exact demo_retention_ok.
  - exact demo_signs_within.
  - exact demo_reachable.
  - by repeat constructor.
  - exact demo_json_ok.
  - vm_compute. reflexivity.
  - apply Nat.ltb_lt. vm_compute. reflexivity.
  - exists responses, g'. split; [exact Hs|]. apply Forall2_length in Hall. rewrite <- Hall. vm_compute. reflexivity.
Defined.

(** An unknown spelling turns the gate on: the signing request is refused and
    the gateway is untouched. *)
Lemma confirm_gate_safe_witness :
  exists e, handle_request (OracleHandler0 := gateway_handler 2) (E := unit) (Some (string_bytes " Yes "))
              (demo_request false (Cmd_Sign (demo_sign true))) demo_gateway
            = (Ok (mk_OracleResponse V1_0 (Some (mk_RequestId "req-1")) (Outcome_Error e)), demo_gateway)
    /\ err_retryable e = false.
Proof.
  apply (confirm_gate_safe (OracleHandler0 := gateway_handler 2) (string_bytes " Yes ")
    (demo_request false (Cmd_Sign (demo_sign true))) demo_gateway).
  - intros Hout. apply require_confirm_env_off in Hout. vm_compute in Hout. discriminate Hout.
  - exact I.
  - reflexivity.
Defined.
